(* ===== verification/_CoqProject ===== *)
-Q . S2P
Prelude.v
World.v
Objects.v
Ledger.v
Wp.v
Refs.v
Release.v
Rules.v
HRules.v
Netstruct.v
ReqStream.v
Buffer.v
HandleMisc.v
Handle.v
Trace.v
Calls.v
Io.v
ReadCmd.v
Threads.v
ThreadsSafe.v
ReadCb.v
FileRead.v
Commands.v
Client.v
Stream.v
Process.v
ReqFs.v
FsLedger.v
ReqMisc.v
Requests.v
Vars.v
Loop.v
Concurrent.v
Endian.v
Construct.v
Members.v
Storage.v
Ops.v
Callbacks.v
WriteQueue.v
Throws.v
Flow.v
Pool.v
Events.v
OpsLedger.v
Cpio.v
System.v
Enabled.v
Program.v
Samples.v
Faults.v
