(* ===== verification/Prelude.v ===== *)
(** * uvcc: a verification development

    uvcc (src/src/include/uvcc) is a header library of C++ classes over libuv. A class object
    of the program is a variable that refers to a counted _instance_ on the heap, which holds
    the libuv structure, the properties of the class and the callbacks of the client:
    - handles (handle-*.hpp): streams, datagram endpoints, files, timers, signals, processes ...
    - requests (request-*.hpp): connect, write, name resolution, file system operations ...
    - buffers (buffer.hpp), which lend their chunks to libuv;
    - loops (loop.hpp), which every handle books as long as it exists.
    Operations call libuv, libuv calls static functions of the classes, and those call the
    client. What makes the library correct is its reference counting: a pending request keeps
    itself, its handle and its buffer alive, a started handle keeps itself alive, a handle
    keeps its loop, a process keeps the endpoints its child inherits; the last [unref()] runs
    the client's destroy callback, closes what has to be closed, and deletes the instance.
    Most of this development is about that protocol, for every class, on every branch.

    ** The model

    - World: the data (instances, the fields of libuv structures that are read, pending
      callbacks, the trace of events) as one record [world]; the environment [Env] (the answers
      of libuv, the effect of the client's functions) as parameters; the monad [M], whose
      outcomes are a result, an exception, undefined behaviour, [std::terminate] and "hangs".
      An access to a deleted instance, a null pointer or a wrong class of properties is
      undefined behaviour of the model too. Guards ([ref_guard], [std::lock_guard]) are
      [finally].
    - Objects: creation, [ref()], [unref()] and destruction of the four families
      (handle-base.hpp, request-base.hpp, buffer.hpp, loop.hpp).
    - Vars: constructors, assignments, swap and destructors of class objects, written once
      over the interface [Counted] and instantiated for the four classes.
    - Buffer, Netstruct, Endian, Storage: the layout of a buffer in its allocation
      (buffer.hpp), socket addresses (netstruct.hpp), byte order (endian.hpp), storages of
      values of any type (utility.hpp).
    - Handle, HandleMisc, Io, Stream, Process, Loop: the members of the handle classes and of
      [loop] (handle-base.hpp, handle-misc.hpp, handle-io.hpp, handle-fs.hpp,
      handle-stream.hpp, handle-udp.hpp, loop.hpp). Construct gathers the constructors.
    - ReqStream, ReqFs, ReqMisc: the request classes (request-*.hpp).
    - Concurrent: [ref_count] and [spinlock] of utility.hpp as step relations over the atomic
      accesses of any number of threads. Threads: the four reading commands of handle-io.hpp cut
      into their accesses, which any number of threads that share an endpoint make in any order
      ([tstep]); a thread also copies, drops and hands over its variables.
    - Members: the members that only read or set a field, class by class; the mutex
      (threading.hpp) and the functions of debug.hpp.
    - Ops: the operations above that change ownership, the members that return objects, and the
      events of libuv, as data ([op]) with the condition under which one may be applied
      ([enabled]); Enabled decides it.
      System: the step relation of these operations, in any order.
    - Program: client programs as scripts of operations, their callbacks included, over a libuv
      that reports events and completes requests in an order of its own ([machine]).
    - Clients of the repository: Flow has the callbacks of example/cpio-uvcc.cpp and of
      example/tee2.cpp over the table of the reading commands, with libuv as a step relation
      that reads and completes writes; Cpio has the callbacks of the first over the operations
      of the library; Pool has the class [buffer_pool] of the second.

    Names are those of the code. A request that libuv accepts (an answer that is not negative)
    is recorded with the references the code leaves behind ([uv_submit]); libuv later makes the
    callback once. Addresses are integers, sizes are those of x86-64, [std::size_t] and
    unsigned arithmetic wraps around where the code computes with it, and a status is an [int].

    ** The theorems

    - Ledger states the invariant [Inv F X w]: every counter is the number of owners (variables,
      instances, pending callbacks, the running code [F], the objects in destruction [X]).
      Wp, Refs, Release, Rules, HRules, Trace are the rules of the logic: [wp m Q w] says that
      [m] returns from [w] with [Q]: no exception, no undefined behaviour, no endless loop.
    - Each operation is shown to keep the ledger and to take exactly the references it should:
      Commands (start and stop of event handles), ReadCmd, ReadCb, FileRead (reading), ReqStream,
      FsLedger, ReqMisc (requests and their callbacks), Stream (accept), Process, Loop,
      Construct, Vars.
    - ReadCmd also refines the table of commands that handle-io.hpp documents: calls of libuv,
      answers and states.
    - Requests: the tables of the calls that the [run] members make. Each makes one request to
      libuv, with the arguments of the table; its answer, the status of the request and every
      counter are as the table says, on success and on refusal. Calls has the rules: [seen]
      follows the trace, the request, all counters and what is seen of the other objects, so
      that the theorems also say what does not change.
    - Callbacks and Events: what libuv reports is one call of the client's function, with the
      arguments and in the state that the tables [told] and [notice_of] say, and the release of
      the references that end with it. In any state of the ledger this is how every pending
      request ends ([pending_told]). WriteQueue puts both halves of a write to a file together:
      its bytes enter the write queue of the file with [run()] and have left it when the client
      is told. Throws: an exception of that function passes through the guards, which give
      their references back.
    - ThreadsSafe: whatever the schedule, no access of a command fails and the ledger holds
      whenever no command is under way; the commands have the effect of a sequence of whole
      commands in an order of the threads; and a command that has begun can be brought to its end.
    - OpsLedger: each operation keeps the ledger whoever applies it, whatever references the
      running code has: the client applies them from its callbacks too.
    - System: from the empty state, whatever the client does and libuv reports, the next
      operation returns and keeps the ledger; objects exist exactly as long as they are owned;
      nothing leaks.
    - Program: the conditions put on clients ([EnvOk], [AllocOk]) are met by every client that
      is written with the operations; such a program returns, and leaves nothing behind when
      nothing is left running.
    - Buffer (bounds and alignment of the chunks, the way back from a chunk), Netstruct,
      Endian, Storage, Concurrent (the counter, destruction by one thread, mutual exclusion).
    - Flow: a reading that is paused is resumed by a write that is pending, and how much may be
      queued; for tee2 this holds until a write to a file fails ([reading_stalls] is a run after
      which nobody reads on). Cpio: the callbacks as they are written do to the endpoints, the
      pending writes and the ledger what those of Flow do. Pool: a buffer that nobody refers to
      goes back to the pool and comes out with its full length and one owner; the destructor
      deletes the spare ones.
    - Client is an environment that meets all the conditions, with an executable check of the
      ledger; Samples applies every theorem with hypotheses to a concrete state; Faults holds
      runs in which the code goes wrong.

    Hypotheses on code that is not here are classes: [EnvOk] (client functions go through the
    class objects; libuv initialises handles on their loop and can close a loop when nothing is
    left to do), [AllocOk] (the contract of [on_alloc()]), [WalkOk] (uv_walk reports handles
    that have not been closed), and [no_writes] of Requests (uv_fs_req_cleanup and lseek64 do not
    write to what the library reads of libuv's structures). Program derives the first two from
    [LibuvOk], which is about libuv alone but for the runs of a loop in destruction, where the
    client must not start new work for ever.

    ** Fuel

    The destructor of a loop runs the loop until nothing is left to do ([premortal_run]), with
    the fuel [run_fuel] of the environment. [EnvOk] bounds the rounds libuv needs by a measure
    below [run_fuel] that each round decreases; with that the loop ends before the fuel does
    ([Loop.loop_destructor_ends]). Waiting for a lock that the same thread holds is the outcome
    [Hang]. In Program a script has a greatest number of actions, a run of a loop a greatest
    number of events ([lv_len]), and calls into the client nest at most as deep as the
    parameter of [machine] says; the theorems hold for all of these bounds, so a program that
    ends within some bounds is covered by them.

    ** Not modelled

    The macros of debug.hpp (printing); [loop_watcher] (disabled with [#if 0]); the moved-from
    state of stored values; members that return parts of libuv structures the model does not
    have ([statbuf], [ptr], [new_path], [host], [service], [send_queue_count]); tests, and
    of the examples all but the callbacks of cpio-uvcc.cpp and tee2.cpp and the pool of the latter
    ([main()] and the printing of errors are left out; a run of the core of tee2.cpp through the
    whole library is in Samples). Flow takes it from the documentation of libuv that a queue is not
    larger than what is pending. libuv, its headers
    and the kernel are the environment; that libuv keeps a handle it has been asked to close until
    its loop runs, while the library deletes it at once, is a finding and not part of the model.
    Floating point times are named by integers. The counter of type [long] does not overflow in
    the model. Client functions return: exceptions they throw through the library are outside
    [EnvOk]; Throws follows them through the callbacks of the requests while others own the
    objects, but not through a destruction on the way. Threads covers streams and datagram endpoints; of [read_start] it has the overload
    without callbacks, the other one sets them before it takes the lock.
    System and Program leave out what the findings show to break the ledger: the event of a
    timer without a repeat interval ([timer_cb] releases a reference it does not give up), the
    coalescing of [async::send], reading of files ([read_stop] does not await the pending
    read), [inherit_stdio] with an empty handle, and [loop::walk] (which may report a handle that
    is being closed); a chunk is delivered only to a handle that
    outlives the client's function ([io_read_cb] uses the handle after it). Faults and Process
    show them at work. Events of a handle are reported one at a time. *)

From Stdlib Require Import ZArith Lia.
From stdpp Require Import base gmap list fin_maps option strings relations.

(** ** Automation *)

(** Membership in a list built with [::] and [++]. *)
Ltac list_in := rewrite ?elem_of_app, ?elem_of_cons; tauto.

(** What is alive, and what the equivalences of states preserve. *)
Create HintDb ledger.
#[export] Hint Resolve list_elem_of_here list_elem_of_further : ledger.

(** ** Steps *)

Lemma rtc_invariant {A} {R : A → A → Prop} (P : A → Prop) x y :
  (∀ v v', P v → R v v' → P v') → P x → rtc R x y → P y.
Proof. intros HP Hx Hs. induction Hs; eauto. Qed.

(** ** Sums over finite maps

    The reference ledger of the development counts the owners of an object by
    summing a contribution over the instances of a heap, so the lemmas below
    describe how such a sum changes when one cell changes. *)

Section msum.
Context {K : Type} `{Countable K} {V : Type}.
Implicit Types (f g : K → V → nat) (m : gmap K V).

Definition msum f m : nat := map_fold (λ k x acc, f k x + acc) 0 m.

Lemma msum_empty f : msum f ∅ = 0.
Proof. apply map_fold_empty. Qed.

Lemma msum_insert_fresh f m k x :
  m !! k = None → msum f (<[k:=x]> m) = f k x + msum f m.
Proof.
  intros Hk. unfold msum.
  rewrite (map_fold_insert_L (λ k x acc, f k x + acc)); [done| |done].
  intros; lia.
Qed.

Lemma msum_delete f m k x :
  m !! k = Some x → msum f m = f k x + msum f (delete k m).
Proof.
  intros Hk. rewrite <-(insert_delete_id m k x) at 1 by done.
  apply msum_insert_fresh, lookup_delete_eq.
Qed.

Lemma msum_update f m k x y :
  m !! k = Some x → f k x + msum f (<[k:=y]> m) = f k y + msum f m.
Proof.
  intros Hk.
  rewrite (msum_delete f m k x), (msum_delete f (<[k:=y]> m) k y) by
    (done || apply lookup_insert_eq).
  rewrite delete_insert_eq. lia.
Qed.

(** A positive sum has a positive term. *)
Lemma msum_pos f m : 0 < msum f m → ∃ k x, m !! k = Some x ∧ 0 < f k x.
Proof.
  induction m as [|k x m Hk IH] using map_ind; [rewrite msum_empty; lia|].
  rewrite msum_insert_fresh by done. intros Hs. destruct (decide (0 < f k x)) as [Hx|Hx].
  - exists k, x. by rewrite lookup_insert_eq.
  - destruct IH as (k' & x' & Hk' & Hf); [lia|]. exists k', x'.
    rewrite lookup_insert_ne; [done|]. intros ->. congruence.
Qed.
Lemma msum_lookup_le f m k x : m !! k = Some x → f k x ≤ msum f m.
Proof. intros Hk. rewrite (msum_delete f m k x) by done. lia. Qed.
End msum.

Lemma msum_rel `{Countable K} {V1 V2 : Type} (f : K → V1 → nat) (g : K → V2 → nat)
    (m1 : gmap K V1) (m2 : gmap K V2) :
  (∀ k, option_Forall2 (λ x y, f k x = g k y) (m1 !! k) (m2 !! k)) →
  msum f m1 = msum g m2.
Proof.
  revert m2. induction m1 as [|k x m1 Hk IH] using map_ind; intros m2 Hrel.
  - assert (m2 = ∅) as ->.
    { apply map_eq. intros k. specialize (Hrel k). rewrite lookup_empty in *.
      by inversion Hrel. }
    by rewrite !msum_empty.
  - pose proof (Hrel k) as Hx. rewrite lookup_insert_eq in Hx.
    inversion Hx as [? y Hfg E1 E2|]; simplify_eq.
    rewrite msum_insert_fresh, (msum_delete g m2 k y) by done.
    rewrite Hfg. f_equal. apply IH. intros k'.
    destruct (decide (k = k')) as [<-|Hne].
    + rewrite Hk, lookup_delete_eq. constructor.
    + rewrite lookup_delete_ne by done. specialize (Hrel k').
      by rewrite lookup_insert_ne in Hrel by done.
Qed.
