(* ===== verification/World.v ===== *)
(** * The machine: objects, libuv, callbacks and the execution monad

    The data the library keeps (the [instance] structures of handles, requests,
    buffers and loops), the part of the libuv structures the library reads, the
    environment (libuv and the client's callbacks) as parameters, and the
    monad in which every operation of the library is written. *)

From Stdlib Require Import ZArith Lia.
From stdpp Require Import base gmap list strings option.
From S2P Require Import Prelude.

Local Open Scope Z_scope.

(** Addresses. An instance is named by the address of the libuv structure it
    embeds: [instance::from] and [&instance->uv_..._struct] are inverse address
    computations, so both sides of [from] are the same key here. *)
Abbreviation loc := Z (only parsing).

(** [std::function]: empty, or a client function named by a number. *)
Abbreviation cb := (option Z) (only parsing).

(** ** libuv enumerations (uv.h) *)

Inductive uv_handle_type :=
| UV_UNKNOWN_HANDLE | UV_ASYNC | UV_CHECK | UV_FS_EVENT | UV_FS_POLL | UV_HANDLE | UV_IDLE
| UV_NAMED_PIPE | UV_POLL | UV_PREPARE | UV_PROCESS | UV_STREAM | UV_TCP | UV_TIMER
| UV_TTY | UV_UDP | UV_SIGNAL | UV_FILE.

#[global] Instance uv_handle_type_eq_dec : EqDecision uv_handle_type.
Proof. solve_decision. Defined.

Inductive uv_req_type :=
| UV_UNKNOWN_REQ | UV_REQ | UV_CONNECT | UV_WRITE | UV_SHUTDOWN | UV_UDP_SEND | UV_FS
| UV_WORK | UV_GETADDRINFO | UV_GETNAMEINFO.

#[global] Instance uv_req_type_eq_dec : EqDecision uv_req_type.
Proof. solve_decision. Defined.

Inductive uv_fs_type :=
| UV_FS_UNKNOWN | UV_FS_OPEN | UV_FS_CLOSE | UV_FS_READ | UV_FS_WRITE | UV_FS_SENDFILE
| UV_FS_STAT | UV_FS_FTRUNCATE | UV_FS_UTIME | UV_FS_ACCESS | UV_FS_CHMOD | UV_FS_FSYNC
| UV_FS_UNLINK | UV_FS_RMDIR | UV_FS_MKDIR | UV_FS_MKDTEMP | UV_FS_RENAME | UV_FS_SCANDIR
| UV_FS_LINK | UV_FS_READLINK | UV_FS_CHOWN | UV_FS_REALPATH.

#[global] Instance uv_fs_type_eq_dec : EqDecision uv_fs_type.
Proof. solve_decision. Defined.

(** Error codes used by the library itself (Linux values). *)
Definition UV_EOF : Z := -4095.
Definition UV_EBADF : Z := -9.
Definition UV_EAGAIN : Z := -11.
Definition UV_EINVAL : Z := -22.
Definition UV_ENOTSUP : Z := -95.
Definition UV_EAFNOSUPPORT : Z := -97.
Definition UV_ENOBUFS : Z := -105.

Definition UV_RUN_NOWAIT : Z := 2.

(** ** libuv structures, as far as the library looks into them *)

Record uv_handle_t := {
  uh_type : uv_handle_type;
  uh_loop : option loc;
  uh_data : Z;
  uh_queue_size : Z;      (* uv_stream_t.write_queue_size / uv_udp_t.send_queue_size *)
  uh_ipc : Z;             (* uv_pipe_t.ipc *)
  uh_signum : Z;          (* uv_signal_t.signum *)
  uh_pid : Z;             (* uv_process_t.pid *)
  uh_result : Z;          (* uv_fs_t.result, the descriptor of a file handle *)
  uh_path : option string (* uv_fs_t.path *)
}.

(** [uv_handle_struct = { 0,}] *)
Definition uv_handle_zero : uv_handle_t :=
  {| uh_type := UV_UNKNOWN_HANDLE; uh_loop := None; uh_data := 0; uh_queue_size := 0;
     uh_ipc := 0; uh_signum := 0; uh_pid := 0; uh_result := 0; uh_path := None |}.

Record uv_req_t := {
  ur_type : uv_req_type;
  ur_fs_type : uv_fs_type;
  ur_data : Z;
  ur_handle : option loc;
  ur_send_handle : option loc;
  ur_loop : option loc;
  ur_result : Z;
  ur_path : option string;
  ur_addrinfo : Z         (* uv_getaddrinfo_t.addrinfo, 0 for nullptr *)
}.

(** [std::memset(&uv_req_struct, 0, sizeof(uv_req_struct))] *)
Definition uv_req_zero : uv_req_t :=
  {| ur_type := UV_UNKNOWN_REQ; ur_fs_type := UV_FS_UNKNOWN; ur_data := 0; ur_handle := None;
     ur_send_handle := None; ur_loop := None; ur_result := 0; ur_path := None;
     ur_addrinfo := 0 |}.

Record uv_loop_t := { ul_data : Z }.
Definition uv_loop_zero : uv_loop_t := {| ul_data := 0 |}.

(** ** Properties kept by the handle classes *)

(** [io::rdcmd], [opcmd] of the watcher handles, [signal::opcmd] *)
Inductive rdcmd := RD_UNKNOWN | RD_STOP | RD_PAUSE | RD_START | RD_RESUME.
Inductive opcmd := OP_UNKNOWN | OP_STOP | OP_START.
Inductive sigcmd := SG_UNKNOWN | SG_STOP | SG_START | SG_START_ONESHOT.

#[global] Instance rdcmd_eq_dec : EqDecision rdcmd.
Proof. solve_decision. Defined.
#[global] Instance opcmd_eq_dec : EqDecision opcmd.
Proof. solve_decision. Defined.
#[global] Instance sigcmd_eq_dec : EqDecision sigcmd.
Proof. solve_decision. Defined.

(** [io::properties]; [rdlock] is the flag of the [rdstate_switch] spinlock. *)
Record io_props := {
  io_rdlock : bool;
  io_rdcmd : rdcmd;
  io_rdsize : Z;
  io_rdoffset : Z;
  io_on_alloc : cb;
  io_on_read : cb
}.

(** The fields [file::properties] adds to [io::properties]. *)
Record file_props := {
  fi_open_cb : cb;
  fi_rd_base : Z;         (* rd.uv_buf_struct.base, 0 for nullptr *)
  fi_rd_len : Z;
  fi_rd_data : option loc; (* rd.uv_req_struct.data, the handle instance *)
  fi_wqs : Z;             (* write_queue_size *)
  fi_closing : Z          (* is_closing *)
}.

(** [uv_stdio_container_t] with its flags and union member *)
Inductive stdio_data := SD_fd (fd : Z) | SD_stream (h : option loc).
Record stdio_container := { sc_flags : Z; sc_data : stdio_data }.

(** [process::properties] *)
Record process_props := {
  ps_file : option string;
  ps_args : option Z;
  ps_env : option Z;
  ps_cwd : option string;
  ps_flags : Z;
  ps_uid : Z;
  ps_gid : Z;
  ps_stdio_count : Z;
  ps_exit_cb : cb;
  ps_containers : list stdio_container;
  ps_endpoints : list (option loc)
}.

Inductive watcher := W_idle | W_prepare | W_check | W_poll.
#[global] Instance watcher_eq_dec : EqDecision watcher.
Proof. solve_decision. Defined.

(** The value held in [property_storage], one constructor per [properties] type. *)
Inductive props :=
| P_none
| P_stream (io : io_props) (connection_cb : cb)
| P_udp (io : io_props)
| P_file (io : io_props) (f : file_props)
| P_async (async_cb : cb)
| P_timer (has_extra_ref : bool) (timer_cb : cb)
| P_watcher (k : watcher) (opcmd_state : opcmd) (watch_cb : cb)
| P_fs_event (opcmd_state : opcmd) (event_flags : Z) (path : string) (fs_event_cb : cb)
| P_signal (opcmd_state : sigcmd) (signum : Z) (signal_cb : cb)
| P_process (p : process_props).

(** The [uv_interface] object of the class: which virtual functions it has. *)
Inductive iface := If_handle | If_stream | If_udp | If_file.
#[global] Instance iface_eq_dec : EqDecision iface.
Proof. solve_decision. Defined.

(** ** Instances *)

(** [handle::instance< _Handle_ >] *)
Record hinst := {
  h_uv_error : Z;
  h_refs : Z;
  h_destroy_cb : cb;
  h_props : props;
  h_iface : iface;
  h_loop : option loc;    (* loop_instance_ptr *)
  h_uv : uv_handle_t
}.

(** [properties] of the request classes; the task of a [work] has been invoked or not; an
    [output] that has not been run yet has the zeroed union [R_none]. *)
Inductive rprops :=
| R_none
| R_write (uv_buf : option loc)
| R_udp_send (uv_buf : option loc) (peer : list Z)   (* the bytes of [sockaddr_storage peer] *)
| R_work (task : option (Z * bool)) (result : option Z)
| R_fs (own_req : bool) (uv_handle : option loc) (uv_buf : option loc) (offset : Z)
       (pending_size : Z) (uv_handle_out : option loc)
| R_getaddrinfo (own_req : bool).

(** [request::instance< _Request_ >] *)
Record rinst := {
  r_uv_error : Z;
  r_refs : Z;
  r_destroy_cb : cb;
  r_request_cb : cb;
  r_props : rprops;
  r_offset : Z;           (* output::properties::offset, behind the union of an [output] *)
  r_uv : uv_req_t
}.

(** [buffer::instance]: the array of [uv_buf_t] as (base, len) pairs, 0 for a null base. *)
Record binst := {
  b_refs : Z;
  b_sink_cb : cb;
  b_bufs : list (Z * Z)
}.

(** [loop::instance] *)
Record linst := {
  l_uv_error : Z;
  l_refs : Z;
  l_destroy_cb : cb;
  l_exit_cb : cb;
  l_uv : uv_loop_t
}.

(** ** References *)

(** A counted object of one of the four families. *)
Inductive token := TH (h : loc) | TR (r : loc) | TB (b : loc) | TL (l : loc).

#[global] Instance token_eq_dec : EqDecision token.
Proof. solve_decision. Defined.

(** A pointer held by a class object ([uv_handle], [uv_req], [uv_buf], [uv_loop]). *)
Inductive ptr := PH (o : option loc) | PR (o : option loc) | PB (o : option loc) | PL (o : option loc).

Definition ptr_toks (p : ptr) : list token :=
  match p with
  | PH (Some l) => [TH l] | PR (Some l) => [TR l] | PB (Some l) => [TB l] | PL (Some l) => [TL l]
  | _ => []
  end.

(** Arguments of client callbacks: class objects passed by value (or, for a
    buffer sink, by reference) and plain values. *)
Inductive arg := A_ptr (p : ptr) | A_int (z : Z) | A_str (s : option string).

Definition arg_toks (a : arg) : list token :=
  match a with A_ptr p => ptr_toks p | _ => [] end.
Definition args_toks (l : list arg) : list token := l ≫= arg_toks.

(** ** Calls to libuv *)

Inductive uvfn :=
| f_loop_init | f_loop_close | f_loop_configure | f_loop_alive | f_run | f_stop
| f_backend_fd | f_backend_timeout | f_now | f_update_time | f_walk
| f_close | f_is_active | f_is_closing | f_ref | f_unref | f_has_ref | f_fileno
| f_send_buffer_size | f_recv_buffer_size | f_cancel
| f_read_start | f_read_stop | f_listen | f_accept | f_is_readable | f_is_writable | f_set_blocking
| f_tcp_init | f_tcp_init_ex | f_tcp_open | f_tcp_nodelay | f_tcp_keepalive
| f_tcp_simultaneous_accepts | f_tcp_bind | f_tcp_getsockname | f_tcp_getpeername
| f_pipe_init | f_pipe_open | f_pipe_bind | f_pipe_getsockname | f_pipe_getpeername
| f_pipe_pending_instances | f_pipe_pending_count | f_pipe_pending_type
| f_tty_init | f_tty_set_mode | f_tty_get_winsize | f_tty_reset_mode
| f_udp_init | f_udp_init_ex | f_udp_open | f_udp_bind | f_udp_getsockname
| f_udp_set_membership | f_udp_set_multicast_loop | f_udp_set_multicast_ttl
| f_udp_set_multicast_interface | f_udp_set_broadcast | f_udp_set_ttl
| f_udp_recv_start | f_udp_recv_stop | f_udp_send | f_udp_try_send
| f_async_init | f_async_send
| f_timer_init | f_timer_start | f_timer_stop | f_timer_set_repeat | f_timer_get_repeat
| f_watcher_init (k : watcher) | f_watcher_start (k : watcher) | f_watcher_stop (k : watcher)
| f_fs_event_init | f_fs_event_start | f_fs_event_stop
| f_signal_init | f_signal_start | f_signal_stop
| f_spawn | f_kill | f_process_kill | f_disable_stdio_inheritance
| f_tcp_connect | f_pipe_connect | f_write | f_write2 | f_try_write | f_shutdown
| f_queue_work | f_getaddrinfo | f_freeaddrinfo | f_getnameinfo | f_guess_handle
| f_fs_req_cleanup | f_lseek64
| f_fs_open | f_fs_close | f_fs_read | f_fs_write | f_fs_fsync | f_fs_fdatasync | f_fs_ftruncate
| f_fs_sendfile | f_fs_stat | f_fs_lstat | f_fs_fstat | f_fs_chmod | f_fs_fchmod
| f_fs_chown | f_fs_fchown | f_fs_utime | f_fs_futime | f_fs_unlink | f_fs_mkdir | f_fs_mkdtemp
| f_fs_rmdir | f_fs_scandir | f_fs_scandir_next | f_fs_rename | f_fs_access | f_fs_link
| f_fs_symlink | f_fs_readlink | f_fs_realpath
| f_mutex_init | f_mutex_destroy | f_mutex_lock | f_mutex_trylock | f_mutex_unlock
| f_ip4_addr | f_ip6_addr.

(** The static callbacks of the library that libuv is given, for one-shot operations. *)
Inductive cbname :=
| cb_connect | cb_write | cb_write2 | cb_shutdown | cb_udp_send | cb_work | cb_getaddrinfo
| cb_getnameinfo | cb_file_open | cb_file_read | cb_async | cb_fs (t : uv_fs_type).

#[global] Instance cbname_eq_dec : EqDecision cbname.
Proof. solve_decision. Defined.

(** Arguments passed to libuv. *)
Inductive uvarg :=
| V_loop (o : option loc) | V_handle (o : option loc) | V_req (o : option loc)
| V_bufs (bufs : list (Z * Z)) (count : Z)
| V_int (z : Z) | V_bytes (l : list Z) | V_stdio (l : list stdio_container)
| V_str (s : option string) | V_cb (c : cbname) | V_nullcb | V_self_cb.

(** A one-shot callback libuv has accepted and not yet made, with the object it
    is made for and the references the library took for it. *)
Record armed := { arm_cb : cbname; arm_obj : loc; arm_toks : list token }.

(** What an observer of the library sees. *)
Inductive event :=
| E_uv (f : uvfn) (args : list uvarg) (ret : Z)
| E_cb (id : Z) (args : list arg)
| E_new (t : token)
| E_delete (t : token).

(** A write libuv makes to one of its structures. *)
Inductive uv_write_op :=
| UW_handle (h : loc) (f : uv_handle_t → uv_handle_t)
| UW_req (r : loc) (f : uv_req_t → uv_req_t)
| UW_loop (l : loc) (f : uv_loop_t → uv_loop_t).

Record uv_reply := { rp_ret : Z; rp_out : list Z; rp_writes : list uv_write_op }.

(** ** The state *)

Record world := {
  w_handles : gmap loc hinst;
  w_reqs : gmap loc rinst;
  w_bufs : gmap loc binst;
  w_loops : gmap loc linst;
  w_vars : gmap positive ptr;     (* variables of the client holding class objects *)
  w_armed : list armed;           (* one-shot callbacks libuv still has to make *)
  w_brk : Z;                      (* first address never allocated *)
  w_unwinding : bool;             (* std::uncaught_exception() *)
  w_log : list event              (* most recent first *)
}.

Definition upd_handles (f : gmap loc hinst → gmap loc hinst) (w : world) : world :=
  {| w_handles := f (w_handles w); w_reqs := w_reqs w; w_bufs := w_bufs w; w_loops := w_loops w;
     w_vars := w_vars w; w_armed := w_armed w; w_brk := w_brk w;
     w_unwinding := w_unwinding w; w_log := w_log w |}.
Definition upd_reqs (f : gmap loc rinst → gmap loc rinst) (w : world) : world :=
  {| w_handles := w_handles w; w_reqs := f (w_reqs w); w_bufs := w_bufs w; w_loops := w_loops w;
     w_vars := w_vars w; w_armed := w_armed w; w_brk := w_brk w;
     w_unwinding := w_unwinding w; w_log := w_log w |}.
Definition upd_bufs (f : gmap loc binst → gmap loc binst) (w : world) : world :=
  {| w_handles := w_handles w; w_reqs := w_reqs w; w_bufs := f (w_bufs w); w_loops := w_loops w;
     w_vars := w_vars w; w_armed := w_armed w; w_brk := w_brk w;
     w_unwinding := w_unwinding w; w_log := w_log w |}.
Definition upd_loops (f : gmap loc linst → gmap loc linst) (w : world) : world :=
  {| w_handles := w_handles w; w_reqs := w_reqs w; w_bufs := w_bufs w; w_loops := f (w_loops w);
     w_vars := w_vars w; w_armed := w_armed w; w_brk := w_brk w;
     w_unwinding := w_unwinding w; w_log := w_log w |}.
Definition upd_vars (f : gmap positive ptr → gmap positive ptr) (w : world) : world :=
  {| w_handles := w_handles w; w_reqs := w_reqs w; w_bufs := w_bufs w; w_loops := w_loops w;
     w_vars := f (w_vars w); w_armed := w_armed w; w_brk := w_brk w;
     w_unwinding := w_unwinding w; w_log := w_log w |}.
Definition upd_armed (f : list armed → list armed) (w : world) : world :=
  {| w_handles := w_handles w; w_reqs := w_reqs w; w_bufs := w_bufs w; w_loops := w_loops w;
     w_vars := w_vars w; w_armed := f (w_armed w); w_brk := w_brk w;
     w_unwinding := w_unwinding w; w_log := w_log w |}.
Definition upd_brk (f : Z → Z) (w : world) : world :=
  {| w_handles := w_handles w; w_reqs := w_reqs w; w_bufs := w_bufs w; w_loops := w_loops w;
     w_vars := w_vars w; w_armed := w_armed w; w_brk := f (w_brk w);
     w_unwinding := w_unwinding w; w_log := w_log w |}.
Definition upd_unwinding (b : bool) (w : world) : world :=
  {| w_handles := w_handles w; w_reqs := w_reqs w; w_bufs := w_bufs w; w_loops := w_loops w;
     w_vars := w_vars w; w_armed := w_armed w; w_brk := w_brk w;
     w_unwinding := b; w_log := w_log w |}.
Definition upd_log (f : list event → list event) (w : world) : world :=
  {| w_handles := w_handles w; w_reqs := w_reqs w; w_bufs := w_bufs w; w_loops := w_loops w;
     w_vars := w_vars w; w_armed := w_armed w; w_brk := w_brk w;
     w_unwinding := w_unwinding w; w_log := f (w_log w) |}.

(** ** The execution monad *)

(** Exceptions of the standard library and of the library, and those of client code. *)
Inductive exn :=
| X_runtime_error | X_logic_error | X_invalid_argument | X_bad_function_call
| X_client (n : Z).

(** Undefined behaviour the model detects. *)
Inductive ub :=
| UB_null                  (* dereference of a null pointer *)
| UB_dead (t : token)      (* access to an object that does not exist (any more) *)
| UB_type                  (* access through a pointer of the wrong type *)
| UB_bounds.               (* access outside of an array *)

Inductive outcome (A : Type) :=
| Ok (a : A) (w : world)
| Exn (e : exn) (w : world)
| Undefined (u : ub)
| Terminated               (* std::terminate *)
| Hang.                    (* a loop that does not end, or a lock never released *)
Arguments Ok {A} a w.
Arguments Exn {A} e w.
Arguments Undefined {A} u.
Arguments Terminated {A}.
Arguments Hang {A}.

Definition M (A : Type) : Type := world → outcome A.

#[global] Instance M_ret : MRet M := λ A a w, Ok a w.
#[global] Instance M_bind : MBind M := λ A B k m w,
  match m w with
  | Ok a w' => k a w'
  | Exn e w' => Exn e w'
  | Undefined u => Undefined u
  | Terminated => Terminated
  | Hang => Hang
  end.

Definition throw {A} (e : exn) : M A := λ w, Exn e w.
Definition undefined {A} (u : ub) : M A := λ _, Undefined u.
Definition hang {A} : M A := λ _, Hang.
Definition get : M world := λ w, Ok w w.
Definition modify (f : world → world) : M unit := λ w, Ok tt (f w).

Definition when (b : bool) (m : M unit) : M unit := if b then m else mret tt.

(** A [noexcept] function. *)
Definition noexcept {A} (m : M A) : M A := λ w,
  match m w with Exn _ _ => Terminated | r => r end.

(** [m], then the destructor [fin] of a local object, on return and on unwinding.
    Destructors are [noexcept]. *)
Definition finally {A} (m : M A) (fin : M unit) : M A := λ w,
  match m w with
  | Ok a w1 =>
      match fin w1 with
      | Ok _ w2 => Ok a w2 | Exn _ _ => Terminated
      | Undefined u => Undefined u | Terminated => Terminated | Hang => Hang
      end
  | Exn e w1 =>
      let b := w_unwinding w1 in
      match fin (upd_unwinding true w1) with
      | Ok _ w2 => Exn e (upd_unwinding b w2) | Exn _ _ => Terminated
      | Undefined u => Undefined u | Terminated => Terminated | Hang => Hang
      end
  | r => r
  end.

(** [m]; when it throws, [fin] before the exception goes on. *)
Definition on_throw {A} (m : M A) (fin : M unit) : M A := λ w,
  match m w with
  | Exn e w1 =>
      let b := w_unwinding w1 in
      match fin (upd_unwinding true w1) with
      | Ok _ w2 => Exn e (upd_unwinding b w2) | Exn _ _ => Terminated
      | Undefined u => Undefined u | Terminated => Terminated | Hang => Hang
      end
  | r => r
  end.

Definition log_event (e : event) : M unit := modify (upd_log (cons e)).

(** [*p] *)
Definition deref (p : option loc) : M loc :=
  match p with Some l => mret l | None => undefined UB_null end.

(** Access to instances. *)
Definition get_h (h : loc) : M hinst := λ w,
  match w_handles w !! h with Some i => Ok i w | None => Undefined (UB_dead (TH h)) end.
Definition get_r (r : loc) : M rinst := λ w,
  match w_reqs w !! r with Some i => Ok i w | None => Undefined (UB_dead (TR r)) end.
Definition get_b (b : loc) : M binst := λ w,
  match w_bufs w !! b with Some i => Ok i w | None => Undefined (UB_dead (TB b)) end.
Definition get_l (l : loc) : M linst := λ w,
  match w_loops w !! l with Some i => Ok i w | None => Undefined (UB_dead (TL l)) end.

Definition mod_h (h : loc) (f : hinst → hinst) : M unit :=
  i ← get_h h; modify (upd_handles (<[h := f i]>)).
Definition mod_r (r : loc) (f : rinst → rinst) : M unit :=
  i ← get_r r; modify (upd_reqs (<[r := f i]>)).
Definition mod_b (b : loc) (f : binst → binst) : M unit :=
  i ← get_b b; modify (upd_bufs (<[b := f i]>)).
Definition mod_l (l : loc) (f : linst → linst) : M unit :=
  i ← get_l l; modify (upd_loops (<[l := f i]>)).

(** Field updates *)
Definition set_h_error (z : Z) (i : hinst) : hinst :=
  {| h_uv_error := z; h_refs := h_refs i; h_destroy_cb := h_destroy_cb i; h_props := h_props i;
     h_iface := h_iface i; h_loop := h_loop i; h_uv := h_uv i |}.
Definition set_h_refs (z : Z) (i : hinst) : hinst :=
  {| h_uv_error := h_uv_error i; h_refs := z; h_destroy_cb := h_destroy_cb i;
     h_props := h_props i; h_iface := h_iface i; h_loop := h_loop i; h_uv := h_uv i |}.
Definition set_h_destroy (c : cb) (i : hinst) : hinst :=
  {| h_uv_error := h_uv_error i; h_refs := h_refs i; h_destroy_cb := c;
     h_props := h_props i; h_iface := h_iface i; h_loop := h_loop i; h_uv := h_uv i |}.
Definition set_h_props (p : props) (i : hinst) : hinst :=
  {| h_uv_error := h_uv_error i; h_refs := h_refs i; h_destroy_cb := h_destroy_cb i;
     h_props := p; h_iface := h_iface i; h_loop := h_loop i; h_uv := h_uv i |}.
Definition set_h_loop (o : option loc) (i : hinst) : hinst :=
  {| h_uv_error := h_uv_error i; h_refs := h_refs i; h_destroy_cb := h_destroy_cb i;
     h_props := h_props i; h_iface := h_iface i; h_loop := o; h_uv := h_uv i |}.
Definition set_h_uv (f : uv_handle_t → uv_handle_t) (i : hinst) : hinst :=
  {| h_uv_error := h_uv_error i; h_refs := h_refs i; h_destroy_cb := h_destroy_cb i;
     h_props := h_props i; h_iface := h_iface i; h_loop := h_loop i; h_uv := f (h_uv i) |}.

Definition set_r_error (z : Z) (i : rinst) : rinst :=
  {| r_uv_error := z; r_refs := r_refs i; r_destroy_cb := r_destroy_cb i;
     r_request_cb := r_request_cb i; r_props := r_props i; r_offset := r_offset i;
     r_uv := r_uv i |}.
Definition set_r_refs (z : Z) (i : rinst) : rinst :=
  {| r_uv_error := r_uv_error i; r_refs := z; r_destroy_cb := r_destroy_cb i;
     r_request_cb := r_request_cb i; r_props := r_props i; r_offset := r_offset i;
     r_uv := r_uv i |}.
Definition set_r_request_cb (c : cb) (i : rinst) : rinst :=
  {| r_uv_error := r_uv_error i; r_refs := r_refs i; r_destroy_cb := r_destroy_cb i;
     r_request_cb := c; r_props := r_props i; r_offset := r_offset i;
     r_uv := r_uv i |}.
Definition set_r_props (p : rprops) (i : rinst) : rinst :=
  {| r_uv_error := r_uv_error i; r_refs := r_refs i; r_destroy_cb := r_destroy_cb i;
     r_request_cb := r_request_cb i; r_props := p; r_offset := r_offset i;
     r_uv := r_uv i |}.
Definition set_r_offset (z : Z) (i : rinst) : rinst :=
  {| r_uv_error := r_uv_error i; r_refs := r_refs i; r_destroy_cb := r_destroy_cb i;
     r_request_cb := r_request_cb i; r_props := r_props i; r_offset := z; r_uv := r_uv i |}.
Definition set_r_destroy (c : cb) (i : rinst) : rinst :=
  {| r_uv_error := r_uv_error i; r_refs := r_refs i; r_destroy_cb := c;
     r_request_cb := r_request_cb i; r_props := r_props i; r_offset := r_offset i;
     r_uv := r_uv i |}.
Definition set_r_uv (f : uv_req_t → uv_req_t) (i : rinst) : rinst :=
  {| r_uv_error := r_uv_error i; r_refs := r_refs i; r_destroy_cb := r_destroy_cb i;
     r_request_cb := r_request_cb i; r_props := r_props i; r_offset := r_offset i;
     r_uv := f (r_uv i) |}.

Definition set_b_refs (z : Z) (i : binst) : binst :=
  {| b_refs := z; b_sink_cb := b_sink_cb i; b_bufs := b_bufs i |}.
Definition set_b_sink (c : cb) (i : binst) : binst :=
  {| b_refs := b_refs i; b_sink_cb := c; b_bufs := b_bufs i |}.
Definition set_b_bufs (l : list (Z * Z)) (i : binst) : binst :=
  {| b_refs := b_refs i; b_sink_cb := b_sink_cb i; b_bufs := l |}.

Definition set_l_error (z : Z) (i : linst) : linst :=
  {| l_uv_error := z; l_refs := l_refs i; l_destroy_cb := l_destroy_cb i;
     l_exit_cb := l_exit_cb i; l_uv := l_uv i |}.
Definition set_l_refs (z : Z) (i : linst) : linst :=
  {| l_uv_error := l_uv_error i; l_refs := z; l_destroy_cb := l_destroy_cb i;
     l_exit_cb := l_exit_cb i; l_uv := l_uv i |}.
Definition set_l_destroy (c : cb) (i : linst) : linst :=
  {| l_uv_error := l_uv_error i; l_refs := l_refs i; l_destroy_cb := c;
     l_exit_cb := l_exit_cb i; l_uv := l_uv i |}.
Definition set_l_exit (c : cb) (i : linst) : linst :=
  {| l_uv_error := l_uv_error i; l_refs := l_refs i; l_destroy_cb := l_destroy_cb i;
     l_exit_cb := c; l_uv := l_uv i |}.
Definition set_l_uv (f : uv_loop_t → uv_loop_t) (i : linst) : linst :=
  {| l_uv_error := l_uv_error i; l_refs := l_refs i; l_destroy_cb := l_destroy_cb i;
     l_exit_cb := l_exit_cb i; l_uv := f (l_uv i) |}.

(** ** The environment

    libuv answers from the whole history of calls and callbacks; the client's
    functions are computations of the monad that return the final values of
    their by-value parameters (a parameter that was moved from has become null). *)
Class Env := {
  uv_exec : list event → uvfn → list uvarg → uv_reply;
  uv_walk_handles : list event → loc → list loc;
  uv_run : loc → Z → M Z;
  user_cb : Z → list arg → M (list arg);
  user_alloc : Z → option loc → Z → M (option loc * option loc);
  run_fuel : nat
}.

Definition apply_uv_write (o : uv_write_op) (w : world) : world :=
  match o with
  | UW_handle h f => upd_handles (alter (set_h_uv f) h) w
  | UW_req r f => upd_reqs (alter (set_r_uv f) r) w
  | UW_loop l f => upd_loops (alter (set_l_uv f) l) w
  end.
Definition apply_uv_writes (l : list uv_write_op) (w : world) : world :=
  foldl (λ w o, apply_uv_write o w) w l.

Section calls.
Context `{E : Env}.

(** A call of a libuv function: its value and its output parameters. *)
Definition uv_call_out (f : uvfn) (args : list uvarg) : M (Z * list Z) := λ w,
  let rp := uv_exec (w_log w) f args in
  Ok (rp_ret rp, rp_out rp)
     (upd_log (cons (E_uv f args (rp_ret rp))) (apply_uv_writes (rp_writes rp) w)).

Definition uv_call (f : uvfn) (args : list uvarg) : M Z :=
  r ← uv_call_out f args; mret (fst r).

(** A call that hands libuv a one-shot callback [c] for the object [o]: when it is
    accepted, libuv holds the references [toks] until the callback. *)
Definition uv_submit (f : uvfn) (args : list uvarg) (c : cbname) (o : loc)
    (toks : list token) : M Z :=
  z ← uv_call f args;
  when (0 <=? z) (modify (upd_armed (cons {| arm_cb := c; arm_obj := o; arm_toks := toks |})));;
  mret z.
End calls.
