(* ===== verification/Objects.v ===== *)
(** * The counted objects: buffer, loop, handle and request instances

    Creation, reference counting and destruction of the four instance families
    (src/include/uvcc/{buffer,loop,handle-base,request-base}.hpp). *)

From Stdlib Require Import ZArith Lia.
From stdpp Require Import base gmap list strings option.
From S2P Require Import Prelude World.

Local Open Scope Z_scope.

(** ** [ref_count] as the sequential code sees it *)

Module ref_count.
(** [ref_count() noexcept : count(1)] *)
Definition init : Z := 1.

(** [inc()]: refuses to revive a counter that has reached zero. *)
Definition inc (c : Z) : option Z := if c =? 0 then None else Some (c + 1).

(** [dec()]: the value after the decrement. *)
Definition dec (c : Z) : Z := c - 1.
End ref_count.

Definition object_size : Z := 1024.

(** The allocator: fresh addresses aligned to 16 bytes, never handed out twice. *)
Definition align_up (a z : Z) : Z := (z + a - 1) / a * a.
Definition alloc (size : Z) : M loc := λ w,
  let a := align_up 16 (w_brk w) in Ok a (upd_brk (λ _, a + Z.max size 1) w).

Section objects.
Context `{E : Env}.

(** A call of a client's function. *)
Definition call_user (id : Z) (args : list arg) : M (list arg) :=
  log_event (E_cb id args);; user_cb id args.

(** ** buffer::instance *)

Definition buffer_free (b : loc) : M unit :=
  _ ← get_b b; log_event (E_delete (TB b));; modify (upd_bufs (delete b)).

(** [buffer::instance::ref()] *)
Definition buffer_ref (b : loc) : M unit :=
  i ← get_b b;
  match ref_count.inc (b_refs i) with
  | Some n => mod_b b (set_b_refs n)
  | None => throw X_runtime_error
  end.

(** [buffer::instance::destroy()]: the sink callback gets a variable that
    references the buffer again and may move it away. *)
Definition buffer_destroy (b : loc) : M unit :=
  i ← get_b b;
  match b_sink_cb i with
  | Some sink =>
      mod_b b (set_b_refs 1);;
      args ← call_user sink [A_ptr (PB (Some b))];
      match args with
      | [A_ptr (PB (Some _))] =>          (* if not moved-from *)
          i' ← get_b b;
          let n := ref_count.dec (b_refs i') in
          mod_b b (set_b_refs n);;
          when (n =? 0) (buffer_free b)
      | _ => mret tt
      end
  | None => buffer_free b
  end.

(** [buffer::instance::unref() noexcept] *)
Definition buffer_unref (b : loc) : M unit :=
  noexcept (
    i ← get_b b;
    let n := ref_count.dec (b_refs i) in
    mod_b b (set_b_refs n);;
    when (n =? 0) (buffer_destroy b)).

(** ** loop::instance *)

(** [loop::instance::instance()] and [create()] *)
Definition loop_create : M loc :=
  l ← alloc object_size;
  modify (upd_loops (<[l := {| l_uv_error := 0; l_refs := ref_count.init; l_destroy_cb := None;
                               l_exit_cb := None; l_uv := uv_loop_zero |}]>));;
  log_event (E_new (TL l));;
  z ← uv_call f_loop_init [V_loop (Some l)];
  mod_l l (set_l_error z);;
  mret l.

(** The closure given to [uv_walk] by the destructor: count the handles that are
    not closing. *)
Fixpoint count_open (hs : list loc) : M Z :=
  match hs with
  | [] => mret 0
  | h :: hs' =>
      c ← uv_call f_is_closing [V_handle (Some h)];
      n ← count_open hs';
      mret (if c =? 0 then n + 1 else n)
  end.

(** [do { uv_error = uv_run(.., UV_RUN_NOWAIT); } while (uv_error);] *)
Fixpoint premortal_run (fuel : nat) (l : loc) : M unit :=
  match fuel with
  | O => hang
  | S fuel' =>
      z ← uv_run l UV_RUN_NOWAIT;
      mod_l l (set_l_error z);;
      if z =? 0 then mret tt else premortal_run fuel' l
  end.

(** [loop::instance::~instance() noexcept(false)] *)
Definition loop_dtor (l : loc) : M unit :=
  z ← uv_call f_loop_close [V_loop (Some l)];
  mod_l l (set_l_error z);;
  if z =? 0 then mret tt
  else
    w ← get;
    let hs := uv_walk_handles (w_log w) l in
    log_event (E_uv f_walk [V_loop (Some l)] 0);;
    n ← count_open hs;
    if negb (n =? 0) then
      w' ← get;
      if w_unwinding w' then mret tt else throw X_logic_error
    else
      premortal_run run_fuel l;;
      z' ← uv_call f_loop_close [V_loop (Some l)];
      mod_l l (set_l_error z');;
      if negb (z' =? 0) then throw X_runtime_error else mret tt.

Definition loop_free (l : loc) : M unit :=
  _ ← get_l l; log_event (E_delete (TL l));; modify (upd_loops (delete l)).

(** [loop::instance::destroy()]; the storage is released even when the destructor throws. *)
Definition loop_destroy (l : loc) : M unit :=
  i ← get_l l;
  match l_destroy_cb i with
  | Some f => _ ← call_user f [A_int (ul_data (l_uv i))]; mret tt
  | None => mret tt
  end;;
  finally (loop_dtor l) (loop_free l).

(** [loop::instance::ref()] *)
Definition loop_ref (l : loc) : M unit :=
  i ← get_l l;
  match ref_count.inc (l_refs i) with
  | Some n => mod_l l (set_l_refs n)
  | None => throw X_runtime_error
  end.

(** [loop::instance::unref()] *)
Definition loop_unref (l : loc) : M unit :=
  i ← get_l l;
  let n := ref_count.dec (l_refs i) in
  mod_l l (set_l_refs n);;
  when (n =? 0) (loop_destroy l).

(** ** handle::instance *)

(** [instance::create()]: the instance with the properties of its class, one
    reference, the interface object of its class, a zeroed libuv structure. *)
Definition handle_create (ifc : iface) (p : props) : M loc :=
  h ← alloc object_size;
  modify (upd_handles (<[h := {| h_uv_error := 0; h_refs := ref_count.init;
                                 h_destroy_cb := None; h_props := p; h_iface := ifc;
                                 h_loop := None; h_uv := uv_handle_zero |}]>));;
  log_event (E_new (TH h));;
  mret h.

(** [uv_interface::loop()] *)
Definition uv_interface_loop (h : loc) : M (option loc) :=
  i ← get_h h; mret (uh_loop (h_uv i)).

(** [handle::instance::unbook_loop()] *)
Definition unbook_loop (h : loc) : M unit :=
  i ← get_h h;
  match h_loop i with
  | Some l => loop_unref l;; mod_h h (set_h_loop None)
  | None => mret tt
  end.

(** [handle::instance::book_loop()] *)
Definition book_loop (h : loc) : M unit :=
  unbook_loop h;;
  lo ← uv_interface_loop h;
  l ← deref lo;
  mod_h h (set_h_loop (Some l));;
  loop_ref l.

(** [handle::instance::ref()] *)
Definition handle_ref (h : loc) : M unit :=
  i ← get_h h;
  match ref_count.inc (h_refs i) with
  | Some n => mod_h h (set_h_refs n)
  | None => throw X_runtime_error
  end.

Definition handle_free (h : loc) : M unit :=
  _ ← get_h h; log_event (E_delete (TH h));; modify (upd_handles (delete h)).

(** The class objects kept in the properties: the stdio endpoints of a process. *)
Definition props_endpoints (p : props) : list (option loc) :=
  match p with P_process ps => ps_endpoints ps | _ => [] end.

Section delete.
(** [unref()] of an endpoint held in the properties. *)
Variable endpoint_unref : loc → M unit.

Fixpoint drop_endpoints (l : list (option loc)) : M unit :=
  match l with
  | [] => mret tt
  | Some e :: l' => noexcept (endpoint_unref e);; drop_endpoints l'
  | None :: l' => drop_endpoints l'
  end.

(** [delete instance_ptr]: [~instance()] releases the loop, then the members
    are destroyed. *)
Definition handle_delete (h : loc) : M unit :=
  noexcept (
    unbook_loop h;;
    i ← get_h h;
    drop_endpoints (props_endpoints (h_props i));;
    handle_free h).

Definition call_destroy_cb (c : cb) (data : Z) : M unit :=
  match c with
  | Some f => _ ← call_user f [A_int data]; mret tt
  | None => mret tt
  end.

(** [uv_handle_interface::close_cb] *)
Definition close_cb (h : loc) : M unit :=
  i ← get_h h;
  call_destroy_cb (h_destroy_cb i) (uh_data (h_uv i));;
  handle_delete h.

(** [uv_handle_interface::close() noexcept] *)
Definition uv_handle_close (h : loc) : M unit :=
  noexcept (
    i ← get_h h;
    when (negb (bool_decide (uh_type (h_uv i) = UV_UNKNOWN_HANDLE)))
         (_ ← uv_call f_close [V_handle (Some h); V_nullcb]; mret tt);;
    close_cb h).

(** [uv_fs_interface::close() noexcept]; [fd] is the result narrowed to [int]. *)
Definition uv_fs_close (h : loc) : M unit :=
  noexcept (
    i ← get_h h;
    let fd := Z.modulo (uh_result (h_uv i) + 2^31) (2^32) - 2^31 in
    when (0 <=? fd)
         (_ ← uv_call f_fs_close [V_loop None; V_req None; V_int fd; V_nullcb];
          _ ← uv_call f_fs_req_cleanup [V_req None]; mret tt);;
    call_destroy_cb (h_destroy_cb i) (uh_data (h_uv i));;
    _ ← uv_call f_fs_req_cleanup [V_handle (Some h)];
    handle_delete h).

(** [uv_interface_ptr->close(..)] *)
Definition uv_interface_close (h : loc) : M unit :=
  i ← get_h h;
  match h_iface i with If_file => uv_fs_close h | _ => uv_handle_close h end.

(** [handle::instance::unref()] *)
Definition handle_unref_with (h : loc) : M unit :=
  i ← get_h h;
  let n := ref_count.dec (h_refs i) in
  mod_h h (set_h_refs n);;
  when (n =? 0) (uv_interface_close h).
End delete.

(** An endpoint is an [io] handle, which has no endpoints of its own. *)
Definition io_unref : loc → M unit := handle_unref_with (λ _, undefined UB_type).
Definition handle_unref : loc → M unit := handle_unref_with io_unref.

(** ** request::instance *)

(** [instance::create()] *)
Definition request_create (p : rprops) : M loc :=
  r ← alloc object_size;
  modify (upd_reqs (<[r := {| r_uv_error := 0; r_refs := ref_count.init;
                              r_destroy_cb := None; r_request_cb := None; r_props := p;
                              r_offset := 0; r_uv := uv_req_zero |}]>));;
  log_event (E_new (TR r));;
  mret r.

(** [request::instance::ref()] *)
Definition request_ref (r : loc) : M unit :=
  i ← get_r r;
  match ref_count.inc (r_refs i) with
  | Some n => mod_r r (set_r_refs n)
  | None => throw X_runtime_error
  end.

(** Destructors of the [properties] types that own libuv data. *)
Definition rprops_dtor (r : loc) (p : rprops) (u : uv_req_t) : M unit :=
  match p with
  | R_fs true _ _ _ _ _ => _ ← uv_call f_fs_req_cleanup [V_req (Some r)]; mret tt
  | R_getaddrinfo true => _ ← uv_call f_freeaddrinfo [V_int (ur_addrinfo u)]; mret tt
  | _ => mret tt
  end.

Definition request_free (r : loc) : M unit :=
  _ ← get_r r; log_event (E_delete (TR r));; modify (upd_reqs (delete r)).

(** [request::instance::destroy_instance()] *)
Definition destroy_instance (r : loc) : M unit :=
  i ← get_r r;
  call_destroy_cb (r_destroy_cb i) (ur_data (r_uv i));;
  i' ← get_r r;
  rprops_dtor r (r_props i') (r_uv i');;
  request_free r.

(** [request::instance::unref()] *)
Definition request_unref (r : loc) : M unit :=
  i ← get_r r;
  let n := ref_count.dec (r_refs i) in
  mod_r r (set_r_refs n);;
  when (n =? 0) (destroy_instance r).

(** ** Class objects as values *)

(** [ref()] and [unref()] of the instance a pointer refers to. *)
Definition tok_ref (t : token) : M unit :=
  match t with TH h => handle_ref h | TR r => request_ref r | TB b => buffer_ref b
          | TL l => loop_ref l end.
Definition tok_unref (t : token) : M unit :=
  match t with TH h => handle_unref h | TR r => request_unref r | TB b => buffer_unref b
          | TL l => loop_unref l end.

(** Destructor of a by-value parameter. *)
Definition drop_ptr (p : ptr) : M unit :=
  noexcept (match ptr_toks p with t :: _ => tok_unref t | [] => mret tt end).
Definition drop_arg (a : arg) : M unit :=
  match a with A_ptr p => drop_ptr p | _ => mret tt end.
Fixpoint drop_args (l : list arg) : M unit :=
  match l with [] => mret tt | a :: l' => drop_args l';; drop_arg a end.

(** A call [f(args)] of a [std::function] whose arguments own references: the
    final values of the parameters are destroyed when the call is over. A client
    function that throws has destroyed its parameters while it unwound. *)
Definition invoke (id : Z) (args : list arg) : M unit :=
  args' ← call_user id args; drop_args args'.

(** ** The status of the last libuv call *)

(** [handle::uv_status(int)] *)
Definition handle_uv_status (h : loc) (v : Z) : M Z := mod_h h (set_h_error v);; mret v.
(** [request::uv_status(int)] *)
Definition request_uv_status (r : loc) (v : Z) : M Z := mod_r r (set_r_error v);; mret v.
(** [loop::uv_status(int)] *)
Definition loop_uv_status (l : loc) (v : Z) : M Z := mod_l l (set_l_error v);; mret v.

(** The constructor of a class object from a libuv pointer: [null] or one more reference. *)
Definition adopt_new (t : loc → token) (o : option loc) : M (option loc) :=
  match o with Some l => tok_ref (t l) | None => mret tt end;; mret o.

(** [handle::instance::properties()]: reading and writing. *)
Definition properties (h : loc) : M props := i ← get_h h; mret (h_props i).
Definition mod_props (h : loc) (f : props → props) : M unit :=
  mod_h h (λ i, set_h_props (f (h_props i)) i).
End objects.
