(* ===== verification/Ledger.v ===== *)
(** * The reference ledger

    Who owns the references of the counted objects, the invariant that ties the
    counters to the owners, and the weakest preconditions with which the
    operations of the library are shown to keep it. *)

From Stdlib Require Import ZArith Lia.
From stdpp Require Import base gmap list strings option.
From S2P Require Import Prelude World Objects.

(** ** Counting tokens *)

Fixpoint cnt (t : token) (l : list token) : nat :=
  match l with [] => 0 | t' :: l' => (if decide (t = t') then 1 else 0) + cnt t l' end.

Lemma cnt_app t l1 l2 : cnt t (l1 ++ l2) = cnt t l1 + cnt t l2.
Proof. induction l1 as [|t' l1 IH]; cbn; [done|]. rewrite IH. lia. Qed.

Lemma cnt_elem t l : 0 < cnt t l ↔ t ∈ l.
Proof.
  induction l as [|t' l IH]; [split; [cbn; lia|by intros ?%not_elem_of_nil]|].
  cbn. rewrite elem_of_cons. destruct (decide (t = t')); [split; [by left|lia]|].
  rewrite <-IH. split; [by right|by intros [?|?]].
Qed.

#[export] Instance cnt_proper t : Proper ((≡ₚ) ==> eq) (cnt t).
Proof. intros l l' H. induction H; cbn; lia. Qed.

(** ** Owners *)

Definition opt_tok (f : loc → token) (o : option loc) : list token :=
  match o with Some l => [f l] | None => [] end.

Definition reading (c : rdcmd) : bool :=
  match c with RD_START | RD_RESUME => true | _ => false end.
Definition op_started (c : opcmd) : bool :=
  match c with OP_START => true | _ => false end.
Definition sig_started (c : sigcmd) : bool :=
  match c with SG_START | SG_START_ONESHOT => true | _ => false end.

(** The extra reference a handle holds on itself while it is started. *)
Definition props_self (p : props) : bool :=
  match p with
  | P_stream io _ | P_udp io | P_file io _ => reading (io_rdcmd io)
  | P_timer b _ => b
  | P_watcher _ st _ | P_fs_event st _ _ _ => op_started st
  | P_signal st _ _ => sig_started st
  | _ => false
  end.

Definition props_toks (h : loc) (p : props) : list token :=
  (if props_self p then [TH h] else []) ++ (props_endpoints p ≫= opt_tok TH).

(** References held by an instance; one that is being destroyed holds none. *)
Definition hinst_toks (h : loc) (i : hinst) : list token :=
  if (h_refs i =? 0)%Z then [] else props_toks h (h_props i) ++ opt_tok TL (h_loop i).

Definition owned (w : world) (t : token) : nat :=
  msum (λ _ p, cnt t (ptr_toks p)) (w_vars w) +
  msum (λ h i, cnt t (hinst_toks h i)) (w_handles w) +
  cnt t (w_armed w ≫= arm_toks).

(** The value of the counter of an object, if the object exists. *)
Definition refs_of (w : world) (t : token) : option Z :=
  match t with
  | TH h => h_refs <$> w_handles w !! h
  | TR r => r_refs <$> w_reqs w !! r
  | TB b => b_refs <$> w_bufs w !! b
  | TL l => l_refs <$> w_loops w !! l
  end.

Definition tok_addr (t : token) : loc :=
  match t with TH l | TR l | TB l | TL l => l end.

(** ** Objects in destruction

    An object whose counter has reached zero exists until its destroy callback has
    returned and its members are destroyed. What it still has to release is
    recorded with it: the loop and the endpoints of a handle ([D_handle]), then,
    once its loop is being released, the remaining endpoints ([D_members]). *)
Inductive dying :=
| D_handle (h : loc) (lo : option loc) (eps : list (option loc))
| D_members (h : loc) (eps rest : list (option loc))
| D_req (r : loc)
| D_buf (b : loc)
| D_loop (l : loc).

Definition dying_tok (d : dying) : token :=
  match d with D_handle h _ _ | D_members h _ _ => TH h | D_req r => TR r | D_buf b => TB b
  | D_loop l => TL l end.

Definition dying_toks (d : dying) : list token :=
  match d with
  | D_handle _ lo eps => opt_tok TL lo ++ (eps ≫= opt_tok TH)
  | D_members _ _ rest => rest ≫= opt_tok TH
  | _ => []
  end.

(** Only a process has endpoints; an endpoint is an [io] handle, hence no process. *)
Definition not_process (p : props) : bool :=
  match p with P_process _ => false | _ => true end.

Definition endpoint_ok (w : world) (o : option loc) : Prop :=
  match o with
  | Some e => ∃ j, w_handles w !! e = Some j ∧ not_process (h_props j) = true
  | None => True
  end.

Lemma not_process_endpoints p : not_process p = true → props_endpoints p = [].
Proof. by destruct p. Qed.

Definition dying_ok (w : world) (d : dying) : Prop :=
  match d with
  | D_handle h lo eps => ∃ i, w_handles w !! h = Some i ∧ h_refs i = 0%Z ∧
      h_loop i = lo ∧ props_endpoints (h_props i) = eps ∧ Forall (endpoint_ok w) eps
  | D_members h eps rest => ∃ i, w_handles w !! h = Some i ∧ h_refs i = 0%Z ∧
      props_endpoints (h_props i) = eps ∧ Forall (endpoint_ok w) rest
  | D_req r => ∃ i, w_reqs w !! r = Some i ∧ r_refs i = 0%Z
  | D_buf b => ∃ i, w_bufs w !! b = Some i ∧ b_refs i = 0%Z
  | D_loop l => ∃ i, w_loops w !! l = Some i ∧ l_refs i = 0%Z
  end.

(** What a file system request of type [t] keeps while it is pending: its file, its buffer and
    its target. *)
Definition fs_shape (t : uv_fs_type) (uh ub uo : option loc) : bool :=
  match t, uh, ub, uo with
  | (UV_FS_UNKNOWN | UV_FS_OPEN), _, _, _ => false
  | (UV_FS_READ | UV_FS_WRITE), Some _, Some _, None => true
  | (UV_FS_READ | UV_FS_WRITE), _, _, _ => false
  | UV_FS_SENDFILE, Some _, None, Some _ => true
  | UV_FS_SENDFILE, _, _, _ => false
  | (UV_FS_CLOSE | UV_FS_FSYNC | UV_FS_FTRUNCATE), Some _, None, None => true
  | (UV_FS_CLOSE | UV_FS_FSYNC | UV_FS_FTRUNCATE), _, _, _ => false
  | (UV_FS_STAT | UV_FS_CHMOD | UV_FS_CHOWN | UV_FS_UTIME), _, None, None => true
  | (UV_FS_STAT | UV_FS_CHMOD | UV_FS_CHOWN | UV_FS_UTIME), _, _, _ => false
  | _, None, None, None => true
  | _, _, _, _ => false
  end.

(** ** Pending one-shot callbacks

    What the callback will find in the request: the object it was armed for, and
    the pointers from which it releases the references libuv holds. *)
Definition arm_ok (w : world) (a : armed) : Prop :=
  let r := arm_obj a in
  let rp := r_props <$> w_reqs w !! r in
  match arm_cb a with
  | cb_connect | cb_shutdown => ∃ h, arm_toks a = [TH h; TR r]
  | cb_write => ∃ h b, arm_toks a = [TH h; TB b; TR r] ∧ rp = Some (R_write (Some b))
  | cb_write2 => ∃ h b s, arm_toks a = [TH h; TB b; TH s; TR r] ∧ rp = Some (R_write (Some b))
  | cb_udp_send => ∃ h b q, arm_toks a = [TH h; TB b; TR r] ∧ rp = Some (R_udp_send (Some b) q)
  | cb_work | cb_getaddrinfo | cb_getnameinfo => arm_toks a = [TR r]
  | cb_async | cb_file_open => arm_toks a = [TH r]
  | cb_file_read => ∃ b, arm_toks a = [TB b] ∧
      ∃ i io f, w_handles w !! r = Some i ∧ h_props i = P_file io f ∧ fi_rd_data f = Some r ∧
        TH r ∈ hinst_toks r i
  | cb_fs t => ∃ own uh ub off ps uo, rp = Some (R_fs own uh ub off ps uo) ∧
      fs_shape t uh ub uo = true ∧
      arm_toks a = opt_tok TH uo ++ opt_tok TH uh ++ opt_tok TB ub ++ [TR r]
  end.

(** ** The invariant *)

(** The owners of [t]: variables, instances and pending callbacks, the running
    code [F], and the objects in destruction [X]. *)
Definition total (F : list token) (X : list dying) (w : world) (t : token) : nat :=
  owned w t + cnt t F + cnt t (X ≫= dying_toks).

(** [F]: references held by the running code itself (parameters, temporaries,
    guards). Every object that exists has exactly as many references as owners,
    an object without owners is in destruction, and no owner refers to an object
    that does not exist. *)
Record Inv (F : list token) (X : list dying) (w : world) : Prop := {
  inv_count : ∀ t,
    match refs_of w t with
    | Some n => n = Z.of_nat (total F X w t) ∧ (n = 0%Z → t ∈ dying_tok <$> X)
    | None => total F X w t = 0
    end;
  inv_dying : Forall (dying_ok w) X;
  inv_nodup : NoDup (dying_tok <$> X);
  inv_fresh : ∀ t, (w_brk w ≤ tok_addr t)%Z → refs_of w t = None;
  inv_armed : Forall (arm_ok w) (w_armed w);
  inv_endpoints : ∀ h i, w_handles w !! h = Some i → h_refs i ≠ 0%Z →
    Forall (endpoint_ok w) (props_endpoints (h_props i));
  inv_brk : (0 ≤ w_brk w)%Z
}.

(** [t] has an owner. *)
Definition live (F : list token) (w : world) (t : token) : Prop := 0 < owned w t + cnt t F.

(** ** States that differ only in counters, statuses, libuv data and the log *)

Definition hinst_sim (i j : hinst) : Prop :=
  h_props i = h_props j ∧ h_loop i = h_loop j ∧ h_destroy_cb i = h_destroy_cb j ∧
  h_iface i = h_iface j.
Definition rinst_sim (i j : rinst) : Prop :=
  r_props i = r_props j ∧ r_request_cb i = r_request_cb j ∧ r_destroy_cb i = r_destroy_cb j.
Definition binst_sim (i j : binst) : Prop := b_bufs i = b_bufs j ∧ b_sink_cb i = b_sink_cb j.
Definition linst_sim (i j : linst) : Prop :=
  l_destroy_cb i = l_destroy_cb j ∧ l_exit_cb i = l_exit_cb j.

Record wpsim (w w' : world) : Prop := {
  sim_h : ∀ h, option_Forall2 hinst_sim (w_handles w !! h) (w_handles w' !! h);
  sim_r : ∀ r, option_Forall2 rinst_sim (w_reqs w !! r) (w_reqs w' !! r);
  sim_b : ∀ b, option_Forall2 binst_sim (w_bufs w !! b) (w_bufs w' !! b);
  sim_l : ∀ l, option_Forall2 linst_sim (w_loops w !! l) (w_loops w' !! l);
  sim_vars : w_vars w = w_vars w';
  sim_armed : w_armed w = w_armed w';
  sim_brk : w_brk w = w_brk w'
}.

(** ... and in which the same handles are in destruction. *)
Definition h_dead (i : hinst) : bool := (h_refs i =? 0)%Z.
Definition wsim (w w' : world) : Prop :=
  wpsim w w' ∧ ∀ h, h_dead <$> w_handles w !! h = h_dead <$> w_handles w' !! h.

#[export] Instance hinst_sim_equiv : Equivalence hinst_sim.
Proof. unfold hinst_sim; split; red; intuition congruence. Qed.
#[export] Instance rinst_sim_equiv : Equivalence rinst_sim.
Proof. unfold rinst_sim; split; red; intuition congruence. Qed.
#[export] Instance binst_sim_equiv : Equivalence binst_sim.
Proof. unfold binst_sim; split; red; intuition congruence. Qed.
#[export] Instance linst_sim_equiv : Equivalence linst_sim.
Proof. unfold linst_sim; split; red; intuition congruence. Qed.

#[export] Instance wpsim_equiv : Equivalence wpsim.
Proof.
  split.
  - intros w. by split; intros.
  - intros w w' []. split; intros; by symmetry.
  - intros w1 w2 w3 [] []. split; intros; etrans; eauto.
Qed.

#[export] Instance wsim_equiv : Equivalence wsim.
Proof.
  split.
  - by split.
  - intros w w' [S D]. split; intros; by symmetry.
  - intros w1 w2 w3 [S D] [S' D']. split; [by transitivity w2|]. intros. by rewrite D.
Qed.

(** ** What the equivalences preserve *)

Lemma sim_handle w w' h i :
  wpsim w w' → w_handles w !! h = Some i → ∃ j, w_handles w' !! h = Some j ∧ hinst_sim i j.
Proof. intros S Hi. pose proof (sim_h _ _ S h) as R. rewrite Hi in R. inversion R; eauto. Qed.
Lemma sim_req w w' r i :
  wpsim w w' → w_reqs w !! r = Some i → ∃ j, w_reqs w' !! r = Some j ∧ rinst_sim i j.
Proof. intros S Hi. pose proof (sim_r _ _ S r) as R. rewrite Hi in R. inversion R; eauto. Qed.
Lemma sim_buf w w' b i :
  wpsim w w' → w_bufs w !! b = Some i → ∃ j, w_bufs w' !! b = Some j ∧ binst_sim i j.
Proof. intros S Hi. pose proof (sim_b _ _ S b) as R. rewrite Hi in R. inversion R; eauto. Qed.
Lemma sim_loop w w' l i :
  wpsim w w' → w_loops w !! l = Some i → ∃ j, w_loops w' !! l = Some j ∧ linst_sim i j.
Proof. intros S Hi. pose proof (sim_l _ _ S l) as R. rewrite Hi in R. inversion R; eauto. Qed.

Lemma hinst_toks_sim h i j :
  hinst_sim i j → h_dead i = h_dead j → hinst_toks h i = hinst_toks h j.
Proof. intros (Hp & Hl & _) Hr. unfold hinst_toks, h_dead in *. by rewrite Hp, Hl, Hr. Qed.

#[export] Instance owned_proper : Proper (wsim ==> eq ==> eq) owned.
Proof.
  intros w w' [S D] t ? <-. unfold owned. rewrite (sim_vars _ _ S), (sim_armed _ _ S).
  do 2 f_equal. apply msum_rel. intros h. specialize (D h).
  destruct (sim_h _ _ S h) as [i j Hij|]; constructor.
  rewrite (hinst_toks_sim h i j); [done..|by simplify_eq/=].
Qed.

#[export] Instance live_proper F : Proper (wsim ==> eq ==> iff) (live F).
Proof. intros w w' S t ? <-. unfold live. by rewrite S. Qed.

Lemma sim_rprops w w' r : wpsim w w' → r_props <$> w_reqs w !! r = r_props <$> w_reqs w' !! r.
Proof.
  intros S. pose proof (sim_r _ _ S r) as R.
  inversion R as [i j (Hp & _)|]; cbn; congruence.
Qed.

Lemma sim_hprops w w' h :
  wpsim w w' → h_props <$> w_handles w !! h = h_props <$> w_handles w' !! h.
Proof.
  intros S. pose proof (sim_h _ _ S h) as R.
  inversion R as [i j (Hp & _)|]; cbn; congruence.
Qed.

Lemma sim_hloop w w' h :
  wpsim w w' → h_loop <$> w_handles w !! h = h_loop <$> w_handles w' !! h.
Proof.
  intros S. pose proof (sim_h _ _ S h) as R.
  inversion R as [i j (_ & Hp & _)|]; cbn; congruence.
Qed.

Lemma sim_hiface w w' h :
  wpsim w w' → h_iface <$> w_handles w !! h = h_iface <$> w_handles w' !! h.
Proof.
  intros S. pose proof (sim_h _ _ S h) as R.
  inversion R as [i j (_ & _ & _ & Hp)|]; cbn; congruence.
Qed.

Lemma sim_bbufs w w' b :
  wpsim w w' → b_bufs <$> w_bufs w !! b = b_bufs <$> w_bufs w' !! b.
Proof.
  intros S. pose proof (sim_b _ _ S b) as R.
  inversion R as [i j (Hp & _)|]; cbn; congruence.
Qed.

Lemma arm_ok_sim w w' a : wsim w w' → arm_ok w a → arm_ok w' a.
Proof.
  intros [S D]. unfold arm_ok. rewrite (sim_rprops w w') by done.
  destruct (arm_cb a); try done.
  intros (b & Ht & i & io & f & Hi & Hp & Hd & Ho). exists b. split; [done|].
  destruct (sim_handle w w' _ _ S Hi) as (j & Hj & Hs). specialize (D (arm_obj a)).
  rewrite Hi, Hj in D. rewrite (hinst_toks_sim _ i j) in Ho by (done || by simplify_eq/=).
  destruct Hs as (Hp' & _). exists j, io, f. split_and!; congruence || done.
Qed.

Lemma refs_of_sim w w' t : wpsim w w' → refs_of w t = None ↔ refs_of w' t = None.
Proof.
  intros S. destruct t as [x|x|x|x]; cbn; rewrite !fmap_None.
  - pose proof (sim_h _ _ S x) as R; by inversion R.
  - pose proof (sim_r _ _ S x) as R; by inversion R.
  - pose proof (sim_b _ _ S x) as R; by inversion R.
  - pose proof (sim_l _ _ S x) as R; by inversion R.
Qed.

Lemma endpoint_ok_sim w w' o : wpsim w w' → endpoint_ok w o → endpoint_ok w' o.
Proof.
  intros S. destruct o as [e|]; [|done]. intros (j & Hj & Hp).
  destruct (sim_handle w w' _ _ S Hj) as (j' & Hj' & Hp' & _).
  exists j'. split; congruence.
Qed.

Lemma endpoints_ok_sim w w' l :
  wpsim w w' → Forall (endpoint_ok w) l → Forall (endpoint_ok w') l.
Proof. intros S. apply Forall_impl. eauto using endpoint_ok_sim. Qed.

Lemma dying_ok_sim w w' d :
  wpsim w w' → refs_of w (dying_tok d) = refs_of w' (dying_tok d) →
  dying_ok w d → dying_ok w' d.
Proof.
  intros S. destruct d as [h lo eps|h eps rest|r|b|l]; cbn; intros Hr.
  - intros (i & Hi & H0 & Hl & He & Hf). rewrite Hi in Hr.
    destruct (sim_handle _ _ _ _ S Hi) as (j & Hj & Hp & Hl' & _). rewrite Hj in Hr.
    exists j. cbn in Hr. split_and!; [done|congruence..|eauto using endpoints_ok_sim].
  - intros (i & Hi & H0 & He & Hf). rewrite Hi in Hr.
    destruct (sim_handle _ _ _ _ S Hi) as (j & Hj & Hp & _). rewrite Hj in Hr. cbn in Hr.
    exists j. split_and!; [done|congruence..|eauto using endpoints_ok_sim].
  - intros (i & Hi & H0). rewrite Hi in Hr.
    destruct (sim_req _ _ _ _ S Hi) as (j & Hj & _). rewrite Hj in Hr. cbn in Hr.
    exists j. split; congruence.
  - intros (i & Hi & H0). rewrite Hi in Hr.
    destruct (sim_buf _ _ _ _ S Hi) as (j & Hj & _). rewrite Hj in Hr. cbn in Hr.
    exists j. split; congruence.
  - intros (i & Hi & H0). rewrite Hi in Hr.
    destruct (sim_loop _ _ _ _ S Hi) as (j & Hj & _). rewrite Hj in Hr. cbn in Hr.
    exists j. split; congruence.
Qed.

Lemma dying_refs w d : dying_ok w d → refs_of w (dying_tok d) = Some 0%Z.
Proof.
  destruct d; cbn.
  - by intros (? & -> & <- & _).
  - by intros (? & -> & <- & _).
  - by intros (? & -> & <-).
  - by intros (? & -> & <-).
  - by intros (? & -> & <-).
Qed.

(** ** Owners of an object *)

Lemma owned_handle w h i t :
  w_handles w !! h = Some i → t ∈ hinst_toks h i → 0 < owned w t.
Proof.
  intros Hi Ht%cnt_elem. unfold owned.
  pose proof (msum_lookup_le (λ h i, cnt t (hinst_toks h i)) _ _ _ Hi). cbn in *. lia.
Qed.

Lemma owned_armed w a t : a ∈ w_armed w → t ∈ arm_toks a → 0 < owned w t.
Proof.
  intros Ha Ht. assert (t ∈ w_armed w ≫= arm_toks) as H%cnt_elem.
  { apply list_elem_of_bind. eauto. }
  unfold owned. lia.
Qed.

Lemma owned_count F X w t n : Inv F X w → refs_of w t = Some n → 0 < owned w t → n ≠ 0%Z.
Proof.
  intros I Hn Ho. pose proof (inv_count _ _ _ I t) as Hc. rewrite Hn in Hc.
  unfold total in Hc. lia.
Qed.

Lemma owned_upd_handle w h i j t :
  w_handles w !! h = Some i →
  owned (upd_handles (<[h := j]>) w) t + cnt t (hinst_toks h i) =
  owned w t + cnt t (hinst_toks h j).
Proof.
  intros Hi. unfold owned. cbn.
  pose proof (msum_update (λ h i, cnt t (hinst_toks h i)) _ _ _ j Hi). cbn in *. lia.
Qed.

Lemma owned_delete_handle w h i t :
  w_handles w !! h = Some i →
  owned w t = cnt t (hinst_toks h i) + owned (upd_handles (delete h) w) t.
Proof.
  intros Hi. unfold owned. cbn.
  pose proof (msum_delete (λ h i, cnt t (hinst_toks h i)) _ _ _ Hi). cbn in *. lia.
Qed.

(** ** How the invariant moves

    From one equivalent state to another: the counters change by what the frame
    changes. *)
Definition refs_move (F F' : list token) (w w' : world) : Prop := ∀ t,
  match refs_of w t, refs_of w' t with
  | Some n, Some n' => (n' + Z.of_nat (cnt t F) = n + Z.of_nat (cnt t F'))%Z ∧
                       (n' = 0 ↔ n = 0)%Z
  | None, None => cnt t F = cnt t F'
  | _, _ => False
  end.

Lemma Inv_move F F' X w w' : wsim w w' → refs_move F F' w w' → Inv F X w → Inv F' X w'.
Proof.
  intros Sd HM I. pose proof Sd as [S D]. split.
  - intros t. pose proof (inv_count _ _ _ I t) as Hc. specialize (HM t).
    unfold total in *. rewrite <-(owned_proper w w' Sd t t eq_refl).
    destruct (refs_of w t) as [n|], (refs_of w' t) as [n'|]; try done.
    + destruct Hc as [Hc Hd], HM as [Hm Hz]. split; [lia|]. rewrite Hz. done.
    + lia.
  - pose proof (inv_dying _ _ _ I) as Hd. rewrite list.Forall_forall in Hd |- *.
    intros d Hin. specialize (Hd d Hin). eapply dying_ok_sim; [done| |done].
    specialize (HM (dying_tok d)).
    pose proof (dying_refs _ _ Hd) as E.
    rewrite E in *. destruct (refs_of w' (dying_tok d)); [|done].
    destruct HM as [_ HM]. f_equal. symmetry. by apply HM.
  - apply I.
  - intros t Ht. apply (refs_of_sim w w'); [done|]. apply (inv_fresh _ _ _ I).
    by rewrite (sim_brk _ _ S).
  - rewrite <-(sim_armed _ _ S). apply (Forall_impl _ (λ a, arm_ok_sim w w' a Sd)), I.
  - intros h i Hi H0. symmetry in S. specialize (D h).
    destruct (sim_handle _ _ _ _ S Hi) as (j & Hj & Hp & _). rewrite Hi, Hj in D.
    rewrite Hp. symmetry in S. eapply endpoints_ok_sim; [done|].
    eapply inv_endpoints; [done..|]. intros E. unfold h_dead in D. simplify_eq/=. lia.
  - rewrite <-(sim_brk _ _ S). apply I.
Qed.

Lemma refs_move_perm F F' w : F ≡ₚ F' → refs_move F F' w w.
Proof.
  intros HP t. assert (cnt t F = cnt t F') as -> by by rewrite HP. destruct (refs_of w t); [split; [lia|done]|done].
Qed.

#[export] Instance Inv_perm : Proper ((≡ₚ) ==> eq ==> eq ==> iff) Inv.
Proof.
  intros F F' HP X ? <- w ? <-.
  split; apply Inv_move; (reflexivity || apply refs_move_perm); [done|by symmetry].
Qed.

Lemma refs_move_same F w w' : (∀ t, refs_of w' t = refs_of w t) → refs_move F F w w'.
Proof. intros E t. rewrite E. by destruct (refs_of w t). Qed.

(** States that differ only in statuses, libuv data and the log. *)
Definition wsame (w w' : world) : Prop := wsim w w' ∧ ∀ t, refs_of w' t = refs_of w t.

#[export] Instance wsame_equiv : Equivalence wsame.
Proof.
  split.
  - by split.
  - intros w w' [? ?]; split; [by symmetry|done].
  - intros w1 w2 w3 [? ?] [? ?]; split; [by etrans|congruence].
Qed.

#[export] Instance Inv_same F X : Proper (wsame ==> iff) (Inv F X).
Proof.
  intros w w' H. split.
  - destruct H. eauto using Inv_move, refs_move_same.
  - symmetry in H. destruct H. eauto using Inv_move, refs_move_same.
Qed.

Lemma wsame_sim w w' : wsame w w' → wsim w w'.
Proof. by intros []. Qed.
