(* ===== verification/Wp.v ===== *)
(** * Weakest preconditions of the monad

    [wp m Q w]: run from [w], [m] returns, and its result and final state satisfy
    [Q]. No exception, undefined behaviour, termination or endless loop is allowed. *)

From Stdlib Require Import ZArith Lia.
From stdpp Require Import base gmap list strings option.
From S2P Require Import Prelude World Objects Ledger.

Definition wp {A} (m : M A) (Q : A → world → Prop) (w : world) : Prop :=
  match m w with Ok a w' => Q a w' | _ => False end.

Section wp.
Context {A B : Type}.
Implicit Types (Q : A → world → Prop) (R : B → world → Prop).

Lemma wp_ret (a : A) Q w : Q a w → wp (mret a) Q w.
Proof. done. Qed.

Lemma wp_bind (m : M A) (k : A → M B) R w :
  wp m (λ a w', wp (k a) R w') w → wp (m ≫= k) R w.
Proof. unfold wp, mbind, M_bind. by destruct (m w). Qed.

Lemma wp_mono (m : M A) Q Q' w : wp m Q w → (∀ a w', Q a w' → Q' a w') → wp m Q' w.
Proof. unfold wp. destruct (m w); eauto. Qed.

(** A run has one outcome: what is known of it from two sides. *)
Lemma wp_and (m : M A) Q Q' w : wp m Q w → wp m Q' w → wp m (λ a w', Q a w' ∧ Q' a w') w.
Proof. unfold wp. by destruct (m w). Qed.

Lemma wp_eq (m m' : M A) Q w : m w = m' w → wp m' Q w → wp m Q w.
Proof. unfold wp. by intros ->. Qed.

(** The run itself, where the statement is about what it goes through. *)
Lemma wp_run (m : M A) Q w : wp m (λ a w', m w = Ok a w' → Q a w') w → wp m Q w.
Proof. unfold wp. destruct (m w) eqn:He; auto. Qed.

Lemma wp_noexcept (m : M A) Q w : wp m Q w → wp (noexcept m) Q w.
Proof. unfold wp, noexcept. by destruct (m w). Qed.

Lemma wp_finally (m : M A) fin Q w :
  wp m (λ a w', wp fin (λ _ w'', Q a w'') w') w → wp (finally m fin) Q w.
Proof. unfold wp, finally. destruct (m w); try done. by destruct (fin _). Qed.

Lemma wp_on_throw (m : M A) fin Q w : wp m Q w → wp (on_throw m fin) Q w.
Proof. unfold wp, on_throw. by destruct (m w). Qed.

Lemma wp_if (b : bool) (m1 m2 : M A) Q w :
  (b = true → wp m1 Q w) → (b = false → wp m2 Q w) → wp (if b then m1 else m2) Q w.
Proof. destruct b; auto. Qed.
End wp.

Lemma wp_modify f (Q : unit → world → Prop) w : Q tt (f w) → wp (modify f) Q w.
Proof. done. Qed.
Lemma wp_get (Q : world → world → Prop) w : Q w w → wp get Q w.
Proof. done. Qed.
Lemma wp_deref l (Q : loc → world → Prop) w : Q l w → wp (deref (Some l)) Q w.
Proof. done. Qed.
Lemma wp_when (b : bool) m (Q : unit → world → Prop) w :
  (b = true → wp m Q w) → (b = false → Q tt w) → wp (when b m) Q w.
Proof. destruct b; cbn; intros H1 H2; [by apply H1|by apply H2]. Qed.

Lemma wp_get_h h i (Q : hinst → world → Prop) w :
  w_handles w !! h = Some i → Q i w → wp (get_h h) Q w.
Proof. unfold wp, get_h. by intros ->. Qed.
Lemma wp_get_r r i (Q : rinst → world → Prop) w :
  w_reqs w !! r = Some i → Q i w → wp (get_r r) Q w.
Proof. unfold wp, get_r. by intros ->. Qed.
Lemma wp_get_b b i (Q : binst → world → Prop) w :
  w_bufs w !! b = Some i → Q i w → wp (get_b b) Q w.
Proof. unfold wp, get_b. by intros ->. Qed.
Lemma wp_get_l l i (Q : linst → world → Prop) w :
  w_loops w !! l = Some i → Q i w → wp (get_l l) Q w.
Proof. unfold wp, get_l. by intros ->. Qed.

Lemma wp_mod_h h i f (Q : unit → world → Prop) w :
  w_handles w !! h = Some i → Q tt (upd_handles (<[h := f i]>) w) → wp (mod_h h f) Q w.
Proof. intros Hi HQ. apply wp_bind. by eapply wp_get_h. Qed.
Lemma wp_mod_r r i f (Q : unit → world → Prop) w :
  w_reqs w !! r = Some i → Q tt (upd_reqs (<[r := f i]>) w) → wp (mod_r r f) Q w.
Proof. intros Hi HQ. apply wp_bind. by eapply wp_get_r. Qed.
Lemma wp_mod_b b i f (Q : unit → world → Prop) w :
  w_bufs w !! b = Some i → Q tt (upd_bufs (<[b := f i]>) w) → wp (mod_b b f) Q w.
Proof. intros Hi HQ. apply wp_bind. by eapply wp_get_b. Qed.
Lemma wp_mod_l l i f (Q : unit → world → Prop) w :
  w_loops w !! l = Some i → Q tt (upd_loops (<[l := f i]>) w) → wp (mod_l l f) Q w.
Proof. intros Hi HQ. apply wp_bind. by eapply wp_get_l. Qed.

(** ** States reached by updates of one cell *)

Section updates.
Implicit Types w : world.

Lemma option_Forall2_insert {V} (R : V → V → Prop) `{!Reflexive R} (m : gmap loc V) k x y l :
  m !! k = Some x → R x y → option_Forall2 R (m !! l) (<[k := y]> m !! l).
Proof.
  intros Hk HR. destruct (decide (k = l)) as [->|Hne].
  - rewrite Hk, lookup_insert_eq. by constructor.
  - by rewrite lookup_insert_ne by done.
Qed.

Lemma wpsim_handle w h i j :
  w_handles w !! h = Some i → hinst_sim i j → wpsim w (upd_handles (<[h := j]>) w).
Proof. intros Hi HR. split; cbn; try done. intros. by eapply option_Forall2_insert. Qed.
Lemma wpsim_req w r i j :
  w_reqs w !! r = Some i → rinst_sim i j → wpsim w (upd_reqs (<[r := j]>) w).
Proof. intros Hi HR. split; cbn; try done. intros. by eapply option_Forall2_insert. Qed.
Lemma wpsim_buf w b i j :
  w_bufs w !! b = Some i → binst_sim i j → wpsim w (upd_bufs (<[b := j]>) w).
Proof. intros Hi HR. split; cbn; try done. intros. by eapply option_Forall2_insert. Qed.
Lemma wpsim_loop w l i j :
  w_loops w !! l = Some i → linst_sim i j → wpsim w (upd_loops (<[l := j]>) w).
Proof. intros Hi HR. split; cbn; try done. intros. by eapply option_Forall2_insert. Qed.

Lemma fmap_insert_same {V A} (f : V → A) (m : gmap loc V) k x y l :
  m !! k = Some x → f x = f y → f <$> <[k := y]> m !! l = f <$> m !! l.
Proof.
  intros Hk Hf. destruct (decide (k = l)) as [->|Hne].
  - rewrite Hk, lookup_insert_eq. cbn. by rewrite Hf.
  - by rewrite lookup_insert_ne by done.
Qed.

Lemma wsame_handle w h i j :
  w_handles w !! h = Some i → hinst_sim i j → h_refs i = h_refs j →
  wsame w (upd_handles (<[h := j]>) w).
Proof.
  intros Hi HR Hr. split; [split; [by eapply wpsim_handle|]|].
  - intros l. symmetry. eapply fmap_insert_same; [done|]. unfold h_dead. by rewrite Hr.
  - intros []; cbn; try done. by eapply fmap_insert_same.
Qed.
Lemma wsame_req w r i j :
  w_reqs w !! r = Some i → rinst_sim i j → r_refs i = r_refs j →
  wsame w (upd_reqs (<[r := j]>) w).
Proof.
  intros Hi HR Hr. split; [by split; [eapply wpsim_req|]|].
  intros []; cbn; try done. by eapply fmap_insert_same.
Qed.
Lemma wsame_loop w l i j :
  w_loops w !! l = Some i → linst_sim i j → l_refs i = l_refs j →
  wsame w (upd_loops (<[l := j]>) w).
Proof.
  intros Hi HR Hr. split; [by split; [eapply wpsim_loop|]|].
  intros []; cbn; try done. by eapply fmap_insert_same.
Qed.

Lemma wsame_log w f : wsame w (upd_log f w).
Proof. split; [by split; [split|]|by intros []]. Qed.
Lemma wsame_unwinding w b : wsame w (upd_unwinding b w).
Proof. split; [by split; [split|]|by intros []]. Qed.

Lemma option_Forall2_alter {V} (R : V → V → Prop) `{!Reflexive R} f (m : gmap loc V) k l :
  (∀ x, R x (f x)) → option_Forall2 R (m !! l) (alter f k m !! l).
Proof.
  intros HR. destruct (decide (k = l)) as [->|Hne].
  - rewrite lookup_alter_eq. destruct (m !! l); cbn; by constructor.
  - by rewrite lookup_alter_ne by done.
Qed.

Lemma fmap_alter_same {V A} (g : V → A) f (m : gmap loc V) k l :
  (∀ x, g (f x) = g x) → g <$> alter f k m !! l = g <$> m !! l.
Proof.
  intros Hg. destruct (decide (k = l)) as [->|Hne].
  - rewrite lookup_alter_eq. destruct (m !! l); cbn; by rewrite ?Hg.
  - by rewrite lookup_alter_ne by done.
Qed.

Lemma wsame_uv_write w o : wsame w (apply_uv_write o w).
Proof.
  destruct o as [h f|r f|l f];
    (split; [split; [split; cbn; try done|intros x; cbn; try done]|intros []; cbn; try done]).
  all: try intros x; by (apply option_Forall2_alter || apply fmap_alter_same ||
                         (symmetry; apply fmap_alter_same)).
Qed.

Lemma wsame_uv_writes l w : wsame w (apply_uv_writes l w).
Proof.
  revert w. induction l as [|o l IH]; intros w; cbn; [done|].
  etrans; [apply wsame_uv_write|apply IH].
Qed.

Lemma log_uv_writes l w : w_log (apply_uv_writes l w) = w_log w.
Proof.
  unfold apply_uv_writes. revert w. induction l as [|o l IH]; intros w; cbn; [done|].
  rewrite IH. by destruct o.
Qed.
End updates.

(** ** The counter of any object *)

Definition tok_set (t : token) (n : Z) (w : world) : world :=
  match t with
  | TH h => upd_handles (alter (set_h_refs n) h) w
  | TR r => upd_reqs (alter (set_r_refs n) r) w
  | TB b => upd_bufs (alter (set_b_refs n) b) w
  | TL l => upd_loops (alter (set_l_refs n) l) w
  end.

Lemma tok_set_handle h i n w :
  w_handles w !! h = Some i → tok_set (TH h) n w = upd_handles (<[h := set_h_refs n i]>) w.
Proof. intros Hi. unfold tok_set, upd_handles. f_equal. by apply alter_alt_Some. Qed.
Lemma tok_set_req r i n w :
  w_reqs w !! r = Some i → tok_set (TR r) n w = upd_reqs (<[r := set_r_refs n i]>) w.
Proof. intros Hi. unfold tok_set, upd_reqs. f_equal. by apply alter_alt_Some. Qed.
Lemma tok_set_buf b i n w :
  w_bufs w !! b = Some i → tok_set (TB b) n w = upd_bufs (<[b := set_b_refs n i]>) w.
Proof. intros Hi. unfold tok_set, upd_bufs. f_equal. by apply alter_alt_Some. Qed.
Lemma tok_set_loop l i n w :
  w_loops w !! l = Some i → tok_set (TL l) n w = upd_loops (<[l := set_l_refs n i]>) w.
Proof. intros Hi. unfold tok_set, upd_loops. f_equal. by apply alter_alt_Some. Qed.

Lemma refs_of_tok_set t n w u :
  refs_of (tok_set t n w) u = if decide (t = u) then (λ _, n) <$> refs_of w t else refs_of w u.
Proof.
  destruct (decide (t = u)) as [<-|Hne].
  - destruct t as [x|x|x|x]; cbn; rewrite lookup_alter_eq;
      [destruct (w_handles w !! x)|destruct (w_reqs w !! x)|destruct (w_bufs w !! x)
      |destruct (w_loops w !! x)]; done.
  - destruct t as [x|x|x|x], u as [y|y|y|y]; cbn; try done;
      rewrite lookup_alter_ne; congruence.
Qed.

Lemma wpsim_tok_set t n w : wpsim w (tok_set t n w).
Proof. destruct t; (split; cbn; try done); intros; by apply option_Forall2_alter. Qed.

Lemma wsim_tok_set t n m w :
  refs_of w t = Some m → (m =? 0)%Z = (n =? 0)%Z → wsim w (tok_set t n w).
Proof.
  intros Hm Hz. split; [apply wpsim_tok_set|]. destruct t as [x|x|x|x]; try done.
  cbn in *. intros l. destruct (decide (x = l)) as [->|Hne]; [|by rewrite lookup_alter_ne].
  rewrite lookup_alter_eq. destruct (w_handles w !! l); [|done].
  unfold h_dead. simplify_eq/=. by rewrite Hz.
Qed.

(** What [ref()] does when it succeeds. *)
Lemma wp_tok_ref_eq `{E : Env} t n (Q : unit → world → Prop) w :
  refs_of w t = Some n → n ≠ 0%Z → Q tt (tok_set t (n + 1) w) → wp (tok_ref t) Q w.
Proof.
  intros Hn H0 HQ. destruct t as [x|x|x|x]; cbn in Hn;
    apply fmap_Some in Hn as (i & Hi & ->);
    (rewrite (tok_set_handle _ _ _ _ Hi) in HQ || rewrite (tok_set_req _ _ _ _ Hi) in HQ ||
     rewrite (tok_set_buf _ _ _ _ Hi) in HQ || rewrite (tok_set_loop _ _ _ _ Hi) in HQ);
    apply wp_bind; (eapply wp_get_h || eapply wp_get_r || eapply wp_get_b || eapply wp_get_l);
    try done; unfold ref_count.inc; (rewrite (proj2 (Z.eqb_neq _ _)) by done);
    (eapply wp_mod_h || eapply wp_mod_r || eapply wp_mod_b || eapply wp_mod_l); done.
Qed.

(** ** Calls of libuv *)

Section calls.
Context `{E : Env}.

Lemma wp_uv_call_eq f args (Q : Z → world → Prop) w :
  (∀ w', wsame w w' → w_log w' = E_uv f args (rp_ret (uv_exec (w_log w) f args)) :: w_log w →
    Q (rp_ret (uv_exec (w_log w) f args)) w') →
  wp (uv_call f args) Q w.
Proof.
  intros HQ. unfold uv_call, uv_call_out. apply wp_bind. cbn. apply HQ.
  - etrans; [apply wsame_uv_writes|apply wsame_log].
  - cbn. by rewrite log_uv_writes.
Qed.

Lemma wp_uv_call f args (Q : Z → world → Prop) w :
  (∀ z w', wsame w w' → Q z w') → wp (uv_call f args) Q w.
Proof. intros HQ. apply wp_uv_call_eq. auto. Qed.

Lemma wp_uv_call_out f args (Q : Z * list Z → world → Prop) w :
  (∀ z w', wsame w w' → Q z w') → wp (uv_call_out f args) Q w.
Proof. intros HQ. apply HQ. etrans; [apply wsame_uv_writes|apply wsame_log]. Qed.

Lemma wp_log_event e (Q : unit → world → Prop) w :
  (∀ w', wsame w w' → w_log w' = e :: w_log w → Q tt w') → wp (log_event e) Q w.
Proof. intros HQ. apply HQ; [apply wsame_log|done]. Qed.
End calls.

(** One step of symbolic execution through the structure of a computation. *)
Ltac wp_struct :=
  lazymatch goal with
  | |- wp (mbind _ _) _ _ => apply wp_bind
  | |- wp (mret _) _ _ => apply wp_ret
  | |- wp (noexcept _) _ _ => apply wp_noexcept
  | |- wp (finally _ _) _ _ => apply wp_finally
  | |- wp (on_throw _ _) _ _ => apply wp_on_throw
  | |- wp get _ _ => apply wp_get
  | |- wp (deref (Some _)) _ _ => apply wp_deref
  | |- wp (when true _) _ _ => cbn [when]
  | |- wp (when false _) _ _ => apply wp_ret
  | H : w_handles ?w !! ?h = Some _ |- wp (get_h ?h) _ ?w => apply (wp_get_h _ _ _ _ H)
  | H : w_reqs ?w !! ?h = Some _ |- wp (get_r ?h) _ ?w => apply (wp_get_r _ _ _ _ H)
  | H : w_bufs ?w !! ?h = Some _ |- wp (get_b ?h) _ ?w => apply (wp_get_b _ _ _ _ H)
  | H : w_loops ?w !! ?h = Some _ |- wp (get_l ?h) _ ?w => apply (wp_get_l _ _ _ _ H)
  | H : w_handles ?w !! ?h = Some _ |- wp (mod_h ?h _) _ ?w => apply (wp_mod_h _ _ _ _ _ H)
  | H : w_reqs ?w !! ?h = Some _ |- wp (mod_r ?h _) _ ?w => apply (wp_mod_r _ _ _ _ _ H)
  | H : w_bufs ?w !! ?h = Some _ |- wp (mod_b ?h _) _ ?w => apply (wp_mod_b _ _ _ _ _ H)
  | H : w_loops ?w !! ?h = Some _ |- wp (mod_l ?h _) _ ?w => apply (wp_mod_l _ _ _ _ _ H)
  end.
Ltac wp_structs := repeat (wp_struct; cbn beta).
