(* ===== verification/Refs.v ===== *)
(** * References: taking, releasing and the end of objects

    What the environment promises, and the rules of [ref()], [unref()] and of the
    calls of libuv and of client functions with respect to the ledger. *)

From Stdlib Require Import ZArith Lia.
From stdpp Require Import base gmap list strings option.
From S2P Require Import Prelude World Objects Ledger Wp.

(** ** Well-behaved environments *)

(** Queries that do not change the state of a loop. *)
Definition is_query (e : event) : Prop :=
  match e with E_uv f_is_closing _ _ | E_uv f_walk _ _ => True | _ => False end.

(** The functions that initialise a handle on a loop. *)
Definition is_init (f : uvfn) : bool :=
  match f with
  | f_tcp_init | f_tcp_init_ex | f_pipe_init | f_tty_init | f_udp_init | f_udp_init_ex
  | f_async_init | f_timer_init | f_watcher_init _ | f_fs_event_init | f_signal_init
  | f_fs_open => true
  | _ => false
  end.

(** The final value of a parameter has the type of the parameter. *)
Definition arg_shape (a a' : arg) : Prop :=
  match a, a' with
  | A_ptr (PH _), A_ptr (PH _) | A_ptr (PR _), A_ptr (PR _) | A_ptr (PB _), A_ptr (PB _)
  | A_ptr (PL _), A_ptr (PL _) | A_int _, A_int _ | A_str _, A_str _ => True
  | _, _ => False
  end.

(** The client's functions keep the ledger (they release and take references only
    through the class objects); a sink that gets a buffer variable leaves it or
    moves from it. libuv documents that
    an initialised handle knows its loop, which does not change, and that a loop whose handles are all closed can be
    closed after it has been run until nothing is left to do. *)
Class EnvOk `{E : Env} := {
  env_cb id args F X w :
    Inv (args_toks args ++ F) X w →
    wp (user_cb id args) (λ args' w',
      Inv (args_toks args' ++ F) X w' ∧ Forall2 arg_shape args args' ∧
      (∀ b, args = [A_ptr (PB (Some b))] → args' = args ∨ args' = [A_ptr (PB None)])) w;
  env_init log f l h rest w i :
    is_init f = true → w_handles w !! h = Some i →
    let rp := uv_exec log f (V_loop (Some l) :: V_handle (Some h) :: rest) in
    (0 ≤ rp_ret rp)%Z →
    (λ i, uh_loop (h_uv i)) <$> w_handles (apply_uv_writes (rp_writes rp) w) !! h =
      Some (Some l);
  env_loop_kept log f args h w :
    is_init f = false →
    (λ i, uh_loop (h_uv i)) <$>
      w_handles (apply_uv_writes (rp_writes (uv_exec log f args)) w) !! h =
    (λ i, uh_loop (h_uv i)) <$> w_handles w !! h;
  env_run l mode F X w :
    Inv F X w → wp (uv_run l mode) (λ _ w', Inv F X w') w;
  env_closing F X w l h es :
    Inv F X w → D_loop l ∈ X → h ∈ uv_walk_handles (w_log w) l → Forall is_query es →
    rp_ret (uv_exec (es ++ w_log w) f_is_closing [V_handle (Some h)]) ≠ 0%Z;
  run_left : list event → loc → nat;
  env_run_left log l : run_left log l < run_fuel;
  env_run_dying l F X w :
    Inv F X w → D_loop l ∈ X →
    wp (uv_run l UV_RUN_NOWAIT) (λ z w', Inv F X w' ∧
      (z = 0%Z → rp_ret (uv_exec (w_log w') f_loop_close [V_loop (Some l)]) = 0%Z) ∧
      (z ≠ 0%Z → run_left (w_log w') l < run_left (w_log w) l)) w
}.

(** ** Ownership and existence *)

(** [t] is owned by the client (a variable) or by the running code. *)
Definition held (F : list token) (w : world) (t : token) : Prop :=
  0 < msum (λ _ p, cnt t (ptr_toks p)) (w_vars w) + cnt t F.

Lemma held_live F w t : held F w t → live F w t.
Proof. unfold held, live, owned. lia. Qed.

Lemma held_vars F w w' t : w_vars w = w_vars w' → held F w t → held F w' t.
Proof. unfold held. by intros ->. Qed.

Lemma live_frame F w t : t ∈ F → live F w t.
Proof. intros H%cnt_elem. unfold live. lia. Qed.
#[export] Hint Resolve live_frame held_live : ledger.

Lemma Inv_live F X w t : Inv F X w → live F w t → ∃ n, refs_of w t = Some n ∧ n ≠ 0%Z.
Proof.
  intros I L. pose proof (inv_count _ _ _ I t) as Hc. unfold live, total in *.
  destruct (refs_of w t) as [n|]; [|lia]. exists n. split; [done|]. lia.
Qed.

Lemma live_handle F X w h : Inv F X w → live F w (TH h) → ∃ i, w_handles w !! h = Some i.
Proof. intros I L. destruct (Inv_live _ _ _ _ I L) as (n & Hn & _). cbn in Hn.
  apply fmap_Some in Hn as (i & Hi & _). eauto. Qed.
Lemma live_req F X w r : Inv F X w → live F w (TR r) → ∃ i, w_reqs w !! r = Some i.
Proof. intros I L. destruct (Inv_live _ _ _ _ I L) as (n & Hn & _). cbn in Hn.
  apply fmap_Some in Hn as (i & Hi & _). eauto. Qed.
Lemma live_buf F X w b : Inv F X w → live F w (TB b) → ∃ i, w_bufs w !! b = Some i.
Proof. intros I L. destruct (Inv_live _ _ _ _ I L) as (n & Hn & _). cbn in Hn.
  apply fmap_Some in Hn as (i & Hi & _). eauto. Qed.
Lemma live_loop F X w l : Inv F X w → live F w (TL l) → ∃ i, w_loops w !! l = Some i.
Proof. intros I L. destruct (Inv_live _ _ _ _ I L) as (n & Hn & _). cbn in Hn.
  apply fmap_Some in Hn as (i & Hi & _). eauto. Qed.

(** ** The counter goes up and down *)

Lemma Inv_tok_set t n n' F F' X w :
  refs_of w t = Some n → n ≠ 0%Z → n' ≠ 0%Z →
  (∀ u, Z.of_nat (cnt u F') = Z.of_nat (cnt u F) + (if decide (t = u) then n' - n else 0))%Z →
  Inv F X w → wsim w (tok_set t n' w) ∧ Inv F' X (tok_set t n' w).
Proof.
  intros Hn H0 H0' HF I.
  assert (wsim w (tok_set t n' w)) as S.
  { eapply wsim_tok_set; [done|]. by rewrite !(proj2 (Z.eqb_neq _ _)). }
  split; [done|]. eapply Inv_move; [done| |done].
  intros u. rewrite refs_of_tok_set. specialize (HF u). destruct (decide (t = u)) as [<-|].
  - rewrite Hn. cbn. split; [lia|done].
  - destruct (refs_of w u); [split; [lia|done]|lia].
Qed.

Section rules.
Context `{E : Env}.

Lemma wp_tok_ref_count t n F X (Q : unit → world → Prop) w :
  Inv F X w → refs_of w t = Some n → n ≠ 0%Z →
  (∀ w', wsim w w' → Inv (t :: F) X w' → Q tt w') → wp (tok_ref t) Q w.
Proof.
  intros I Hn H0 HQ. eapply wp_tok_ref_eq; [done..|].
  assert (n + 1 ≠ 0)%Z by (pose proof (inv_count _ _ _ I t) as Hc; rewrite Hn in Hc; lia).
  destruct (Inv_tok_set t n (n + 1) F (t :: F) X w) as [S I']; try done; [|by apply HQ].
  intros u. cbn. destruct (decide (u = t)), (decide (t = u)); subst; try done; lia.
Qed.

Lemma wp_tok_ref t F X (Q : unit → world → Prop) w :
  Inv F X w → live F w t →
  (∀ w', wsim w w' → Inv (t :: F) X w' → Q tt w') → wp (tok_ref t) Q w.
Proof.
  intros I L HQ. destruct (Inv_live _ _ _ _ I L) as (n & Hn & H0). by eapply wp_tok_ref_count.
Qed.

(** The value [dec()] leaves in the counter. *)
Lemma Inv_unref_count t F X w :
  Inv (t :: F) X w → ∃ n, refs_of w t = Some (Z.of_nat n + 1)%Z ∧
    n = total F X w t.
Proof.
  intros I. pose proof (inv_count _ _ _ I t) as Hc. unfold total in *. cbn in Hc.
  rewrite decide_True in Hc by done. destruct (refs_of w t) as [n|]; [|lia].
  eexists. split; [f_equal|done]. lia.
Qed.

Lemma Inv_unref_live t n F X w :
  Inv (t :: F) X w → refs_of w t = Some n → (n - 1 ≠ 0)%Z →
  wsim w (tok_set t (n - 1) w) ∧ Inv F X (tok_set t (n - 1) w).
Proof.
  intros I Hn H1. destruct (Inv_unref_count _ _ _ _ I) as (m & Hm & _). simplify_eq.
  eapply Inv_tok_set; try done; try lia.
  intros u. cbn. destruct (decide (u = t)), (decide (t = u)); subst; try done; lia.
Qed.
End rules.

(** ** The last reference *)

Lemma cnt_bind_cons {A} t (f : A → list token) x l :
  cnt t ((x :: l) ≫= f) = cnt t (f x) + cnt t (l ≫= f).
Proof. cbn. apply cnt_app. Qed.

Lemma dying_in F X w t : Inv F X w → t ∈ dying_tok <$> X → refs_of w t = Some 0%Z.
Proof.
  intros I Ht. apply list_elem_of_fmap in Ht as (d & -> & Hd).
  pose proof (inv_dying _ _ _ I) as HX. rewrite list.Forall_forall in HX.
  apply dying_refs. apply HX. exact Hd.
Qed.

Lemma Inv_dying d F X w : Inv F (d :: X) w → dying_ok w d.
Proof. intros I. pose proof (inv_dying _ _ _ I) as HX. by apply list.Forall_cons in HX as [? _]. Qed.

Lemma alone_not_self h i F X w :
  Inv (TH h :: F) X w → w_handles w !! h = Some i → h_refs i = 1%Z →
  TH h ∉ hinst_toks h i.
Proof.
  intros I Hi H1 Hin. pose proof (owned_handle _ _ _ _ Hi Hin) as Ho.
  pose proof (inv_count _ _ _ I (TH h)) as Hc. cbn in Hc. rewrite Hi in Hc. cbn in Hc.
  unfold total in Hc. cbn in Hc. rewrite decide_True in Hc by done. lia.
Qed.

(** The counter of [t] drops to zero: [t] enters destruction as [d]. *)
Lemma Inv_die t d F X w :
  let w' := tok_set t 0 w in
  Inv (t :: F) X w → refs_of w t = Some 1%Z → dying_tok d = t →
  (∀ u, owned w' u + cnt u (dying_toks d) = owned w u) →
  (∀ a, a ∈ w_armed w → arm_ok w a → arm_ok w' a) →
  dying_ok w' d → Inv F (d :: X) w'.
Proof.
  intros w' I H1 Hd HO HA HD.
  assert (S : wpsim w w') by apply wpsim_tok_set.
  assert (HR : ∀ u, refs_of w' u = if decide (t = u) then Some 0%Z else refs_of w u).
  { intros u. unfold w'. rewrite refs_of_tok_set. by rewrite H1. }
  assert (Hnot : t ∉ dying_tok <$> X).
  { intros Hin. pose proof (dying_in _ _ _ _ I Hin). congruence. }
  split.
  - intros u. pose proof (inv_count _ _ _ I u) as Hc. specialize (HO u).
    rewrite HR. unfold total in *. rewrite cnt_bind_cons. cbn in Hc |- *.
    destruct (decide (t = u)) as [<-|Hne].
    + rewrite decide_True in Hc by done. rewrite H1 in Hc. split; [lia|].
      intros _. rewrite Hd. by left.
    + rewrite decide_False in Hc by congruence. destruct (refs_of w u) as [n|]; [|lia].
      destruct Hc as [Hc Hz]. split; [lia|]. right. auto.
  - constructor; [done|]. pose proof (inv_dying _ _ _ I) as HX. rewrite list.Forall_forall in HX |- *.
    intros d' Hin. specialize (HX d' Hin). eapply dying_ok_sim; [done| |done].
    rewrite HR, decide_False; [done|]. intros ->. apply Hnot. by apply list_elem_of_fmap_2.
  - cbn. rewrite Hd. constructor; [done|]. apply I.
  - intros u Hu. apply (refs_of_sim w w' u S), (inv_fresh _ _ _ I). by rewrite (sim_brk _ _ S).
  - rewrite <-(sim_armed _ _ S). apply list.Forall_forall. intros a Ha. apply HA; [done|].
    pose proof (inv_armed _ _ _ I) as HI. rewrite list.Forall_forall in HI. by apply HI.
  - intros h j Hj H0. assert (wpsim w' w) as S' by done.
    destruct (sim_handle _ _ _ _ S' Hj) as (i & Hi & Hp & _).
    rewrite Hp. eapply endpoints_ok_sim; [done|]. eapply inv_endpoints; [done..|].
    specialize (HR (TH h)). cbn in HR. rewrite Hj, Hi in HR.
    destruct (decide (t = TH h)); simplify_eq/=; congruence.
  - rewrite <-(sim_brk _ _ S). apply I.
Qed.

Lemma Inv_die_handle h i F X w :
  Inv (TH h :: F) X w → w_handles w !! h = Some i → h_refs i = 1%Z →
  Inv F (D_handle h (h_loop i) (props_endpoints (h_props i)) :: X) (tok_set (TH h) 0 w).
Proof.
  intros I Hi H1. pose proof (alone_not_self _ _ _ _ _ I Hi H1) as Hself.
  assert (S : wpsim w (tok_set (TH h) 0 w)) by apply wpsim_tok_set.
  assert (Ht : hinst_toks h i = props_toks h (h_props i) ++ opt_tok TL (h_loop i)).
  { unfold hinst_toks. by rewrite H1. }
  apply Inv_die; try done.
  - cbn. by rewrite Hi, <-H1.
  - intros u. rewrite (tok_set_handle _ _ _ _ Hi).
    pose proof (owned_upd_handle w h i (set_h_refs 0 i) u Hi) as Ho.
    rewrite Ht in Ho, Hself. cbn in Ho. unfold props_toks in *.
    destruct (props_self (h_props i)); cbn in *; [set_solver|].
    rewrite !cnt_app in *. lia.
  - intros a _ Ha. unfold arm_ok in *. rewrite <-(sim_rprops _ _ _ S) by done.
    destruct (arm_cb a); try done.
    destruct Ha as (b & Hb & i' & io & f & Hi' & Hp & Hd & Ho). exists b. split; [done|].
    exists i', io, f. rewrite (tok_set_handle _ _ _ _ Hi). cbn. split; [|done].
    rewrite lookup_insert_ne; [done|]. intros ->. by simplify_eq.
  - exists (set_h_refs 0 i). split_and!; try done.
    + rewrite (tok_set_handle _ _ _ _ Hi). cbn. by rewrite lookup_insert_eq.
    + eapply endpoints_ok_sim; [done|]. eapply inv_endpoints; [done..|]. by rewrite H1.
Qed.

(** The other families own nothing. *)
Lemma Inv_die_simple t d F X w :
  Inv (t :: F) X w → refs_of w t = Some 1%Z → dying_tok d = t → dying_toks d = [] →
  (∀ h, t ≠ TH h) → dying_ok (tok_set t 0 w) d → Inv F (d :: X) (tok_set t 0 w).
Proof.
  intros I H1 Hd Hn Hh HD.
  assert (wsim w (tok_set t 0 w)) as S.
  { split; [apply wpsim_tok_set|]. intros h. destruct t; try done. by destruct (Hh h0). }
  apply Inv_die; try done.
  - intros u. rewrite Hn, <-S. cbn. lia.
  - intros a _. by apply arm_ok_sim.
Qed.

(** ** The end of an object *)

Definition tok_delete (t : token) (w : world) : world :=
  match t with
  | TH h => upd_handles (delete h) w
  | TR r => upd_reqs (delete r) w
  | TB b => upd_bufs (delete b) w
  | TL l => upd_loops (delete l) w
  end.

Lemma refs_of_tok_delete t w u :
  refs_of (tok_delete t w) u = if decide (t = u) then None else refs_of w u.
Proof.
  destruct (decide (t = u)) as [<-|Hne].
  - destruct t as [x|x|x|x]; cbn; by rewrite lookup_delete_eq.
  - destruct t as [x|x|x|x], u as [y|y|y|y]; cbn; try done;
      rewrite lookup_delete_ne; congruence.
Qed.

Lemma tok_delete_same t w :
  w_armed (tok_delete t w) = w_armed w ∧ w_vars (tok_delete t w) = w_vars w ∧
  w_brk (tok_delete t w) = w_brk w.
Proof. by destruct t. Qed.

Lemma lookup_handle_tok_delete t w h i :
  w_handles w !! h = Some i → t ≠ TH h → w_handles (tok_delete t w) !! h = Some i.
Proof.
  intros Hi Hne. destruct t; cbn; try done. rewrite lookup_delete_ne; [done|congruence].
Qed.

Section bury.
Context (t : token) (d : dying) (F : list token) (X : list dying) (w : world).
Hypothesis I : Inv F (d :: X) w.
Hypothesis Hd : dying_tok d = t.
Hypothesis Hn : dying_toks d = [].

#[local] Lemma bury_refs : refs_of w t = Some 0%Z.
Proof. rewrite <-Hd. apply dying_refs. by eapply Inv_dying. Qed.

#[local] Lemma bury_total : total F (d :: X) w t = 0.
Proof. pose proof (inv_count _ _ _ I t) as Hc. rewrite bury_refs in Hc. lia. Qed.

#[local] Lemma bury_ne u : 0 < total F (d :: X) w u → t ≠ u.
Proof. intros Hu <-. pose proof bury_total. lia. Qed.

#[local] Lemma bury_ne_owned u : 0 < owned w u → t ≠ u.
Proof. intros Hu. apply bury_ne. unfold total. lia. Qed.

#[local] Lemma bury_owned u : owned (tok_delete t w) u = owned w u.
Proof.
  pose proof bury_refs as H0. destruct t as [h|x|x|x]; try done. cbn in H0 |- *.
  apply fmap_Some in H0 as (i & Hi & H0). rewrite (owned_delete_handle w h i u Hi).
  unfold hinst_toks. by rewrite <-H0.
Qed.

#[local] Lemma bury_endpoints eps :
  (∀ e, Some e ∈ eps → t ≠ TH e) →
  Forall (endpoint_ok w) eps → Forall (endpoint_ok (tok_delete t w)) eps.
Proof.
  rewrite !list.Forall_forall. intros Hne He o Ho. specialize (He o Ho).
  destruct o as [e|]; [|done]. destruct He as (j & Hj & Hp). exists j. split; [|done].
  apply lookup_handle_tok_delete; auto.
Qed.

#[local] Lemma bury_arm a : a ∈ w_armed w → arm_ok w a → arm_ok (tok_delete t w) a.
Proof.
  intros Ha. assert (HR : TR (arm_obj a) ∈ arm_toks a →
    w_reqs (tok_delete t w) !! arm_obj a = w_reqs w !! arm_obj a).
  { intros Hr. pose proof (bury_ne_owned _ (owned_armed _ _ _ Ha Hr)).
    destruct t; cbn; try done. rewrite lookup_delete_ne; [done|congruence]. }
  unfold arm_ok. destruct (arm_cb a); try done.
  - intros (h & b & Ht & Hr). exists h, b. rewrite HR; [done|]. rewrite Ht. list_in.
  - intros (h & b & s & Ht & Hr). exists h, b, s. rewrite HR; [done|]. rewrite Ht. list_in.
  - intros (h & b & s & Ht & Hr). exists h, b, s. rewrite HR; [done|]. rewrite Ht. list_in.
  - intros (b & Hb & i & io & f & Hi & Hp & Hf & Ho). exists b. split; [done|].
    exists i, io, f. split; [|done]. apply lookup_handle_tok_delete; [done|].
    apply bury_ne_owned. by eapply owned_handle.
  - intros (own & uh & ub & off & ps & uo & Hr & Hs & Ht). exists own, uh, ub, off, ps, uo.
    rewrite HR; [done|]. rewrite Ht. list_in.
Qed.

#[local] Lemma dying_toks_elem d' u : d' ∈ X → u ∈ dying_toks d' → t ≠ u.
Proof.
  intros Hin Hu. apply bury_ne. unfold total. rewrite cnt_bind_cons.
  assert (u ∈ X ≫= dying_toks) as Hc%cnt_elem by (apply list_elem_of_bind; eauto). lia.
Qed.

#[local] Lemma bury_dying d' : d' ∈ X → dying_ok w d' → dying_ok (tok_delete t w) d'.
Proof.
  intros Hin. pose proof (inv_nodup _ _ _ I) as HN. cbn in HN. rewrite Hd in HN.
  apply list.NoDup_cons in HN as [HN _].
  assert (Hne : t ≠ dying_tok d').
  { intros Heq. apply HN. rewrite Heq. by apply list_elem_of_fmap_2. }
  assert (He : ∀ eps, (∀ u, u ∈ eps ≫= opt_tok TH → u ∈ dying_toks d') →
    ∀ e, Some e ∈ eps → t ≠ TH e).
  { intros eps Hs e He. eapply dying_toks_elem; [done|]. apply Hs, list_elem_of_bind.
    exists (Some e). split; [set_solver|done]. }
  destruct d' as [h lo eps|h eps rest|r|b|l]; cbn in Hne.
  - intros (i & Hi & ? & ? & ? & Hf). exists i.
    split; [by apply lookup_handle_tok_delete|split_and!; try done].
    apply bury_endpoints; [|done]. apply He. intros u Hu. cbn. apply elem_of_app. by right.
  - intros (i & Hi & ? & ? & Hf). exists i.
    split; [by apply lookup_handle_tok_delete|split_and!; try done].
    apply bury_endpoints; [|done]. by apply He.
  - intros (i & Hi & ?). exists i. split; [|done].
    destruct t; cbn; try done. rewrite lookup_delete_ne; [done|congruence].
  - intros (i & Hi & ?). exists i. split; [|done].
    destruct t; cbn; try done. rewrite lookup_delete_ne; [done|congruence].
  - intros (i & Hi & ?). exists i. split; [|done].
    destruct t; cbn; try done. rewrite lookup_delete_ne; [done|congruence].
Qed.

Lemma Inv_bury : Inv F X (tok_delete t w).
Proof.
  destruct (tok_delete_same t w) as (EA & EV & EB). split.
  - intros u. pose proof (inv_count _ _ _ I u) as Hc. rewrite refs_of_tok_delete.
    unfold total in *. rewrite bury_owned. rewrite cnt_bind_cons, Hn in Hc.
    destruct (decide (t = u)) as [<-|Hne].
    + rewrite bury_refs in Hc. cbn in Hc. lia.
    + destruct (refs_of w u); [|done]. destruct Hc as [Hc Hz]. split; [done|].
      intros H0. specialize (Hz H0). cbn in Hz. rewrite Hd in Hz.
      apply elem_of_cons in Hz as [->|]; done.
  - pose proof (inv_dying _ _ _ I) as HX. apply list.Forall_cons in HX as [_ HX].
    rewrite list.Forall_forall in HX |- *. intros d' Hin. apply bury_dying; auto.
  - pose proof (inv_nodup _ _ _ I) as HN. by apply list.NoDup_cons in HN as [_ HN].
  - intros u Hu. rewrite refs_of_tok_delete. destruct (decide (t = u)); [done|].
    apply (inv_fresh _ _ _ I). by rewrite <-EB.
  - rewrite EA. pose proof (inv_armed _ _ _ I) as HA. rewrite list.Forall_forall in HA |- *.
    intros a Ha. apply bury_arm; auto.
  - intros h i Hi H0. assert (w_handles w !! h = Some i) as Hi'.
    { destruct t; cbn in Hi; try done. by apply lookup_delete_Some in Hi as [_ Hi]. }
    apply bury_endpoints; [|by eapply inv_endpoints].
    intros e He. apply bury_ne_owned. eapply owned_handle; [done|].
    unfold hinst_toks. rewrite (proj2 (Z.eqb_neq _ _) H0).
    apply elem_of_app. left. unfold props_toks. apply elem_of_app. right.
    apply list_elem_of_bind. exists (Some e). split; [set_solver|done].
  - rewrite EB. apply I.
Qed.
End bury.

(** ** The steps of the destruction of a handle *)

Lemma Inv_shift d d' F F' X w :
  Inv F (d :: X) w → dying_tok d' = dying_tok d → dying_ok w d' →
  (∀ u, cnt u F' + cnt u (dying_toks d') = cnt u F + cnt u (dying_toks d)) →
  Inv F' (d' :: X) w.
Proof.
  intros I Hd Hok HF. split; try apply I.
  - intros u. pose proof (inv_count _ _ _ I u) as Hc. specialize (HF u).
    unfold total in *. rewrite cnt_bind_cons in *. cbn [fmap list_fmap] in *. rewrite Hd.
    destruct (refs_of w u) as [n|]; [|lia]. split; [lia|]. by apply Hc.
  - pose proof (inv_dying _ _ _ I) as HX. apply list.Forall_cons in HX as [_ HX]. by constructor.
  - cbn. rewrite Hd. apply (inv_nodup _ _ _ I).
Qed.

Lemma Inv_dead_loop h eps rest i o F X w :
  Inv F (D_members h eps rest :: X) w → w_handles w !! h = Some i →
  Inv F (D_members h eps rest :: X) (upd_handles (<[h := set_h_loop o i]>) w).
Proof.
  intros I Hi. destruct (Inv_dying _ _ _ _ I) as (i' & Hi' & H0 & Hp & Hf).
  assert (i' = i) as -> by congruence. clear Hi'.
  assert (Htoks : hinst_toks h i = []) by (unfold hinst_toks; by rewrite H0).
  set (w' := upd_handles _ w).
  assert (Hend : ∀ eps, Forall (endpoint_ok w) eps → Forall (endpoint_ok w') eps).
  { intros eps0. apply Forall_impl. intros [e|]; [|done]. intros (j & Hj & Hpj).
    unfold w'. cbn. destruct (decide (h = e)) as [->|].
    - assert (j = i) as -> by congruence. exists (set_h_loop o i). by rewrite lookup_insert_eq.
    - exists j. by rewrite lookup_insert_ne. }
  split.
  - intros u. pose proof (inv_count _ _ _ I u) as Hc.
    pose proof (owned_upd_handle w h i (set_h_loop o i) u Hi) as Ho. fold w' in Ho.
    unfold hinst_toks in Ho. cbn in Ho. rewrite H0 in Ho. cbn in Ho.
    assert (refs_of w' u = refs_of w u) as ->.
    { destruct u; cbn; try done. by eapply fmap_insert_same. }
    unfold total in *. destruct (refs_of w u) as [n|]; [|lia].
    destruct Hc. split; [lia|done].
  - pose proof (inv_dying _ _ _ I) as HX. apply list.Forall_cons in HX as [_ HX].
    pose proof (inv_nodup _ _ _ I) as HN. cbn in HN. apply list.NoDup_cons in HN as [HN _].
    constructor.
    { exists (set_h_loop o i). unfold w'. cbn. rewrite lookup_insert_eq. auto. }
    rewrite list.Forall_forall in HX |- *. intros d' Hin. specialize (HX d' Hin).
    assert (Hne : TH h ≠ dying_tok d').
    { intros Heq. apply HN. rewrite Heq. by apply list_elem_of_fmap_2. }
    destruct d'; cbn in *; try done.
    + destruct HX as (j & ? & ? & ? & ? & ?). exists j. rewrite lookup_insert_ne by congruence.
      split_and!; auto.
    + destruct HX as (j & ? & ? & ? & ?). exists j. rewrite lookup_insert_ne by congruence.
      split_and!; auto.
  - apply I.
  - intros u Hu. pose proof (inv_fresh _ _ _ I u Hu) as Hn. destruct u; try done.
    cbn in *. apply fmap_None in Hn. apply fmap_None. rewrite lookup_insert_ne; [done|].
    intros ->. congruence.
  - eapply Forall_impl; [|apply (inv_armed _ _ _ I)]. intros a. unfold arm_ok.
    destruct (arm_cb a); try done. intros (b & Hb & j & io & f & Hj & Hpj & Hd & Ho).
    exists b. split; [done|]. exists j, io, f. split; [|done]. unfold w'. cbn.
    rewrite lookup_insert_ne; [done|]. intros Heq. rewrite <-Heq in *.
    assert (j = i) as -> by congruence. rewrite Htoks in Ho.
    by apply not_elem_of_nil in Ho.
  - intros h' j Hj Hj0. apply Hend. unfold w' in Hj. cbn in Hj.
    destruct (decide (h = h')) as [<-|].
    + rewrite lookup_insert_eq in Hj. simplify_eq.
    + rewrite lookup_insert_ne in Hj by done. by eapply inv_endpoints.
  - apply I.
Qed.
