(* ===== verification/Release.v ===== *)
(** * Releasing references

    [unref()] of the four families keeps the ledger: it gives back exactly the
    reference of its caller, and the last one destroys the object and whatever only
    that object kept alive. *)

From Stdlib Require Import ZArith Lia.
From stdpp Require Import base gmap list strings option.
From S2P Require Import Prelude World Objects Ledger Wp Refs.

Section release.
Context `{E : Env} `{EO : !EnvOk}.

(** ** Client functions *)

Lemma wp_call_user id args F X (Q : list arg → world → Prop) w :
  Inv (args_toks args ++ F) X w →
  (∀ args' w', Inv (args_toks args' ++ F) X w' → Forall2 arg_shape args args' →
    (∀ b, args = [A_ptr (PB (Some b))] → args' = args ∨ args' = [A_ptr (PB None)]) →
    Q args' w') →
  wp (call_user id args) Q w.
Proof.
  intros I HQ. unfold call_user. apply wp_bind, wp_log_event. intros w' S _.
  rewrite S in I. eapply wp_mono; [by apply env_cb|]. cbn. intros args' w'' (?&?&?). auto.
Qed.

Lemma wp_call_data id z F X (Q : unit → world → Prop) w :
  Inv F X w → (∀ w', Inv F X w' → Q tt w') →
  wp (_ ← call_user id [A_int z]; mret tt) Q w.
Proof.
  intros I HQ. apply wp_bind. apply (wp_call_user _ _ F X); [done|]. intros args' w' I' Hs _.
  apply wp_ret, HQ. inversion Hs as [|? a ? l Ha Hl]; subst. inversion Hl; subst.
  by destruct a.
Qed.

Lemma wp_call_destroy_cb c z F X (Q : unit → world → Prop) w :
  Inv F X w → (∀ w', Inv F X w' → Q tt w') → wp (call_destroy_cb c z) Q w.
Proof. intros I HQ. destruct c; cbn; [by eapply wp_call_data|by apply wp_ret, HQ]. Qed.

(** ** Buffers *)

Lemma wp_buffer_free b F X (Q : unit → world → Prop) w :
  Inv F (D_buf b :: X) w → (∀ w', Inv F X w' → Q tt w') → wp (buffer_free b) Q w.
Proof.
  intros I HQ. destruct (Inv_dying _ _ _ _ I) as (i & Hi & _). unfold buffer_free. wp_structs.
  apply wp_log_event. intros w' S _. apply wp_modify, HQ. rewrite S in I.
  by apply (Inv_bury (TB b) (D_buf b)).
Qed.

Lemma Inv_die_buf b i F X w :
  Inv (TB b :: F) X w → w_bufs w !! b = Some i → b_refs i = 1%Z →
  Inv F (D_buf b :: X) (upd_bufs (<[b := set_b_refs 0 i]>) w).
Proof.
  intros I Hi H1. rewrite <-(tok_set_buf _ _ _ _ Hi).
  apply Inv_die_simple; try done; [by cbn; rewrite Hi, <-H1|].
  rewrite (tok_set_buf _ _ _ _ Hi). exists (set_b_refs 0 i). cbn.
  by rewrite lookup_insert_eq.
Qed.

(** The branch taken by a caller of [unref()]: the last reference or not. *)
Lemma wp_unref t n F X w (Q : unit → world → Prop) (m : M unit) :
  Inv (t :: F) X w → refs_of w t = Some n →
  ((n - 1)%Z ≠ 0%Z → Inv F X (tok_set t (n - 1) w) → Q tt (tok_set t (n - 1) w)) →
  (n = 1%Z → wp m Q (tok_set t 0 w)) →
  wp (when (ref_count.dec n =? 0)%Z m) Q (tok_set t (ref_count.dec n) w).
Proof.
  intros I Hn Hlive Hlast. unfold ref_count.dec. apply wp_when.
  - intros Hz%Z.eqb_eq. assert (n = 1%Z) as -> by lia. by apply Hlast.
  - intros Hz%Z.eqb_neq. apply Hlive; [done|].
    by destruct (Inv_unref_live t n F X w).
Qed.

Lemma wp_buffer_unref b F X (Q : unit → world → Prop) w :
  Inv (TB b :: F) X w → (∀ w', Inv F X w' → Q tt w') → wp (buffer_unref b) Q w.
Proof.
  intros I HQ. destruct (live_buf _ _ _ b I) as (i & Hi); [by apply live_frame; left|].
  unfold buffer_unref. wp_structs. rewrite <-(tok_set_buf _ _ _ _ Hi).
  eapply (wp_unref (TB b)); [done|by cbn; rewrite Hi|auto|]. intros H1.
  rewrite (tok_set_buf _ _ _ _ Hi). unfold buffer_destroy. wp_struct.
  eapply wp_get_b; [cbn; apply lookup_insert_eq|]. cbn.
  destruct (b_sink_cb i) as [sink|] eqn:Hs.
  2:{ eapply wp_buffer_free; [by eapply Inv_die_buf|done]. }
  wp_struct. eapply wp_mod_b; [cbn; apply lookup_insert_eq|].
  match goal with |- wp _ _ ?w1 => assert (w1 = w) as -> end.
  { destruct w, i. unfold upd_bufs. cbn in *. subst. f_equal.
    rewrite insert_insert_eq. by apply insert_id. }
  wp_struct. apply (wp_call_user _ _ F X); [done|]. intros args' w' I' _ Hb.
  destruct (Hb b eq_refl) as [-> | ->]; [|by apply wp_ret, HQ]. cbn in I'.
  destruct (live_buf _ _ _ b I') as (i' & Hi'); [by apply live_frame; left|].
  wp_structs. rewrite <-(tok_set_buf _ _ _ _ Hi').
  eapply (wp_unref (TB b)); [done|by cbn; rewrite Hi'|auto|]. intros H1'.
  eapply wp_buffer_free; [|done]. rewrite (tok_set_buf _ _ _ _ Hi').
  by eapply Inv_die_buf.
Qed.

(** ** Requests *)

Lemma Inv_die_req r i F X w :
  Inv (TR r :: F) X w → w_reqs w !! r = Some i → r_refs i = 1%Z →
  Inv F (D_req r :: X) (tok_set (TR r) 0 w).
Proof.
  intros I Hi H1. apply Inv_die_simple; try done; [by cbn; rewrite Hi, <-H1|].
  rewrite (tok_set_req _ _ _ _ Hi). exists (set_r_refs 0 i). cbn.
  by rewrite lookup_insert_eq.
Qed.

Lemma wp_rprops_dtor r p u F X (Q : unit → world → Prop) w :
  Inv F X w → (∀ w', Inv F X w' → Q tt w') → wp (rprops_dtor r p u) Q w.
Proof.
  intros I HQ. destruct p as [| | | |own|own]; try destruct own; cbn;
    try (by apply wp_ret, HQ); wp_structs; apply wp_uv_call; intros z w' S;
    apply wp_ret, HQ; by rewrite <-S.
Qed.

Lemma wp_destroy_instance r F X (Q : unit → world → Prop) w :
  Inv F (D_req r :: X) w → (∀ w', Inv F X w' → Q tt w') → wp (destroy_instance r) Q w.
Proof.
  intros I HQ. destruct (Inv_dying _ _ _ _ I) as (i & Hi & _).
  unfold destroy_instance. wp_structs. eapply wp_call_destroy_cb; [done|]. intros w1 I1.
  destruct (Inv_dying _ _ _ _ I1) as (i1 & Hi1 & _). wp_structs.
  eapply wp_rprops_dtor; [done|]. intros w2 I2.
  destruct (Inv_dying _ _ _ _ I2) as (i2 & Hi2 & _). unfold request_free. wp_structs.
  apply wp_log_event. intros w3 S _. apply wp_modify, HQ. rewrite S in I2.
  by apply (Inv_bury (TR r) (D_req r)).
Qed.

Lemma wp_request_unref r F X (Q : unit → world → Prop) w :
  Inv (TR r :: F) X w → (∀ w', Inv F X w' → Q tt w') → wp (request_unref r) Q w.
Proof.
  intros I HQ. destruct (live_req _ _ _ r I) as (i & Hi); [by apply live_frame; left|].
  unfold request_unref. wp_structs. rewrite <-(tok_set_req _ _ _ _ Hi).
  eapply (wp_unref (TR r)); [done|by cbn; rewrite Hi|auto|]. intros H1.
  eapply wp_destroy_instance; [by eapply Inv_die_req|done].
Qed.

(** ** Loops *)

Lemma dying_loop l F X w :
  Inv F X w → D_loop l ∈ X → ∃ i, w_loops w !! l = Some i ∧ l_refs i = 0%Z.
Proof.
  intros I Hl. pose proof (inv_dying _ _ _ I) as HX. rewrite list.Forall_forall in HX.
  apply (HX _ Hl).
Qed.

Lemma wp_loop_status l z F X (Q : unit → world → Prop) w :
  Inv F X w → D_loop l ∈ X →
  (∀ w', wsame w w' → w_log w' = w_log w → Q tt w') → wp (mod_l l (set_l_error z)) Q w.
Proof.
  intros I Hl HQ. destruct (dying_loop _ _ _ _ I Hl) as (i & Hi & _). wp_structs.
  apply HQ; [|done]. by eapply wsame_loop.
Qed.

(** The walk of the destructor finds no open handle. *)
Lemma wp_count_open l F X w0 hs es (Q : Z → world → Prop) w :
  Inv F X w0 → D_loop l ∈ X → hs ⊆ uv_walk_handles (w_log w0) l →
  w_log w = es ++ w_log w0 → Forall is_query es →
  (∀ w', wsame w w' → Q 0%Z w') → wp (count_open hs) Q w.
Proof.
  intros I Hl. revert es w Q. induction hs as [|h hs IH]; intros es w Q Hsub Hlog Hes HQ.
  { by apply wp_ret, HQ. }
  cbn. wp_struct. apply wp_uv_call_eq. intros w1 S1 Hlog1.
  assert (rp_ret (uv_exec (w_log w) f_is_closing [V_handle (Some h)]) ≠ 0%Z) as Hc.
  { rewrite Hlog. eapply env_closing; [done|done|set_solver|done]. }
  wp_struct. eapply (IH (_ :: es)); [set_solver|by rewrite Hlog1, Hlog|by constructor|].
  intros w2 S2. apply wp_ret. rewrite (proj2 (Z.eqb_neq _ _) Hc). apply HQ. by etrans.
Qed.

Lemma wp_premortal_run l fuel F X (Q : unit → world → Prop) w :
  Inv F X w → D_loop l ∈ X → run_left (w_log w) l < fuel →
  (∀ w', Inv F X w' →
    rp_ret (uv_exec (w_log w') f_loop_close [V_loop (Some l)]) = 0%Z → Q tt w') →
  wp (premortal_run fuel l) Q w.
Proof.
  intros I Hl. revert w I. induction fuel as [|fuel IH]; intros w I Hf HQ; [lia|].
  cbn. wp_struct. eapply wp_mono; [by apply env_run_dying|]. cbn.
  intros z w1 (I1 & Hz & Hnz). wp_struct. eapply wp_loop_status; [done..|].
  intros w2 S2 Hlog. rewrite S2 in I1. destruct (Z.eqb_spec z 0) as [->|Hz'].
  - apply wp_ret, HQ; [done|]. rewrite Hlog. auto.
  - apply IH; [done| |done]. rewrite Hlog. specialize (Hnz Hz'). lia.
Qed.

(** The destructor of a loop always closes it. *)
Lemma wp_loop_dtor l F X (Q : unit → world → Prop) w :
  Inv F X w → D_loop l ∈ X → (∀ w', Inv F X w' → Q tt w') → wp (loop_dtor l) Q w.
Proof.
  intros I Hl HQ. unfold loop_dtor. wp_struct. apply wp_uv_call. intros z w1 S1.
  rewrite S1 in I. clear w S1. wp_struct. eapply wp_loop_status; [done..|].
  intros w2 S2 _. rewrite S2 in I. clear w1 S2.
  destruct (z =? 0)%Z; [by apply wp_ret, HQ|]. wp_structs.
  apply wp_log_event. intros w3 S3 Hlog. wp_struct.
  eapply (wp_count_open l F X w2 _ [_]); [done|done|done|done|by constructor|].
  intros w4 S4. rewrite S3, S4 in I. cbn [negb Z.eqb]. wp_struct.
  eapply wp_premortal_run; [done|done|apply env_run_left|]. intros w5 I5 Hclose.
  wp_struct. apply wp_uv_call_eq. rewrite Hclose. intros w6 S6 _. rewrite S6 in I5.
  wp_struct. eapply wp_loop_status; [done..|]. intros w7 S7 _. rewrite S7 in I5.
  by apply wp_ret, HQ.
Qed.

Lemma Inv_die_loop l i F X w :
  Inv (TL l :: F) X w → w_loops w !! l = Some i → l_refs i = 1%Z →
  Inv F (D_loop l :: X) (tok_set (TL l) 0 w).
Proof.
  intros I Hi H1. apply Inv_die_simple; try done; [by cbn; rewrite Hi, <-H1|].
  rewrite (tok_set_loop _ _ _ _ Hi). exists (set_l_refs 0 i). cbn.
  by rewrite lookup_insert_eq.
Qed.

Lemma wp_loop_destroy l F X (Q : unit → world → Prop) w :
  Inv F (D_loop l :: X) w → (∀ w', Inv F X w' → Q tt w') → wp (loop_destroy l) Q w.
Proof.
  intros I HQ. destruct (Inv_dying _ _ _ _ I) as (i & Hi & _).
  assert (Hend : ∀ w1, Inv F (D_loop l :: X) w1 → wp (finally (loop_dtor l) (loop_free l)) Q w1).
  { intros w1 I1. wp_struct. eapply wp_loop_dtor; [done|by left|]. intros w2 I2.
    destruct (Inv_dying _ _ _ _ I2) as (i2 & Hi2 & _). unfold loop_free. wp_structs.
    apply wp_log_event. intros w3 S _. apply wp_modify, HQ. rewrite S in I2.
    by apply (Inv_bury (TL l) (D_loop l)). }
  unfold loop_destroy. wp_structs. destruct (l_destroy_cb i).
  - eapply wp_call_data; [done|apply Hend].
  - by apply wp_ret, Hend.
Qed.

Lemma wp_loop_unref l F X (Q : unit → world → Prop) w :
  Inv (TL l :: F) X w → (∀ w', Inv F X w' → Q tt w') → wp (loop_unref l) Q w.
Proof.
  intros I HQ. destruct (live_loop _ _ _ l I) as (i & Hi); [by apply live_frame; left|].
  unfold loop_unref. wp_structs. rewrite <-(tok_set_loop _ _ _ _ Hi).
  eapply (wp_unref (TL l)); [done|by cbn; rewrite Hi|auto|]. intros H1.
  eapply wp_loop_destroy; [by eapply Inv_die_loop|done].
Qed.

(** ** Handles *)

Lemma wp_unbook_dead h lo eps F X (Q : unit → world → Prop) w :
  Inv F (D_handle h lo eps :: X) w →
  (∀ w', Inv F (D_members h eps eps :: X) w' → Q tt w') → wp (unbook_loop h) Q w.
Proof.
  intros I HQ. destruct (Inv_dying _ _ _ _ I) as (i & Hi & H0 & Hl & Hp & Hf).
  assert (Hm : dying_ok w (D_members h eps eps)) by (by exists i).
  unfold unbook_loop. wp_structs. rewrite Hl. destruct lo as [l|]; wp_structs.
  - eapply (wp_loop_unref l F (D_members h eps eps :: X)).
    { eapply Inv_shift; [done|done|done|]. intros u. cbn. lia. }
    intros w1 I1. destruct (Inv_dying _ _ _ _ I1) as (i1 & Hi1 & _). wp_structs.
    apply HQ. by apply Inv_dead_loop.
  - apply HQ. by eapply Inv_shift.
Qed.

(** What is asked of the [unref()] of an endpoint. *)
Definition endpoint_unref_ok (eu : loc → M unit) : Prop := ∀ e F X Q w,
  endpoint_ok w (Some e) → Inv (TH e :: F) X w → (∀ w', Inv F X w' → Q tt w') →
  wp (eu e) Q w.

Lemma wp_drop_endpoints eu h eps rest F X (Q : unit → world → Prop) w :
  (rest = [] ∨ endpoint_unref_ok eu) →
  Inv F (D_members h eps rest :: X) w →
  (∀ w', Inv F (D_members h eps [] :: X) w' → Q tt w') → wp (drop_endpoints eu rest) Q w.
Proof.
  intros Heu. revert w. induction rest as [|o rest IH]; intros w I HQ; cbn.
  { by apply wp_ret, HQ. }
  destruct Heu as [|Heu]; [done|].
  destruct (Inv_dying _ _ _ _ I) as (i & Hi & H0 & Hp & Hf).
  apply list.Forall_cons in Hf as [He Hf].
  assert (Hm : dying_ok w (D_members h eps rest)) by (by exists i).
  destruct o as [e|]; wp_structs.
  - eapply (Heu e F (D_members h eps rest :: X)); [done| |].
    { eapply Inv_shift; [done|done|done|]. intros u. cbn. lia. }
    intros w1 I1. apply IH; auto.
  - apply IH; [auto| |done]. by eapply Inv_shift.
Qed.

Lemma wp_handle_delete eu h lo eps F X (Q : unit → world → Prop) w :
  (eps = [] ∨ endpoint_unref_ok eu) →
  Inv F (D_handle h lo eps :: X) w → (∀ w', Inv F X w' → Q tt w') →
  wp (handle_delete eu h) Q w.
Proof.
  intros Heu I HQ. unfold handle_delete. wp_structs.
  eapply wp_unbook_dead; [done|]. intros w1 I1.
  destruct (Inv_dying _ _ _ _ I1) as (i1 & Hi1 & _ & Hp & _). wp_structs. rewrite Hp.
  eapply wp_drop_endpoints; [done..|]. intros w2 I2.
  destruct (Inv_dying _ _ _ _ I2) as (i2 & Hi2 & _). unfold handle_free. wp_structs.
  apply wp_log_event. intros w3 S _. apply wp_modify, HQ. rewrite S in I2.
  by apply (Inv_bury (TH h) (D_members h eps [])).
Qed.

Lemma wp_close_cb eu h lo eps F X (Q : unit → world → Prop) w :
  (eps = [] ∨ endpoint_unref_ok eu) →
  Inv F (D_handle h lo eps :: X) w → (∀ w', Inv F X w' → Q tt w') →
  wp (close_cb eu h) Q w.
Proof.
  intros Heu I HQ. destruct (Inv_dying _ _ _ _ I) as (i & Hi & _).
  unfold close_cb. wp_structs. eapply wp_call_destroy_cb; [done|]. intros w1 I1.
  by eapply wp_handle_delete.
Qed.

Lemma wp_uv_interface_close eu h lo eps F X (Q : unit → world → Prop) w :
  (eps = [] ∨ endpoint_unref_ok eu) →
  Inv F (D_handle h lo eps :: X) w → (∀ w', Inv F X w' → Q tt w') →
  wp (uv_interface_close eu h) Q w.
Proof.
  intros Heu I HQ. destruct (Inv_dying _ _ _ _ I) as (i & Hi & _).
  assert (Hh : wp (uv_handle_close eu h) Q w).
  { unfold uv_handle_close. wp_structs. apply wp_when.
    - intros _. wp_struct. apply wp_uv_call. intros z w1 S. rewrite S in I.
      apply wp_ret. by eapply wp_close_cb.
    - intros _. by eapply wp_close_cb. }
  assert (Hfs : wp (uv_fs_close eu h) Q w).
  { assert (Hend : ∀ w1, Inv F (D_handle h lo eps :: X) w1 →
      wp (call_destroy_cb (h_destroy_cb i) (uh_data (h_uv i));;
          _ ← uv_call f_fs_req_cleanup [V_handle (Some h)]; handle_delete eu h) Q w1).
    { intros w1 I1. wp_struct. eapply wp_call_destroy_cb; [done|]. intros w2 I2.
      wp_struct. apply wp_uv_call. intros z w3 S. rewrite S in I2.
      by eapply wp_handle_delete. }
    unfold uv_fs_close. wp_structs. apply wp_when.
    - intros _. wp_struct. apply wp_uv_call. intros z w1 S1. rewrite S1 in I.
      wp_struct. apply wp_uv_call. intros z' w2 S2. rewrite S2 in I. by apply wp_ret, Hend.
    - intros _. by apply Hend. }
  unfold uv_interface_close. wp_structs. by destruct (h_iface i).
Qed.

Lemma wp_handle_unref_with eu h F X (Q : unit → world → Prop) w :
  (endpoint_ok w (Some h) ∨ endpoint_unref_ok eu) →
  Inv (TH h :: F) X w → (∀ w', Inv F X w' → Q tt w') → wp (handle_unref_with eu h) Q w.
Proof.
  intros Heu I HQ. destruct (live_handle _ _ _ h I) as (i & Hi); [by apply live_frame; left|].
  unfold handle_unref_with. wp_structs. rewrite <-(tok_set_handle _ _ _ _ Hi).
  eapply (wp_unref (TH h)); [done|by cbn; rewrite Hi|auto|]. intros H1.
  eapply wp_uv_interface_close; [|by eapply Inv_die_handle|done].
  destruct Heu as [(j & Hj & Hp%not_process_endpoints)|]; [left; congruence|by right].
Qed.

Lemma io_unref_ok : endpoint_unref_ok io_unref.
Proof. intros e F X Q w He I HQ. eapply wp_handle_unref_with; eauto. Qed.

Lemma wp_handle_unref h F X (Q : unit → world → Prop) w :
  Inv (TH h :: F) X w → (∀ w', Inv F X w' → Q tt w') → wp (handle_unref h) Q w.
Proof. intros I HQ. eapply wp_handle_unref_with; [right; apply io_unref_ok|done..]. Qed.

(** ** Any object *)

Lemma wp_tok_unref t F X (Q : unit → world → Prop) w :
  Inv (t :: F) X w → (∀ w', Inv F X w' → Q tt w') → wp (tok_unref t) Q w.
Proof.
  destruct t; cbn; [apply wp_handle_unref|apply wp_request_unref|apply wp_buffer_unref
                   |apply wp_loop_unref].
Qed.

Lemma wp_drop_ptr p F X (Q : unit → world → Prop) w :
  Inv (ptr_toks p ++ F) X w → (∀ w', Inv F X w' → Q tt w') → wp (drop_ptr p) Q w.
Proof.
  intros I HQ. unfold drop_ptr. wp_structs.
  destruct p as [[l|]|[l|]|[l|]|[l|]]; cbn in *; wp_structs; eauto.
  - by eapply (wp_tok_unref (TH l)).
  - by eapply (wp_tok_unref (TR l)).
  - by eapply (wp_tok_unref (TB l)).
  - by eapply (wp_tok_unref (TL l)).
Qed.

Lemma wp_drop_args args F X (Q : unit → world → Prop) w :
  Inv (args_toks args ++ F) X w → (∀ w', Inv F X w' → Q tt w') → wp (drop_args args) Q w.
Proof.
  revert F w Q. induction args as [|a args IH]; intros F w Q I HQ; [by apply wp_ret, HQ|].
  cbn in *. wp_struct. apply (IH (arg_toks a ++ F)).
  { eapply Inv_perm; [|done|done|exact I]. unfold args_toks. solve_Permutation. }
  intros w1 I1. destruct a; cbn in *; [by eapply wp_drop_ptr|by apply wp_ret, HQ..].
Qed.

(** A call of a client function with arguments by value consumes their references. *)
Lemma wp_invoke id args F X (Q : unit → world → Prop) w :
  Inv (args_toks args ++ F) X w → (∀ w', Inv F X w' → Q tt w') → wp (invoke id args) Q w.
Proof.
  intros I HQ. unfold invoke. wp_struct. eapply wp_call_user; [done|].
  intros args' w1 I1 _ _. by eapply wp_drop_args.
Qed.
End release.
