(* ===== verification/Rules.v ===== *)
(** * Rules for the operations of the classes

    Creation of objects, statuses, properties, and the hand-over of references to
    libuv and back. *)

From Stdlib Require Import ZArith Lia.
From stdpp Require Import base gmap list strings option.
From S2P Require Import Prelude World Objects Ledger Wp Refs Release.

(** ** Creation *)

(** More objects, everything else unchanged. *)
Record wext (w w' : world) : Prop := {
  ext_h : w_handles w ⊆ w_handles w';
  ext_r : w_reqs w ⊆ w_reqs w';
  ext_b : w_bufs w ⊆ w_bufs w';
  ext_l : w_loops w ⊆ w_loops w'
}.

Lemma endpoint_ok_ext w w' o : wext w w' → endpoint_ok w o → endpoint_ok w' o.
Proof.
  intros S. destruct o; [|done]. intros (j & Hj & ?). exists j. split; [|done].
  by eapply lookup_weaken, S.
Qed.
Lemma endpoints_ok_ext w w' l : wext w w' → Forall (endpoint_ok w) l → Forall (endpoint_ok w') l.
Proof. intros S. apply Forall_impl. eauto using endpoint_ok_ext. Qed.

Lemma dying_ok_ext w w' d : wext w w' → dying_ok w d → dying_ok w' d.
Proof.
  intros S. pose proof S as [Hh Hr Hb Hl].
  destruct d; cbn; intros (j & Hj & Hrest); exists j;
    (split; [by eapply lookup_weaken|]); try done.
  - destruct Hrest as (?&?&?&?). split_and!; eauto using endpoints_ok_ext.
  - destruct Hrest as (?&?&?). split_and!; eauto using endpoints_ok_ext.
Qed.

Lemma arm_ok_ext w w' a : wext w w' → arm_ok w a → arm_ok w' a.
Proof.
  intros [Hh Hr _ _].
  assert (HR : ∀ p, r_props <$> w_reqs w !! arm_obj a = Some p →
    r_props <$> w_reqs w' !! arm_obj a = Some p).
  { intros p (i & Hi & ->)%fmap_Some. by rewrite (lookup_weaken _ _ _ _ Hi Hr). }
  unfold arm_ok. destruct (arm_cb a); try done.
  - intros (h & b & ? & ?). eauto 10.
  - intros (h & b & s & ? & ?). eauto 10.
  - intros (h & b & s & ? & ?). eauto 10.
  - intros (b & ? & i & io & f & Hi & ?). exists b. split; [done|]. exists i, io, f.
    split; [by eapply lookup_weaken|done].
  - intros (own & uh & ub & off & ps & uo & ? & ? & ?). eauto 12.
Qed.

Lemma Inv_create t F X w w' :
  Inv F X w → wext w w' → (w_brk w ≤ tok_addr t < w_brk w')%Z →
  (∀ u, refs_of w' u = if decide (t = u) then Some 1%Z else refs_of w u) →
  (∀ u, owned w' u = owned w u) → w_armed w' = w_armed w →
  (∀ h i, w_handles w' !! h = Some i → w_handles w !! h = Some i ∨ props_endpoints (h_props i) = []) →
  Inv (t :: F) X w'.
Proof.
  intros I S Hb HR HO HA HE. split.
  - intros u. pose proof (inv_count _ _ _ I u) as Hc. rewrite HR. unfold total in *.
    rewrite HO. cbn. destruct (decide (t = u)) as [<-|Hne].
    + rewrite decide_True by done. rewrite (inv_fresh _ _ _ I t) in Hc by lia. split; lia.
    + rewrite decide_False by congruence. done.
  - eapply Forall_impl; [|apply I]. intros d. by apply dying_ok_ext.
  - apply I.
  - intros u Hu. rewrite HR. destruct (decide (t = u)) as [<-|]; [lia|].
    apply (inv_fresh _ _ _ I). lia.
  - rewrite HA. eapply Forall_impl; [|apply I]. intros a. by apply arm_ok_ext.
  - intros h i Hi H0. destruct (HE h i Hi) as [Hi'| ->]; [|done].
    eapply endpoints_ok_ext; [done|]. by eapply inv_endpoints.
  - pose proof (inv_brk _ _ _ I). lia.
Qed.

(** The address the allocator hands out. *)
Definition fresh_addr (w : world) : loc := align_up 16 (w_brk w).

Lemma fresh_addr_ge w : (w_brk w ≤ fresh_addr w)%Z.
Proof.
  unfold fresh_addr, align_up.
  pose proof (Z.div_mod (w_brk w + 16 - 1) 16). pose proof (Z.mod_pos_bound (w_brk w + 16 - 1) 16).
  lia.
Qed.

Lemma wp_alloc size (Q : loc → world → Prop) w :
  Q (fresh_addr w) (upd_brk (λ _, fresh_addr w + Z.max size 1)%Z w) → wp (alloc size) Q w.
Proof. done. Qed.

Lemma fmap_insert_decide {V A} (f : V → A) (m : gmap loc V) k x l :
  f <$> <[k := x]> m !! l = if decide (k = l) then Some (f x) else f <$> m !! l.
Proof.
  destruct (decide (k = l)) as [->|]; [by rewrite lookup_insert_eq|by rewrite lookup_insert_ne].
Qed.

Section creation.
Context `{E : Env}.

Lemma fresh_none F X w t :
  Inv F X w → tok_addr t = fresh_addr w → refs_of w t = None.
Proof. intros I Ht. apply (inv_fresh _ _ _ I). rewrite Ht. apply fresh_addr_ge. Qed.

(** [instance::create()] of a handle class: one reference, which is the caller's. *)
Lemma wp_handle_create ifc p F X (Q : loc → world → Prop) w :
  Inv F X w → props_self p = false → props_endpoints p = [] →
  (∀ h w' i, w_handles w !! h = None → w_handles w' = <[h := i]> (w_handles w) →
    h_props i = p → h_iface i = ifc → h_loop i = None → h_uv_error i = 0%Z →
    h_uv i = uv_handle_zero →
    w_reqs w' = w_reqs w → w_bufs w' = w_bufs w → w_loops w' = w_loops w →
    w_vars w' = w_vars w → w_armed w' = w_armed w → (∀ t, owned w' t = owned w t) →
    Inv (TH h :: F) X w' → Q h w') →
  wp (handle_create ifc p) Q w.
Proof.
  intros I Hs He HQ. unfold handle_create. wp_struct. apply wp_alloc. wp_struct.
  apply wp_modify. wp_struct. apply wp_modify. wp_struct.
  pose proof (fresh_addr_ge w) as Hge. set (h := fresh_addr w) in *.
  assert (Hh : w_handles w !! h = None).
  { pose proof (fresh_none _ _ _ (TH h) I eq_refl) as Hn. by apply fmap_None in Hn. }
  set (i := {| h_props := p |}).
  assert (Ht : hinst_toks h i = []).
  { unfold hinst_toks, props_toks. cbn. by rewrite Hs, He. }
  match goal with |- Q _ ?v => assert (HO : ∀ t, owned v t = owned w t) end.
  { intros u. unfold owned. cbn. rewrite msum_insert_fresh by done. rewrite Ht. cbn. lia. }
  eapply (HQ h _ i); try done.
  apply (Inv_create _ _ _ w); try done.
  - split; cbn; try done. by apply insert_subseteq.
  - cbn. unfold object_size. fold h. lia.
  - intros u. destruct u; cbn; try (rewrite decide_False; done).
    rewrite fmap_insert_decide. by repeat case_decide; simplify_eq.
  - intros h' j. cbn. destruct (decide (h = h')) as [<-|].
    + rewrite lookup_insert_eq. intros [= <-]. by right.
    + rewrite lookup_insert_ne by done. by left.
Qed.

Lemma wp_request_create p F X (Q : loc → world → Prop) w :
  Inv F X w →
  (∀ r w' i, w_reqs w !! r = None → w_reqs w' = <[r := i]> (w_reqs w) →
    r_props i = p → r_request_cb i = None → r_destroy_cb i = None → r_uv_error i = 0%Z →
    r_uv i = uv_req_zero →
    w_handles w' = w_handles w → w_bufs w' = w_bufs w → w_loops w' = w_loops w →
    w_armed w' = w_armed w → w_vars w' = w_vars w → (∀ t, owned w' t = owned w t) →
    Inv (TR r :: F) X w' → Q r w') →
  wp (request_create p) Q w.
Proof.
  intros I HQ. unfold request_create. wp_struct. apply wp_alloc. wp_struct.
  apply wp_modify. wp_struct. apply wp_modify. wp_struct.
  pose proof (fresh_addr_ge w) as Hge. set (r := fresh_addr w) in *.
  assert (Hr : w_reqs w !! r = None).
  { pose proof (fresh_none _ _ _ (TR r) I eq_refl) as Hn. by apply fmap_None in Hn. }
  set (i := {| r_props := p |}). eapply (HQ r _ i); try done.
  apply (Inv_create _ _ _ w); try done.
  - split; cbn; try done. by apply insert_subseteq.
  - cbn. unfold object_size. fold r. lia.
  - intros u. destruct u; cbn; try (rewrite decide_False; done).
    rewrite fmap_insert_decide. by repeat case_decide; simplify_eq.
  - intros h' j Hj. by left.
Qed.

Lemma wp_loop_create F X (Q : loc → world → Prop) w :
  Inv F X w →
  (∀ l w', w_loops w !! l = None → Inv (TL l :: F) X w' → w_vars w' = w_vars w → Q l w') →
  wp loop_create Q w.
Proof.
  intros I HQ. unfold loop_create. wp_struct. apply wp_alloc. wp_struct.
  apply wp_modify. wp_struct. apply wp_modify.
  pose proof (fresh_addr_ge w) as Hge. set (l := fresh_addr w) in *.
  assert (Hl : w_loops w !! l = None).
  { pose proof (fresh_none _ _ _ (TL l) I eq_refl) as Hn. by apply fmap_None in Hn. }
  wp_struct. apply wp_uv_call. intros z w1 S1.
  match type of S1 with wsame ?v _ => assert (Inv (TL l :: F) X v) as I1 end.
  { apply (Inv_create _ _ _ w); try done.
    - split; cbn; try done. by apply insert_subseteq.
    - cbn. unfold object_size. fold l. lia.
    - intros u. destruct u; cbn; try (rewrite decide_False; done).
      rewrite fmap_insert_decide. by repeat case_decide; simplify_eq.
    - intros h' j Hj. by left. }
  pose proof (sim_vars _ _ (proj1 (wsame_sim _ _ S1))) as HV.
  rewrite S1 in I1. destruct (live_loop _ _ _ l I1) as (i & Hi); [by apply live_frame; left|].
  wp_structs. apply HQ; [done| |done]. eapply Inv_same; [|exact I1].
  symmetry. by eapply wsame_loop.
Qed.
End creation.

(** ** Requests: status and properties *)

(** No callback is pending on the request. *)
Definition unarmed (r : loc) (w : world) : Prop := ∀ a, a ∈ w_armed w → TR r ∉ arm_toks a.

Lemma unarmed_sim r w w' : wsim w w' → unarmed r w → unarmed r w'.
Proof. intros [S _] H a. rewrite <-(sim_armed _ _ S). apply H. Qed.

Lemma arm_ok_upd_req w r j a :
  (r_props <$> w_reqs w !! r = Some (r_props j)) ∨ TR r ∉ arm_toks a →
  arm_ok w a → arm_ok (upd_reqs (<[r := j]>) w) a.
Proof.
  intros Hr. assert (HR : TR (arm_obj a) ∈ arm_toks a →
    r_props <$> w_reqs (upd_reqs (<[r := j]>) w) !! arm_obj a = r_props <$> w_reqs w !! arm_obj a).
  { intros Hin. cbn. destruct (decide (r = arm_obj a)) as [->|].
    - rewrite lookup_insert_eq. by destruct Hr as [->|].
    - by rewrite lookup_insert_ne. }
  unfold arm_ok. destruct (arm_cb a); try done.
  - intros (h & b & Ht & E). exists h, b. rewrite HR; [done|]. rewrite Ht. list_in.
  - intros (h & b & s & Ht & E). exists h, b, s. rewrite HR; [done|]. rewrite Ht. list_in.
  - intros (h & b & q & Ht & E). exists h, b, q. rewrite HR; [done|]. rewrite Ht. list_in.
  - intros (own & uh & ub & off & ps & uo & E & Hs & Ht). exists own, uh, ub, off, ps, uo.
    rewrite HR; [done|]. rewrite Ht. list_in.
Qed.

Lemma Inv_upd_req r i j F X w :
  Inv F X w → w_reqs w !! r = Some i → r_refs j = r_refs i →
  (r_props j = r_props i ∨ unarmed r w) → Inv F X (upd_reqs (<[r := j]>) w).
Proof.
  intros I Hi Hr Hp. split; try apply I.
  - intros u. pose proof (inv_count _ _ _ I u) as Hc.
    assert (refs_of (upd_reqs <[r:=j]> w) u = refs_of w u) as ->; [|done].
    destruct u; cbn; try done. by eapply fmap_insert_same.
  - eapply Forall_impl; [|apply (inv_dying _ _ _ I)]. intros []; try done.
    intros (k & Hk & H0). cbn. destruct (decide (r = r0)) as [->|].
    + exists j. rewrite lookup_insert_eq. split; [done|congruence].
    + exists k. by rewrite lookup_insert_ne.
  - intros u Hu. pose proof (inv_fresh _ _ _ I u Hu) as Hn. destruct u; try done.
    cbn in *. apply fmap_None in Hn. apply fmap_None. rewrite lookup_insert_ne; [done|].
    intros ->. congruence.
  - pose proof (inv_armed _ _ _ I) as HA. rewrite list.Forall_forall in HA |- *.
    intros a Ha. apply arm_ok_upd_req; [|by apply HA]. cbn in Ha.
    destruct Hp as [->|Hu]; [left; by rewrite Hi|right; by apply Hu].
Qed.

Lemma Inv_upd_buf b i j F X w :
  Inv F X w → w_bufs w !! b = Some i → b_refs j = b_refs i →
  Inv F X (upd_bufs (<[b := j]>) w).
Proof.
  intros I Hi Hr.
  assert (∀ u, refs_of (upd_bufs <[b:=j]> w) u = refs_of w u) as HR.
  { intros []; cbn; try done. by eapply fmap_insert_same. }
  split; try apply I; try (intros u; rewrite HR; apply I).
  eapply Forall_impl; [|apply (inv_dying _ _ _ I)]. intros []; try done.
  intros (k & Hk & H0). cbn. destruct (decide (b = b0)) as [->|].
  - exists j. rewrite lookup_insert_eq. split; [done|congruence].
  - exists k. by rewrite lookup_insert_ne.
Qed.

Lemma Inv_upd_loop l i j F X w :
  Inv F X w → w_loops w !! l = Some i → l_refs j = l_refs i →
  Inv F X (upd_loops (<[l := j]>) w).
Proof.
  intros I Hi Hr.
  assert (∀ u, refs_of (upd_loops <[l:=j]> w) u = refs_of w u) as HR.
  { intros []; cbn; try done. by eapply fmap_insert_same. }
  split; try apply I; try (intros u; rewrite HR; apply I).
  eapply Forall_impl; [|apply (inv_dying _ _ _ I)]. intros []; try done.
  intros (k & Hk & H0). cbn. destruct (decide (l = l0)) as [->|].
  - exists j. rewrite lookup_insert_eq. split; [done|congruence].
  - exists k. by rewrite lookup_insert_ne.
Qed.

(** ** Hand-over to libuv and back *)

Lemma Inv_arm a F X w :
  Inv (arm_toks a ++ F) X w → arm_ok w a → Inv F X (upd_armed (cons a) w).
Proof.
  intros I Ha. split; try apply I.
  - intros u. pose proof (inv_count _ _ _ I u) as Hc.
    change (refs_of (upd_armed (cons a) w) u) with (refs_of w u).
    unfold total, owned in *. cbn. rewrite cnt_app in *.
    destruct (refs_of w u); [|lia]. split; [lia|]. by apply Hc.
  - cbn. constructor; [done|]. apply (inv_armed _ _ _ I).
Qed.

Lemma Inv_disarm l1 a l2 F X w :
  Inv F X w → w_armed w = l1 ++ a :: l2 →
  arm_ok w a ∧ Inv (arm_toks a ++ F) X (upd_armed (λ _, l1 ++ l2) w).
Proof.
  intros I Ha. pose proof (inv_armed _ _ _ I) as HA. rewrite Ha in HA.
  apply Forall_app in HA as [HA1 HA2]. apply list.Forall_cons in HA2 as [HA HA2].
  split; [done|]. split; try apply I.
  - intros u. pose proof (inv_count _ _ _ I u) as Hc.
    change (refs_of (upd_armed _ w) u) with (refs_of w u).
    unfold total, owned in *. cbn. rewrite Ha in Hc. rewrite bind_app, !cnt_app in *.
    rewrite cnt_bind_cons in Hc.
    destruct (refs_of w u); [|lia]. split; [lia|]. by apply Hc.
  - cbn. by apply Forall_app.
Qed.

(** ** Handles: properties *)

Definition keeps_reads (h : loc) (i j : hinst) (w : world) : Prop :=
  ∀ a, a ∈ w_armed w → arm_cb a = cb_file_read → arm_obj a = h →
    ∀ io f, h_props i = P_file io f → fi_rd_data f = Some h → TH h ∈ hinst_toks h i →
    TH h ∈ hinst_toks h j ∧ ∃ io' f', h_props j = P_file io' f' ∧ fi_rd_data f' = Some h.

Lemma Inv_upd_handle h i j F F' X w :
  Inv F X w → w_handles w !! h = Some i → h_refs j ≠ 0%Z → h_refs i ≠ 0%Z →
  (∀ u, Z.of_nat (cnt u F' + cnt u (hinst_toks h j)) =
        Z.of_nat (cnt u F + cnt u (hinst_toks h i)) +
        (if decide (u = TH h) then h_refs j - h_refs i else 0))%Z →
  not_process (h_props j) = not_process (h_props i) →
  Forall (endpoint_ok w) (props_endpoints (h_props j)) →
  keeps_reads h i j w → Inv F' X (upd_handles (<[h := j]>) w).
Proof.
  intros I Hi Hr H0 HF Hnp He Hk. set (w' := upd_handles _ w).
  assert (Hrefs : ∀ u, refs_of w' u = if decide (u = TH h) then Some (h_refs j) else refs_of w u).
  { intros u. destruct u; cbn; try done. rewrite fmap_insert_decide.
    by repeat case_decide; simplify_eq. }
  assert (Hend : ∀ eps, Forall (endpoint_ok w) eps → Forall (endpoint_ok w') eps).
  { intros eps. apply Forall_impl. intros [e|]; [|done]. intros (k & Hk' & Hp).
    unfold w'. cbn. destruct (decide (h = e)) as [->|].
    - exists j. rewrite lookup_insert_eq. split; [done|]. congruence.
    - exists k. by rewrite lookup_insert_ne. }
  split; try apply I.
  - intros u. pose proof (inv_count _ _ _ I u) as Hc. specialize (HF u).
    pose proof (owned_upd_handle w h i j u Hi) as Ho. fold w' in Ho.
    rewrite Hrefs. unfold total in *. destruct (decide (u = TH h)) as [->|].
    + cbn [refs_of] in Hc. rewrite Hi in Hc. cbn in Hc. split; [lia|done].
    + destruct (refs_of w u); [|lia]. destruct Hc. split; [lia|done].
  - eapply Forall_impl; [|apply (inv_dying _ _ _ I)]. intros d Hd.
    destruct d; cbn in *; try done; destruct Hd as (k & Hk' & Hz & Hd); exists k;
      (rewrite lookup_insert_ne by congruence);
      (split; [done|split; [done|]]) || done; intuition auto.
  - intros u Hu. pose proof (inv_fresh _ _ _ I u Hu) as Hn. rewrite Hrefs.
    case_decide; [|done]. subst. cbn in Hn. rewrite Hi in Hn. done.
  - pose proof (inv_armed _ _ _ I) as HA. rewrite list.Forall_forall in HA |- *.
    intros a Ha. cbn in Ha. specialize (HA a Ha). specialize (Hk a Ha). unfold arm_ok in *.
    destruct (arm_cb a); try done. destruct HA as (b & Hb & k & io & f & Hk' & Hp & Hd & Ho).
    exists b. split; [done|]. unfold w'. cbn. destruct (decide (h = arm_obj a)) as [Heq|].
    + rewrite <-Heq in *. assert (k = i) as -> by congruence.
      destruct (Hk eq_refl eq_refl io f Hp Hd Ho) as (Ho' & io' & f' & Hp' & Hd').
      exists j, io', f'. by rewrite lookup_insert_eq.
    + exists k, io, f. by rewrite lookup_insert_ne.
  - intros h' k Hk' Hk0. apply Hend. unfold w' in Hk'. cbn in Hk'.
    destruct (decide (h = h')) as [<-|].
    + rewrite lookup_insert_eq in Hk'. by simplify_eq.
    + rewrite lookup_insert_ne in Hk' by done. by eapply inv_endpoints.
Qed.

(** ** Variables of the client *)

Lemma Inv_set_var x p F F' X w :
  Inv F X w →
  (∀ u, cnt u F' + cnt u (ptr_toks p) = cnt u F + cnt u (from_option ptr_toks [] (w_vars w !! x))) →
  Inv F' X (upd_vars (<[x := p]>) w).
Proof.
  intros I HF. split; try apply I.
  intros u. pose proof (inv_count _ _ _ I u) as Hc. specialize (HF u).
  change (refs_of (upd_vars _ w) u) with (refs_of w u). unfold total, owned in *. cbn.
  assert (msum (λ _ p, cnt u (ptr_toks p)) (<[x:=p]> (w_vars w)) +
    cnt u (from_option ptr_toks [] (w_vars w !! x)) =
    cnt u (ptr_toks p) + msum (λ _ p, cnt u (ptr_toks p)) (w_vars w)).
  { destruct (w_vars w !! x) as [q|] eqn:E; cbn in *.
    - pose proof (msum_update (λ _ p, cnt u (ptr_toks p)) _ _ _ p E). cbn in *. lia.
    - rewrite msum_insert_fresh by done. lia. }
  destruct (refs_of w u); [|lia]. split; [lia|]. by apply Hc.
Qed.

Lemma Inv_delete_var x p F X w :
  Inv F X w → w_vars w !! x = Some p → Inv (ptr_toks p ++ F) X (upd_vars (delete x) w).
Proof.
  intros I Hx. split; try apply I.
  intros u. pose proof (inv_count _ _ _ I u) as Hc.
  change (refs_of (upd_vars _ w) u) with (refs_of w u). unfold total, owned in *. cbn.
  rewrite (msum_delete (λ _ p, cnt u (ptr_toks p)) (w_vars w) x p) in Hc by done.
  rewrite cnt_app. destruct (refs_of w u); [|lia]. split; [lia|]. by apply Hc.
Qed.

(** ** Rules for the classes' code *)

Section class_rules.
Context `{E : Env} `{EO : !EnvOk}.

Lemma wp_tok_unref_eq t n (Q : unit → world → Prop) w :
  refs_of w t = Some n → n ≠ 1%Z → Q tt (tok_set t (n - 1) w) → wp (tok_unref t) Q w.
Proof.
  intros Hn H1 HQ. assert ((ref_count.dec n =? 0)%Z = false) as Hz.
  { apply Z.eqb_neq. unfold ref_count.dec. lia. }
  destruct t as [x|x|x|x]; cbn in Hn; apply fmap_Some in Hn as (i & Hi & ->);
    (rewrite (tok_set_handle _ _ _ _ Hi) in HQ || rewrite (tok_set_req _ _ _ _ Hi) in HQ ||
     rewrite (tok_set_buf _ _ _ _ Hi) in HQ || rewrite (tok_set_loop _ _ _ _ Hi) in HQ);
    cbn [tok_unref]; unfold handle_unref, handle_unref_with, request_unref, buffer_unref,
      loop_unref; wp_structs; rewrite Hz; by apply wp_ret.
Qed.

(** Giving back a reference to an object that has other owners changes nothing else. *)
Lemma wp_tok_unref_live t F X (Q : unit → world → Prop) w :
  Inv (t :: F) X w → live F w t →
  (∀ w', wsim w w' → Inv F X w' → Q tt w') → wp (tok_unref t) Q w.
Proof.
  intros I L HQ. destruct (Inv_unref_count _ _ _ _ I) as (n & Hn & Ht).
  unfold live, total in *. eapply wp_tok_unref_eq; [done|lia|].
  edestruct (Inv_unref_live t) as [S I']; [done|done|lia|by apply HQ].
Qed.

Lemma wp_r_error r z F X (Q : unit → world → Prop) w :
  Inv F X w → live F w (TR r) → (∀ w', wsame w w' → Q tt w') →
  wp (mod_r r (set_r_error z)) Q w.
Proof.
  intros I L HQ. destruct (live_req _ _ _ _ I L) as (i & Hi). wp_structs. apply HQ.
  by eapply wsame_req.
Qed.
Lemma wp_r_status r z F X (Q : Z → world → Prop) w :
  Inv F X w → live F w (TR r) → (∀ w', wsame w w' → Q z w') →
  wp (request_uv_status r z) Q w.
Proof.
  intros I L HQ. unfold request_uv_status. wp_struct. eapply wp_r_error; [done..|].
  intros. by apply wp_ret, HQ.
Qed.
Lemma wp_h_status h z F X (Q : Z → world → Prop) w :
  Inv F X w → live F w (TH h) → (∀ w', wsame w w' → Q z w') →
  wp (handle_uv_status h z) Q w.
Proof.
  intros I L HQ. destruct (live_handle _ _ _ _ I L) as (i & Hi). unfold handle_uv_status.
  wp_structs. apply HQ. by eapply wsame_handle.
Qed.
Lemma wp_l_status l z F X (Q : Z → world → Prop) w :
  Inv F X w → live F w (TL l) → (∀ w', wsame w w' → Q z w') →
  wp (loop_uv_status l z) Q w.
Proof.
  intros I L HQ. destruct (live_loop _ _ _ _ I L) as (i & Hi). unfold loop_uv_status.
  wp_structs. apply HQ. by eapply wsame_loop.
Qed.

(** How every callback of a request begins: the status is stored, then the request
    is looked at. *)
Lemma wp_cb_prologue {A} r status i F X (k : rinst → M A) (Q : A → world → Prop) w :
  Inv F X w → w_reqs w !! r = Some i →
  (∀ w', wsame w w' → wp (k (set_r_error status i)) Q w') →
  wp (mod_r r (set_r_error status);; j ← get_r r; k j) Q w.
Proof.
  intros I Hi HQ. wp_structs. eapply wp_get_r; [cbn; apply lookup_insert_eq|].
  apply HQ. by eapply wsame_req.
Qed.

(** Writing the properties of a request that is not in use. *)
Lemma wp_set_rprops r p F X (Q : unit → world → Prop) w :
  Inv F X w → live F w (TR r) → unarmed r w →
  (∀ w', Inv F X w' → r_props <$> w_reqs w' !! r = Some p →
    (∀ t, owned w' t = owned w t) → w_armed w' = w_armed w →
    w_handles w' = w_handles w → w_bufs w' = w_bufs w → Q tt w') →
  wp (mod_r r (set_r_props p)) Q w.
Proof.
  intros I L U HQ. destruct (live_req _ _ _ _ I L) as (i & Hi). wp_structs.
  apply HQ; try done.
  - eapply Inv_upd_req; [done|done|done|by right].
  - cbn. by rewrite lookup_insert_eq.
Qed.

(** A request handed to libuv with a callback, when libuv takes the references. *)
Lemma wp_uv_submit f args c o toks F X (Q : Z → world → Prop) w :
  Inv (toks ++ F) X w → arm_ok w {| arm_cb := c; arm_obj := o; arm_toks := toks |} →
  (∀ z w', (z < 0)%Z → wsame w w' → Inv (toks ++ F) X w' → Q z w') →
  (∀ z w', (0 ≤ z)%Z → Inv F X w' →
    w_armed w' = {| arm_cb := c; arm_obj := o; arm_toks := toks |} :: w_armed w → Q z w') →
  wp (uv_submit f args c o toks) Q w.
Proof.
  intros I Ha Hneg Hpos. unfold uv_submit. wp_struct. apply wp_uv_call. intros z w1 S.
  wp_struct. pose proof (arm_ok_sim _ _ _ (wsame_sim _ _ S) Ha) as Ha1.
  rewrite S in I. destruct (Z.leb_spec 0 z).
  - cbn [when]. apply wp_modify, wp_ret, Hpos; [done|by apply Inv_arm|].
    cbn. f_equal. symmetry. apply (sim_armed _ _ (proj1 (wsame_sim _ _ S))).
  - cbn [when]. apply wp_ret, wp_ret, Hneg; done.
Qed.
End class_rules.

(** ** Automation

    The hypotheses on the current state move with it: [advance S] replaces the
    state [w] by [w'] along [S : wsim w w'] or [S : wsame w w']. *)

Lemma live_cnt F F' w t : live F w t → (∀ u, cnt u F ≤ cnt u F') → live F' w t.
Proof. unfold live. intros L H. specialize (H t). lia. Qed.

Lemma live_owned F w w' t : (∀ u, owned w' u = owned w u) → live F w t → live F w' t.
Proof. unfold live. intros ->. done. Qed.
Lemma unarmed_eq r w w' : w_armed w' = w_armed w → unarmed r w → unarmed r w'.
Proof. unfold unarmed. by intros ->. Qed.

Ltac live_tac :=
  match goal with
  | L : held ?F ?w ?t |- live _ ?w ?t =>
      apply (live_cnt F _ _ _ (held_live _ _ _ L)); intros ?; cbn [app cnt];
      rewrite ?cnt_app; lia
  | L : live ?F ?w ?t |- live _ ?w ?t =>
      apply (live_cnt F _ _ _ L); intros ?; cbn [app cnt]; rewrite ?cnt_app; lia
  | |- live _ _ _ => apply live_frame; cbn [app]; list_in
  end.

Ltac advance_sim S :=
  lazymatch type of S with
  | wsim ?w ?w' =>
      repeat match goal with
      | H : live _ w _ |- _ => rewrite S in H
      | H : held _ w _ |- _ => apply (held_vars _ _ _ _ (sim_vars _ _ (proj1 S))) in H
      | H : unarmed _ w |- _ => apply (unarmed_sim _ _ _ S) in H
      | H : context [h_props <$> w_handles w !! ?h] |- _ =>
          rewrite (sim_hprops _ _ h (proj1 S)) in H
      | H : context [h_iface <$> w_handles w !! ?h] |- _ =>
          rewrite (sim_hiface _ _ h (proj1 S)) in H
      | H : context [b_bufs <$> w_bufs w !! ?b] |- _ =>
          rewrite (sim_bbufs _ _ b (proj1 S)) in H
      | H : context [w_armed w] |- _ => rewrite (sim_armed _ _ (proj1 S)) in H
      | H : ?v = w_vars w |- _ => rewrite (sim_vars _ _ (proj1 S)) in H
      | H : context [r_props <$> w_reqs w !! ?r] |- _ =>
          rewrite (sim_rprops _ _ r (proj1 S)) in H
      end
  end.

Ltac advance S :=
  lazymatch type of S with
  | wsame ?w ?w' =>
      let S' := fresh in
      pose proof (wsame_sim _ _ S) as S'; advance_sim S'; clear S';
      repeat match goal with H : Inv _ _ w |- _ => rewrite S in H end;
      clear S; try clear w
  | wsim ?w ?w' =>
      advance_sim S; repeat match goal with H : Inv _ _ w |- _ => clear H end;
      clear S; try clear w
  end.

(** The pending callbacks after a request: one more when libuv accepted it. *)
Definition submitted (z : Z) (a : armed) (A : list armed) : list armed :=
  if (z <? 0)%Z then A else a :: A.

Lemma submitted_neg z a A : (z < 0)%Z → submitted z a A = A.
Proof. intros H. unfold submitted. by rewrite (proj2 (Z.ltb_lt _ _) H). Qed.
Lemma submitted_pos z a A : (0 ≤ z)%Z → submitted z a A = a :: A.
Proof. intros H. unfold submitted. by rewrite (proj2 (Z.ltb_ge _ _) H). Qed.

(** Brings the reference [t] of the running code to the front of the frame. *)
Ltac remove_tok t F :=
  lazymatch F with
  | t :: ?F' => F'
  | ?x :: ?F' => let G := remove_tok t F' in constr:(x :: G)
  end.
Ltac front t :=
  match goal with
  | I : Inv (t :: _) _ _ |- _ => idtac
  | I : Inv ?F ?X ?w |- _ =>
      let G := remove_tok t F in
      let H := fresh "HP" in
      assert (F ≡ₚ t :: G) as H by solve_Permutation;
      apply (Inv_perm _ _ H X X eq_refl w w eq_refl) in I; clear H
  end.

Ltac fronts l :=
  lazymatch l with ?t :: ?l' => fronts l'; front t | _ => idtac end.

Ltac wp_ref_tac t :=
  lazymatch goal with
  | I : Inv ?F ?X ?w |- wp _ ?Q ?w =>
      let w' := fresh "w" in let S := fresh "S" in let I' := fresh "I" in
      apply (wp_tok_ref t F X Q w I); [live_tac|intros w' S I'; advance S]
  end.

(** Gives [t] back: when another owner of it is known, the other facts stay. *)
Ltac wp_unref_tac t :=
  front t;
  lazymatch goal with
  | I : Inv (_ :: ?F) ?X ?w |- wp _ ?Q ?w =>
      let w' := fresh "w" in let S := fresh "S" in let I' := fresh "I" in
      first [ apply (wp_tok_unref_live t F X Q w I); [live_tac|intros w' S I'; advance S]
            | apply (wp_tok_unref t F X Q w I); intros w' I'; clear I ]
  end.

Ltac wp_op :=
  lazymatch goal with
  | |- wp (handle_ref ?h) _ _ => wp_ref_tac (TH h)
  | |- wp (request_ref ?h) _ _ => wp_ref_tac (TR h)
  | |- wp (buffer_ref ?h) _ _ => wp_ref_tac (TB h)
  | |- wp (loop_ref ?h) _ _ => wp_ref_tac (TL h)
  | |- wp (handle_unref ?h) _ _ => wp_unref_tac (TH h)
  | |- wp (request_unref ?h) _ _ => wp_unref_tac (TR h)
  | |- wp (buffer_unref ?h) _ _ => wp_unref_tac (TB h)
  | |- wp (loop_unref ?h) _ _ => wp_unref_tac (TL h)
  | I : Inv _ _ ?w |- wp (request_uv_status _ _) _ ?w =>
      let w' := fresh "w" in let S := fresh "S" in
      eapply (wp_r_status _ _ _ _ _ _ I); [live_tac|intros w' S; advance S]
  | I : Inv _ _ ?w |- wp (mod_r _ (set_r_error _)) _ ?w =>
      let w' := fresh "w" in let S := fresh "S" in
      eapply (wp_r_error _ _ _ _ _ _ I); [live_tac|intros w' S; advance S]
  | I : Inv _ _ ?w, U : unarmed ?r ?w |- wp (mod_r ?r (set_r_props _)) _ ?w =>
      let w' := fresh "w" in let I' := fresh "I" in let HP := fresh "HP" in
      let HO := fresh "HO" in let HA := fresh "HA" in
      eapply (wp_set_rprops _ _ _ _ _ _ I); [live_tac|exact U|];
      intros w' I' HP HO HA _ _;
      repeat match goal with
      | H : live _ w _ |- _ => apply (live_owned _ _ _ _ HO) in H
      | H : unarmed _ w |- _ => apply (unarmed_eq _ _ _ HA) in H
      | H : w_armed w = _ |- _ => rewrite <-HA in H
      end; clear I HO HA; try clear w
  | I : Inv _ _ ?w |- wp (handle_uv_status _ _) _ ?w =>
      let w' := fresh "w" in let S := fresh "S" in
      eapply (wp_h_status _ _ _ _ _ _ I); [live_tac|intros w' S; advance S]
  | I : Inv _ _ ?w |- wp (loop_uv_status _ _) _ ?w =>
      let w' := fresh "w" in let S := fresh "S" in
      eapply (wp_l_status _ _ _ _ _ _ I); [live_tac|intros w' S; advance S]
  | |- wp (uv_call _ _) _ _ =>
      let w' := fresh "w" in let S := fresh "S" in let z := fresh "z" in
      apply wp_uv_call; intros z w' S; advance S
  | |- wp (uv_call_out _ _) _ _ =>
      let w' := fresh "w" in let S := fresh "S" in let z := fresh "z" in
      apply wp_uv_call_out; intros z w' S; advance S
  | I : Inv _ _ ?w |- wp (get_h ?h) _ ?w =>
      let i := fresh "hi" in let Hi := fresh "Hh" in
      destruct (live_handle _ _ _ h I) as (i & Hi); [live_tac|]; apply (wp_get_h _ _ _ _ Hi)
  | I : Inv _ _ ?w |- wp (get_r ?h) _ ?w =>
      let i := fresh "ri" in let Hi := fresh "Hr" in
      destruct (live_req _ _ _ h I) as (i & Hi); [live_tac|]; apply (wp_get_r _ _ _ _ Hi)
  | I : Inv _ _ ?w |- wp (get_b ?h) _ ?w =>
      let i := fresh "bi" in let Hi := fresh "Hb" in
      destruct (live_buf _ _ _ h I) as (i & Hi); [live_tac|]; apply (wp_get_b _ _ _ _ Hi)
  | I : Inv _ _ ?w |- wp (get_l ?h) _ ?w =>
      let i := fresh "li" in let Hi := fresh "Hl" in
      destruct (live_loop _ _ _ h I) as (i & Hi); [live_tac|]; apply (wp_get_l _ _ _ _ Hi)
  | |- wp (invoke _ ?args) _ _ =>
      let toks := eval cbn in (args_toks args) in fronts toks;
      lazymatch goal with
      | I : Inv _ _ _ |- _ =>
          let w' := fresh "w" in let I' := fresh "I" in
          eapply wp_invoke; [exact I|intros w' I'; clear I]
      end
  end.
Ltac wp_auto := repeat (first [wp_struct | wp_op]; cbn beta).

(** [wp_submit F]: the request is handed over, the running code keeps [F]. *)
Ltac wp_submit F :=
  lazymatch goal with
  | I : Inv ?G ?X ?w, HA : w_armed ?w = _ |- wp (uv_submit _ _ ?c ?o ?toks) ?Q ?w =>
      let H := fresh "HP" in let z := fresh "z" in let w' := fresh "w" in
      let Hz := fresh "Hz" in let S := fresh "S" in let I' := fresh "I" in
      assert (G ≡ₚ toks ++ F) as H by solve_Permutation;
      apply (Inv_perm _ _ H X X eq_refl w w eq_refl) in I; clear H;
      apply (wp_uv_submit _ _ c o toks F X Q w I);
      [ unfold arm_ok; cbn
      | intros z w' Hz S I'; clear I'; advance S; cbn [app] in I;
        rewrite (proj2 (Z.ltb_lt z 0) Hz); cbn [when]
      | intros z w' Hz I' HA'; rewrite HA in HA'; clear HA I;
        repeat match goal with H : context [w] |- _ => clear H end;
        rewrite (proj2 (Z.ltb_ge z 0) Hz); cbn [when] ]
  end.

(** The end of a [run]: both branches of the submission. *)
Ltac wp_finish :=
  wp_auto;
  try (lazymatch goal with
       | H : (?z < 0)%Z |- _ ∧ _ = submitted ?z _ _ => rewrite (submitted_neg _ _ _ H)
       | H : (0 ≤ ?z)%Z |- _ ∧ _ = submitted ?z _ _ => rewrite (submitted_pos _ _ _ H)
       end); try done.

(** [wp_prologue Hi]: the beginning of a request callback, the request being [Hi]. *)
Ltac wp_prologue Hi :=
  lazymatch goal with
  | I : Inv ?F ?X ?w |- wp _ _ ?w =>
      let w' := fresh "w" in let S := fresh "S" in let HP := fresh "HP" in
      lazymatch type of Hi with w_reqs _ !! ?r = Some ?i =>
        assert (r_props <$> w_reqs w !! r = Some (r_props i)) as HP by (by rewrite Hi) end;
      cbn [app] in I;
      eapply (wp_cb_prologue _ _ _ _ _ _ _ _ I Hi); clear Hi; intros w' S; advance S
  end.
