(* ===== verification/HRules.v ===== *)
(** * Rules for the properties of handles

    A handle that has been started owns a reference to itself. Writing its
    properties may create that obligation, discharge it, or leave it as it is. *)

From Stdlib Require Import ZArith Lia.
From stdpp Require Import base gmap list strings option.
From S2P Require Import Prelude World Objects Ledger Wp Refs Release Rules.

(** The new properties do not disturb a file read in flight. *)
Definition reads_kept (h : loc) (p p' : props) (w : world) : Prop :=
  ∀ a, a ∈ w_armed w → arm_cb a = cb_file_read → arm_obj a = h →
  ∀ io f, p = P_file io f → fi_rd_data f = Some h → reading (io_rdcmd io) = true →
  ∃ io' f', p' = P_file io' f' ∧ fi_rd_data f' = Some h ∧ reading (io_rdcmd io') = true.

Lemma reads_kept_not_file h p p' w :
  (∀ io f, p ≠ P_file io f) → reads_kept h p p' w.
Proof. intros Hp a _ _ _ io f ->. by destruct (Hp io f). Qed.

Lemma reads_kept_same h io f io' f' w :
  fi_rd_data f' = fi_rd_data f → (reading (io_rdcmd io) = true → reading (io_rdcmd io') = true) →
  reads_kept h (P_file io f) (P_file io' f') w.
Proof. intros Hd Hr a _ _ _ io0 f0 [= <- <-] Hf Hr0. exists io', f'. rewrite Hd. auto. Qed.

Lemma reads_kept_keeps h i j w :
  h_refs i ≠ 0%Z → h_refs j ≠ 0%Z → reads_kept h (h_props i) (h_props j) w →
  keeps_reads h i j w.
Proof.
  intros H0 H0' Hk a Ha Hc Ho io f Hp Hd Hin.
  assert (reading (io_rdcmd io) = true) as Hr.
  { unfold hinst_toks, props_toks in Hin. rewrite (proj2 (Z.eqb_neq _ _) H0), Hp in Hin.
    cbn in Hin. destruct (reading (io_rdcmd io)); [done|]. cbn in Hin.
    destruct (h_loop i); cbn in Hin; [|by apply not_elem_of_nil in Hin].
    by apply list_elem_of_singleton in Hin. }
  destruct (Hk a Ha Hc Ho io f Hp Hd Hr) as (io' & f' & Hp' & Hd' & Hr').
  split; [|by exists io', f'].
  unfold hinst_toks, props_toks. rewrite (proj2 (Z.eqb_neq _ _) H0'), Hp'. cbn. rewrite Hr'.
  cbn. by left.
Qed.

Lemma live_refs F X w h i :
  Inv F X w → live F w (TH h) → w_handles w !! h = Some i → h_refs i ≠ 0%Z.
Proof.
  intros I L Hi. destruct (Inv_live _ _ _ _ I L) as (n & Hn & H0).
  cbn in Hn. rewrite Hi in Hn. by simplify_eq/=.
Qed.

Lemma hinst_toks_live h i :
  h_refs i ≠ 0%Z → hinst_toks h i = props_toks h (h_props i) ++ opt_tok TL (h_loop i).
Proof. intros H0. unfold hinst_toks. by rewrite (proj2 (Z.eqb_neq _ _) H0). Qed.

Lemma cnt_props_toks h p u :
  cnt u (props_toks h p) =
  (if props_self p then if decide (u = TH h) then 1 else 0 else 0) +
  cnt u (props_endpoints p ≫= opt_tok TH).
Proof. unfold props_toks. rewrite cnt_app. by destruct (props_self p); cbn; rewrite ?Nat.add_0_r. Qed.

(** Neither the class nor the endpoints change. *)
Definition same_endpoints (p p' : props) : Prop :=
  not_process p' = not_process p ∧ props_endpoints p' = props_endpoints p.

Lemma endpoints_kept F X w h i p' :
  Inv F X w → w_handles w !! h = Some i → h_refs i ≠ 0%Z → same_endpoints (h_props i) p' →
  Forall (endpoint_ok w) (props_endpoints p').
Proof. intros I Hi H0 [_ ->]. by eapply inv_endpoints. Qed.

Lemma owned_eq_live F w w' t : (∀ t, owned w' t = owned w t) → live F w t → live F w' t.
Proof. unfold live. intros E. by rewrite E. Qed.

(** What a write to the properties of [h] leaves alone. *)
Record wrote (h : loc) (p : props) (w w' : world) : Prop := {
  wr_props : h_props <$> w_handles w' !! h = Some p;
  wr_other : ∀ h', h ≠ h' → w_handles w' !! h' = w_handles w !! h';
  wr_loop : h_loop <$> w_handles w' !! h = h_loop <$> w_handles w !! h;
  wr_iface : h_iface <$> w_handles w' !! h = h_iface <$> w_handles w !! h;
  wr_uv : h_uv <$> w_handles w' !! h = h_uv <$> w_handles w !! h;
  wr_reqs : w_reqs w' = w_reqs w;
  wr_bufs : w_bufs w' = w_bufs w;
  wr_armed : w_armed w' = w_armed w;
  wr_vars : w_vars w' = w_vars w;
  wr_log : w_log w' = w_log w
}.

Lemma wrote_upd h i p w :
  w_handles w !! h = Some i → ∀ j, h_props j = p → h_loop j = h_loop i → h_iface j = h_iface i →
  h_uv j = h_uv i → wrote h p w (upd_handles (<[h := j]>) w).
Proof.
  intros Hi j Hp Hl Hf Hu. split; cbn; try done.
  - rewrite lookup_insert_eq. cbn. congruence.
  - intros h' Hne. by rewrite lookup_insert_ne.
  - rewrite lookup_insert_eq, Hi. cbn. congruence.
  - rewrite lookup_insert_eq, Hi. cbn. congruence.
  - rewrite lookup_insert_eq, Hi. cbn. congruence.
Qed.

Section rules.
Context `{E : Env} `{EO : !EnvOk}.

(** The obligation does not change. *)
Lemma wp_mod_props h f p F X (Q : unit → world → Prop) w :
  Inv F X w → live F w (TH h) → h_props <$> w_handles w !! h = Some p →
  props_self (f p) = props_self p → same_endpoints p (f p) →
  reads_kept h p (f p) w →
  (∀ w', Inv F X w' → wrote h (f p) w w' → (∀ t, owned w' t = owned w t) → Q tt w') →
  wp (mod_props h f) Q w.
Proof.
  intros I L HP Hs [Hnp He] Hk HQ. apply fmap_Some in HP as (i & Hi & ->).
  pose proof (live_refs _ _ _ _ _ I L Hi) as H0. unfold mod_props. wp_structs.
  set (j := set_h_props (f (h_props i)) i).
  assert (Ht : ∀ u, cnt u (hinst_toks h j) = cnt u (hinst_toks h i)).
  { intros u. rewrite !hinst_toks_live by done. cbn.
    by rewrite !cnt_app, !cnt_props_toks, Hs, He. }
  apply HQ.
  - eapply Inv_upd_handle; try done.
    + intros u. rewrite Ht. cbn. case_decide; lia.
    + by eapply endpoints_kept.
    + by apply reads_kept_keeps.
  - by eapply wrote_upd.
  - intros t. pose proof (owned_upd_handle w h i j t Hi). rewrite Ht in *. lia.
Qed.

(** The handle is stopped: its own reference goes to the running code. *)
Lemma wp_props_release h f p F X (Q : unit → world → Prop) w :
  Inv F X w → live F w (TH h) → h_props <$> w_handles w !! h = Some p →
  props_self p = true → props_self (f p) = false →
  same_endpoints p (f p) → reads_kept h p (f p) w →
  (∀ w', Inv (TH h :: F) X w' → wrote h (f p) w w' →
    (∀ t, owned w t = owned w' t + (if decide (t = TH h) then 1 else 0)) → Q tt w') →
  wp (mod_props h f) Q w.
Proof.
  intros I L HP Hs Hs' [Hnp He] Hk HQ. apply fmap_Some in HP as (i & Hi & ->).
  pose proof (live_refs _ _ _ _ _ I L Hi) as H0. unfold mod_props. wp_structs.
  set (j := set_h_props (f (h_props i)) i).
  assert (Ht : ∀ u, cnt u (hinst_toks h i) =
    cnt u (hinst_toks h j) + (if decide (u = TH h) then 1 else 0)).
  { intros u. rewrite !hinst_toks_live by done. cbn.
    rewrite !cnt_app, !cnt_props_toks, Hs, Hs', He. lia. }
  apply HQ.
  - eapply Inv_upd_handle; try done.
    + intros u. rewrite Ht. cbn. case_decide; lia.
    + by eapply endpoints_kept.
    + by apply reads_kept_keeps.
  - by eapply wrote_upd.
  - intros t. pose proof (owned_upd_handle w h i j t Hi). specialize (Ht t). lia.
Qed.

(** The handle is started: a reference of the running code becomes its own. *)
Lemma wp_props_keep h f p F X (Q : unit → world → Prop) w :
  Inv (TH h :: F) X w → h_props <$> w_handles w !! h = Some p →
  props_self p = false → props_self (f p) = true →
  same_endpoints p (f p) → reads_kept h p (f p) w →
  (∀ w', Inv F X w' → wrote h (f p) w w' →
    (∀ t, owned w' t = owned w t + (if decide (t = TH h) then 1 else 0)) → Q tt w') →
  wp (mod_props h f) Q w.
Proof.
  intros I HP Hs Hs' [Hnp He] Hk HQ. apply fmap_Some in HP as (i & Hi & ->).
  assert (h_refs i ≠ 0%Z) as H0.
  { eapply live_refs; [exact I| |done]. apply live_frame. by left. }
  unfold mod_props. wp_structs. set (j := set_h_props (f (h_props i)) i).
  assert (Ht : ∀ u, cnt u (hinst_toks h j) =
    cnt u (hinst_toks h i) + (if decide (u = TH h) then 1 else 0)).
  { intros u. rewrite !hinst_toks_live by done. cbn.
    rewrite !cnt_app, !cnt_props_toks, Hs, Hs', He. lia. }
  apply HQ.
  - eapply Inv_upd_handle; try done.
    + intros u. rewrite Ht. cbn. case_decide; lia.
    + by eapply endpoints_kept.
    + by apply reads_kept_keeps.
  - by eapply wrote_upd.
  - intros t. pose proof (owned_upd_handle w h i j t Hi). specialize (Ht t). lia.
Qed.

(** The handle is started, then its own reference is taken. *)
Lemma wp_props_ref h f p F X (Q : unit → world → Prop) w :
  Inv F X w → live F w (TH h) → h_props <$> w_handles w !! h = Some p →
  props_self p = false → props_self (f p) = true →
  same_endpoints p (f p) → reads_kept h p (f p) w →
  (∀ w', Inv F X w' → wrote h (f p) w w' →
    (∀ t, owned w' t = owned w t + (if decide (t = TH h) then 1 else 0)) → Q tt w') →
  wp (mod_props h f;; handle_ref h) Q w.
Proof.
  intros I L HP Hs Hs' [Hnp He] Hk HQ. apply fmap_Some in HP as (i & Hi & ->).
  pose proof (live_refs _ _ _ _ _ I L Hi) as H0.
  assert (0 < h_refs i)%Z as Hpos.
  { pose proof (inv_count _ _ _ I (TH h)) as Hc. cbn in Hc. rewrite Hi in Hc. cbn in Hc. lia. }
  unfold mod_props. wp_structs. unfold handle_ref. wp_struct.
  eapply wp_get_h; [cbn; apply lookup_insert_eq|]. cbn. unfold ref_count.inc.
  rewrite (proj2 (Z.eqb_neq _ _) H0). eapply wp_mod_h; [cbn; apply lookup_insert_eq|].
  set (j := set_h_refs (h_refs i + 1) (set_h_props (f (h_props i)) i)).
  match goal with |- Q _ ?v => assert (v = upd_handles (<[h := j]>) w) as -> end.
  { unfold upd_handles. cbn. by rewrite insert_insert_eq. }
  assert (Ht : ∀ u, cnt u (hinst_toks h j) =
    cnt u (hinst_toks h i) + (if decide (u = TH h) then 1 else 0)).
  { intros u. rewrite !hinst_toks_live by (cbn; lia). cbn.
    rewrite !cnt_app, !cnt_props_toks, Hs, Hs', He. lia. }
  apply HQ.
  - eapply Inv_upd_handle; try done.
    + cbn. lia.
    + intros u. rewrite Ht. cbn. case_decide; lia.
    + by eapply endpoints_kept.
    + apply reads_kept_keeps; [done|cbn; lia|done].
  - by eapply wrote_upd.
  - intros t. pose proof (owned_upd_handle w h i j t Hi). specialize (Ht t). lia.
Qed.

(** ** Booking the loop *)

Lemma wp_book_loop h i l F X (Q : unit → world → Prop) w :
  Inv F X w → live F w (TH h) → live F w (TL l) →
  w_handles w !! h = Some i → h_loop i = None → uh_loop (h_uv i) = Some l →
  (∀ w', Inv F X w' → w_vars w' = w_vars w → w_armed w' = w_armed w →
    w_reqs w' = w_reqs w → w_bufs w' = w_bufs w →
    h_props <$> w_handles w' !! h = Some (h_props i) →
    (∀ h', h ≠ h' → w_handles w' !! h' = w_handles w !! h') → Q tt w') →
  wp (book_loop h) Q w.
Proof.
  intros I L Ll Hi Hn Hu HQ. pose proof (live_refs _ _ _ _ _ I L Hi) as H0.
  unfold book_loop, unbook_loop, uv_interface_loop. wp_structs. rewrite Hn. wp_structs.
  rewrite Hu. wp_structs. destruct (Inv_live _ _ _ _ I Ll) as (n & Hl & Hn0).
  eapply (wp_tok_ref_eq (TL l)); [exact Hl|done|].
  assert (n + 1 ≠ 0)%Z by (pose proof (inv_count _ _ _ I (TL l)) as Hc; rewrite Hl in Hc; lia).
  destruct (Inv_tok_set (TL l) n (n + 1) F (TL l :: F) X w) as [S I1]; try done.
  { intros u. cbn. destruct (decide (u = TL l)), (decide (TL l = u)); subst; try done; lia. }
  match goal with |- Q tt ?v =>
    change v with (upd_handles (<[h := set_h_loop (Some l) i]>) (tok_set (TL l) (n + 1) w)) end.
  apply HQ; try done.
  - eapply (Inv_upd_handle h i); try done.
    + intros u. rewrite !hinst_toks_live by done. cbn. rewrite Hn, !cnt_app. cbn.
      case_decide; case_decide; lia.
    + by eapply endpoints_kept.
    + apply reads_kept_keeps; [done..|]. cbn. destruct (h_props i); try by apply reads_kept_not_file.
      by apply reads_kept_same.
  - cbn. by rewrite lookup_insert_eq.
  - intros h' Hne. cbn. by rewrite lookup_insert_ne.
Qed.

(** ** Construction *)

(** An initialised handle knows its loop. *)
Definition on_loop (h l : loc) (w : world) : Prop :=
  (λ i, uh_loop (h_uv i)) <$> w_handles w !! h = Some (Some l).

(** Every other function leaves the loop of a handle alone. *)
Lemma wp_uv_call_loop f args h l (Q : Z → world → Prop) w :
  is_init f = false → on_loop h l w →
  (∀ w', wsame w w' → on_loop h l w' → Q (rp_ret (uv_exec (w_log w) f args)) w') →
  wp (uv_call f args) Q w.
Proof.
  intros Hf Hl HQ. unfold uv_call, uv_call_out. apply wp_bind. cbn. apply HQ.
  - etrans; [apply wsame_uv_writes|apply wsame_log].
  - unfold on_loop. cbn. by rewrite env_loop_kept.
Qed.

Lemma wp_uv_init f l h rest i (Q : Z → world → Prop) w :
  is_init f = true → w_handles w !! h = Some i →
  (∀ z w', wsame w w' → ((0 ≤ z)%Z → on_loop h l w') → Q z w') →
  wp (uv_call f (V_loop (Some l) :: V_handle (Some h) :: rest)) Q w.
Proof.
  intros Hf Hi HQ. unfold uv_call, uv_call_out. apply wp_bind. cbn. apply HQ.
  - etrans; [apply wsame_uv_writes|apply wsame_log].
  - intros Hz. unfold on_loop. cbn. by eapply env_init.
Qed.

(** A handle under construction: the instance is there, the loop is not booked. *)
Record fresh_handle h p F X w0 w : Prop := {
  fh_inv : Inv (TH h :: F) X w;
  fh_props : h_props <$> w_handles w !! h = Some p;
  fh_loop : h_loop <$> w_handles w !! h = Some None;
  fh_vars : w_vars w = w_vars w0;
  fh_armed : w_armed w = w_armed w0
}.

Lemma wp_create_fresh ifc p l F X (Q : loc → world → Prop) w :
  Inv F X w → live F w (TL l) → props_self p = false → props_endpoints p = [] →
  (∀ h w', fresh_handle h p F X w w' → live F w' (TL l) → Q h w') →
  wp (handle_create ifc p) Q w.
Proof.
  intros I Ll Hs He HQ.
  eapply wp_handle_create; [done..|]. intros h w1 i _ Hh Hp _ Hl _ _ _ _ _ HV HA HO I1.
  assert (Hi : w_handles w1 !! h = Some i) by (rewrite Hh; apply lookup_insert_eq).
  apply HQ; [|by eapply owned_eq_live].
  split; try done; rewrite Hi; cbn; congruence.
Qed.

Lemma wp_init_fresh f l h rest p F X (Q : Z → world → Prop) w0 w :
  is_init f = true → fresh_handle h p F X w0 w → live F w (TL l) →
  (∀ z w', fresh_handle h p F X w0 w' → live F w' (TL l) → ((0 ≤ z)%Z → on_loop h l w') →
    Q z w') →
  wp (uv_call f (V_loop (Some l) :: V_handle (Some h) :: rest)) Q w.
Proof.
  intros Hf [I HP HL HV HA] Ll HQ.
  pose proof HP as (i & Hi & _)%fmap_Some. eapply wp_uv_init; [done..|].
  intros z w1 S HU. pose proof (wsame_sim _ _ S) as Sm. apply HQ; try done.
  - split.
    + by rewrite <-S.
    + by rewrite <-(sim_hprops _ _ h (proj1 Sm)).
    + by rewrite <-(sim_hloop _ _ h (proj1 Sm)).
    + by rewrite <-(sim_vars _ _ (proj1 Sm)).
    + by rewrite <-(sim_armed _ _ (proj1 Sm)).
  - by rewrite <-Sm.
Qed.

(** The end of a constructor: the status, and unless it is an error the loop is booked. *)
Lemma wp_init_tail h l z p F X (Q : unit → world → Prop) w0 w :
  fresh_handle h p F X w0 w → live F w (TL l) → ((0 ≤ z)%Z → on_loop h l w) →
  (∀ w', Inv (TH h :: F) X w' → h_props <$> w_handles w' !! h = Some p →
    w_vars w' = w_vars w0 → w_armed w' = w_armed w0 → Q tt w') →
  wp (z' ← handle_uv_status h z; if (z' <? 0)%Z then mret tt else book_loop h) Q w.
Proof.
  intros [I HP HL HV HA] Ll Hu HQ. pose proof HP as (i & Hi & HPi)%fmap_Some.
  unfold handle_uv_status. wp_structs. set (w1 := upd_handles _ w).
  assert (S : wsame w w1) by (by eapply wsame_handle).
  assert (Hi1 : w_handles w1 !! h = Some (set_h_error z i)) by (cbn; apply lookup_insert_eq).
  rewrite S in I. rewrite (wsame_sim _ _ S) in Ll. destruct (Z.ltb_spec z 0).
  - apply wp_ret, HQ; try done. rewrite Hi1. cbn. congruence.
  - rewrite Hi in HL. eapply (wp_book_loop h _ l); [done| | |done| | |].
    + live_tac.
    + live_tac.
    + cbn. by simplify_eq/=.
    + specialize (Hu ltac:(done)). unfold on_loop in Hu. rewrite Hi in Hu.
      by simplify_eq/=.
    + intros w2 I2 HV2 HA2 _ _ HP2 _. apply HQ; [done| |by etrans..].
      rewrite HP2. cbn. congruence.
Qed.
End rules.

Lemma wp_properties `{E : Env} h p (Q : props → world → Prop) w :
  h_props <$> w_handles w !! h = Some p → Q p w → wp (properties h) Q w.
Proof.
  intros (i & Hi & ->)%fmap_Some HQ. unfold properties. wp_struct.
  eapply wp_get_h; [done|]. by apply wp_ret.
Qed.

Lemma owned_more_live F w w' t n :
  (∀ t, owned w' t = owned w t + n t) → live F w t → live F w' t.
Proof. unfold live. intros E. rewrite E. lia. Qed.

(** [advance_wrote W]: the facts about the state before a write [W]. *)
Ltac advance_wrote W :=
  lazymatch type of W with
  | wrote ?h ?p ?w ?w' =>
      let HP := fresh "HPh" in
      repeat match goal with
      | H : h_props <$> w_handles w !! h = _ |- _ => clear H
      | H : held _ w _ |- _ => apply (held_vars _ _ _ _ (eq_sym (wr_vars _ _ _ _ W))) in H
      | H : context [h_iface <$> w_handles w !! h] |- _ => rewrite <-(wr_iface _ _ _ _ W) in H
      | H : context [w_armed w] |- _ => rewrite <-(wr_armed _ _ _ _ W) in H
      | H : unarmed _ w |- _ => apply (unarmed_eq _ _ _ (wr_armed _ _ _ _ W)) in H
      | H : context [r_props <$> w_reqs w !! _] |- _ => rewrite <-(wr_reqs _ _ _ _ W) in H
      end;
      pose proof (wr_props _ _ _ _ W) as HP; cbn in HP;
      repeat match goal with H : Inv _ _ w |- _ => clear H end;
      try clear W; try clear w
  end.

(** [wp_props]: a write to properties that leaves the handle's own reference alone;
    [wp_release]: one that stops the handle; [wp_acquire]: one that starts it. *)
Ltac props_side :=
  first [ reflexivity | split; reflexivity | (apply reads_kept_not_file; congruence)
        | (apply reads_kept_same; done) ].
Ltac wp_props :=
  lazymatch goal with
  | I : Inv _ _ ?w, HP : h_props <$> w_handles ?w !! ?h = Some _ |- wp (mod_props ?h _) _ ?w =>
      let w' := fresh "w" in let W := fresh "W" in let I' := fresh "I" in let HO := fresh "HO" in
      eapply (wp_mod_props _ _ _ _ _ _ _ I); [live_tac|exact HP|try props_side..|];
      intros w' I' W HO; repeat match goal with
        | L : live _ w _ |- _ => apply (owned_eq_live _ _ _ _ HO) in L end;
      clear HO; advance_wrote W
  end.
Ltac wp_release :=
  lazymatch goal with
  | I : Inv _ _ ?w, HP : h_props <$> w_handles ?w !! ?h = Some _ |- wp (mod_props ?h _) _ ?w =>
      let w' := fresh "w" in let W := fresh "W" in let I' := fresh "I" in let HO := fresh "HO" in
      eapply (wp_props_release _ _ _ _ _ _ _ I); [live_tac|exact HP|try props_side..|];
      intros w' I' W HO; clear HO;
      repeat match goal with L : live _ w _ |- _ => clear L end; advance_wrote W
  end.
Ltac wp_acquire :=
  lazymatch goal with
  | I : Inv _ _ ?w, HP : h_props <$> w_handles ?w !! ?h = Some _ |- wp (mod_props ?h _ ;; handle_ref ?h) _ ?w =>
      let w' := fresh "w" in let W := fresh "W" in let I' := fresh "I" in let HO := fresh "HO" in
      eapply (wp_props_ref _ _ _ _ _ _ _ I); [live_tac|exact HP|try props_side..|];
      intros w' I' W HO; repeat match goal with
        | L : live _ w _ |- _ => apply (owned_more_live _ _ _ _ _ HO) in L end;
      clear HO; advance_wrote W
  end.

Lemma wp_bind_inv {A B} (m : M A) (k : A → M B) Q w :
  wp (m ≫= k) Q w → wp m (λ a w', wp (k a) Q w') w.
Proof. unfold wp, mbind, M_bind. by destruct (m w). Qed.

Ltac wp_keep :=
  lazymatch goal with
  | I : Inv _ _ ?w, HP : h_props <$> w_handles ?w !! ?h = Some _ |- wp (mod_props ?h _) _ ?w =>
      let w' := fresh "w" in let W := fresh "W" in let I' := fresh "I" in let HO := fresh "HO" in
      eapply (wp_props_keep _ _ _ _ _ _ _ I); [exact HP|try props_side..|];
      intros w' I' W HO; repeat match goal with
        | L : live _ w _ |- _ => apply (owned_more_live _ _ _ _ _ HO) in L end;
      clear HO; advance_wrote W
  end.

(** [m1;; m2;; k] with the first two steps taken together. *)
Lemma wp_assoc {A B C} (m1 : M A) (m2 : M B) (k : B → M C) Q w :
  wp ((m1;; m2) ≫= k) Q w → wp (m1;; m2 ≫= k) Q w.
Proof. unfold wp, mbind, M_bind. by destruct (m1 w). Qed.
Ltac wp_two := apply wp_assoc; apply wp_bind.
