(* ===== verification/Netstruct.v ===== *)
(** * Socket address structures

    src/include/uvcc/netstruct.hpp: the functions [init] that fill [sockaddr_in], [sockaddr_in6],
    [sockaddr_storage] and [addrinfo]. A socket address is the list of its bytes, the family in
    the first two (little endian). *)

From Stdlib Require Import ZArith Lia Ascii.
From stdpp Require Import base gmap list strings option pretty.
From S2P Require Import Prelude World Wp.

Local Open Scope Z_scope.

Definition AF_UNSPEC : Z := 0.
Definition AF_INET : Z := 2.
Definition AF_INET6 : Z := 10.
Definition AI_ADDRCONFIG : Z := 32.

Definition sizeof_sockaddr_in : nat := 16.
Definition sizeof_sockaddr_in6 : nat := 28.
Definition sizeof_sockaddr_storage : nat := 128.

(** [std::memset(&_ss, 0, n)] *)
Definition zeroed (n : nat) : list Z := replicate n 0.

(** [sa_family] *)
Definition sa_family (sa : list Z) : Z := nth 0 sa 0 + 256 * nth 1 sa 0.
Definition set_sa_family (f : Z) (sa : list Z) : list Z :=
  f mod 256 :: (f / 256) mod 256 :: drop 2 sa.

(** The assignment of [bs] through a reference to a prefix of the structure. *)
Definition overwrite (bs sa : list Z) : list Z := bs ++ drop (length bs) sa.

(** ** [std::atoi]

    White space, an optional sign, then digits; [None] is a value that does not fit, for which
    the behaviour is undefined. *)
Definition is_space (c : ascii) : bool :=
  let n := N_of_ascii c in (n =? 32)%N || ((9 <=? n)%N && (n <=? 13)%N).
Definition digit (c : ascii) : option Z :=
  let n := Z.of_N (N_of_ascii c) in
  if (48 <=? n) && (n <=? 57) then Some (n - 48) else None.

Fixpoint skip_space (s : list ascii) : list ascii :=
  match s with c :: s' => if is_space c then skip_space s' else s | [] => [] end.
Fixpoint digits (acc : Z) (s : list ascii) : Z :=
  match s with
  | c :: s' => match digit c with Some d => digits (10 * acc + d) s' | None => acc end
  | [] => acc
  end.
Definition fits_int (z : Z) : option Z :=
  if (- 2^31 <=? z) && (z <? 2^31) then Some z else None.
Definition atoi (s : string) : option Z :=
  match skip_space (String.list_ascii_of_string s) with
  | "-"%char :: s' => fits_int (- digits 0 s')
  | "+"%char :: s' => fits_int (digits 0 s')
  | s' => fits_int (digits 0 s')
  end.

(** ** The functions [init] *)

Record addrinfo := { ai_family : Z; ai_socktype : Z; ai_flags : Z; ai_protocol : Z }.

Definition init_sin : Z * list Z := (0, set_sa_family AF_INET (zeroed sizeof_sockaddr_in)).
Definition init_sin6 : Z * list Z := (0, set_sa_family AF_INET6 (zeroed sizeof_sockaddr_in6)).
Definition init_ss (family : Z) : Z * list Z :=
  (0, set_sa_family family (zeroed sizeof_sockaddr_storage)).

Definition init_addrinfo (family socktype flags : Z) : Z * addrinfo :=
  (0, {| ai_family := family; ai_socktype := socktype; ai_flags := flags; ai_protocol := 0 |}).

(** [init(sockaddr_storage&, const sockaddr&)]: the copy reads a whole [sockaddr_in] or
    [sockaddr_in6] from the argument. *)
Definition init_ss_sockaddr (sa : list Z) : M (Z * list Z) :=
  let ss := zeroed sizeof_sockaddr_storage in
  let copy (n : nat) :=
    if bool_decide (n ≤ length sa)%nat then mret (0, overwrite (take n sa) ss)
    else undefined UB_bounds in
  if sa_family sa =? AF_INET then copy sizeof_sockaddr_in
  else if sa_family sa =? AF_INET6 then copy sizeof_sockaddr_in6
  else mret (UV_EAFNOSUPPORT, ss).

Section strings.
Context `{E : Env}.

Definition port_number (port : option string) : M Z :=
  match port with
  | None => mret 0
  | Some s => match atoi s with Some n => mret n | None => undefined UB_bounds end
  end.

(** [init(sockaddr_in&, ip, port)] and its IPv6 counterpart; [sa] is the
    structure before the call, of which libuv overwrites a prefix. *)
Definition init_sin_ip (sa : list Z) (ip : string) (port : option string) : M (Z * list Z) :=
  pnum ← port_number port;
  r ← uv_call_out f_ip4_addr [V_str (Some ip); V_int pnum];
  mret (fst r, overwrite (take sizeof_sockaddr_in (snd r)) sa).
Definition init_sin6_ip (sa : list Z) (ip : string) (port : option string) : M (Z * list Z) :=
  pnum ← port_number port;
  r ← uv_call_out f_ip6_addr [V_str (Some ip); V_int pnum];
  mret (fst r, overwrite (take sizeof_sockaddr_in6 (snd r)) sa).

(** [init(sockaddr_storage&, ip, port)] *)
Definition init_ss_ip (ip : string) (port : option string) : M (Z * list Z) :=
  r4 ← init_sin_ip (zeroed sizeof_sockaddr_storage) ip port;
  if fst r4 =? 0 then mret (0, snd r4)
  else
    r6 ← init_sin6_ip (snd r4) ip port;
    mret (if fst r6 =? 0 then 0 else UV_EINVAL, snd r6).
End strings.

(** ** Conversions of numbers *)

Definition starts_digit (s : string) : Prop :=
  ∃ c s' d, s = String c s' ∧ digit c = Some d.

Lemma pretty_char_digit x : (x < 10)%N → digit (pretty_N_char x) = Some (Z.of_N x).
Proof.
  intros H. destruct x as [|p]; [done|].
  do 9 (destruct p as [p|p|]; try (cbn; lia); try done).
Qed.

Lemma digits_pretty x : ∀ s, digits 0 (String.list_ascii_of_string (pretty_N_go x s)) =
  digits (Z.of_N x) (String.list_ascii_of_string s).
Proof.
  induction (N.lt_wf_0 x) as [x _ IH]. intros s.
  destruct (decide (x = 0%N)) as [->|Hx]; [by rewrite pretty_N_go_0|].
  rewrite pretty_N_go_step by lia. rewrite IH by (apply N.div_lt; lia). cbn.
  rewrite pretty_char_digit by (apply N.mod_upper_bound; lia). f_equal.
  pose proof (N.div_mod x 10 ltac:(lia)). lia.
Qed.

Lemma pretty_starts_digit x : ∀ s, starts_digit s ∨ (0 < x)%N → starts_digit (pretty_N_go x s).
Proof.
  induction (N.lt_wf_0 x) as [x _ IH]. intros s H.
  destruct (decide (x = 0%N)) as [->|Hx]; [rewrite pretty_N_go_0; destruct H; [done|lia]|].
  rewrite pretty_N_go_step by lia. apply IH; [apply N.div_lt; lia|]. left.
  eexists _, _, _. split; [done|]. apply pretty_char_digit. apply N.mod_upper_bound. lia.
Qed.

Lemma digit_not_special c d : digit c = Some d →
  is_space c = false ∧ c ≠ "-"%char ∧ c ≠ "+"%char.
Proof.
  unfold digit, is_space. intros H.
  destruct (48 <=? Z.of_N (N_of_ascii c)) eqn:H1; [|done]. cbn in H.
  destruct (Z.of_N (N_of_ascii c) <=? 57) eqn:H2; [|done].
  split; [|split; intros ->; vm_compute in H1; done].
  destruct (N.eqb_spec (N_of_ascii c) 32); [lia|].
  destruct (N.leb_spec (N_of_ascii c) 13); [lia|]. by rewrite andb_false_r.
Qed.

Lemma atoi_digits s : starts_digit s →
  atoi s = fits_int (digits 0 (String.list_ascii_of_string s)).
Proof.
  intros (c & s' & d & -> & Hc). pose proof (digit_not_special c d Hc) as (Hs & Hm & Hp).
  unfold atoi. cbn [String.list_ascii_of_string skip_space]. rewrite Hs.
  destruct c as [[] [] [] [] [] [] [] []]; done.
Qed.

Lemma atoi_negative s :
  atoi (String "-" s) = fits_int (- digits 0 (String.list_ascii_of_string s)).
Proof. done. Qed.

Lemma fits_int_id z : - 2^31 ≤ z < 2^31 → fits_int z = Some z.
Proof.
  intros H. unfold fits_int. rewrite (proj2 (Z.leb_le _ _)) by lia.
  by rewrite (proj2 (Z.ltb_lt _ _)) by lia.
Qed.

(** The conversion of a port number given as a decimal string reads back every
    printed int. *)
Theorem atoi_pretty z : - 2^31 ≤ z < 2^31 → atoi (pretty z) = Some z.
Proof.
  intros Hz. assert (∀ p, atoi (pretty_N_go (N.pos p) "") = fits_int (Z.pos p) ∧
    atoi (String "-" (pretty_N_go (N.pos p) "")) = fits_int (Z.neg p)) as Hp.
  { intros p. rewrite atoi_digits, atoi_negative by (apply pretty_starts_digit; right; lia).
    by rewrite !digits_pretty. }
  destruct z as [|p|p]; [done| |].
  - transitivity (fits_int (Z.pos p)); [apply Hp|by apply fits_int_id].
  - transitivity (fits_int (Z.neg p)); [apply Hp|by apply fits_int_id].
Qed.

(** ** What the structures contain *)

Lemma length_overwrite bs sa : (length bs ≤ length sa)%nat → length (overwrite bs sa) = length sa.
Proof. intros H. unfold overwrite. rewrite length_app, length_drop. lia. Qed.

Lemma nth_overwrite bs sa k d : (k < length bs)%nat → nth k (overwrite bs sa) d = nth k bs d.
Proof. intros H. unfold overwrite. by apply app_nth1. Qed.

Lemma sa_family_overwrite n sa ss : (2 ≤ n ≤ length sa)%nat →
  sa_family (overwrite (take n sa) ss) = sa_family sa.
Proof.
  intros [Hn Hl]. unfold sa_family. rewrite !nth_overwrite by (rewrite length_take; lia).
  destruct sa as [|x [|y sa]], n as [|[|n]]; cbn in *; try lia; done.
Qed.

(** The family a structure was initialised with is the family it has. *)
Theorem init_family_ok f : 0 ≤ f < 2^16 →
  sa_family (init_sin.2) = AF_INET ∧ sa_family (init_sin6.2) = AF_INET6 ∧
  sa_family ((init_ss f).2) = f ∧ length (init_sin.2) = sizeof_sockaddr_in ∧
  length (init_sin6.2) = sizeof_sockaddr_in6 ∧ length ((init_ss f).2) = sizeof_sockaddr_storage.
Proof.
  intros Hf. repeat split. unfold init_ss, sa_family, set_sa_family. cbn [snd nth].
  rewrite (Z.mod_small (f / 256)).
  - pose proof (Z.div_mod f 256). lia.
  - split; [apply Z.div_pos; lia|apply Z.div_lt_upper_bound; lia].
Qed.

Lemma wp_init_ss sa (Q : Z * list Z → world → Prop) w :
  (sizeof_sockaddr_in6 ≤ length sa)%nat → (∀ ss, Q ss w) → wp (init_ss_sockaddr sa) Q w.
Proof.
  intros Hl HQ. unfold sizeof_sockaddr_in6 in Hl. unfold init_ss_sockaddr.
  rewrite !bool_decide_true by (unfold sizeof_sockaddr_in, sizeof_sockaddr_in6; lia).
  destruct (_ =? _); [by apply wp_ret, HQ|]. destruct (_ =? _); by apply wp_ret, HQ.
Qed.

