(* ===== verification/ReqStream.v ===== *)
(** * Stream requests: connect, write, shutdown

    src/include/uvcc/request-stream.hpp *)

From Stdlib Require Import ZArith Lia.
From stdpp Require Import base gmap list strings option.
From S2P Require Import Prelude World Objects Ledger Wp Refs Release Rules.

Local Open Scope Z_scope.

Definition set_ur_type (t : uv_req_type) (u : uv_req_t) : uv_req_t :=
  {| ur_type := t; ur_fs_type := ur_fs_type u; ur_data := ur_data u; ur_handle := ur_handle u;
     ur_send_handle := ur_send_handle u; ur_loop := ur_loop u; ur_result := ur_result u;
     ur_path := ur_path u; ur_addrinfo := ur_addrinfo u |}.

Section requests.
Context `{E : Env}.

(** The constructors: a fresh instance, whose libuv structure gets its type. *)
Definition request_new (t : uv_req_type) (p : rprops) : M loc :=
  r ← request_create p;
  mod_r r (set_r_uv (set_ur_type t));;
  mret r.

(** The call of the stored callback with an object of the request class and
    further arguments that own their references. *)
Definition call_request_cb (r : loc) (f : Z) (rest : list arg) : M unit :=
  request_ref r;; invoke f (A_ptr (PR (Some r)) :: rest).
End requests.

Module connect.
Section connect.
Context `{E : Env}.

Definition new : M loc := request_new UV_CONNECT R_none.

(** [int run(tcp&, const _T_&)] *)
Definition run_tcp (r tcp : loc) (sockaddr : Z) : M Z :=
  handle_ref tcp;;
  request_ref r;;
  _ ← request_uv_status r 0;
  uv_ret ← uv_submit f_tcp_connect
    [V_req (Some r); V_handle (Some tcp); V_int sockaddr; V_cb cb_connect]
    cb_connect r [TH tcp; TR r];
  when (uv_ret <? 0) (
    _ ← request_uv_status r uv_ret;
    handle_unref tcp;;
    request_unref r);;
  mret uv_ret.

(** [void run(pipe&, const char *_name)]; [uv_pipe_connect] returns no status and always
    makes the callback. *)
Definition run_pipe (r pipe : loc) (name : option string) : M unit :=
  handle_ref pipe;;
  request_ref r;;
  _ ← uv_call f_pipe_connect [V_req (Some r); V_handle (Some pipe); V_str name; V_cb cb_connect];
  modify (upd_armed (cons {| arm_cb := cb_connect; arm_obj := r; arm_toks := [TH pipe; TR r] |})).

Definition connect_cb (r : loc) (status : Z) : M unit :=
  mod_r r (set_r_error status);;
  i ← get_r r;
  h ← deref (ur_handle (r_uv i));
  finally (finally (
    i ← get_r r;
    match r_request_cb i with
    | Some f => call_request_cb r f []
    | None => mret tt
    end) (request_unref r)) (handle_unref h).
End connect.
End connect.

Module write.
Section write.
Context `{E : Env}.

Definition new : M loc := request_new UV_WRITE (R_write None).

(** [int run(stream&, const buffer&)] *)
Definition run (r stream buf : loc) : M Z :=
  handle_ref stream;;
  buffer_ref buf;;
  request_ref r;;
  mod_r r (set_r_props (R_write (Some buf)));;
  _ ← request_uv_status r 0;
  b ← get_b buf;
  uv_ret ← uv_submit f_write
    [V_req (Some r); V_handle (Some stream); V_bufs (b_bufs b) (Z.of_nat (length (b_bufs b)));
     V_cb cb_write]
    cb_write r [TH stream; TB buf; TR r];
  when (uv_ret <? 0) (
    _ ← request_uv_status r uv_ret;
    handle_unref stream;;
    buffer_unref buf;;
    request_unref r);;
  mret uv_ret.

(** [int run(pipe&, const buffer&, stream&)] *)
Definition run2 (r pipe buf send_handle : loc) : M Z :=
  handle_ref pipe;;
  buffer_ref buf;;
  handle_ref send_handle;;
  request_ref r;;
  mod_r r (set_r_props (R_write (Some buf)));;
  _ ← request_uv_status r 0;
  b ← get_b buf;
  uv_ret ← uv_submit f_write2
    [V_req (Some r); V_handle (Some pipe); V_bufs (b_bufs b) (Z.of_nat (length (b_bufs b)));
     V_handle (Some send_handle); V_cb cb_write2]
    cb_write2 r [TH pipe; TB buf; TH send_handle; TR r];
  when (uv_ret <? 0) (
    _ ← request_uv_status r uv_ret;
    handle_unref pipe;;
    buffer_unref buf;;
    handle_unref send_handle;;
    request_unref r);;
  mret uv_ret.

Definition try_write (r stream buf : loc) : M Z :=
  b ← get_b buf;
  z ← uv_call f_try_write
    [V_handle (Some stream); V_bufs (b_bufs b) (Z.of_nat (length (b_bufs b)))];
  request_uv_status r z.

Definition write_cb (r : loc) (status : Z) : M unit :=
  mod_r r (set_r_error status);;
  i ← get_r r;
  h ← deref (ur_handle (r_uv i));
  finally (finally (
    i ← get_r r;
    match r_request_cb i, r_props i with
    | Some f, R_write uv_buf => call_request_cb r f [A_ptr (PB uv_buf)]
    | None, R_write uv_buf => b ← deref uv_buf; buffer_unref b
    | _, _ => undefined UB_type
    end) (request_unref r)) (handle_unref h).

Definition write2_cb (r : loc) (status : Z) : M unit :=
  i ← get_r r;
  s ← deref (ur_send_handle (r_uv i));
  finally (write_cb r status) (handle_unref s).
End write.
End write.

Module shutdown.
Section shutdown.
Context `{E : Env}.

Definition new : M loc := request_new UV_SHUTDOWN R_none.

Definition run (r stream : loc) : M Z :=
  handle_ref stream;;
  request_ref r;;
  _ ← request_uv_status r 0;
  uv_ret ← uv_submit f_shutdown [V_req (Some r); V_handle (Some stream); V_cb cb_shutdown]
    cb_shutdown r [TH stream; TR r];
  when (uv_ret <? 0) (
    _ ← request_uv_status r uv_ret;
    handle_unref stream;;
    request_unref r);;
  mret uv_ret.

Definition shutdown_cb (r : loc) (status : Z) : M unit :=
  mod_r r (set_r_error status);;
  i ← get_r r;
  h ← deref (ur_handle (r_uv i));
  finally (finally (
    i ← get_r r;
    match r_request_cb i with
    | Some f => call_request_cb r f []
    | None => mret tt
    end) (request_unref r)) (handle_unref h).
End shutdown.
End shutdown.

(** ** The ledger across a request

    [run] takes a reference to every object libuv will work with; they are with
    libuv when it has accepted the request and given back when it has not. The
    callback gives back exactly these references. *)
Section ledger.
Context `{E : Env} `{EO : !EnvOk}.

Definition arm c r toks : armed := {| arm_cb := c; arm_obj := r; arm_toks := toks |}.

Theorem connect_run_ok r tcp sa F X w :
  Inv F X w → live F w (TR r) → live F w (TH tcp) →
  wp (connect.run_tcp r tcp sa) (λ z w', Inv F X w' ∧
    w_armed w' = submitted z (arm cb_connect r [TH tcp; TR r]) (w_armed w)) w.
Proof.
  intros I Lr Lh. remember (w_armed w) as A eqn:HA. symmetry in HA.
  unfold connect.run_tcp. wp_auto. wp_submit F; [eauto|wp_finish..].
Qed.

Theorem connect_run_pipe_ok r pipe name F X w :
  Inv F X w → live F w (TR r) → live F w (TH pipe) →
  wp (connect.run_pipe r pipe name) (λ _ w', Inv F X w' ∧
    w_armed w' = arm cb_connect r [TH pipe; TR r] :: w_armed w) w.
Proof.
  intros I Lr Lh. remember (w_armed w) as A eqn:HA. symmetry in HA.
  unfold connect.run_pipe. wp_auto. apply wp_modify. split; [|cbn; by rewrite HA].
  front (TH pipe). apply Inv_arm; [done|]. eexists. reflexivity.
Qed.

Theorem connect_cb_ok r status i h F X w :
  Inv ([TH h; TR r] ++ F) X w → w_reqs w !! r = Some i → ur_handle (r_uv i) = Some h →
  wp (connect.connect_cb r status) (λ _ w', Inv F X w') w.
Proof.
  intros I Hi Hh. unfold connect.connect_cb. wp_prologue Hi. cbn. rewrite Hh. wp_auto.
  destruct (r_request_cb ri); unfold call_request_cb; wp_auto; done.
Qed.

Lemma wp_write_run r stream buf F X w :
  Inv F X w → live F w (TR r) → live F w (TH stream) → live F w (TB buf) → unarmed r w →
  wp (write.run r stream buf) (λ z w', Inv F X w' ∧
    w_armed w' = submitted z (arm cb_write r [TH stream; TB buf; TR r]) (w_armed w)) w.
Proof.
  intros I Lr Lh Lb U. remember (w_armed w) as A eqn:HA. symmetry in HA.
  unfold write.run. wp_auto.
  wp_submit F; [eauto|wp_finish..].
Qed.

(** write::run keeps the ledger: when libuv accepts the request, references to the
    stream, the buffer and the request are pending with the callback, and when it
    refuses, none is left behind. *)
Theorem write_run_ok r stream buf F X w :
  Inv F X w → live F w (TR r) → live F w (TH stream) → live F w (TB buf) → unarmed r w →
  wp (write.run r stream buf) (λ z w', Inv F X w' ∧
    w_armed w' = submitted z (arm cb_write r [TH stream; TB buf; TR r]) (w_armed w)) w.
Proof. apply wp_write_run. Qed.

Theorem write_run2_ok r pipe buf sh F X w :
  Inv F X w → live F w (TR r) → live F w (TH pipe) → live F w (TB buf) → live F w (TH sh) →
  unarmed r w →
  wp (write.run2 r pipe buf sh) (λ z w', Inv F X w' ∧
    w_armed w' = submitted z (arm cb_write2 r [TH pipe; TB buf; TH sh; TR r]) (w_armed w)) w.
Proof.
  intros I Lr Lh Lb Ls U. remember (w_armed w) as A eqn:HA. symmetry in HA.
  unfold write.run2. wp_auto. wp_submit F; [eauto 10|wp_finish..].
Qed.

Lemma wp_write_cb r status i h b F X w :
  Inv ([TH h; TB b; TR r] ++ F) X w → w_reqs w !! r = Some i →
  ur_handle (r_uv i) = Some h → r_props i = R_write (Some b) →
  wp (write.write_cb r status) (λ _ w', Inv F X w') w.
Proof.
  intros I Hi Hh Hp. unfold write.write_cb. wp_prologue Hi. cbn. rewrite Hh. wp_auto.
  assert (r_props ri = R_write (Some b)) as -> by (rewrite Hr in HP; cbn in HP; congruence).
  destruct (r_request_cb ri); unfold call_request_cb; wp_auto; done.
Qed.

(** The write callback finds the stream, the buffer and the request again and gives
    back the three references write::run took, whether the client has set a function or
    not. *)
Theorem write_cb_ok r status i h b F X w :
  Inv ([TH h; TB b; TR r] ++ F) X w → w_reqs w !! r = Some i →
  ur_handle (r_uv i) = Some h → r_props i = R_write (Some b) →
  wp (write.write_cb r status) (λ _ w', Inv F X w') w.
Proof. apply wp_write_cb. Qed.

Theorem write2_cb_ok r status i h b s F X w :
  Inv ([TH h; TB b; TH s; TR r] ++ F) X w → w_reqs w !! r = Some i →
  ur_handle (r_uv i) = Some h → ur_send_handle (r_uv i) = Some s →
  r_props i = R_write (Some b) →
  wp (write.write2_cb r status) (λ _ w', Inv F X w') w.
Proof.
  intros I Hi Hh Hs Hp. unfold write.write2_cb. wp_structs. rewrite Hs. wp_structs.
  eapply wp_mono.
  - eapply (wp_write_cb r status i h b (TH s :: F) X); try done.
    eapply Inv_perm; [|done|done|exact I]. cbn. solve_Permutation.
  - cbn. intros _ w1 I1. wp_auto. done.
Qed.

Theorem shutdown_run_ok r stream F X w :
  Inv F X w → live F w (TR r) → live F w (TH stream) →
  wp (shutdown.run r stream) (λ z w', Inv F X w' ∧
    w_armed w' = submitted z (arm cb_shutdown r [TH stream; TR r]) (w_armed w)) w.
Proof.
  intros I Lr Lh. remember (w_armed w) as A eqn:HA. symmetry in HA.
  unfold shutdown.run. wp_auto. wp_submit F; [eauto|wp_finish..].
Qed.

Theorem shutdown_cb_ok r status i h F X w :
  Inv ([TH h; TR r] ++ F) X w → w_reqs w !! r = Some i → ur_handle (r_uv i) = Some h →
  wp (shutdown.shutdown_cb r status) (λ _ w', Inv F X w') w.
Proof.
  intros I Hi Hh. unfold shutdown.shutdown_cb. wp_prologue Hi. cbn. rewrite Hh. wp_auto.
  destruct (r_request_cb ri); unfold call_request_cb; wp_auto; done.
Qed.
End ledger.
