(* ===== verification/Buffer.v ===== *)
(** * Buffers: the layout of a buffer instance and the class [buffer]

    src/include/uvcc/buffer.hpp. A buffer instance, its array of [uv_buf_t] and all
    its chunks live in one allocation; [std::size_t] arithmetic is 64-bit, the
    sizes are those of x86-64 (refs 8, sink callback 32, count 8, [uv_buf_t] 16). *)

From Stdlib Require Import ZArith Lia.
From stdpp Require Import base gmap list strings option.
From S2P Require Import Prelude World Objects Ledger Wp Refs Release Rules.

Local Open Scope Z_scope.

Definition w64 (z : Z) : Z := z mod 2^64.

Definition max_align : Z := 16.
Definition sizeof_uv_t : Z := 16.
Definition offsetof_uv_buf_struct : Z := 48.
Definition sizeof_instance : Z := 64.

(** [alignment_padding(_extra_buf_count)] *)
Definition alignment_padding (extra_buf_count : Z) : Z :=
  let base_size := w64 (sizeof_instance + w64 (extra_buf_count * sizeof_uv_t)) in
  let proper_size := Z.land (w64 (base_size + max_align - 1)) (Z.lxor (max_align - 1) (2^64 - 1)) in
  w64 (proper_size - base_size).

(** [total_buf_len], as both loops over [_len_values] compute it. *)
Definition total_buf_len (lens : list Z) : Z := foldl (λ acc len, w64 (acc + len)) 0 lens.

(** [operator new(_size, _len_values)]: the number of bytes asked for. *)
Definition operator_new_size (lens : list Z) : Z :=
  let n := Z.of_nat (length lens) in
  let extra_buf_count := if 0 <? n then n - 1 else n in
  w64 (w64 (w64 (sizeof_instance + w64 (extra_buf_count * sizeof_uv_t))
            + alignment_padding extra_buf_count) + total_buf_len lens).

(** [buf[i].base = &buf[i-1].base[buf[i-1].len]] for the chunks from [base] on. *)
Fixpoint chunks (base : Z) (lens : list Z) : list (Z * Z) :=
  match lens with
  | [] => []
  | len :: lens' => (base, len) :: chunks (base + len) lens'
  end.

(** [instance::instance(_len_values)]: the array of [uv_buf_t] at [uv_buf]. *)
Definition instance_bufs (uv_buf : loc) (lens : list Z) : list (Z * Z) :=
  match lens with
  | [] => [(0, 0)]
  | _ =>
      let count := Z.of_nat (length lens) in
      if total_buf_len lens =? 0 then (λ _, (0, 0)) <$> lens
      else chunks (uv_buf + count * sizeof_uv_t + alignment_padding (count - 1)) lens
  end.

(** [uv_buf::from(_base)] *)
Definition uv_buf_from (base : Z) : loc := base - alignment_padding 0 - sizeof_uv_t.

Section buffer.
Context `{E : Env}.

(** [instance::create(_len_values)] *)
Definition buffer_create (lens : list Z) : M loc :=
  a ← alloc (operator_new_size lens);
  let b := a + offsetof_uv_buf_struct in
  modify (upd_bufs (<[b := {| b_refs := ref_count.init; b_sink_cb := None;
                              b_bufs := instance_bufs b lens |}]>));;
  log_event (E_new (TB b));;
  mret b.

(** [count()] *)
Definition buffer_count (b : loc) : M Z := i ← get_b b; mret (Z.of_nat (length (b_bufs i))).

(** [operator [](_i)] *)
Definition buffer_at (b : loc) (k : nat) : M (Z * Z) :=
  i ← get_b b;
  match b_bufs i !! k with Some c => mret c | None => undefined UB_bounds end.

(** [nrefs()] *)
Definition buffer_nrefs (b : loc) : M Z := i ← get_b b; mret (b_refs i).

(** [operator bool] : [base() != nullptr] *)
Definition buffer_bool (b : loc) : M bool := c ← buffer_at b 0; mret (negb (c.1 =? 0)).

(** [sink_cb() = f] *)
Definition buffer_set_sink (b : loc) (f : cb) : M unit := mod_b b (set_b_sink f).
End buffer.

(** ** Arithmetic of the layout *)

Lemma w64_id z : 0 ≤ z < 2^64 → w64 z = z.
Proof. intros. unfold w64. by apply Z.mod_small. Qed.

(** The instance header and every further [uv_buf_t] are multiples of the
    alignment, so on this ABI no padding is needed. *)
Lemma alignment_padding_0 n : 0 ≤ n → n * 16 + 64 + 16 < 2^64 → alignment_padding n = 0.
Proof.
  intros Hn Hb. unfold alignment_padding, sizeof_uv_t, sizeof_instance, max_align.
  rewrite (w64_id (n * 16)) by lia. rewrite (w64_id (64 + n * 16)) by lia.
  rewrite (w64_id (64 + n * 16 + 16 - 1)) by lia.
  assert (Z.land (64 + n * 16 + 16 - 1) (Z.lxor (16 - 1) (2 ^ 64 - 1)) = 64 + n * 16) as ->.
  { replace (Z.lxor (16 - 1) (2 ^ 64 - 1)) with (Z.shiftl (Z.ones 60) 4) by reflexivity.
    replace (64 + n * 16 + 16 - 1) with ((4 + n) * 2^4 + 15) by lia.
    apply Z.bits_inj'. intros k Hk. rewrite Z.land_spec, Z.shiftl_spec by lia.
    destruct (Z.lt_ge_cases k 4).
    - rewrite (Z.testbit_neg_r (Z.ones 60)) by lia. rewrite andb_false_r.
      replace (64 + n * 16) with ((4 + n) * 2^4) by lia.
      by rewrite Z.mul_pow2_bits_low.
    - replace (64 + n * 16) with ((4 + n) * 2^4) by lia.
      rewrite Z.mul_pow2_bits by lia.
      assert (Z.testbit ((4 + n) * 2 ^ 4 + 15) k = Z.testbit (4 + n) (k - 4)) as ->.
      { rewrite <-(Z.sub_add 4 k) at 1. rewrite <-Z.div_pow2_bits by lia.
        by replace (((4 + n) * 2 ^ 4 + 15) / 2 ^ 4) with (4 + n) by
          (apply Z.div_unique with 15; lia). }
      destruct (Z.lt_ge_cases (k - 4) 60).
      + rewrite Z.ones_spec_low by lia. by rewrite andb_true_r.
      + rewrite Z.ones_spec_high by lia. rewrite andb_false_r. symmetry.
        apply Z.bits_above_log2; [lia|]. apply Z.log2_lt_pow2; [lia|].
        assert (4 + n < 2^60) by lia. assert (2^60 ≤ 2^(k-4)) by (apply Z.pow_le_mono_r; lia). lia. }
  rewrite Z.sub_diag. reflexivity.
Qed.

#[local] Arguments Z.le : simpl never.

Fixpoint Zsum (l : list Z) : Z := match l with [] => 0 | x :: l' => x + Zsum l' end.

Lemma Zsum_nonneg lens : Forall (Z.le 0) lens → 0 ≤ Zsum lens.
Proof. induction 1; cbn; lia. Qed.

Lemma total_buf_len_sum lens :
  Forall (Z.le 0) lens → Zsum lens < 2^64 → total_buf_len lens = Zsum lens.
Proof.
  unfold total_buf_len. intros Hp Hs.
  assert (∀ acc, 0 ≤ acc → acc + Zsum lens < 2^64 →
    foldl (λ acc len, w64 (acc + len)) acc lens = acc + Zsum lens) as H.
  { clear Hs. induction Hp as [|len lens Hlen Hp IH]; cbn in *; intros acc Ha Hs; [lia|].
    pose proof (Zsum_nonneg _ Hp). rewrite w64_id by lia. rewrite IH by lia. lia. }
  rewrite H by lia. lia.
Qed.

Lemma length_chunks base lens : length (chunks base lens) = length lens.
Proof. revert base. induction lens; intros; cbn; auto. Qed.

Lemma chunks_lookup base lens k c :
  chunks base lens !! k = Some c → ∃ len, lens !! k = Some len ∧
    c = (base + Zsum (take k lens), len).
Proof.
  revert base k. induction lens as [|len lens IH]; intros base k; [done|].
  destruct k as [|k]; cbn.
  - intros [= <-]. eexists. split; [done|]. f_equal. lia.
  - intros (l & Hl & ->)%IH. exists l. split; [done|]. f_equal. lia.
Qed.

Lemma Zsum_take lens k : Forall (Z.le 0) lens → ∀ len, lens !! k = Some len →
  0 ≤ Zsum (take k lens) ∧ 0 ≤ len ∧ Zsum (take k lens) + len ≤ Zsum lens.
Proof.
  intros Hp. revert k. induction Hp as [|x lens Hx Hp IH]; intros [|k] len; cbn; try done.
  - intros [= ->]. pose proof (Zsum_nonneg _ Hp). lia.
  - intros Hk. destruct (IH k len Hk). lia.
Qed.

(** ** The layout *)

(** The allocation does not wrap around. *)
Definition fits (lens : list Z) : Prop :=
  Forall (Z.le 0) lens ∧ Z.of_nat (length lens) * 16 + 80 + Zsum lens < 2^64.

Lemma operator_new_size_eq lens :
  lens ≠ [] → fits lens →
  operator_new_size lens = 48 + 16 * Z.of_nat (length lens) + Zsum lens.
Proof.
  intros Hne [Hp Hf]. pose proof (Zsum_nonneg _ Hp).
  assert (0 < Z.of_nat (length lens)) as Hn by (destruct lens; [done|cbn; lia]).
  unfold operator_new_size. rewrite (proj2 (Z.ltb_lt _ _) Hn).
  rewrite alignment_padding_0 by lia. rewrite total_buf_len_sum by (done || lia).
  unfold sizeof_instance, sizeof_uv_t.
  set (n := Z.of_nat (length lens)) in *.
  rewrite (w64_id ((n - 1) * 16)), (w64_id (64 + (n - 1) * 16)) by lia.
  rewrite (w64_id (64 + (n - 1) * 16 + 0)) by lia. rewrite w64_id by lia. lia.
Qed.

Lemma instance_bufs_eq b lens :
  fits lens → 0 < Zsum lens →
  instance_bufs b lens = chunks (b + 16 * Z.of_nat (length lens)) lens.
Proof.
  intros [Hp Hf] Hpos. destruct lens as [|x l]; [by cbn in Hpos|].
  unfold instance_bufs. rewrite total_buf_len_sum by (done || lia).
  rewrite (proj2 (Z.eqb_neq _ _)) by lia.
  rewrite alignment_padding_0 by (cbn [length] in *; pose proof (Zsum_nonneg _ Hp); lia).
  unfold sizeof_uv_t. f_equal. lia.
Qed.

(** C27: The chunks of a buffer lie one after another inside the memory that operator
    new has asked for, behind the array of uv_buf_t, have the lengths asked for, and the
    first of them is aligned for any type. *)
Theorem buffer_layout a lens :
  fits lens → 0 < Zsum lens → a mod 16 = 0 →
  let b := a + offsetof_uv_buf_struct in
  length (instance_bufs b lens) = length lens ∧
  (∀ k base len, instance_bufs b lens !! k = Some (base, len) →
    lens !! k = Some len ∧
    b + sizeof_uv_t * Z.of_nat (length lens) ≤ base ∧
    base + len ≤ a + operator_new_size lens ∧
    (k = 0%nat → base mod max_align = 0) ∧
    (∀ base' len', instance_bufs b lens !! S k = Some (base', len') → base' = base + len)).
Proof.
  intros Hf Hpos Ha b. assert (lens ≠ []) as Hne by (by intros ->).
  rewrite instance_bufs_eq by done. rewrite operator_new_size_eq by done.
  destruct Hf as [Hp Hf]. split; [apply length_chunks|].
  intros k base len (l & Hl & [= -> ->])%chunks_lookup.
  destruct (Zsum_take _ _ Hp _ Hl) as (H1 & H2 & H3).
  unfold b, sizeof_uv_t, offsetof_uv_buf_struct, max_align. split_and!; try done; try lia.
  - intros ->. rewrite take_0. cbn [Zsum].
    replace (a + 48 + 16 * Z.of_nat (length lens) + 0)
      with (a + (3 + Z.of_nat (length lens)) * 16) by lia.
    by rewrite Z.mod_add by lia.
  - intros base' len' (l' & Hl' & [= -> ->])%chunks_lookup.
    rewrite (take_S_r _ _ _ Hl).
    assert (∀ l1 x, Zsum (l1 ++ [x]) = Zsum l1 + x) as ->; [|lia].
    intros l1 x. induction l1 as [|y l1 IH]; cbn; lia.
Qed.

(** The buffer instance is recovered from the base of the chunk of a buffer that
    has one chunk. *)
Theorem uv_buf_from_single b len base len' :
  0 < len < 2^64 - 96 → instance_bufs b [len] = [(base, len')] → uv_buf_from base = b.
Proof.
  intros Hl. rewrite instance_bufs_eq; [|split; [by repeat constructor; lia|cbn; lia]|cbn; lia].
  cbn. intros [= <- _]. unfold uv_buf_from. rewrite alignment_padding_0 by lia.
  unfold sizeof_uv_t. lia.
Qed.

(** For a buffer of several chunks the address computed from the first chunk is not
    the one of the buffer but lies behind it. *)
Theorem uv_buf_from_several b lens base len rest :
  fits lens → 0 < Zsum lens → (1 < length lens)%nat →
  instance_bufs b lens = (base, len) :: rest → b < uv_buf_from base.
Proof.
  intros Hf Hpos Hlen. rewrite instance_bufs_eq by done.
  destruct lens as [|x lens]; [done|]. cbn [chunks]. intros [= <- _ _].
  unfold uv_buf_from. rewrite alignment_padding_0 by lia. unfold sizeof_uv_t. cbn [length] in *. lia.
Qed.

(** The lengths are summed without a check: a request whose sum wraps around gets
    an allocation smaller than its first chunk. *)
Theorem operator_new_overflow :
  ∃ lens, Forall (λ len, 0 ≤ len < 2^64) lens ∧
    ∀ a, ∃ base len, instance_bufs (a + offsetof_uv_buf_struct) lens !! 0%nat = Some (base, len) ∧
      a + operator_new_size lens < base + len.
Proof.
  exists [2^63; 2^63; 8]. split; [repeat constructor; lia|]. intros a.
  eexists _, _. split; [reflexivity|]. vm_compute operator_new_size. unfold sizeof_uv_t, offsetof_uv_buf_struct.
  change (alignment_padding _) with 0. change (Z.of_nat _) with 3. lia.
Qed.

(** ** The ledger *)

Section ledger.
Context `{E : Env} `{EO : !EnvOk}.

Lemma wp_buffer_create lens F X (Q : loc → world → Prop) w :
  Inv F X w → (lens = [] ∨ fits lens) →
  (∀ b w', 0 < b → w_bufs w !! b = None → Inv (TB b :: F) X w' →
    (b_bufs <$> w_bufs w' !! b) = Some (instance_bufs b lens) → w_vars w' = w_vars w →
    w_handles w' = w_handles w → Q b w') →
  wp (buffer_create lens) Q w.
Proof.
  intros I Hl HQ. assert (48 < operator_new_size lens) as Hsz.
  { destruct Hl as [->|Hf]; [done|]. destruct lens as [|x l]; [done|].
    rewrite operator_new_size_eq by done. destruct Hf as [Hp _].
    pose proof (Zsum_nonneg _ Hp). cbn [length]. lia. }
  unfold buffer_create. wp_struct. apply wp_alloc. wp_struct. apply wp_modify. wp_struct.
  apply wp_modify, wp_ret. pose proof (fresh_addr_ge w) as Hge.
  unfold offsetof_uv_buf_struct. set (b := fresh_addr w + 48) in *.
  assert (Hb : w_bufs w !! b = None).
  { assert (refs_of w (TB b) = None) as Hn by (apply (inv_fresh _ _ _ I); cbn; lia).
    by apply fmap_None in Hn. }
  apply HQ; [pose proof (inv_brk _ _ _ I); lia|done| |cbn; by rewrite lookup_insert_eq|done|done].
  apply (Inv_create _ _ _ w); try done.
  - split; cbn; try done. by apply insert_subseteq.
  - cbn. lia.
  - intros u. destruct u; cbn; try (rewrite decide_False; done).
    rewrite fmap_insert_decide. by repeat case_decide; simplify_eq.
  - intros h' j Hj. by left.
Qed.
End ledger.
