(* ===== verification/HandleMisc.v ===== *)
(** * Event handles: idle, prepare, check, poll, fs_event, signal, timer, async

    src/include/uvcc/handle-misc.hpp and the [fs_event] class of handle-fs.hpp.
    All of them are opened the same way and, once started, keep themselves alive
    with a reference of their own. *)

From Stdlib Require Import ZArith Lia.
From stdpp Require Import base gmap list strings option.
From S2P Require Import Prelude World Objects Ledger Wp Refs Release Rules HRules.

Local Open Scope Z_scope.

Section create.
Context `{E : Env}.

(** The shape of the constructors: create the instance, initialise the libuv
    handle, and unless that failed book the loop. *)
Definition handle_init (h : loc) (f : uvfn) (l : loc) (rest : list uvarg) (between : M unit) : M unit :=
  uv_ret ← uv_call f (V_loop (Some l) :: V_handle (Some h) :: rest);
  between;;
  z ← handle_uv_status h uv_ret;
  if z <? 0 then mret tt else book_loop h.

(** A callback object called with a new variable for the handle. *)
Definition call_handle_cb (h : loc) (c : cb) (rest : list arg) : M unit :=
  match c with
  | Some f => handle_ref h;; invoke f (A_ptr (PH (Some h)) :: rest)
  | None => mret tt
  end.
End create.

(** ** idle, prepare, check and poll: four copies of the same class *)

Module watchers.
Section watchers.
Context `{E : Env}.

Definition set_opcmd (st : opcmd) (p : props) : props :=
  match p with P_watcher k _ c => P_watcher k st c | _ => p end.
Definition set_cb (c : cb) (p : props) : props :=
  match p with P_watcher k st _ => P_watcher k st c | _ => p end.

Definition new (k : watcher) (l : loc) (rest : list uvarg) : M loc :=
  h ← handle_create If_handle (P_watcher k OP_UNKNOWN None);
  handle_init h (f_watcher_init k) l rest (mret tt);;
  mret h.

(** [int start() const], [int poll::start(int) const] *)
Definition start (h : loc) (rest : list uvarg) : M Z :=
  p ← properties h;
  match p with
  | P_watcher k opcmd_state0 _ =>
      mod_props h (set_opcmd OP_START);;
      handle_ref h;;
      match opcmd_state0 with
      | OP_UNKNOWN | OP_STOP => mret tt
      | OP_START => handle_unref h
      end;;
      _ ← handle_uv_status h 0;
      uv_ret ← uv_call (f_watcher_start k) (V_handle (Some h) :: rest ++ [V_self_cb]);
      when (uv_ret <? 0) (
        _ ← handle_uv_status h uv_ret;
        mod_props h (set_opcmd OP_UNKNOWN);;
        handle_unref h);;
      mret uv_ret
  | _ => undefined UB_type
  end.

(** [start(_Cb_ &&, _Args_&&...)]: with the given callback. *)
Definition start_cb (h : loc) (c : cb) (rest : list uvarg) : M Z :=
  mod_props h (set_cb c);; start h rest.

(** [int stop() const noexcept] *)
Definition stop (h : loc) : M Z :=
  noexcept (
    p ← properties h;
    match p with
    | P_watcher k opcmd_state0 _ =>
        mod_props h (set_opcmd OP_STOP);;
        z ← uv_call (f_watcher_stop k) [V_handle (Some h)];
        uv_ret ← handle_uv_status h z;
        match opcmd_state0 with
        | OP_UNKNOWN | OP_STOP => mret tt
        | OP_START => handle_unref h
        end;;
        mret uv_ret
    | _ => undefined UB_type
    end).

(** The static callbacks given to libuv. *)
Definition watch_cb (h : loc) (rest : list arg) : M unit :=
  p ← properties h;
  match p with
  | P_watcher _ _ c => call_handle_cb h c rest
  | _ => undefined UB_type
  end.
End watchers.
End watchers.

Module idle.
Section idle.
Context `{E : Env}.
Definition new (l : loc) : M loc := watchers.new W_idle l [].
Definition start (h : loc) : M Z := watchers.start h [].
Definition stop (h : loc) : M Z := watchers.stop h.
Definition idle_cb (h : loc) : M unit := watchers.watch_cb h [].
End idle.
End idle.

Module prepare.
Section prepare.
Context `{E : Env}.
Definition new (l : loc) : M loc := watchers.new W_prepare l [].
Definition start (h : loc) : M Z := watchers.start h [].
Definition stop (h : loc) : M Z := watchers.stop h.
Definition prepare_cb (h : loc) : M unit := watchers.watch_cb h [].
End prepare.
End prepare.

Module check.
Section check.
Context `{E : Env}.
Definition new (l : loc) : M loc := watchers.new W_check l [].
Definition start (h : loc) : M Z := watchers.start h [].
Definition stop (h : loc) : M Z := watchers.stop h.
Definition check_cb (h : loc) : M unit := watchers.watch_cb h [].
End check.
End check.

Module poll.
Section poll.
Context `{E : Env}.
Definition new (l : loc) (fd : Z) : M loc := watchers.new W_poll l [V_int fd].
Definition start (h : loc) (events : Z) : M Z := watchers.start h [V_int events].
Definition stop (h : loc) : M Z := watchers.stop h.
Definition poll_cb (h : loc) (status events : Z) : M unit :=
  mod_h h (set_h_error status);;
  watchers.watch_cb h [A_int events].
End poll.
End poll.

(** ** fs_event *)

Module fs_event.
Section fs_event.
Context `{E : Env}.

Definition set_opcmd (st : opcmd) (p : props) : props :=
  match p with P_fs_event _ fl pa c => P_fs_event st fl pa c | _ => p end.
Definition set_flags (fl : Z) (p : props) : props :=
  match p with P_fs_event st _ pa c => P_fs_event st fl pa c | _ => p end.
Definition set_path (pa : string) (p : props) : props :=
  match p with P_fs_event st fl _ c => P_fs_event st fl pa c | _ => p end.
Definition set_cb (c : cb) (p : props) : props :=
  match p with P_fs_event st fl pa _ => P_fs_event st fl pa c | _ => p end.

Definition new (l : loc) (event_flags : Z) : M loc :=
  h ← handle_create If_handle (P_fs_event OP_UNKNOWN 0 EmptyString None);
  handle_init h f_fs_event_init l [] (mod_props h (set_flags event_flags));;
  mret h.

Definition start (h : loc) : M Z :=
  p ← properties h;
  match p with
  | P_fs_event opcmd_state0 event_flags path _ =>
      mod_props h (set_opcmd OP_START);;
      handle_ref h;;
      match opcmd_state0 with
      | OP_UNKNOWN | OP_STOP => mret tt
      | OP_START =>
          z ← uv_call f_fs_event_stop [V_handle (Some h)];
          _ ← handle_uv_status h z;
          handle_unref h
      end;;
      _ ← handle_uv_status h 0;
      uv_ret ← uv_call f_fs_event_start
        [V_handle (Some h); V_self_cb; V_str (Some path); V_int event_flags];
      when (uv_ret <? 0) (
        _ ← handle_uv_status h uv_ret;
        mod_props h (set_opcmd OP_UNKNOWN);;
        handle_unref h);;
      mret uv_ret
  | _ => undefined UB_type
  end.

Definition start_path (h : loc) (path : string) (c : cb) : M Z :=
  mod_props h (set_path path);; mod_props h (set_cb c);; start h.

Definition stop (h : loc) : M Z :=
  noexcept (
    p ← properties h;
    match p with
    | P_fs_event opcmd_state0 _ _ _ =>
        mod_props h (set_opcmd OP_STOP);;
        z ← uv_call f_fs_event_stop [V_handle (Some h)];
        uv_ret ← handle_uv_status h z;
        match opcmd_state0 with
        | OP_UNKNOWN | OP_STOP => mret tt
        | OP_START => handle_unref h
        end;;
        mret uv_ret
    | _ => undefined UB_type
    end).

Definition fs_event_cb (h : loc) (filename : option string) (events status : Z) : M unit :=
  mod_h h (set_h_error status);;
  p ← properties h;
  match p with
  | P_fs_event _ _ _ c => call_handle_cb h c [A_str filename; A_int events]
  | _ => undefined UB_type
  end.
End fs_event.
End fs_event.

(** ** signal *)

Module signal.
Section signal.
Context `{E : Env}.

Definition set_opcmd (st : sigcmd) (p : props) : props :=
  match p with P_signal _ n c => P_signal st n c | _ => p end.
Definition set_signum (n : Z) (p : props) : props :=
  match p with P_signal st _ c => P_signal st n c | _ => p end.
Definition set_cb (c : cb) (p : props) : props :=
  match p with P_signal st n _ => P_signal st n c | _ => p end.

Definition new (l : loc) (signum : Z) : M loc :=
  h ← handle_create If_handle (P_signal SG_UNKNOWN 0 None);
  handle_init h f_signal_init l [] (mod_props h (set_signum signum));;
  mret h.

(** [int start(opcmd _startcmd_state) const] *)
Definition start_with (h : loc) (startcmd_state : sigcmd) : M Z :=
  match startcmd_state with
  | SG_UNKNOWN | SG_STOP => throw X_invalid_argument
  | SG_START | SG_START_ONESHOT => mret tt
  end;;
  p ← properties h;
  match p with
  | P_signal opcmd_state0 signum _ =>
      mod_props h (set_opcmd startcmd_state);;
      handle_ref h;;
      match opcmd_state0 with
      | SG_UNKNOWN | SG_STOP => mret tt
      | SG_START | SG_START_ONESHOT => handle_unref h
      end;;
      _ ← handle_uv_status h 0;
      uv_ret ← uv_call f_signal_start [V_handle (Some h); V_self_cb; V_int signum];
      when (uv_ret <? 0) (
        _ ← handle_uv_status h uv_ret;
        mod_props h (set_opcmd SG_UNKNOWN);;
        handle_unref h);;
      mret uv_ret
  | _ => undefined UB_type
  end.

Definition start (h : loc) : M Z := start_with h SG_START.
Definition start_oneshot (h : loc) : M Z := start_with h SG_START_ONESHOT.
Definition start_signum (h : loc) (signum : Z) (c : cb) : M Z :=
  mod_props h (set_signum signum);; mod_props h (set_cb c);; start_with h SG_START.

(** [int signum() const noexcept] *)
Definition signum (h : loc) : M Z :=
  i ← get_h h;
  match h_props i with
  | P_signal _ n _ => mret (if uh_signum (h_uv i) =? 0 then n else uh_signum (h_uv i))
  | _ => undefined UB_type
  end.

Definition stop (h : loc) : M Z :=
  noexcept (
    p ← properties h;
    match p with
    | P_signal opcmd_state0 _ _ =>
        mod_props h (set_opcmd SG_STOP);;
        z ← uv_call f_signal_stop [V_handle (Some h)];
        uv_ret ← handle_uv_status h z;
        match opcmd_state0 with
        | SG_UNKNOWN | SG_STOP => mret tt
        | SG_START | SG_START_ONESHOT => handle_unref h
        end;;
        mret uv_ret
    | _ => undefined UB_type
    end).

Definition signal_cb (h : loc) : M unit :=
  p ← properties h;
  match p with
  | P_signal st _ c =>
      if decide (st = SG_START_ONESHOT) then
        mod_props h (set_opcmd SG_UNKNOWN);;
        finally (call_handle_cb h c [A_int 1]) (handle_unref h)
      else call_handle_cb h c [A_int 0]
  | _ => undefined UB_type
  end.
End signal.
End signal.

(** ** timer *)

Module timer.
Section timer.
Context `{E : Env}.

Definition set_extra (b : bool) (p : props) : props :=
  match p with P_timer _ c => P_timer b c | _ => p end.
Definition set_cb (c : cb) (p : props) : props :=
  match p with P_timer b _ => P_timer b c | _ => p end.

Definition new (l : loc) (repeat_interval : Z) : M loc :=
  h ← handle_create If_handle (P_timer false None);
  uv_ret ← uv_call f_timer_init [V_loop (Some l); V_handle (Some h)];
  z ← handle_uv_status h uv_ret;
  (if z <? 0 then mret tt
   else _ ← uv_call f_timer_set_repeat [V_handle (Some h); V_int repeat_interval]; book_loop h);;
  mret h.

Definition start (h : loc) (timeout : Z) : M Z :=
  p ← properties h;
  match p with
  | P_timer has_extra_ref _ =>
      when (negb has_extra_ref) (handle_ref h;; mod_props h (set_extra true));;
      _ ← handle_uv_status h 0;
      repeat ← uv_call f_timer_get_repeat [V_handle (Some h)];
      uv_ret ← uv_call f_timer_start [V_handle (Some h); V_self_cb; V_int timeout; V_int repeat];
      when (uv_ret <? 0) (
        _ ← handle_uv_status h uv_ret;
        mod_props h (set_extra false);;
        handle_unref h);;
      mret uv_ret
  | _ => undefined UB_type
  end.

Definition stop (h : loc) : M Z :=
  noexcept (
    z ← uv_call f_timer_stop [V_handle (Some h)];
    uv_ret ← handle_uv_status h z;
    p ← properties h;
    match p with
    | P_timer has_extra_ref _ =>
        when has_extra_ref (mod_props h (set_extra false);; handle_unref h);;
        mret uv_ret
    | _ => undefined UB_type
    end).

Definition timer_cb (h : loc) : M unit :=
  repeat ← uv_call f_timer_get_repeat [V_handle (Some h)];
  p ← properties h;
  match p with
  | P_timer has_extra_ref c =>
      if (repeat =? 0) && has_extra_ref
      then finally (call_handle_cb h c []) (handle_unref h)
      else call_handle_cb h c []
  | _ => undefined UB_type
  end.
End timer.
End timer.

(** ** async *)

Module async.
Section async.
Context `{E : Env}.

Definition set_cb (c : cb) (p : props) : props :=
  match p with P_async _ => P_async c | _ => p end.

Definition new (l : loc) : M loc :=
  h ← handle_create If_handle (P_async None);
  handle_init h f_async_init l [V_self_cb] (mret tt);;
  mret h.

(** [int send() const]: [uv_async_send] accepts when it does not fail; the
    callback it will cause releases the reference taken here. *)
Definition send (h : loc) : M Z :=
  handle_ref h;;
  _ ← handle_uv_status h 0;
  uv_ret ← uv_submit f_async_send [V_handle (Some h)] cb_async h [TH h];
  when (uv_ret <? 0) (_ ← handle_uv_status h uv_ret; handle_unref h);;
  mret uv_ret.

Definition send_cb (h : loc) (c : cb) : M Z := mod_props h (set_cb c);; send h.

Definition async_cb (h : loc) : M unit :=
  p ← properties h;
  match p with
  | P_async c => finally (call_handle_cb h c []) (handle_unref h)
  | _ => undefined UB_type
  end.
End async.
End async.

(** ** The ledger across start and stop *)

Section ledger.
Context `{E : Env} `{EO : !EnvOk}.

Lemma wp_watcher_start h k st c rest F X w :
  Inv F X w → held F w (TH h) → h_props <$> w_handles w !! h = Some (P_watcher k st c) →
  wp (watchers.start h rest) (λ z w', Inv F X w' ∧
    h_props <$> w_handles w' !! h =
      Some (P_watcher k (if z <? 0 then OP_UNKNOWN else OP_START) c)) w.
Proof.
  intros I L HP. unfold watchers.start. wp_struct. eapply wp_properties; [done|]. cbn.
  destruct st; [wp_two; wp_acquire|wp_two; wp_acquire|wp_struct; wp_props]; wp_auto;
    (destruct (Z.ltb_spec z 0); cbn [when];
     [wp_auto; wp_release; wp_auto; cbn; rewrite (proj2 (Z.ltb_lt z 0)) by done
     |wp_auto; rewrite (proj2 (Z.ltb_ge z 0)) by done]; done).
Qed.

Lemma wp_watcher_stop h k st c F X w :
  Inv F X w → held F w (TH h) → h_props <$> w_handles w !! h = Some (P_watcher k st c) →
  wp (watchers.stop h) (λ _ w', Inv F X w' ∧
    h_props <$> w_handles w' !! h = Some (P_watcher k OP_STOP c)) w.
Proof.
  intros I L HP. unfold watchers.stop. wp_structs. eapply wp_properties; [done|]. cbn.
  wp_struct. destruct st; [wp_props|wp_props|wp_release]; wp_auto; done.
Qed.

(** ** Callbacks *)

Lemma wp_call_handle_cb h c rest F X (Q : unit → world → Prop) w :
  Inv F X w → live F w (TH h) → args_toks rest = [] →
  (∀ w', Inv F X w' → Q tt w') → wp (call_handle_cb h c rest) Q w.
Proof.
  intros I L Hr HQ. destruct c as [f|]; cbn; [|by apply wp_ret, HQ]. wp_struct. wp_op.
  apply (wp_invoke f (A_ptr (PH (Some h)) :: rest) F X); [|done].
  unfold args_toks in *. cbn. by rewrite Hr.
Qed.

(** The status that libuv reports is set before the function is called. *)
Lemma wp_report h status (m : M unit) (Q : unit → world → Prop) F X w :
  Inv F X w → live F w (TH h) →
  (∀ w', Inv F X w' → live F w' (TH h) →
    h_props <$> w_handles w' !! h = h_props <$> w_handles w !! h → wp m Q w') →
  wp (mod_h h (set_h_error status);; m) Q w.
Proof.
  intros I L HQ. destruct (live_handle _ _ _ h I L) as (i & Hi). wp_structs.
  set (w1 := upd_handles _ w). assert (wsame w w1) as S by by eapply wsame_handle.
  rewrite S in I. rewrite (wsame_sim _ _ S) in L.
  apply HQ; [done..|]. by rewrite (sim_hprops _ _ h (proj1 (wsame_sim _ _ S))).
Qed.

Lemma wp_watch_cb h k st c rest F X w :
  Inv F X w → live F w (TH h) → args_toks rest = [] →
  h_props <$> w_handles w !! h = Some (P_watcher k st c) →
  wp (watchers.watch_cb h rest) (λ _ w', Inv F X w') w.
Proof.
  intros I L Hr HP. unfold watchers.watch_cb. wp_struct. eapply wp_properties; [done|].
  by eapply wp_call_handle_cb.
Qed.

Lemma wp_poll_cb h k st c status events F X w :
  Inv F X w → live F w (TH h) → h_props <$> w_handles w !! h = Some (P_watcher k st c) →
  wp (poll.poll_cb h status events) (λ _ w', Inv F X w') w.
Proof.
  intros I L HP. eapply wp_report; [done..|]. intros w1 I1 L1 HP1.
  eapply wp_watch_cb; [done..|]. by rewrite HP1.
Qed.

Lemma wp_fs_event_cb h st fl pa c filename events status F X w :
  Inv F X w → live F w (TH h) → h_props <$> w_handles w !! h = Some (P_fs_event st fl pa c) →
  wp (fs_event.fs_event_cb h filename events status) (λ _ w', Inv F X w') w.
Proof.
  intros I L HP. eapply wp_report; [done..|]. intros w1 I1 L1 HP1. wp_struct.
  eapply wp_properties; [by rewrite HP1|]. by eapply wp_call_handle_cb.
Qed.

(** ** Construction *)

Lemma wp_handle_init h f l rest p F X (Q : unit → world → Prop) w0 w :
  is_init f = true → fresh_handle h p F X w0 w → live F w (TL l) →
  (∀ w', Inv (TH h :: F) X w' → h_props <$> w_handles w' !! h = Some p →
    w_vars w' = w_vars w0 → w_armed w' = w_armed w0 → Q tt w') →
  wp (handle_init h f l rest (mret tt)) Q w.
Proof.
  intros Hf Fh Ll HQ. unfold handle_init. wp_struct.
  eapply wp_init_fresh; [done..|]. intros z w2 Fh2 L2 HU. wp_structs.
  apply (wp_bind_inv (handle_uv_status h z)). by eapply wp_init_tail.
Qed.

Lemma wp_watcher_new k l rest F X w :
  Inv F X w → live F w (TL l) →
  wp (watchers.new k l rest) (λ h w', Inv (TH h :: F) X w' ∧
    h_props <$> w_handles w' !! h = Some (P_watcher k OP_UNKNOWN None) ∧
    w_vars w' = w_vars w) w.
Proof.
  intros I Ll. unfold watchers.new. wp_struct.
  eapply wp_create_fresh; [done..|]. intros h w1 Fh L1. wp_struct.
  eapply wp_handle_init; [done..|]. intros. wp_struct. done.
Qed.

(** A property of a handle under construction is set. *)
Lemma wp_fresh_mod h p g F X (Q : unit → world → Prop) w0 w :
  fresh_handle h p F X w0 w →
  props_self (g p) = props_self p → same_endpoints p (g p) → reads_kept h p (g p) w →
  (∀ w', fresh_handle h (g p) F X w0 w' → (∀ t, owned w' t = owned w t) →
    (∀ l, on_loop h l w → on_loop h l w') → Q tt w') →
  wp (mod_props h g) Q w.
Proof.
  intros [I HP HL HV HA] H1 H2 H3 HQ.
  eapply wp_mod_props; [exact I|by apply live_frame; left|exact HP|done..|].
  intros w3 I3 W HO. apply HQ; [|done|].
  - split.
    + exact I3.
    + apply W.
    + by rewrite (wr_loop _ _ _ _ W).
    + by rewrite (wr_vars _ _ _ _ W).
    + by rewrite (wr_armed _ _ _ _ W).
  - intros l HU. unfold on_loop in *. pose proof (wr_uv _ _ _ _ W) as Hu.
    apply fmap_Some in HU as (i & Hi & Hl). rewrite Hi in Hu. cbn in Hu.
    apply fmap_Some in Hu as (j & Hj & Hu'). rewrite Hj. cbn. congruence.
Qed.

Lemma wp_handle_init_set h f l p F X (g : props → props) (Q : unit → world → Prop) w0 w :
  is_init f = true → fresh_handle h p F X w0 w → live F w (TL l) →
  props_self (g p) = props_self p → same_endpoints p (g p) →
  (∀ w, reads_kept h p (g p) w) →
  (∀ w', Inv (TH h :: F) X w' → h_props <$> w_handles w' !! h = Some (g p) →
    w_vars w' = w_vars w0 → w_armed w' = w_armed w0 → Q tt w') →
  wp (handle_init h f l [] (mod_props h g)) Q w.
Proof.
  intros Hf Fh Ll H1 H2 H3 HQ. unfold handle_init. wp_struct.
  eapply wp_init_fresh; [done..|]. intros z w2 Fh2 L2 HU. wp_struct.
  eapply wp_fresh_mod; [done..|]. intros w3 Fh3 HO HL3.
  eapply (wp_init_tail h l z (g p) F X _ w0); [done| |auto|].
  - by eapply owned_eq_live.
  - intros. by apply HQ.
Qed.

(** ** fs_event and signal *)

Lemma wp_fs_event_start h st fl pa c F X w :
  Inv F X w → held F w (TH h) → h_props <$> w_handles w !! h = Some (P_fs_event st fl pa c) →
  wp (fs_event.start h) (λ _ w', Inv F X w') w.
Proof.
  intros I L HP. unfold fs_event.start. wp_struct. eapply wp_properties; [done|]. cbn.
  destruct st; [wp_two; wp_acquire|wp_two; wp_acquire|wp_struct; wp_props]; wp_auto;
    (destruct (_ <? 0); cbn [when]; [wp_auto; wp_release; wp_auto|wp_auto]; done).
Qed.

Lemma wp_fs_event_stop h st fl pa c F X w :
  Inv F X w → held F w (TH h) → h_props <$> w_handles w !! h = Some (P_fs_event st fl pa c) →
  wp (fs_event.stop h) (λ _ w', Inv F X w') w.
Proof.
  intros I L HP. unfold fs_event.stop. wp_structs. eapply wp_properties; [done|]. cbn.
  wp_struct. destruct st; [wp_props|wp_props|wp_release]; wp_auto; done.
Qed.

Lemma wp_signal_start h cmd st n c F X w :
  Inv F X w → held F w (TH h) → h_props <$> w_handles w !! h = Some (P_signal st n c) →
  sig_started cmd = true →
  wp (signal.start_with h cmd) (λ _ w', Inv F X w') w.
Proof.
  intros I L HP Hc. unfold signal.start_with. destruct cmd; try done; do 2 wp_struct;
    (wp_struct; eapply wp_properties; [done|]; cbn; clear Hc;
     destruct st; [wp_two; wp_acquire|wp_two; wp_acquire|wp_struct; wp_props..]; wp_auto;
     (destruct (_ <? 0); cbn [when]; [wp_auto; wp_release; wp_auto|wp_auto]; done)).
Qed.

Lemma wp_signal_stop h st n c F X w :
  Inv F X w → held F w (TH h) → h_props <$> w_handles w !! h = Some (P_signal st n c) →
  wp (signal.stop h) (λ _ w', Inv F X w') w.
Proof.
  intros I L HP. unfold signal.stop. wp_structs. eapply wp_properties; [done|]. cbn.
  wp_struct. destruct st; [wp_props|wp_props|wp_release|wp_release]; wp_auto; done.
Qed.

(** A one-shot signal handle gives its own reference back after the callback, even when
    nobody else refers to it any more. *)
Lemma wp_signal_cb h st n c F X w :
  Inv F X w → live F w (TH h) → h_props <$> w_handles w !! h = Some (P_signal st n c) →
  wp (signal.signal_cb h) (λ _ w', Inv F X w') w.
Proof.
  intros I L HP. unfold signal.signal_cb. wp_struct. eapply wp_properties; [done|]. cbn.
  case_decide as Hd; [subst st|by eapply wp_call_handle_cb].
  wp_struct. wp_release. wp_struct. eapply wp_call_handle_cb; [done| |done|].
  { apply live_frame. by left. }
  intros w1 I1. wp_auto. done.
Qed.

(** ** timer *)

Lemma wp_timer_start h timeout b c F X w :
  Inv F X w → held F w (TH h) → h_props <$> w_handles w !! h = Some (P_timer b c) →
  wp (timer.start h timeout) (λ _ w', Inv F X w') w.
Proof.
  intros I L HP. unfold timer.start. wp_struct. eapply wp_properties; [done|]. cbn.
  destruct b; cbn [negb when].
  - wp_auto. destruct (_ <? 0); cbn [when]; [wp_auto; wp_release; wp_auto|wp_auto]; done.
  - wp_struct. wp_struct. wp_op. wp_keep. wp_auto.
    destruct (_ <? 0); cbn [when]; [wp_auto; wp_release; wp_auto|wp_auto]; done.
Qed.

Lemma wp_timer_stop h b c F X w :
  Inv F X w → held F w (TH h) → h_props <$> w_handles w !! h = Some (P_timer b c) →
  wp (timer.stop h) (λ _ w', Inv F X w' ∧
    h_props <$> w_handles w' !! h = Some (P_timer false c)) w.
Proof.
  intros I L HP. unfold timer.stop. wp_auto. eapply wp_properties; [done|]. cbn.
  wp_struct. destruct b; cbn [when]; [wp_struct; wp_release; wp_auto|wp_auto]; done.
Qed.

(** The callback of a repeating timer. *)
Lemma wp_timer_cb_repeating h b c F X w :
  Inv F X w → live F w (TH h) → h_props <$> w_handles w !! h = Some (P_timer b c) →
  rp_ret (uv_exec (w_log w) f_timer_get_repeat [V_handle (Some h)]) ≠ 0 →
  wp (timer.timer_cb h) (λ _ w', Inv F X w') w.
Proof.
  intros I L HP Hr. unfold timer.timer_cb. wp_struct. apply wp_uv_call_eq. intros w1 S _.
  rewrite (proj2 (Z.eqb_neq _ _) Hr). clear Hr. advance S.
  wp_struct. eapply wp_properties; [done|]. cbn [andb].
  by eapply wp_call_handle_cb.
Qed.

(** ** async *)

Lemma wp_async_send h c F X w :
  Inv F X w → held F w (TH h) → h_props <$> w_handles w !! h = Some (P_async c) →
  wp (async.send h) (λ z w', Inv F X w' ∧
    w_armed w' = submitted z {| arm_cb := cb_async; arm_obj := h; arm_toks := [TH h] |}
      (w_armed w)) w.
Proof.
  intros I L HP. remember (w_armed w) as A eqn:HA. symmetry in HA.
  unfold async.send. wp_auto. wp_submit F; [done|wp_finish..].
Qed.

Lemma wp_async_cb h c F X w :
  Inv (TH h :: F) X w → h_props <$> w_handles w !! h = Some (P_async c) →
  wp (async.async_cb h) (λ _ w', Inv F X w') w.
Proof.
  intros I HP. unfold async.async_cb. wp_struct. eapply wp_properties; [done|]. cbn. wp_struct.
  eapply wp_call_handle_cb; [done| |done|].
  { apply live_frame. by left. }
  intros w1 I1. wp_auto. done.
Qed.
End ledger.
