(* ===== verification/Handle.v ===== *)
(** * The class [handle]: the members every handle class inherits

    src/include/uvcc/handle-base.hpp: the accessors, which go through the virtual
    functions of the class' [uv_interface], and the status they leave behind. *)

From Stdlib Require Import ZArith Lia.
From stdpp Require Import base gmap list strings option.
From S2P Require Import Prelude World Objects Ledger Wp Refs Release Rules.

Local Open Scope Z_scope.

(** Conversion of an integer to [int] (two's complement, 32 bits). *)
Definition int32 (z : Z) : Z := (z + 2^31) mod 2^32 - 2^31.

(** Field updates of the libuv handle structure *)
Definition set_uh_data (d : Z) (u : uv_handle_t) : uv_handle_t :=
  {| uh_type := uh_type u; uh_loop := uh_loop u; uh_data := d;
     uh_queue_size := uh_queue_size u; uh_ipc := uh_ipc u; uh_signum := uh_signum u;
     uh_pid := uh_pid u; uh_result := uh_result u; uh_path := uh_path u |}.

(** [UV_HANDLE_TYPE_MAP] of uv.h, with the library's own cases around it. *)
Definition type_name_of (t : uv_handle_type) : string :=
  match t with
  | UV_UNKNOWN_HANDLE => "UNKNOWN" | UV_ASYNC => "async" | UV_CHECK => "check"
  | UV_FS_EVENT => "fs_event" | UV_FS_POLL => "fs_poll" | UV_HANDLE => "handle"
  | UV_IDLE => "idle" | UV_NAMED_PIPE => "pipe" | UV_POLL => "poll"
  | UV_PREPARE => "prepare" | UV_PROCESS => "process" | UV_STREAM => "stream"
  | UV_TCP => "tcp" | UV_TIMER => "timer" | UV_TTY => "tty" | UV_UDP => "udp"
  | UV_SIGNAL => "signal" | UV_FILE => "file"
  end.

Section handle.
Context `{E : Env}.

(** A member that is a libuv call whose status is kept: [uv_status(::uv_f(handle, ..))]. *)
Definition handle_call (h : loc) (f : uvfn) (rest : list uvarg) : M Z :=
  z ← uv_call f (V_handle (Some h) :: rest); handle_uv_status h z.

(** The same with one output parameter, which has the value [v] before the call. *)
Definition handle_call_out (h : loc) (f : uvfn) (v : Z) : M Z :=
  r ← uv_call_out f [V_handle (Some h)];
  _ ← handle_uv_status h (fst r);
  mret (default v (head (snd r))).

(** ** [uv_interface] *)

(** [type]: the files have no libuv handle type. *)
Definition uv_interface_type (h : loc) : M uv_handle_type :=
  i ← get_h h;
  mret (match h_iface i with If_file => UV_FILE | _ => uh_type (h_uv i) end).

Definition uv_interface_is_active (h : loc) : M Z :=
  i ← get_h h;
  match h_iface i with
  | If_file => mret 0
  | _ => uv_call f_is_active [V_handle (Some h)]
  end.

Definition uv_interface_is_closing (h : loc) : M Z :=
  i ← get_h h;
  match h_iface i, h_props i with
  | If_file, P_file _ f => mret (fi_closing f)
  | If_file, _ => undefined UB_type
  | _, _ => uv_call f_is_closing [V_handle (Some h)]
  end.

(** [fileno(void*, uv_os_fd_t&)]: the status and the value of the output parameter. *)
Definition uv_interface_fileno (h : loc) : M (Z * Z) :=
  i ← get_h h;
  match h_iface i with
  | If_file =>
      let fd := int32 (uh_result (h_uv i)) in
      mret (if fd =? -1 then UV_EBADF else 0, fd)
  | _ =>
      r ← uv_call_out f_fileno [V_handle (Some h)];
      mret (fst r, default (-1) (head (snd r)))
  end.

Definition uv_interface_has_ref (h : loc) : M Z :=
  i ← get_h h;
  match h_iface i with
  | If_file => mret 0
  | _ => uv_call f_has_ref [V_handle (Some h)]
  end.

(** ** The members of [handle] *)

Definition id (h : option loc) : Z := default 0 h.
Definition nrefs (h : loc) : M Z := i ← get_h h; mret (h_refs i).
Definition uv_status (h : loc) : M Z := i ← get_h h; mret (h_uv_error i).
Definition on_destroy_set (h : loc) (f : cb) : M unit := mod_h h (set_h_destroy f).
Definition type_name (h : loc) : M string :=
  t ← uv_interface_type h; mret (type_name_of t).
Definition data_get (h : loc) : M Z := i ← get_h h; mret (uh_data (h_uv i)).
Definition data_set (h : loc) (d : Z) : M unit := mod_h h (set_h_uv (set_uh_data d)).

(** [uv::loop loop() const]: a new variable for the loop. *)
Definition handle_loop (h : loc) : M (option loc) :=
  lo ← uv_interface_loop h; adopt_new TL lo.

(** [attached(bool)] calls libuv whatever the class is; [attached()] asks the interface. *)
Definition set_attached (h : loc) (state : bool) : M unit :=
  _ ← uv_call (if state then f_ref else f_unref) [V_handle (Some h)]; mret tt.
Definition attached (h : loc) : M bool := z ← uv_interface_has_ref h; mret (negb (z =? 0)).

Definition is_active (h : loc) : M Z :=
  z ← uv_interface_is_active h; handle_uv_status h z.
Definition is_closing (h : loc) : M Z :=
  z ← uv_interface_is_closing h; handle_uv_status h z.

Definition fileno (h : loc) : M Z :=
  r ← uv_interface_fileno h; _ ← handle_uv_status h (fst r); mret (snd r).

(** [operator uv_t*]: null for a file. *)
Definition to_uv_handle (h : loc) : M (option loc) :=
  t ← uv_interface_type h; mret (if decide (t = UV_FILE) then None else Some h).

(** [operator bool]: [uv_handle and uv_status() >= 0] *)
Definition handle_bool (ho : option loc) : M bool :=
  match ho with
  | Some h => z ← uv_status h; mret (0 <=? z)
  | None => mret false
  end.
End handle.

(** ** What the members guarantee *)

(** The conversion keeps the values an [int] has. *)
Lemma int32_id z : - 2^31 ≤ z < 2^31 → int32 z = z.
Proof. intros H. unfold int32. rewrite Z.mod_small by lia. lia. Qed.
Lemma int32_range z : - 2^31 ≤ int32 z < 2^31.
Proof. unfold int32. pose proof (Z.mod_pos_bound (z + 2^31) (2^32)). lia. Qed.

(** Names determine types. *)
Lemma type_name_of_inj t t' : type_name_of t = type_name_of t' → t = t'.
Proof. destruct t, t'; cbn; intros; congruence. Qed.

Section props.
Context `{E : Env} `{EO : !EnvOk}.

Lemma wp_handle_call h f rest F X (Q : Z → world → Prop) w :
  Inv F X w → live F w (TH h) → (∀ z w', wsame w w' → Q z w') →
  wp (handle_call h f rest) Q w.
Proof.
  intros I L HQ. unfold handle_call. wp_struct. apply wp_uv_call. intros z w1 S.
  rewrite S in I. rewrite (wsame_sim _ _ S) in L. eapply wp_h_status; [done..|].
  intros w2 S2. apply HQ. by etrans.
Qed.

Lemma wp_handle_call_out h f v F X (Q : Z → world → Prop) w :
  Inv F X w → live F w (TH h) → (∀ z w', wsame w w' → Q z w') →
  wp (handle_call_out h f v) Q w.
Proof.
  intros I L HQ. unfold handle_call_out. wp_struct. apply wp_uv_call_out. intros r w1 S.
  rewrite S in I. rewrite (wsame_sim _ _ S) in L. wp_struct. eapply wp_h_status; [done..|].
  intros w2 S2. apply wp_ret, HQ. by etrans.
Qed.
End props.
