(* ===== verification/Trace.v ===== *)
(** * Following one handle through an operation

    The ledger forgets what was called and what was returned. For the behaviour of
    the commands of a handle the rules below follow its instance and the trace of
    events exactly: [at_h w0 h i L w] says that [h] is the instance [i], but for the
    libuv structure that libuv may have written, that the trace is [L], and that everything else
    is as in [w0]. *)

From Stdlib Require Import ZArith Lia.
From stdpp Require Import base gmap list strings option.
From S2P Require Import Prelude World Objects Ledger Wp.

Local Open Scope Z_scope.

Definition with_uv (u : uv_handle_t) (i : hinst) : hinst := set_h_uv (λ _, u) i.

(** What is seen of the other objects. *)
Definition hview (i : hinst) : iface * props := (h_iface i, h_props i).
Definition bufs_of (w : world) (b : loc) : option (list (Z * Z)) := b_bufs <$> w_bufs w !! b.
Definition handles_of (w : world) (h : loc) : option (iface * props) := hview <$> w_handles w !! h.
Definition reqs_of (w : world) (r : loc) : option (rprops * cb * cb) :=
  (λ i, (r_props i, r_request_cb i, r_destroy_cb i)) <$> w_reqs w !! r.

(** Nothing but the handle [h], the trace and what libuv keeps in its structures has changed. *)
Record aside (h : loc) (w0 w : world) : Prop := {
  as_armed : w_armed w = w_armed w0;
  as_vars : w_vars w = w_vars w0;
  as_bufs b : bufs_of w b = bufs_of w0 b;
  as_handles h' : h' ≠ h → handles_of w h' = handles_of w0 h';
  as_reqs r : reqs_of w r = reqs_of w0 r;
  as_refs t : t ≠ TH h → refs_of w t = refs_of w0 t
}.

Lemma aside_refl h w : aside h w w.
Proof. by split. Qed.

Lemma handles_same w w' h : wpsim w w' → handles_of w' h = handles_of w h.
Proof.
  intros S. unfold handles_of. pose proof (sim_h _ _ S h) as H.
  destruct H as [i j (Hp & _ & _ & Hf)|]; [|done]. unfold hview. cbn. congruence.
Qed.

Lemma reqs_same w w' r : wpsim w w' → reqs_of w' r = reqs_of w r.
Proof.
  intros S. unfold reqs_of. pose proof (sim_r _ _ S r) as H.
  destruct H as [i j (Hp & Hc & Hd)|]; [|done]. cbn. congruence.
Qed.

Lemma aside_same h w0 w w' : wsame w w' → aside h w0 w → aside h w0 w'.
Proof.
  intros [[S _] Hr] [HA HV HB HH HQ HR]. split.
  - by rewrite <-(sim_armed _ _ S).
  - by rewrite <-(sim_vars _ _ S).
  - intros b. unfold bufs_of in *. by rewrite <-HB, (sim_bbufs _ _ b S).
  - intros h' Hne. rewrite <-HH by done. by apply handles_same.
  - intros r. rewrite <-HQ. by apply reqs_same.
  - intros t Ht. rewrite <-HR by done. apply Hr.
Qed.

Lemma aside_handle h w0 i j w :
  w_handles w !! h = Some i → aside h w0 w → aside h w0 (upd_handles (<[h := j]>) w).
Proof.
  intros Hi [HA HV HB HH HQ HR]. split; try done.
  - intros h' Hne. rewrite <-HH by done. unfold handles_of. cbn. by rewrite lookup_insert_ne.
  - intros [h'|?|?|?] Ht; rewrite <-HR by done; cbn; try done.
    rewrite lookup_insert_ne; [done|]. by intros ->.
Qed.

Definition at_h (w0 : world) (h : loc) (i : hinst) (L : list event) (w : world) : Prop :=
  (∃ u, w_handles w !! h = Some (with_uv u i)) ∧ w_log w = L ∧ aside h w0 w.

(** A libuv call and the value it returns after the events [L]. *)
Definition uv_ret `{E : Env} (L : list event) (f : uvfn) (args : list uvarg) : Z :=
  rp_ret (uv_exec L f args).
Definition uv_called `{E : Env} (f : uvfn) (args : list uvarg) (L : list event) : list event :=
  E_uv f args (uv_ret L f args) :: L.

Section at_h.
Context `{E : Env}.
Variable w0 : world.

Lemma at_h_here h i : w_handles w0 !! h = Some i → at_h w0 h i (w_log w0) w0.
Proof. intros Hi. split; [|split; [done|apply aside_refl]]. exists (h_uv i). rewrite Hi. by destruct i. Qed.

Lemma at_h_write h i o w :
  (∃ u, w_handles w !! h = Some (with_uv u i)) →
  ∃ u, w_handles (apply_uv_write o w) !! h = Some (with_uv u i).
Proof.
  intros (u & Hu). destruct o as [h' f|r f|l f]; cbn; eauto.
  destruct (decide (h = h')) as [<-|Hne].
  - rewrite lookup_alter_eq, Hu. cbn. by eexists.
  - rewrite lookup_alter_ne by done. eauto.
Qed.

Lemma at_h_writes h i l w :
  (∃ u, w_handles w !! h = Some (with_uv u i)) →
  ∃ u, w_handles (apply_uv_writes l w) !! h = Some (with_uv u i).
Proof.
  unfold apply_uv_writes. revert w. induction l as [|o l IH]; intros w H; [done|].
  cbn. by apply IH, at_h_write.
Qed.

Lemma wp_at_uv_call h i L f args (Q : Z → world → Prop) w :
  at_h w0 h i L w → (∀ w', at_h w0 h i (uv_called f args L) w' → Q (uv_ret L f args) w') →
  wp (uv_call f args) Q w.
Proof.
  intros (Hu & <- & HA) HQ. unfold uv_call, uv_call_out. apply wp_bind. cbn. apply HQ. split_and!.
  - cbn. by apply at_h_writes.
  - cbn. by rewrite log_uv_writes.
  - eapply aside_same; [|exact HA]. etrans; [apply wsame_uv_writes|apply wsame_log].
Qed.

Lemma wp_at_get h i L (Q : hinst → world → Prop) w :
  at_h w0 h i L w → (∀ u, Q (with_uv u i) w) → wp (get_h h) Q w.
Proof. intros [(u & Hu) _] HQ. eapply wp_get_h; [done|apply HQ]. Qed.

Lemma wp_at_mod h i L f (Q : unit → world → Prop) w :
  at_h w0 h i L w → (∀ u, f (with_uv u i) = with_uv u (f i)) →
  (∀ w', at_h w0 h (f i) L w' → Q tt w') → wp (mod_h h f) Q w.
Proof.
  intros ((u & Hu) & HL & HA) Hf HQ. eapply wp_mod_h; [done|]. apply HQ.
  split; [|split; [done|by eapply aside_handle]].
  exists u. cbn. rewrite lookup_insert_eq. by rewrite Hf.
Qed.

Lemma wp_at_properties h i L (Q : props → world → Prop) w :
  at_h w0 h i L w → Q (h_props i) w → wp (properties h) Q w.
Proof.
  intros Ha HQ. unfold properties. apply wp_bind. eapply wp_at_get; [done|]. intros u.
  by apply wp_ret.
Qed.

Lemma wp_at_mod_props h i L f (Q : unit → world → Prop) w :
  at_h w0 h i L w → (∀ w', at_h w0 h (set_h_props (f (h_props i)) i) L w' → Q tt w') →
  wp (mod_props h f) Q w.
Proof. intros Ha HQ. unfold mod_props. by eapply wp_at_mod. Qed.

Lemma wp_at_status h i L z (Q : Z → world → Prop) w :
  at_h w0 h i L w → (∀ w', at_h w0 h (set_h_error z i) L w' → Q z w') →
  wp (handle_uv_status h z) Q w.
Proof.
  intros Ha HQ. unfold handle_uv_status. apply wp_bind. eapply wp_at_mod; [done..|].
  intros w' Ha'. by apply wp_ret, HQ.
Qed.

Lemma wp_at_ref h i L (Q : unit → world → Prop) w :
  at_h w0 h i L w → h_refs i ≠ 0 →
  (∀ w', at_h w0 h (set_h_refs (h_refs i + 1) i) L w' → Q tt w') → wp (handle_ref h) Q w.
Proof.
  intros Ha H0 HQ. unfold handle_ref. apply wp_bind. eapply wp_at_get; [done|]. intros u.
  cbn. unfold ref_count.inc. rewrite (proj2 (Z.eqb_neq _ _) H0). by eapply wp_at_mod.
Qed.

Lemma wp_at_unref h i L (Q : unit → world → Prop) w :
  at_h w0 h i L w → h_refs i ≠ 1 →
  (∀ w', at_h w0 h (set_h_refs (h_refs i - 1) i) L w' → Q tt w') → wp (handle_unref h) Q w.
Proof.
  intros Ha H1 HQ. unfold handle_unref, handle_unref_with. apply wp_bind.
  eapply wp_at_get; [done|]. intros u. cbn. unfold ref_count.dec. apply wp_bind.
  eapply wp_at_mod; [done..|]. intros w' Ha'.
  rewrite (proj2 (Z.eqb_neq _ _)) by lia. cbn [when]. by apply wp_ret, HQ.
Qed.
End at_h.

(** One step of the code at a handle that is being followed. *)
Ltac wp_at_step :=
  let a := fresh "Ha" in
  lazymatch goal with
  | Ha : at_h ?w0 ?h ?i ?L ?w |- wp ?m ?Q ?w =>
      lazymatch m with
      | uv_call ?f ?args =>
          apply (wp_at_uv_call w0 h i L f args Q w Ha); clear Ha; intros ? a
      | properties h => apply (wp_at_properties w0 h i L Q w Ha)
      | mod_props h ?f =>
          apply (wp_at_mod_props w0 h i L f Q w Ha); clear Ha; intros ? a
      | handle_uv_status h ?z =>
          apply (wp_at_status w0 h i L z Q w Ha); clear Ha; intros ? a
      | handle_ref h =>
          apply (wp_at_ref w0 h i L Q w Ha); [cbn; lia|clear Ha; intros ? a]
      | handle_unref h =>
          apply (wp_at_unref w0 h i L Q w Ha); [cbn; lia|clear Ha; intros ? a]
      | get_h h => apply (wp_at_get w0 h i L Q w Ha); intros ?
      end
  end.
Ltac wp_at := repeat (first [wp_struct | wp_at_step]; cbn beta).
