(* ===== verification/Calls.v ===== *)
(** * Following a request through an operation

    The ledger forgets what libuv is called with, what is returned and which status is left in
    the request. The rules below follow the trace, the request and every counter exactly:
    [seen r v L R B w] says that the request [r] shows [v] (status, callback, properties), that
    the trace is [L], that the counters are [R], and that [B] is what it shows of the rest: the
    chunks of the buffers, the properties of the handles, the callbacks libuv has to make. *)

From Stdlib Require Import ZArith Lia.
From stdpp Require Import base gmap list strings option.
From S2P Require Import Prelude World Objects Ledger Wp Refs Release Rules Trace.

Local Open Scope Z_scope.

(** ** The state that is followed *)

Definition rview (i : rinst) : Z * cb * rprops := (r_uv_error i, r_request_cb i, r_props i).

Record rest := Rest {
  rs_bufs : loc → option (list (Z * Z));
  rs_handles : loc → option (iface * props);
  rs_armed : list armed;
  rs_destroy : loc → option cb;
  rs_vars : gmap positive ptr
}.

(** The requests that exist, with their destroy callbacks. *)
Definition destroy_cbs (w : world) (r : loc) : option cb := r_destroy_cb <$> w_reqs w !! r.
Definition rest_of (w : world) : rest := 
  Rest (bufs_of w) (handles_of w) (w_armed w) (destroy_cbs w) (w_vars w).

Record seen (r : loc) (v : Z * cb * rprops) (L : list event) (R : token → option Z)
    (B : rest) (w : world) : Prop := {
  sn_view : rview <$> w_reqs w !! r = Some v;
  sn_log : w_log w = L;
  sn_refs t : refs_of w t = R t;
  sn_bufs b : bufs_of w b = rs_bufs B b;
  sn_handles h : handles_of w h = rs_handles B h;
  sn_armed : w_armed w = rs_armed B;
  sn_destroy r' : destroy_cbs w r' = rs_destroy B r';
  sn_vars : w_vars w = rs_vars B
}.

(** libuv has accepted a request, or has not. *)
Definition rs_submit (z : Z) (a : armed) (B : rest) : rest :=
  if 0 <=? z then Rest (rs_bufs B) (rs_handles B) (a :: rs_armed B) (rs_destroy B) (rs_vars B)
  else B.

(** The properties of the handles have changed. *)
Definition rs_map (g : loc → iface * props → iface * props) (B : rest) : rest :=
  Rest (rs_bufs B) (λ h, g h <$> rs_handles B h) (rs_armed B) (rs_destroy B) (rs_vars B).

Definition count (t : token) (n : Z) (R : token → option Z) : token → option Z :=
  λ u, if decide (t = u) then Some n else R u.

Lemma log_tok_set t n w : w_log (tok_set t n w) = w_log w.
Proof. by destruct t. Qed.

Lemma view_tok_set r t n w : rview <$> w_reqs (tok_set t n w) !! r = rview <$> w_reqs w !! r.
Proof. destruct t; cbn; try done. by apply fmap_alter_same. Qed.
Lemma bufs_tok_set b t n w : bufs_of (tok_set t n w) b = bufs_of w b.
Proof. unfold bufs_of. destruct t; cbn; try done. by apply fmap_alter_same. Qed.
Lemma handles_tok_set h t n w : handles_of (tok_set t n w) h = handles_of w h.
Proof. unfold handles_of. destruct t; cbn; try done. by apply fmap_alter_same. Qed.
Lemma destroy_tok_set r t n w : destroy_cbs (tok_set t n w) r = destroy_cbs w r.
Proof. unfold destroy_cbs. destruct t; cbn; try done. by apply fmap_alter_same. Qed.
Lemma armed_tok_set t n w : w_armed (tok_set t n w) = w_armed w.
Proof. by destruct t. Qed.
Lemma vars_tok_set t n w : w_vars (tok_set t n w) = w_vars w.
Proof. by destruct t. Qed.

Section seen.
Context `{E : Env}.
Variable r : loc.
Implicit Types (L : list event) (R : token → option Z) (B : rest).

Lemma seen_here i w : w_reqs w !! r = Some i →
  seen r (rview i) (w_log w) (refs_of w) (rest_of w) w.
Proof. intros Hi. split; try done. by rewrite Hi. Qed.

Lemma seen_tok_set v L R B t n m w : seen r v L R B w → R t = Some m →
  seen r v L (count t n R) B (tok_set t n w).
Proof.
  intros [Hv HL HR HB HH HA HD HV] Ht. split.
  - by rewrite view_tok_set.
  - by rewrite log_tok_set.
  - intros u. rewrite refs_of_tok_set. unfold count. case_decide; [|done].
    by rewrite HR, Ht.
  - intros b. by rewrite bufs_tok_set.
  - intros h. by rewrite handles_tok_set.
  - by rewrite armed_tok_set.
  - intros r'. by rewrite destroy_tok_set.
  - by rewrite vars_tok_set.
Qed.

Lemma wp_seen_ref v L R B t n (Q : unit → world → Prop) w :
  seen r v L R B w → R t = Some n → n ≠ 0 →
  (∀ w', seen r v L (count t (n + 1) R) B w' → Q tt w') → wp (tok_ref t) Q w.
Proof.
  intros S Ht H0 HQ. eapply wp_tok_ref_eq; [by rewrite (sn_refs _ _ _ _ _ _ S)|done|].
  eapply HQ, seen_tok_set; done.
Qed.

Lemma wp_seen_unref v L R B t n (Q : unit → world → Prop) w :
  seen r v L R B w → R t = Some n → n ≠ 1 →
  (∀ w', seen r v L (count t (n - 1) R) B w' → Q tt w') → wp (tok_unref t) Q w.
Proof.
  intros S Ht H1 HQ. eapply wp_tok_unref_eq; [by rewrite (sn_refs _ _ _ _ _ _ S)|done|].
  eapply HQ, seen_tok_set; done.
Qed.

(** A change of the request that leaves its counter alone. *)
Lemma wp_seen_mod v v' L R B f (Q : unit → world → Prop) w :
  seen r v L R B w → (∀ i, rview i = v → rview (f i) = v') → (∀ i, r_refs (f i) = r_refs i) →
  (∀ i, r_destroy_cb (f i) = r_destroy_cb i) →
  (∀ w', seen r v' L R B w' → Q tt w') → wp (mod_r r f) Q w.
Proof.
  intros [Hv HL HR HB HH HA HD HV] Hf Hr Hd HQ. apply fmap_Some in Hv as (i & Hi & ->).
  eapply wp_mod_r; [done|]. apply HQ. split; try done.
  - cbn. rewrite lookup_insert_eq. cbn. by rewrite (Hf i).
  - intros t. rewrite <-HR. destruct t; cbn; try done. eapply fmap_insert_same; [done|by rewrite Hr].
  - intros r'. rewrite <-HD. unfold destroy_cbs. cbn. eapply fmap_insert_same; [done|by rewrite Hd].
Qed.

Lemma wp_seen_status e c p L R B z (Q : Z → world → Prop) w :
  seen r (e, c, p) L R B w → (∀ w', seen r (z, c, p) L R B w' → Q z w') →
  wp (request_uv_status r z) Q w.
Proof.
  intros S HQ. unfold request_uv_status. apply wp_bind.
  apply (wp_seen_mod _ (z, c, p) L R B _ _ _ S); [|done|done|].
  - intros i Hi. unfold rview in *. by simplify_eq/=.
  - intros w' S'. by apply wp_ret, HQ.
Qed.

Lemma wp_seen_props e c p p' L R B (Q : unit → world → Prop) w :
  seen r (e, c, p) L R B w → (∀ w', seen r (e, c, p') L R B w' → Q tt w') →
  wp (mod_r r (set_r_props p')) Q w.
Proof.
  intros S HQ. apply (wp_seen_mod _ (e, c, p') L R B _ _ _ S); [|done|done|exact HQ].
  intros i Hi. unfold rview in *. by simplify_eq/=.
Qed.

Lemma wp_seen_get v L R B (Q : rinst → world → Prop) w :
  seen r v L R B w → (∀ i, rview i = v → w_reqs w !! r = Some i → Q i w) → wp (get_r r) Q w.
Proof.
  intros S HQ. pose proof (sn_view _ _ _ _ _ _ S) as Hv. apply fmap_Some in Hv as (i & Hi & ->). eapply wp_get_r; [done|].
  by apply HQ.
Qed.

Lemma wp_seen_get_b v L R B b l (Q : binst → world → Prop) w :
  seen r v L R B w → rs_bufs B b = Some l → (∀ i, b_bufs i = l → Q i w) → wp (get_b b) Q w.
Proof.
  intros S Hl HQ. rewrite <-(sn_bufs _ _ _ _ _ _ S) in Hl. apply fmap_Some in Hl as (i & Hi & ->).
  eapply wp_get_b; [done|]. by apply HQ.
Qed.

Lemma seen_same v L L' R B w w' : seen r v L R B w → wsame w w' → w_log w' = L' →
  r_uv_error <$> w_reqs w' !! r = r_uv_error <$> w_reqs w !! r → seen r v L' R B w'.
Proof.
  intros [Hv HL HR HB HH HA HD HV] [[S _] Hr] HL' He. split; [|done|..].
  - rewrite <-Hv. pose proof (sim_r _ _ S r) as H.
    destruct H as [i j (Hp & Hc & _)|]; [|done]. unfold rview. cbn in He |- *. congruence.
  - intros t. by rewrite <-HR.
  - intros b. unfold bufs_of. by rewrite <-HB, <-(sim_bbufs _ _ b S).
  - intros h. rewrite <-HH. by apply handles_same.
  - by rewrite <-HA, (sim_armed _ _ S).
  - intros r'. rewrite <-HD. unfold destroy_cbs. pose proof (sim_r _ _ S r') as H.
    destruct H as [i j (_ & _ & Hd)|]; [|done]. cbn. congruence.
  - by rewrite <-HV, (sim_vars _ _ S).
Qed.

Lemma error_uv_writes l w :
  r_uv_error <$> w_reqs (apply_uv_writes l w) !! r = r_uv_error <$> w_reqs w !! r.
Proof.
  unfold apply_uv_writes. revert w. induction l as [|o l IH]; intros w; cbn; [done|].
  rewrite IH. destruct o; cbn; try done. by apply fmap_alter_same.
Qed.

Lemma wp_seen_call v L R B f args (Q : Z → world → Prop) w :
  seen r v L R B w →
  (∀ w', seen r v (uv_called f args L) R B w' → Q (uv_ret L f args) w') →
  wp (uv_call f args) Q w.
Proof.
  intros S HQ. pose proof (sn_log _ _ _ _ _ _ S) as HL. unfold uv_call, uv_call_out.
  apply wp_bind. unfold wp at 1. rewrite HL. apply wp_ret, HQ.
  eapply seen_same; [done| | |].
  - etrans; [apply wsame_uv_writes|apply wsame_log].
  - cbn. by rewrite log_uv_writes, HL.
  - apply error_uv_writes.
Qed.

Lemma wp_seen_submit v L R B f args c o toks (Q : Z → world → Prop) w :
  seen r v L R B w →
  let z := uv_ret L f args in
  let a := {| arm_cb := c; arm_obj := o; arm_toks := toks |} in
  (∀ w', seen r v (uv_called f args L) R (rs_submit z a B) w' → Q z w') →
  wp (uv_submit f args c o toks) Q w.
Proof.
  intros S z a HQ. unfold uv_submit. apply wp_bind. eapply wp_seen_call; [done|]. intros w1 S1.
  apply wp_bind. fold z. unfold rs_submit in HQ. destruct (0 <=? z); cbn [when];
    [apply wp_modify|]; apply wp_ret, HQ; [|done].
  destruct S1 as [? ? ? ? ? HA ? ?]. split; try done. cbn. by rewrite HA.
Qed.
End seen.

(** ** The references of a request *)

(** The counters [R] and the references [ts] on top. *)
Definition counted (ts : list token) (R : token → option Z) : token → option Z :=
  λ t, (λ n, n + Z.of_nat (cnt t ts)) <$> R t.

Definition has_refs (R : token → option Z) (t : token) : Prop := ∃ n, R t = Some n ∧ 0 < n.

Lemma Inv_has_refs F X w t : Inv F X w → live F w t → has_refs (refs_of w) t.
Proof.
  intros I L. destruct (Inv_live _ _ _ _ I L) as (n & Hn & H0). exists n. split; [done|].
  pose proof (inv_count _ _ _ I t) as Hc. rewrite Hn in Hc. lia.
Qed.

(** What is left when [run] of the request [r] has called [f]: the call is the only one since
    the trace [L], its answer [z] is the status of the request unless the request is pending. A
    request with a callback is pending when libuv accepts it: then libuv has to make the callback
    [c] once, and of the counters those of [toks] have gone up, by one for each reference. The
    properties of the handles are as [g] says of an accepted and of a refused request, those of
    the request (and its callback) are as [P] says. *)
Definition request_made `{E : Env} (f : uvfn) (args : list uvarg) (r : loc) (c : cbname)
    (callback : bool) (toks : list token) (g : bool → loc → iface * props → iface * props)
    (P : rprops * cb → Prop) (L : list event) (z : Z) (w w' : world) : Prop :=
  let accepted := 0 <=? z in
  let pending := callback && accepted in
  w_log w' = E_uv f args z :: L ∧ z = uv_ret L f args ∧
  r_uv_error <$> w_reqs w' !! r = Some (if pending then 0 else z) ∧
  (∀ t, refs_of w' t = counted (if pending then toks else []) (refs_of w) t) ∧
  w_armed w' = (if pending then [{| arm_cb := c; arm_obj := r; arm_toks := toks |}] else []) ++
    w_armed w ∧
  (∀ h, handles_of w' h = (if callback then g accepted h else λ x, x) <$> handles_of w h) ∧
  (∀ b, bufs_of w' b = bufs_of w b) ∧ (∀ r', destroy_cbs w' r' = destroy_cbs w r') ∧
  w_vars w' = w_vars w ∧
  ∃ p, (λ i, (r_props i, r_request_cb i)) <$> w_reqs w' !! r = Some p ∧ P p.

(** Most requests do not touch the properties of a handle. *)
Definition untouched (accepted : bool) (h : loc) (x : iface * props) : iface * props := x.

Section counted.
Context `{E : Env}.
Variable r : loc.
Implicit Types (L : list event) (R : token → option Z) (B : rest).

Lemma seen_ext v L R R' B w : (∀ t, R t = R' t) → seen r v L R B w → seen r v L R' B w.
Proof. intros HR [Hv HL Hr HB]. split; try done. intros t. by rewrite Hr. Qed.

Lemma seen_counted v L R B w : seen r v L R B w → seen r v L (counted [] R) B w.
Proof. apply seen_ext. intros t. unfold counted. destruct (R t); cbn; [|done]. f_equal. lia. Qed.

Lemma wp_counted_ref v L R B ts t (Q : unit → world → Prop) w :
  seen r v L (counted ts R) B w → has_refs R t →
  (∀ w', seen r v L (counted (t :: ts) R) B w' → Q tt w') → wp (tok_ref t) Q w.
Proof.
  intros S (n & Hn & H0) HQ. eapply wp_seen_ref; [done|unfold counted; by rewrite Hn|lia|].
  intros w' S'. apply HQ. eapply seen_ext; [|exact S']. intros u. unfold count, counted.
  cbn. case_decide as Hd; [subst; rewrite Hn; cbn; rewrite decide_True by done; f_equal; lia|].
  rewrite decide_False by congruence. done.
Qed.

Lemma wp_counted_unref v L R B ts ts' t (Q : unit → world → Prop) w :
  seen r v L (counted ts R) B w → has_refs R t → (∀ u, cnt u ts = cnt u (t :: ts')) →
  (∀ w', seen r v L (counted ts' R) B w' → Q tt w') → wp (tok_unref t) Q w.
Proof.
  intros S (n & Hn & H0) Hc HQ. eapply wp_seen_unref; [done|unfold counted; by rewrite Hn| |].
  { rewrite Hc. cbn. rewrite decide_True by done. lia. }
  intros w' S'. apply HQ. eapply seen_ext; [|exact S']. intros u. unfold count, counted.
  case_decide as Hd; [subst; rewrite Hn; cbn; rewrite Hc; cbn; rewrite decide_True by done; f_equal; lia|].
  rewrite Hc. cbn. by rewrite decide_False by congruence.
Qed.

Lemma wp_chunks v L R B w0 b (Q : binst → world → Prop) w :
  seen r v L R B w → rs_bufs B = bufs_of w0 → has_refs (refs_of w0) (TB b) →
  (∀ i, b_bufs i = default [] (bufs_of w0 b) → Q i w) → wp (get_b b) Q w.
Proof.
  intros S HB (n & Hn & _) HQ. cbn in Hn. apply fmap_Some in Hn as (j & Hj & _).
  assert (bufs_of w0 b = Some (b_bufs j)) as Hb by (unfold bufs_of; by rewrite Hj).
  eapply wp_seen_get_b; [exact S|by rewrite HB|]. intros i Hi. apply HQ. by rewrite Hb.
Qed.

(** [B] is what [w] shows but for the properties of the handles. *)
Definition based (g : loc → iface * props → iface * props) (w : world) (B : rest) : Prop :=
  rs_bufs B = bufs_of w ∧ rs_destroy B = destroy_cbs w ∧ rs_vars B = w_vars w ∧
  ∀ h, rs_handles B h = g h <$> handles_of w h.

Lemma request_made_intro f args cb' callback toks g (P : rprops * cb → Prop) L z e c p B w w' :
  let accepted := 0 <=? z in
  let pending := callback && accepted in
  z = uv_ret L f args → e = (if pending then 0 else z) → P (p, c) →
  seen r (e, c, p) (uv_called f args L) (counted (if pending then toks else []) (refs_of w)) B w' →
  rs_armed B = (if pending then [{| arm_cb := cb'; arm_obj := r; arm_toks := toks |}] else []) ++
    w_armed w →
  based (λ h, if callback then g accepted h else λ x, x) w B →
  request_made f args r cb' callback toks g P L z w w'.
Proof.
  intros accepted pending -> -> HP [Hv HL HR HB HH HA HD HV] Ha (Hb & Hd & Hv' & Hg). unfold request_made. fold accepted pending.
  apply fmap_Some in Hv as (i & -> & Hi). unfold rview in Hi. injection Hi as -> -> ->.
  split_and!; [done..|by rewrite HA|intros h; by rewrite HH|intros b; by rewrite HB, Hb
    |intros r'; by rewrite HD, Hd|by rewrite HV|by eexists].
Qed.
End counted.

(** [ts] without the first [t]. *)
Ltac list_minus ts t :=
  lazymatch ts with
  | t :: ?l => l
  | ?x :: ?l => let l' := list_minus l t in constr:(x :: l')
  end.

(** One access of a request that is being followed. *)
Ltac wp_seen_step :=
  lazymatch goal with
  | S : seen ?r ?v ?L ?R ?B ?w |- wp ?m ?Q ?w =>
      lazymatch m with
      | handle_ref ?h => change (wp (tok_ref (TH h)) Q w); wp_seen_step
      | request_ref ?h => change (wp (tok_ref (TR h)) Q w); wp_seen_step
      | buffer_ref ?h => change (wp (tok_ref (TB h)) Q w); wp_seen_step
      | handle_unref ?h => change (wp (tok_unref (TH h)) Q w); wp_seen_step
      | request_unref ?h => change (wp (tok_unref (TR h)) Q w); wp_seen_step
      | buffer_unref ?h => change (wp (tok_unref (TB h)) Q w); wp_seen_step
      | tok_ref ?t =>
          eapply (wp_counted_ref r v L _ B _ t Q w); [exact S|by eauto|]; clear S; intros ? S
      | tok_unref ?t =>
          lazymatch R with
          | counted ?ts ?R0 =>
              let ts' := list_minus ts t in
              eapply (wp_counted_unref r v L R0 B ts ts' t Q w);
                [exact S|by eauto|by (intros ?; cbn; repeat case_decide; lia)|]; clear S; intros ? S
          end
      | request_uv_status r ?z =>
          eapply (wp_seen_status r _ _ _ L R B z Q w); [exact S|]; clear S; intros ? S
      | get_b ?b =>
          eapply (wp_chunks r v L R B _ b Q w); [exact S|reflexivity|eassumption|];
          let i := fresh "i" in let H := fresh in intros i H; cbv beta; rewrite !H; clear H i
      | mod_r r (set_r_props ?p) =>
          eapply (wp_seen_props r _ _ _ p L R B Q w); [exact S|]; clear S; intros ? S
      | uv_call ?f ?args =>
          eapply (wp_seen_call r v L R B f args Q w); [exact S|]; clear S; intros ? S
      | uv_submit ?f ?args ?c ?o ?toks =>
          eapply (wp_seen_submit r v L R B f args c o toks Q w); [exact S|]; clear S; intros ? S
      end
  end.
Ltac wp_seen := repeat (first [wp_seen_step | wp_struct]; cbn beta).
