(* ===== verification/Io.v ===== *)
(** * I/O endpoints: the class [io], the reading state machine, and [file]

    src/include/uvcc/handle-io.hpp and the class [file] of handle-fs.hpp. Streams
    and UDP sockets read through libuv; a file runs a chain of read requests of its own. *)

From Stdlib Require Import ZArith Lia.
From stdpp Require Import base gmap list strings option.
From S2P Require Import Prelude World Objects Ledger Wp Refs Release Rules HRules.
From S2P Require Import Buffer HandleMisc Handle.

Local Open Scope Z_scope.

(** ** The properties *)

Definition io_props_init : io_props :=
  {| io_rdlock := false; io_rdcmd := RD_UNKNOWN; io_rdsize := 0; io_rdoffset := 0;
     io_on_alloc := None; io_on_read := None |}.
Definition file_props_init : file_props :=
  {| fi_open_cb := None; fi_rd_base := 0; fi_rd_len := 0; fi_rd_data := None; fi_wqs := 0;
     fi_closing := 0 |}.

Definition set_rdlock (b : bool) (p : io_props) : io_props :=
  {| io_rdlock := b; io_rdcmd := io_rdcmd p; io_rdsize := io_rdsize p;
     io_rdoffset := io_rdoffset p; io_on_alloc := io_on_alloc p; io_on_read := io_on_read p |}.
Definition set_rdcmd (c : rdcmd) (p : io_props) : io_props :=
  {| io_rdlock := io_rdlock p; io_rdcmd := c; io_rdsize := io_rdsize p;
     io_rdoffset := io_rdoffset p; io_on_alloc := io_on_alloc p; io_on_read := io_on_read p |}.
Definition set_rdsize (z : Z) (p : io_props) : io_props :=
  {| io_rdlock := io_rdlock p; io_rdcmd := io_rdcmd p; io_rdsize := z;
     io_rdoffset := io_rdoffset p; io_on_alloc := io_on_alloc p; io_on_read := io_on_read p |}.
Definition set_rdoffset (z : Z) (p : io_props) : io_props :=
  {| io_rdlock := io_rdlock p; io_rdcmd := io_rdcmd p; io_rdsize := io_rdsize p;
     io_rdoffset := z; io_on_alloc := io_on_alloc p; io_on_read := io_on_read p |}.
Definition set_io_cbs (a r : cb) (p : io_props) : io_props :=
  {| io_rdlock := io_rdlock p; io_rdcmd := io_rdcmd p; io_rdsize := io_rdsize p;
     io_rdoffset := io_rdoffset p; io_on_alloc := a; io_on_read := r |}.

(** [io::properties] as the base of the properties of the endpoints. *)
Definition io_of (p : props) : option io_props :=
  match p with P_stream io _ | P_udp io | P_file io _ => Some io | _ => None end.
Definition map_io (f : io_props → io_props) (p : props) : props :=
  match p with
  | P_stream io c => P_stream (f io) c
  | P_udp io => P_udp (f io)
  | P_file io fp => P_file (f io) fp
  | _ => p
  end.

Definition map_file (f : file_props → file_props) (p : props) : props :=
  match p with P_file io fp => P_file io (f fp) | _ => p end.
Definition set_rd_data (d : option loc) (p : file_props) : file_props :=
  {| fi_open_cb := fi_open_cb p; fi_rd_base := fi_rd_base p; fi_rd_len := fi_rd_len p;
     fi_rd_data := d; fi_wqs := fi_wqs p; fi_closing := fi_closing p |}.
Definition set_rd_buf (c : Z * Z) (p : file_props) : file_props :=
  {| fi_open_cb := fi_open_cb p; fi_rd_base := c.1; fi_rd_len := c.2;
     fi_rd_data := fi_rd_data p; fi_wqs := fi_wqs p; fi_closing := fi_closing p |}.
Definition set_open_cb (c : cb) (p : file_props) : file_props :=
  {| fi_open_cb := c; fi_rd_base := fi_rd_base p; fi_rd_len := fi_rd_len p;
     fi_rd_data := fi_rd_data p; fi_wqs := fi_wqs p; fi_closing := fi_closing p |}.
Definition set_closing (z : Z) (p : file_props) : file_props :=
  {| fi_open_cb := fi_open_cb p; fi_rd_base := fi_rd_base p; fi_rd_len := fi_rd_len p;
     fi_rd_data := fi_rd_data p; fi_wqs := fi_wqs p; fi_closing := z |}.
Definition set_wqs (z : Z) (p : file_props) : file_props :=
  {| fi_open_cb := fi_open_cb p; fi_rd_base := fi_rd_base p; fi_rd_len := fi_rd_len p;
     fi_rd_data := fi_rd_data p; fi_wqs := z; fi_closing := fi_closing p |}.

Definition set_uh_file (lo : option loc) (fd : Z) (path : option string) (u : uv_handle_t) :
    uv_handle_t :=
  {| uh_type := uh_type u; uh_loop := lo; uh_data := uh_data u;
     uh_queue_size := uh_queue_size u; uh_ipc := uh_ipc u; uh_signum := uh_signum u;
     uh_pid := uh_pid u; uh_result := fd; uh_path := path |}.

Section io.
Context `{E : Env}.

Definition get_io (h : loc) : M io_props :=
  p ← properties h;
  match io_of p with Some io => mret io | None => undefined UB_type end.
Definition mod_io (h : loc) (f : io_props → io_props) : M unit := mod_props h (map_io f).
Definition get_file (h : loc) : M file_props :=
  p ← properties h;
  match p with P_file _ f => mret f | _ => undefined UB_type end.
Definition mod_file (h : loc) (f : file_props → file_props) : M unit :=
  mod_props h (map_file f).

(** [std::lock_guard< spinlock > lk(properties.rdstate_switch)] around [m]: the code runs in
    one thread, where a lock that is held is never released by another one. *)
Definition rd_lock (h : loc) : M unit :=
  p ← get_io h;
  if io_rdlock p then hang else mod_io h (set_rdlock true).
Definition rd_unlock (h : loc) : M unit := mod_io h (set_rdlock false).
Definition with_rdlock (h : loc) (m : M Z) : M Z := rd_lock h;; finally m (rd_unlock h).

(** [alloc_cb(io(_uv_handle), _size)]; the result is the buffer the function returns. *)
Definition call_alloc_cb (h : loc) (c : cb) (size : Z) : M (option loc) :=
  handle_ref h;;
  match c with
  | Some f =>
      log_event (E_cb f [A_ptr (PH (Some h)); A_int size]);;
      r ← user_alloc f (Some h) size;
      drop_ptr (PH (fst r));;
      mret (snd r)
  | None => on_throw (throw X_bad_function_call) (handle_unref h)
  end.

(** [io::io_alloc_cb]: the [uv_buf_t] written to [*_uv_buf]. *)
Definition io_alloc_cb (h : loc) (suggested_size : Z) : M (Z * Z) :=
  p ← get_io h;
  bo ← call_alloc_cb h (io_on_alloc p)
    (if io_rdsize p =? 0 then suggested_size else io_rdsize p);
  finally (b ← deref bo; buffer_ref b;; buffer_at b 0) (drop_ptr (PB bo)).

(** [read_cb(..)] with the arguments of [on_read_t]. *)
Definition call_read_cb (h : loc) (c : cb) (nread : Z) (b : loc) (offset info : Z) : M unit :=
  handle_ref h;;
  match c with
  | Some f =>
      invoke f [A_ptr (PH (Some h)); A_int nread; A_ptr (PB (Some b)); A_int offset; A_int info]
  | None => on_throw (throw X_bad_function_call) (buffer_unref b;; handle_unref h)
  end.

(** [io::io_read_cb]; [_uv_buf] is the pair of its base and length. *)
Definition io_read_cb (h : loc) (nread : Z) (uv_buf : Z * Z) (info : Z) : M unit :=
  mod_h h (set_h_error (int32 nread));;
  p ← get_io h;
  b ← (if uv_buf.1 =? 0 then buffer_create [] else mret (uv_buf_from uv_buf.1));
  call_read_cb h (io_on_read p) nread b (io_rdoffset p) info;;
  when (0 <? nread) (mod_io h (λ p, set_rdoffset (io_rdoffset p + nread) p)).

(** ** [file] *)

(** [file::file_read]; the request structure is embedded in the handle instance. *)
Definition file_read (h : loc) : M Z :=
  c ← io_alloc_cb h 65536;
  mod_file h (set_rd_buf c);;
  i ← get_h h;
  p ← get_io h;
  uv_submit f_fs_read
    [V_loop (uh_loop (h_uv i)); V_handle (Some h); V_int (int32 (uh_result (h_uv i)));
     V_bufs [c] 1; V_int (io_rdoffset p); V_cb cb_file_read]
    cb_file_read h [TB (uv_buf_from c.1)].

(** ** The virtual functions [read_start], [read_stop], [write_queue_size] *)

Definition uv_interface_read_start (h : loc) (offset : Z) : M Z :=
  noexcept (
    i ← get_h h;
    match h_iface i with
    | If_stream =>
        when (0 <=? offset) (mod_io h (set_rdoffset offset));;
        uv_call f_read_start [V_handle (Some h); V_self_cb; V_self_cb]
    | If_udp =>
        when (0 <=? offset) (mod_io h (set_rdoffset offset));;
        uv_call f_udp_recv_start [V_handle (Some h); V_self_cb; V_self_cb]
    | If_file =>
        mod_file h (set_rd_data (Some h));;
        off ← (if offset <? 0 then
                 uv_call f_lseek64 [V_int (int32 (uh_result (h_uv i))); V_int 0; V_int 1]
               else mret offset);
        mod_io h (set_rdoffset off);;
        file_read h
    | If_handle => undefined UB_null
    end).

Definition uv_interface_read_stop (h : loc) : M Z :=
  noexcept (
    i ← get_h h;
    match h_iface i with
    | If_stream => uv_call f_read_stop [V_handle (Some h)]
    | If_udp => uv_call f_udp_recv_stop [V_handle (Some h)]
    | If_file => mret 0
    | If_handle => undefined UB_null
    end).

Definition write_queue_size (h : loc) : M Z :=
  i ← get_h h;
  match h_iface i, h_props i with
  | If_stream, _ | If_udp, _ => mret (uh_queue_size (h_uv i))
  | If_file, P_file _ f => mret (fi_wqs f)
  | _, _ => undefined UB_null
  end.
End io.

(** ** The reading commands of [io] *)

Module io.
Section io.
Context `{E : Env}.

Definition read_start (h : loc) (size offset : Z) : M Z :=
  with_rdlock h (
    p ← get_io h;
    match io_on_alloc p, io_on_read p with
    | Some _, Some _ =>
        mod_io h (set_rdcmd RD_START);;
        handle_ref h;;
        match io_rdcmd p with
        | RD_UNKNOWN | RD_STOP | RD_PAUSE => mret tt
        | RD_START | RD_RESUME =>
            z ← uv_interface_read_stop h;
            _ ← handle_uv_status h z;
            handle_unref h
        end;;
        mod_io h (set_rdsize size);;
        _ ← handle_uv_status h 0;
        uv_ret ← uv_interface_read_start h offset;
        when (uv_ret <? 0) (
          _ ← handle_uv_status h uv_ret;
          mod_io h (set_rdcmd RD_UNKNOWN);;
          handle_unref h);;
        mret uv_ret
    | _, _ => handle_uv_status h UV_EINVAL
    end).

Definition read_start_cbs (h : loc) (alloc_cb read_cb : cb) (size offset : Z) : M Z :=
  mod_io h (set_io_cbs alloc_cb read_cb);; read_start h size offset.

Definition read_stop (h : loc) : M Z :=
  with_rdlock h (
    p ← get_io h;
    mod_io h (set_rdcmd RD_STOP);;
    z ← uv_interface_read_stop h;
    uv_ret ← handle_uv_status h z;
    match io_rdcmd p with
    | RD_UNKNOWN | RD_STOP | RD_PAUSE => mret tt
    | RD_START | RD_RESUME => handle_unref h
    end;;
    mret uv_ret).

Definition read_pause (h : loc) (trigger_condition : bool) : M Z :=
  if negb trigger_condition then mret 1
  else with_rdlock h (
    p ← get_io h;
    match io_rdcmd p with
    | RD_UNKNOWN | RD_STOP | RD_PAUSE => mret 2
    | RD_START | RD_RESUME =>
        mod_io h (set_rdcmd RD_PAUSE);;
        z ← uv_interface_read_stop h;
        ret ← handle_uv_status h z;
        handle_unref h;;
        mret ret
    end).

Definition read_resume (h : loc) (trigger_condition : bool) : M Z :=
  if negb trigger_condition then mret 1
  else with_rdlock h (
    p ← get_io h;
    match io_rdcmd p with
    | RD_UNKNOWN | RD_STOP | RD_START | RD_RESUME => mret 2
    | RD_PAUSE =>
        mod_io h (set_rdcmd RD_RESUME);;
        handle_ref h;;
        _ ← handle_uv_status h 0;
        p ← get_io h;
        ret ← uv_interface_read_start h (io_rdoffset p);
        when (ret <? 0) (
          _ ← handle_uv_status h ret;
          mod_io h (set_rdcmd RD_UNKNOWN);;
          handle_unref h);;
        mret ret
    end).
End io.
End io.

Module file.
Section file.
Context `{E : Env}.

(** The constructor from loop, descriptor and path, and [file(loop&, uv_file)] *)
Definition new_fd (l : loc) (fd : Z) (path : option string) : M loc :=
  h ← handle_create If_file (P_file io_props_init file_props_init);
  mod_h h (set_h_uv (set_uh_file (Some l) fd path));;
  when (fd <? 0) (mod_file h (set_closing 1));;
  book_loop h;;
  mret h.

(** [file(loop&, path, flags, mode)] *)
Definition open_sync (l : loc) (path : option string) (flags mode : Z) : M loc :=
  h ← handle_create If_file (P_file io_props_init file_props_init);
  z ← uv_call f_fs_open
    [V_loop (Some l); V_handle (Some h); V_str path; V_int flags; V_int mode; V_nullcb];
  uv_ret ← handle_uv_status h z;
  when (0 <=? uv_ret) (book_loop h);;
  mret h.

(** [file(loop&, path, flags, mode, open_cb)] *)
Definition open_async (l : loc) (path : option string) (flags mode : Z) (c : cb) : M loc :=
  match c with
  | None => open_sync l path flags mode
  | Some _ =>
      h ← handle_create If_file (P_file io_props_init file_props_init);
      handle_ref h;;
      mod_file h (set_open_cb c);;
      _ ← handle_uv_status h 0;
      uv_ret ← uv_submit f_fs_open
        [V_loop (Some l); V_handle (Some h); V_str path; V_int flags; V_int mode; V_cb cb_file_open]
        cb_file_open h [TH h];
      (if 0 <=? uv_ret then book_loop h
       else _ ← handle_uv_status h uv_ret; handle_unref h);;
      mret h
  end.

Definition open_cb (h : loc) : M unit :=
  i ← get_h h;
  mod_h h (set_h_error (int32 (uh_result (h_uv i))));;
  finally (p ← get_file h; call_handle_cb h (fi_open_cb p) []) (handle_unref h).

(** [file::read_cb]; [result] is the [result] field of the request embedded in [h]. *)
Definition read_cb (h : loc) (result : Z) : M unit :=
  f ← get_file h;
  d ← deref (fi_rd_data f);
  let nread := if result =? 0 then UV_EOF else result in
  when (nread <? 0) (
    f ← get_file d;
    buffer_unref (uv_buf_from (fi_rd_base f));;
    mod_file d (set_rd_buf (0, 0)));;
  f ← get_file d;
  io_read_cb d nread (fi_rd_base f, fi_rd_len f) 0;;
  _ ← uv_call f_fs_req_cleanup [V_handle (Some h)];
  p ← get_io d;
  match io_rdcmd p with
  | RD_UNKNOWN | RD_STOP | RD_PAUSE => mret tt
  | RD_START | RD_RESUME =>
      mod_h d (set_h_error 0);;
      uv_ret ← file_read d;
      when (uv_ret <? 0) (mod_h d (set_h_error uv_ret))
  end.

Definition fd (h : loc) : M Z := i ← get_h h; mret (int32 (uh_result (h_uv i))).
Definition path (h : loc) : M (option string) := i ← get_h h; mret (uh_path (h_uv i)).
End file.
End file.
