(* ===== verification/ReadCmd.v ===== *)
(** * The reading commands of an I/O endpoint

    The documentation of [io::read_resume()] gives a table of what each command
    does after each previous command. The table is the specification [command_table];
    the commands of the class are shown to implement it on streams and UDP sockets. *)

From Stdlib Require Import ZArith Lia.
From stdpp Require Import base gmap list strings option.
From S2P Require Import Prelude World Objects Ledger Wp Refs Release Rules HRules.
From S2P Require Import Buffer HandleMisc Handle Trace Io.

Local Open Scope Z_scope.

(** ** The documented table *)

Inductive read_cmd := C_start (size offset : Z) | C_resume | C_stop | C_pause.

(** The entries of the table; [X_none] is its dash. *)
Inductive read_effect := X_none | X_start | X_restart | X_stop | X_resume | X_pause.

(** The columns: no command, [read_start()], [read_resume(true)], [read_stop()],
    [read_pause(true)]. *)
Definition command_table (c : read_cmd) (executed_previously : rdcmd) : read_effect :=
  match c, executed_previously with
  | C_start _ _, (RD_UNKNOWN | RD_STOP | RD_PAUSE) => X_start
  | C_start _ _, (RD_START | RD_RESUME) => X_restart
  | C_resume, RD_PAUSE => X_resume
  | C_resume, _ => X_none
  | C_stop, _ => X_stop
  | C_pause, (RD_START | RD_RESUME) => X_pause
  | C_pause, _ => X_none
  end.

(** "resume" is functionally equivalent to "start", "pause" to "stop", and "restart" to
    "stop" followed by "start". *)
Inductive uv_step := U_start | U_stop.
Definition effect_steps (x : read_effect) : list uv_step :=
  match x with
  | X_none => []
  | X_start | X_resume => [U_start]
  | X_stop | X_pause => [U_stop]
  | X_restart => [U_stop; U_start]
  end.

(** The command remembered; a start that fails leaves no command. *)
Definition effect_state (x : read_effect) (st : rdcmd) (ret : Z) : rdcmd :=
  match x with
  | X_none => st
  | X_start | X_restart => if ret <? 0 then RD_UNKNOWN else RD_START
  | X_resume => if ret <? 0 then RD_UNKNOWN else RD_RESUME
  | X_stop => RD_STOP
  | X_pause => RD_PAUSE
  end.

(** ** Two classes of endpoints that read through libuv *)

Definition uv_read_fn (f : iface) (s : uv_step) : uvfn :=
  match f, s with
  | If_udp, U_start => f_udp_recv_start
  | If_udp, U_stop => f_udp_recv_stop
  | _, U_start => f_read_start
  | _, U_stop => f_read_stop
  end.
Definition uv_read_args (h : loc) (s : uv_step) : list uvarg :=
  match s with
  | U_start => [V_handle (Some h); V_self_cb; V_self_cb]
  | U_stop => [V_handle (Some h)]
  end.

Definition reads_by_uv (f : iface) (p : props) : Prop :=
  match f, p with
  | If_stream, P_stream _ _ | If_udp, P_udp _ => True
  | _, _ => False
  end.

Section commands.
Context `{E : Env}.

Definition run_cmd (h : loc) (c : read_cmd) : M Z :=
  match c with
  | C_start size offset => io.read_start h size offset
  | C_resume => io.read_resume h true
  | C_stop => io.read_stop h
  | C_pause => io.read_pause h true
  end.

(** The trace and the result of the libuv calls of a command. *)
Fixpoint trace_steps (f : iface) (h : loc) (ss : list uv_step) (r : Z) (L : list event) :
    Z * list event :=
  match ss with
  | [] => (r, L)
  | s :: ss' =>
      let fn := uv_read_fn f s in
      let args := uv_read_args h s in
      trace_steps f h ss' (uv_ret L fn args) (uv_called fn args L)
  end.

(** What a command does, according to the table: the calls of libuv, the value
    returned (2 for a command that does not apply), the state, the handle's own reference
    and the lock; nothing else in [w0] changes. *)
Definition implements_table (w0 : world) (f : iface) (h : loc) (c : read_cmd) (io : io_props)
    (refs : Z) (L : list event) (z : Z) (w' : world) : Prop :=
  let st := io_rdcmd io in
  let x := command_table c st in
  let r := trace_steps f h (effect_steps x) 2 L in
  z = r.1 ∧ w_log w' = r.2 ∧ aside h w0 w' ∧
  ∃ i' io', w_handles w' !! h = Some i' ∧ io_of (h_props i') = Some io' ∧
    io_rdcmd io' = effect_state x st r.1 ∧ io_rdlock io' = false ∧
    io_on_alloc io' = io_on_alloc io ∧ io_on_read io' = io_on_read io ∧
    h_iface i' = f ∧ reads_by_uv f (h_props i') ∧
    h_refs i' - (if reading (io_rdcmd io') then 1 else 0) =
      refs - (if reading st then 1 else 0).

Lemma implements_intro w0 f h c io refs L z w' i' io' L' :
  at_h w0 h i' L' w' → io_of (h_props i') = Some io' →
  let st := io_rdcmd io in
  let x := command_table c st in
  let r := trace_steps f h (effect_steps x) 2 L in
  z = r.1 → L' = r.2 → io_rdcmd io' = effect_state x st r.1 → io_rdlock io' = false →
  io_on_alloc io' = io_on_alloc io → io_on_read io' = io_on_read io →
  h_iface i' = f → reads_by_uv f (h_props i') →
  h_refs i' - (if reading (io_rdcmd io') then 1 else 0) = refs - (if reading st then 1 else 0) →
  implements_table w0 f h c io refs L z w'.
Proof.
  intros ((u & Hu) & HL & HA) Hio st x r Hz HL' Hc Hk Ha Hf Hi Hp Hr. split; [done|].
  split; [by rewrite HL|]. split; [exact HA|].
  eexists _, io'. split; [exact Hu|done].
Qed.

(** ** Rules for the steps of the commands *)

Lemma wp_at_get_io w0 h i io L (Q : io_props → world → Prop) w :
  at_h w0 h i L w → io_of (h_props i) = Some io → Q io w → wp (get_io h) Q w.
Proof.
  intros Ha Hio HQ. unfold get_io. wp_struct. eapply wp_at_properties; [done|].
  rewrite Hio. by apply wp_ret.
Qed.

Lemma wp_with_rdlock w0 h i io L m (Q : Z → world → Prop) w :
  at_h w0 h i L w → io_of (h_props i) = Some io → io_rdlock io = false →
  (∀ w', at_h w0 h (set_h_props (map_io (set_rdlock true) (h_props i)) i) L w' →
    wp m (λ z w'', ∃ i' L', at_h w0 h i' L' w'' ∧ ∀ w3,
      at_h w0 h (set_h_props (map_io (set_rdlock false) (h_props i')) i') L' w3 → Q z w3) w') →
  wp (with_rdlock h m) Q w.
Proof.
  intros Ha Hio Hk HQ. unfold with_rdlock, rd_lock, rd_unlock. do 2 wp_struct.
  eapply wp_at_get_io; [done..|]. rewrite Hk. eapply wp_at_mod_props; [done|].
  intros w1 Ha1. wp_struct. eapply wp_mono; [by apply HQ|]. cbn.
  intros z w2 (i' & L' & Ha2 & HQ2). by eapply wp_at_mod_props.
Qed.

Lemma wp_at_read_stop w0 h i L (Q : Z → world → Prop) w :
  at_h w0 h i L w → reads_by_uv (h_iface i) (h_props i) →
  (∀ w', let fn := uv_read_fn (h_iface i) U_stop in let args := uv_read_args h U_stop in
    at_h w0 h i (uv_called fn args L) w' → Q (uv_ret L fn args) w') →
  wp (uv_interface_read_stop h) Q w.
Proof.
  intros Ha Hr HQ. unfold uv_interface_read_stop. do 2 wp_struct.
  eapply wp_at_get; [done|]. intros u. cbn.
  destruct (h_iface i), (h_props i); try done; by eapply wp_at_uv_call.
Qed.

Definition offset_set (offset : Z) (io : io_props) : io_props :=
  set_rdoffset (if 0 <=? offset then offset else io_rdoffset io) io.

Lemma wp_at_read_start w0 h i offset L (Q : Z → world → Prop) w :
  at_h w0 h i L w → reads_by_uv (h_iface i) (h_props i) →
  (∀ w', let fn := uv_read_fn (h_iface i) U_start in let args := uv_read_args h U_start in
    at_h w0 h (set_h_props (map_io (offset_set offset) (h_props i)) i) (uv_called fn args L) w' →
    Q (uv_ret L fn args) w') →
  wp (uv_interface_read_start h offset) Q w.
Proof.
  intros Ha Hr HQ. unfold uv_interface_read_start. do 2 wp_struct.
  eapply wp_at_get; [done|]. intros u. cbn. unfold offset_set in HQ.
  destruct i as [er rf dc p fc lo ui]; cbn in *.
  destruct fc, p as [|[]|[]| | | | | | |]; try done; wp_struct; cbn in HQ;
    destruct (0 <=? offset); cbn [when];
    (first [wp_struct; eapply wp_at_uv_call; [exact Ha|exact HQ]
           |eapply wp_at_mod_props; [exact Ha|]; intros w1 Ha1; eapply wp_at_uv_call;
            [exact Ha1|exact HQ]]).
Qed.
End commands.

Ltac wp_read_step :=
  let a := fresh "Ha" in
  lazymatch goal with
  | Ha : at_h ?w0 ?h ?i ?L ?w |- wp ?m ?Q ?w =>
      lazymatch m with
      | get_io h => eapply (wp_at_get_io w0 h i _ L Q w Ha); [reflexivity|]
      | mod_io h ?f =>
          apply (wp_at_mod_props w0 h i L (map_io f) Q w Ha); clear Ha; intros ? a
      | with_rdlock h ?m =>
          eapply (wp_with_rdlock w0 h i _ L m Q w Ha); [reflexivity|done|];
          clear Ha; intros ? a
      | uv_interface_read_stop h =>
          apply (wp_at_read_stop w0 h i L Q w Ha); [exact Logic.I|];
          clear Ha; intros ?; cbv zeta; intros a
      | uv_interface_read_start h ?o =>
          apply (wp_at_read_start w0 h i o L Q w Ha); [exact Logic.I|];
          clear Ha; intros ?; cbv zeta; intros a
      end
  end; try (cbn in a).
Ltac wp_read := repeat (first [wp_struct | wp_read_step | wp_at_step
  | progress cbn [io_on_alloc io_on_read io_rdcmd io_rdoffset io_rdlock set_rdlock set_rdcmd
      set_rdsize set_rdoffset]]; cbn beta iota).

Section implementation.
Context `{E : Env}.

Lemma wp_read_table h c i io w :
  w_handles w !! h = Some i → reads_by_uv (h_iface i) (h_props i) →
  io_of (h_props i) = Some io → io_rdlock io = false →
  is_Some (io_on_alloc io) → is_Some (io_on_read io) →
  (if reading (io_rdcmd io) then 2 else 1) ≤ h_refs i →
  wp (run_cmd h c) (implements_table w (h_iface i) h c io (h_refs i) (w_log w)) w.
Proof.
  intros Hi Hr Hio Hk [fa Ha] [fr Hf] Hn.
  pose proof (at_h_here _ _ _ Hi) as At. revert At. generalize (w_log w).
  intros L At. clear Hi.
  destruct i as [er rf dc p fc lo ui], io as [lk st sz off al rd]; cbn in *. subst lk al rd.
  destruct fc, p as [|io cc|io| | | | | | |]; try done; injection Hio as ->.
  all: destruct c; cbn [run_cmd].
  all: unfold io.read_start, io.read_resume, io.read_stop, io.read_pause; cbn [negb].
  all: destruct st; cbn in Hn; wp_read.
  all: try (match goal with |- wp (when (?z <? 0) _) _ _ => destruct (z <? 0) eqn:Hz end;
    cbn [when]; wp_read).
  all: eexists _, _; split; [eassumption|]; intros w3 Ha3.
  all: eapply implements_intro; [exact Ha3|reflexivity|reflexivity|reflexivity|..].
  all: try reflexivity; try exact Logic.I.
  all: try (cbn in Hz); cbn; rewrite ?Hz; cbn; try reflexivity; try lia.
Qed.

(** C6: The reading commands of a stream or datagram endpoint (read_start, read_resume,
    read_stop, read_pause) implement the table of commands documented in handle-io.hpp:
    for every command and every state of the endpoint the calls of libuv, the value
    returned, the state left behind, the callbacks it keeps, the reference of the
    endpoint on itself and the released lock are those of the table, errors of libuv
    included; no other object and no pending callback has changed. *)
Theorem read_commands_ok h c i io w :
  w_handles w !! h = Some i → reads_by_uv (h_iface i) (h_props i) →
  io_of (h_props i) = Some io → io_rdlock io = false →
  is_Some (io_on_alloc io) → is_Some (io_on_read io) →
  (if reading (io_rdcmd io) then 2 else 1) ≤ h_refs i →
  wp (run_cmd h c) (implements_table w (h_iface i) h c io (h_refs i) (w_log w)) w.
Proof. apply wp_read_table. Qed.

(** The lock is not recursive: a command on a handle whose lock is held, as it is while
    the buffer allocation function of a file runs inside [read_start()], never ends. *)
Theorem read_locked h c i io w :
  w_handles w !! h = Some i → io_of (h_props i) = Some io → io_rdlock io = true →
  run_cmd h c w = Hang.
Proof.
  intros Hi Hio Hk. assert (∀ m, with_rdlock h m w = Hang) as H.
  { intros m. unfold with_rdlock, rd_lock, get_io, properties, get_h, mbind, M_bind. cbn.
    rewrite Hi. cbn. rewrite Hio. cbn. by rewrite Hk. }
  destruct c; apply H.
Qed.

(** Without both callbacks [read_start()] is refused and nothing happens but the status. *)
Theorem read_start_refused h size offset i io w :
  w_handles w !! h = Some i → io_of (h_props i) = Some io → io_rdlock io = false →
  io_on_alloc io = None ∨ io_on_read io = None →
  wp (io.read_start h size offset) (λ z w', z = UV_EINVAL ∧ w_log w' = w_log w ∧ aside h w w' ∧
    ∃ i', w_handles w' !! h = Some i' ∧ h_uv_error i' = UV_EINVAL ∧ h_refs i' = h_refs i ∧
      h_props i' = h_props i) w.
Proof.
  intros Hi Hio Hk Hc. pose proof (at_h_here _ _ _ Hi) as At. revert At.
  generalize (w_log w). intros L At. unfold io.read_start.
  eapply wp_with_rdlock; [done..|]. intros w1 At1. wp_struct.
  eapply wp_at_get_io; [done| |].
  { cbn. instantiate (1 := set_rdlock true io). destruct (h_props i); by simplify_eq/=. }
  cbn. assert (∀ w3, at_h w h (set_h_error UV_EINVAL i) L w3 →
    UV_EINVAL = UV_EINVAL ∧ w_log w3 = L ∧ aside h w w3 ∧ ∃ i', w_handles w3 !! h = Some i' ∧
      h_uv_error i' = UV_EINVAL ∧ h_refs i' = h_refs i ∧ h_props i' = h_props i) as Hend.
  { intros w3 ((u & Hu) & HL & HA). split_and!; [done..|]. by eexists. }
  assert (map_io (set_rdlock false) (map_io (set_rdlock true) (h_props i)) = h_props i) as Hp.
  { destruct (h_props i) as [|[]|[]|[]| | | | | |]; cbn in *; by simplify_eq/=. }
  destruct (io_on_alloc io), (io_on_read io); try (by destruct Hc);
    (eapply wp_at_status; [done|]; intros w2 At2; eexists _, _; split; [done|]; intros w3 At3;
     apply Hend; cbn in At3; rewrite Hp in At3; by destruct i).
Qed.
End implementation.

(** ** The ledger across the commands *)

Section ledger.
Context `{E : Env} `{EO : !EnvOk}.

Variables (h : loc) (ifc : iface) (F : list token) (X : list dying).
Implicit Types (io : io_props) (w : world) (n : nat).

(** The endpoint [h], owned by somebody, with the properties [io], while the running code
    has [n] references to it of its own. *)
Record io_at n io w : Prop := {
  ia_inv : Inv (replicate n (TH h) ++ F) X w;
  ia_held : held F w (TH h);
  ia_props : ∃ p, h_props <$> w_handles w !! h = Some p ∧ io_of p = Some io ∧
    reads_by_uv ifc p;
  ia_iface : h_iface <$> w_handles w !! h = Some ifc
}.

Lemma io_at_live n io w : io_at n io w → live (replicate n (TH h) ++ F) w (TH h).
Proof.
  intros [_ L _ _]. apply held_live in L. eapply live_cnt; [done|]. intros u.
  rewrite cnt_app. lia.
Qed.

Lemma io_at_same n io w w' : wsame w w' → io_at n io w → io_at n io w'.
Proof.
  intros S [I L P Hf]. pose proof (proj1 (wsame_sim _ _ S)) as Sm. split.
  - by rewrite <-S.
  - eapply held_vars; [by apply sim_vars|done].
  - by rewrite <-(sim_hprops _ _ h Sm).
  - by rewrite <-(sim_hiface _ _ h Sm).
Qed.

Lemma io_at_wrote n io p f w w' :
  Inv (replicate n (TH h) ++ F) X w' → wrote h (map_io f p) w w' →
  held F w (TH h) → io_of p = Some io → reads_by_uv ifc p →
  h_iface <$> w_handles w !! h = Some ifc → io_at n (f io) w'.
Proof.
  intros I W L Hio Hr Hf. split; [done| | |].
  - eapply held_vars; [symmetry; by apply (wr_vars _ _ _ _ W)|done].
  - eexists. split; [by apply (wr_props _ _ _ _ W)|].
    destruct ifc, p; try done; by simplify_eq/=.
  - by rewrite (wr_iface _ _ _ _ W).
Qed.

Lemma map_io_side ifc' p io f : reads_by_uv ifc' p → io_of p = Some io →
  props_self p = reading (io_rdcmd io) ∧
  props_self (map_io f p) = reading (io_rdcmd (f io)) ∧
  same_endpoints p (map_io f p) ∧ ∀ h w, reads_kept h p (map_io f p) w.
Proof.
  intros Hr Hio. destruct ifc', p; try done; simplify_eq/=; split_and!; try done;
    intros; by apply reads_kept_not_file.
Qed.

Lemma wp_ia_get_io n io (Q : io_props → world → Prop) w :
  io_at n io w → Q io w → wp (get_io h) Q w.
Proof.
  intros [_ _ (p & HP & Hio & _) _] HQ. unfold get_io. wp_struct.
  eapply wp_properties; [done|]. rewrite Hio. by apply wp_ret.
Qed.

Lemma wp_ia_status n io z (Q : Z → world → Prop) w :
  io_at n io w → (∀ w', io_at n io w' → Q z w') → wp (handle_uv_status h z) Q w.
Proof.
  intros A HQ. eapply wp_h_status; [apply A|by eapply io_at_live|]. intros w' S.
  eapply HQ, io_at_same; done.
Qed.

Lemma wp_ia_mod n io f (Q : unit → world → Prop) w :
  io_at n io w → reading (io_rdcmd (f io)) = reading (io_rdcmd io) →
  (∀ w', io_at n (f io) w' → Q tt w') → wp (mod_io h f) Q w.
Proof.
  intros A Hs HQ. pose proof A as [I L (p & HP & Hio & Hr) Hf].
  destruct (map_io_side _ _ _ f Hr Hio) as (H1 & H2 & H3 & H4).
  eapply wp_mod_props; [done|by eapply io_at_live|done|congruence|done..|].
  intros w' I' W _. eapply HQ, io_at_wrote; done.
Qed.

Lemma wp_ia_release n io f (Q : unit → world → Prop) w :
  io_at n io w → reading (io_rdcmd io) = true → reading (io_rdcmd (f io)) = false →
  (∀ w', io_at (S n) (f io) w' → Q tt w') → wp (mod_io h f) Q w.
Proof.
  intros A Hs Hs' HQ. pose proof A as [I L (p & HP & Hio & Hr) Hf].
  destruct (map_io_side _ _ _ f Hr Hio) as (H1 & H2 & H3 & H4).
  eapply wp_props_release; [done|by eapply io_at_live|done|congruence..|done|done|].
  intros w' I' W _. eapply HQ, io_at_wrote; done.
Qed.

Lemma wp_ia_acquire n io f {A} (k : M A) (Q : A → world → Prop) w :
  io_at n io w → reading (io_rdcmd io) = false → reading (io_rdcmd (f io)) = true →
  (∀ w', io_at n (f io) w' → wp k Q w') → wp (mod_io h f;; handle_ref h;; k) Q w.
Proof.
  intros A0 Hs Hs' HQ. pose proof A0 as [I L (p & HP & Hio & Hr) Hf].
  destruct (map_io_side _ _ _ f Hr Hio) as (H1 & H2 & H3 & H4). wp_two.
  eapply wp_props_ref; [done|by eapply io_at_live|done|congruence..|done|done|].
  intros w' I' W _. eapply HQ, io_at_wrote; done.
Qed.

Lemma wp_ia_ref n io (Q : unit → world → Prop) w :
  io_at n io w → (∀ w', io_at (S n) io w' → Q tt w') → wp (handle_ref h) Q w.
Proof.
  intros A HQ. apply (wp_tok_ref (TH h) (replicate n (TH h) ++ F) X); [apply A|by eapply io_at_live|].
  intros w' S I'. destruct A as [_ L P Hf]. apply HQ. split; [done| | |].
  - eapply held_vars; [by apply (sim_vars _ _ (proj1 S))|done].
  - by rewrite <-(sim_hprops _ _ h (proj1 S)).
  - by rewrite <-(sim_hiface _ _ h (proj1 S)).
Qed.

Lemma wp_ia_unref n io (Q : unit → world → Prop) w :
  io_at (S n) io w → (∀ w', io_at n io w' → Q tt w') → wp (handle_unref h) Q w.
Proof.
  intros A HQ. pose proof A as [I L P Hf].
  apply (wp_tok_unref_live (TH h) (replicate n (TH h) ++ F) X); [done| |].
  { eapply live_cnt; [by apply held_live|]. intros u. rewrite cnt_app. lia. }
  intros w' S I'. apply HQ. split; [done| | |].
  - eapply held_vars; [by apply (sim_vars _ _ (proj1 S))|done].
  - by rewrite <-(sim_hprops _ _ h (proj1 S)).
  - by rewrite <-(sim_hiface _ _ h (proj1 S)).
Qed.

Lemma wp_ia_get n io (Q : hinst → world → Prop) w :
  io_at n io w → (∀ i, h_iface i = ifc → Q i w) → wp (get_h h) Q w.
Proof.
  intros [_ _ _ (i & Hi & ->)%fmap_Some] HQ. eapply wp_get_h; [done|by apply HQ].
Qed.

Lemma wp_ia_call n io f args (Q : Z → world → Prop) w :
  io_at n io w → (∀ z w', io_at n io w' → Q z w') → wp (uv_call f args) Q w.
Proof.
  intros A HQ. apply wp_uv_call. intros z w' S. eapply HQ, io_at_same; done.
Qed.
End ledger.

(** One step of a command along the ledger. *)
Ltac wp_ia_step :=
  lazymatch goal with
  | A : io_at ?h ?ifc ?F ?X ?n ?io ?w |- wp ?m ?Q ?w =>
      lazymatch m with
      | mbind _ (mod_io h ?f) =>
          lazymatch goal with
          | |- wp (mbind (λ _, mbind _ (handle_ref h)) _) _ _ =>
              first [apply (wp_ia_acquire h ifc F X n io f _ Q w A); [done..|]; clear A; intros ? A
                    |apply wp_bind]
          | _ => apply wp_bind
          end
      | get_io h => apply (wp_ia_get_io h ifc F X n io Q w A)
      | mod_io h ?f =>
          first [apply (wp_ia_mod h ifc F X n io f Q w A); [done|]
                |apply (wp_ia_release h ifc F X n io f Q w A); [done..|]]; clear A; intros ? A
      | handle_uv_status h ?z => apply (wp_ia_status h ifc F X n io z Q w A); clear A; intros ? A
      | handle_ref h => apply (wp_ia_ref h ifc F X n io Q w A); clear A; intros ? A
      | handle_unref h => apply (wp_ia_unref h ifc F X _ io Q w A); clear A; intros ? A
      | uv_call ?f ?args => apply (wp_ia_call h ifc F X n io f args Q w A); clear A; intros ? ? A
      | get_h h => apply (wp_ia_get h ifc F X n io Q w A); intros ? ?
      end
  end.
Ltac wp_ia := repeat (first [wp_ia_step | wp_struct]; cbn [io_on_alloc io_on_read io_rdcmd
  io_rdoffset io_rdlock set_rdlock set_rdcmd set_rdsize set_rdoffset]).

Section ledger_commands.
Context `{E : Env} `{EO : !EnvOk}.
Variables (h : loc) (ifc : iface) (F : list token) (X : list dying).

Lemma wp_ia_read_stop n io (Q : Z → world → Prop) w :
  ifc = If_stream ∨ ifc = If_udp →
  io_at h ifc F X n io w → (∀ z w', io_at h ifc F X n io w' → Q z w') →
  wp (uv_interface_read_stop h) Q w.
Proof.
  intros Hi A HQ. unfold uv_interface_read_stop. wp_ia. destruct Hi as [-> | ->];
    rewrite H; wp_ia; by apply HQ.
Qed.

Lemma wp_ia_read_start n io offset (Q : Z → world → Prop) w :
  ifc = If_stream ∨ ifc = If_udp →
  io_at h ifc F X n io w → (∀ z w' io', io_at h ifc F X n io' w' →
    io_rdcmd io' = io_rdcmd io → Q z w') →
  wp (uv_interface_read_start h offset) Q w.
Proof.
  intros Hi A HQ. unfold uv_interface_read_start. wp_ia.
  destruct Hi as [-> | ->]; rewrite H; wp_ia;
    (destruct (0 <=? offset); cbn [when]; wp_ia; by eapply HQ).
Qed.

(** The end of [read_start()] and [read_resume()]: when libuv refuses, the reference
    of the handle to itself is given back. *)
Lemma wp_ia_start_tail n io offset (Q : Z → world → Prop) w :
  ifc = If_stream ∨ ifc = If_udp → io_at h ifc F X n io w → reading (io_rdcmd io) = true →
  (∀ z w' io', io_at h ifc F X n io' w' → Q z w') →
  wp (uv_ret ← uv_interface_read_start h offset;
      when (uv_ret <? 0) (
        _ ← handle_uv_status h uv_ret;
        mod_io h (set_rdcmd RD_UNKNOWN);;
        handle_unref h);;
      mret uv_ret) Q w.
Proof.
  intros Hi A Hr HQ. wp_struct. eapply wp_ia_read_start; [done..|].
  intros z w1 io1 A1 Hc. rewrite <-Hc in Hr. destruct (z <? 0); cbn [when]; wp_ia; by eapply HQ.
Qed.

Lemma wp_read_commands c p io w :
  Inv F X w → held F w (TH h) → h_props <$> w_handles w !! h = Some p →
  h_iface <$> w_handles w !! h = Some ifc → reads_by_uv ifc p →
  io_of p = Some io → io_rdlock io = false →
  wp (run_cmd h c) (λ _ w', Inv F X w') w.
Proof.
  intros I L HP HF Hr Hio Hk.
  assert (ifc = If_stream ∨ ifc = If_udp) as Hi by (destruct ifc, p; try done; auto).
  assert (io_at h ifc F X 0 io w) as A by (split; eauto). clear I L HP HF Hr Hio p.
  assert (wp (run_cmd h c) (λ _ w', ∃ io', io_at h ifc F X 0 io' w') w) as HW; cycle 1.
  { eapply wp_mono; [exact HW|]. intros _ w' (io' & [I _ _ _]). exact I. }
  destruct io as [lk st sz ofs al rd]. cbn in Hk. subst lk.
  destruct c; cbn [run_cmd]; unfold io.read_start, io.read_resume, io.read_stop,
    io.read_pause, with_rdlock, rd_lock, rd_unlock; cbn [negb]; wp_ia;
    destruct st; try destruct al, rd; cbn beta iota; wp_ia; try by eexists.
  all: try (eapply wp_ia_read_stop; [done..|]; intros ? ? A1; wp_ia; try by eexists).
  all: apply (wp_bind_inv (uv_interface_read_start h _)); eapply wp_ia_start_tail; [done..|];
    intros ? ? ? ?; wp_ia; by eexists.
Qed.

(** C7: Every reading command keeps the reference ledger: the reference a reading
    endpoint has on itself is taken exactly when it starts and given back exactly when
    it stops, whatever libuv answers. *)
Theorem read_commands_ledger c p io w :
  Inv F X w → held F w (TH h) → h_props <$> w_handles w !! h = Some p →
  h_iface <$> w_handles w !! h = Some ifc → reads_by_uv ifc p →
  io_of p = Some io → io_rdlock io = false →
  wp (run_cmd h c) (λ _ w', Inv F X w') w.
Proof. apply wp_read_commands. Qed.
End ledger_commands.
