(* ===== verification/Threads.v ===== *)
(** * The reading commands in several threads

    handle-io.hpp promises that [read_start()], [read_stop()], [read_pause()] and
    [read_resume()] are thread-safe: each holds the spin lock [rdstate_switch] of the handle.
    Here the commands are sequences of accesses, and threads that share a handle execute them,
    copy their variables and drop them in any interleaving. *)

From Stdlib Require Import ZArith Lia.
From stdpp Require Import base gmap list strings option relations.
From S2P Require Import Prelude World Objects Ledger Wp Refs Release Rules HRules.
From S2P Require Import Buffer HandleMisc Handle Trace Io ReadCmd.

Local Open Scope Z_scope.

(** ** Code that can be interrupted *)

(** What is left of a function that returns an [int]: nothing, or an access and the rest. *)
Local Unset Elimination Schemes.
Inductive prog := Ret (z : Z) | Act (m : M prog).

Definition access {A} (m : M A) (k : A → prog) : prog := Act (a ← m; mret (k a)).

Local Set Elimination Schemes.

(** The function in one go. *)
Fixpoint run_alone (p : prog) : M Z :=
  match p with
  | Ret z => mret z
  | Act m => λ w,
      match m w with
      | Ok p' w' => run_alone p' w'
      | Exn e w' => Exn e w'
      | Undefined u => Undefined u
      | Terminated => Terminated
      | Hang => Hang
      end
  end.

Section prog.
Context `{E : Env}.

(** [uv_interface()->read_start(uv_handle, _offset)]; [file] goes through its own chain of
    requests and is one access here. *)
Definition iface_read_start (h : loc) (offset : Z) (k : Z → prog) : prog :=
  access (get_h h) (λ i,
    let call f := access (uv_call f [V_handle (Some h); V_self_cb; V_self_cb]) k in
    let start f :=
      if 0 <=? offset then access (mod_io h (set_rdoffset offset)) (λ _, call f) else call f in
    match h_iface i with
    | If_stream => start f_read_start
    | If_udp => start f_udp_recv_start
    | If_file | If_handle => access (uv_interface_read_start h offset) k
    end).

Definition iface_read_stop (h : loc) (k : Z → prog) : prog :=
  access (get_h h) (λ i,
    match h_iface i with
    | If_stream => access (uv_call f_read_stop [V_handle (Some h)]) k
    | If_udp => access (uv_call f_udp_recv_stop [V_handle (Some h)]) k
    | If_file | If_handle => access (uv_interface_read_stop h) k
    end).

(** After a start: when libuv has refused, the reference is given back. *)
Definition started (h : loc) (uv_ret : Z) : prog :=
  if uv_ret <? 0 then
    access (handle_uv_status h uv_ret) (λ _,
    access (mod_io h (set_rdcmd RD_UNKNOWN)) (λ _,
    access (handle_unref h) (λ _, Ret uv_ret)))
  else Ret uv_ret.

(** The four commands between [lock()] and [unlock()]. *)
Definition read_start_prog (h : loc) (size offset : Z) : prog :=
  access (get_io h) (λ p,
  match io_on_alloc p, io_on_read p with
  | Some _, Some _ =>
      let start :=
        access (mod_io h (set_rdsize size)) (λ _,
        access (handle_uv_status h 0) (λ _,
        iface_read_start h offset (started h))) in
      access (mod_io h (set_rdcmd RD_START)) (λ _,
      access (handle_ref h) (λ _,
      match io_rdcmd p with
      | RD_UNKNOWN | RD_STOP | RD_PAUSE => start
      | RD_START | RD_RESUME =>
          iface_read_stop h (λ z,
          access (handle_uv_status h z) (λ _,
          access (handle_unref h) (λ _, start)))
      end))
  | _, _ => access (handle_uv_status h UV_EINVAL) Ret
  end).

Definition read_stop_prog (h : loc) : prog :=
  access (get_io h) (λ p,
  access (mod_io h (set_rdcmd RD_STOP)) (λ _,
  iface_read_stop h (λ z,
  access (handle_uv_status h z) (λ uv_ret,
  match io_rdcmd p with
  | RD_UNKNOWN | RD_STOP | RD_PAUSE => Ret uv_ret
  | RD_START | RD_RESUME => access (handle_unref h) (λ _, Ret uv_ret)
  end)))).

Definition read_pause_prog (h : loc) : prog :=
  access (get_io h) (λ p,
  match io_rdcmd p with
  | RD_UNKNOWN | RD_STOP | RD_PAUSE => Ret 2
  | RD_START | RD_RESUME =>
      access (mod_io h (set_rdcmd RD_PAUSE)) (λ _,
      iface_read_stop h (λ z,
      access (handle_uv_status h z) (λ ret,
      access (handle_unref h) (λ _, Ret ret))))
  end).

Definition read_resume_prog (h : loc) : prog :=
  access (get_io h) (λ p,
  match io_rdcmd p with
  | RD_UNKNOWN | RD_STOP | RD_START | RD_RESUME => Ret 2
  | RD_PAUSE =>
      access (mod_io h (set_rdcmd RD_RESUME)) (λ _,
      access (handle_ref h) (λ _,
      access (handle_uv_status h 0) (λ _,
      access (get_io h) (λ p,
      iface_read_start h (io_rdoffset p) (started h)))))
  end).

Definition cmd_prog (h : loc) (c : read_cmd) : prog :=
  match c with
  | C_start size offset => read_start_prog h size offset
  | C_resume => read_resume_prog h
  | C_stop => read_stop_prog h
  | C_pause => read_pause_prog h
  end.
End prog.

(** ** Threads *)

(** A thread is outside of the commands, waits for the lock, or is inside a command. *)
Inductive tpc := Outside | Waiting (c : read_cmd) | Inside (c : read_cmd) (p : prog).

(** [th_refs]: the variables of the thread that refer to the handle. *)
Record thread := { th_refs : nat; th_pc : tpc }.

(** The threads, and the commands that have been executed with the values they returned, in
    the order in which they released the lock. *)
Record tstate := { ts_threads : gmap nat thread; ts_hist : list (read_cmd * Z) }.

Definition put (i : nat) (n : nat) (pc : tpc) (ts : tstate) : tstate :=
  {| ts_threads := <[i := {| th_refs := n; th_pc := pc |}]> (ts_threads ts);
     ts_hist := ts_hist ts |}.
Definition returned (c : read_cmd) (z : Z) (ts : tstate) : tstate :=
  {| ts_threads := ts_threads ts; ts_hist := ts_hist ts ++ [(c, z)] |}.

(** What a thread does next: call a command; go on with the one it has called; copy a variable,
    drop one, or give one to another thread. *)
Inductive choice := T_call (c : read_cmd) | T_go | T_copy | T_drop | T_give (j : nat).

Section threads.
Context `{E : Env}.

(** [while (flag.test_and_set(_o));] is one access per round. *)
Definition try_lock (h : loc) (locked waiting : tstate) : M tstate :=
  p ← get_io h;
  if io_rdlock p then mret waiting else mod_io h (set_rdlock true);; mret locked.

(** The access with which thread [i] follows its choice, if it may make this one: only a
    thread that has a variable uses the handle. *)
Definition move (h : loc) (i : nat) (a : choice) (ts : tstate) : option (M tstate) :=
  match ts_threads ts !! i with
  | None => None
  | Some t =>
      match a, th_pc t, th_refs t with
      | T_call c, Outside, S n => Some (mret (put i (S n) (Waiting c) ts))
      | T_go, Waiting c, n => Some (try_lock h (put i n (Inside c (cmd_prog h c)) ts) ts)
      | T_go, Inside c (Act m), n => Some (p ← m; mret (put i n (Inside c p) ts))
      | T_go, Inside c (Ret z), n => Some (rd_unlock h;; mret (returned c z (put i n Outside ts)))
      | T_copy, Outside, S n => Some (handle_ref h;; mret (put i (S (S n)) Outside ts))
      | T_drop, Outside, S n => Some (handle_unref h;; mret (put i n Outside ts))
      | T_give j, Outside, S n =>
          match ts_threads ts !! j with
          | Some u =>
              if decide (i = j) then None
              else Some (mret (put j (S (th_refs u)) (th_pc u) (put i n Outside ts)))
          | None => None
          end
      | _, _, _ => None
      end
  end.

Inductive tstep (h : loc) : tstate * world → tstate * world → Prop :=
| tstep_move i a ts w m ts' w' :
    move h i a ts = Some m → m w = Ok ts' w' → tstep h (ts, w) (ts', w').

(** The accesses of a schedule, one after another. *)
Fixpoint schedule (h : loc) (l : list (nat * choice)) (ts : tstate) : M tstate :=
  match l with
  | [] => mret ts
  | (i, a) :: l' =>
      match move h i a ts with
      | Some m => ts' ← m; schedule h l' ts'
      | None => schedule h l' ts
      end
  end.
End threads.

Definition all_refs (ts : tstate) : nat := msum (λ _ t, th_refs t) (ts_threads ts).

(** ** One thread alone *)

Section alone.
Context `{E : Env}.

(** [p], run in one go, is [m]. *)
Definition does (p : prog) (m : M Z) : Prop := ∀ w, run_alone p w = m w.

Lemma does_ret z : does (Ret z) (mret z).
Proof. done. Qed.
Lemma does_access {A} (m : M A) k (k' : A → M Z) :
  (∀ a, does (k a) (k' a)) → does (access m k) (m ≫= k').
Proof.
  intros H w. cbn. unfold mbind, M_bind. destruct (m w); [|done..]. apply H.
Qed.
Lemma does_last (m : M Z) : does (access m Ret) m.
Proof. intros w. cbn. unfold mbind, M_bind. by destruct (m w). Qed.
Lemma does_assoc {A B} p (m : M A) (k : A → M B) (k' : B → M Z) :
  does p (m ≫= λ a, k a ≫= k') → does p ((m ≫= k) ≫= k').
Proof. intros H w. rewrite H. unfold mbind, M_bind. by destruct (m w). Qed.
Lemma does_ret_bind {A} p (a : A) (k : A → M Z) : does p (k a) → does p (mret a ≫= k).
Proof. done. Qed.

Lemma does_iface_start h offset k (k' : Z → M Z) :
  (∀ z, does (k z) (k' z)) →
  does (iface_read_start h offset k) (uv_interface_read_start h offset ≫= k').
Proof.
  intros H w. unfold iface_read_start. cbn. unfold mbind, M_bind, get_h at 1.
  destruct (w_handles w !! h) as [i|] eqn:Hi; cbn.
  2: { unfold uv_interface_read_start, noexcept, mbind, M_bind, get_h. by rewrite Hi. }
  destruct (h_iface i) eqn:Hf; [ | | |].
  1, 4: cbn; unfold mbind, M_bind; destruct (uv_interface_read_start h offset w); try done; apply H.
  all: unfold uv_interface_read_start, noexcept, mbind, M_bind, mod_io, mod_props, mod_h, get_h, when.
  all: destruct (0 <=? offset); cbn; unfold mbind, M_bind, get_h; rewrite !Hi; cbn;
    rewrite Hf; cbn; unfold mbind, M_bind; rewrite ?Hi; cbn; apply H.
Qed.

Lemma does_iface_stop h k (k' : Z → M Z) :
  (∀ z, does (k z) (k' z)) →
  does (iface_read_stop h k) (uv_interface_read_stop h ≫= k').
Proof.
  intros H w. unfold iface_read_stop. cbn. unfold mbind, M_bind, get_h at 1.
  destruct (w_handles w !! h) as [i|] eqn:Hi; cbn.
  2: { unfold uv_interface_read_stop, noexcept, mbind, M_bind, get_h. by rewrite Hi. }
  destruct (h_iface i) eqn:Hf; [ | | |].
  1, 4: cbn; unfold mbind, M_bind; destruct (uv_interface_read_stop h w); try done; apply H.
  all: unfold uv_interface_read_stop, noexcept, mbind, M_bind, get_h; cbn;
    unfold mbind, M_bind, get_h; rewrite !Hi; cbn; rewrite Hf; cbn; apply H.
Qed.

Lemma does_started h z :
  does (started h z) (when (z <? 0) (
    _ ← handle_uv_status h z; mod_io h (set_rdcmd RD_UNKNOWN);; handle_unref h);; mret z).
Proof.
  unfold started. destruct (z <? 0); cbn [when]; [|by apply does_ret_bind].
  apply does_assoc, does_access. intros _. apply does_assoc, does_access. intros _.
  apply does_access. by intros _.
Qed.

Lemma with_rdlock_ext h (m m' : M Z) w :
  (∀ w, m w = m' w) → with_rdlock h m w = with_rdlock h m' w.
Proof.
  intros H. unfold with_rdlock, mbind, M_bind, finally. destruct (rd_lock h w); [|done..].
  by rewrite H.
Qed.
End alone.

Ltac does := repeat
  lazymatch goal with
  | |- does (match ?x with _ => _ end) _ => destruct x
  | |- does (started _ _) _ => apply does_started
  | |- does _ (mbind _ (mbind _ _)) => apply does_assoc
  | |- does _ (mbind _ (mret _)) => apply does_ret_bind
  | |- does (iface_read_start _ _ _) _ => apply does_iface_start; intros ?
  | |- does (iface_read_stop _ _) _ => apply does_iface_stop; intros ?
  | |- does (access _ Ret) _ => apply does_last
  | |- does (access _ _) _ => apply does_access; intros ?
  | |- does (Ret _) _ => apply does_ret
  end.

Section alone_theorem.
Context `{E : Env}.

(** A thread that is not interrupted between [lock()] and [unlock()] does what the command
    does. *)
Theorem commands_alone h c w : with_rdlock h (run_alone (cmd_prog h c)) w = run_cmd h c w.
Proof.
  destruct c; cbn [cmd_prog run_cmd]; unfold io.read_start, io.read_resume, io.read_stop,
    io.read_pause; cbn [negb]; apply with_rdlock_ext; clear w;
    match goal with |- ∀ w, run_alone ?p w = ?m w => change (does p m) end;
    unfold read_start_prog, read_resume_prog, read_stop_prog, read_pause_prog; does.
Qed.
End alone_theorem.

(** ** The commands one after another

    The values they return, the command remembered at the end and the calls of libuv, by the
    table of handle-io.hpp. *)

Section sequential.
Context `{E : Env}.

Definition cmd_spec (f : iface) (h : loc) (c : read_cmd) (s : rdcmd * list event) :
    Z * (rdcmd * list event) :=
  let x := command_table c s.1 in
  let r := trace_steps f h (effect_steps x) 2 s.2 in
  (r.1, (effect_state x s.1 r.1, r.2)).

Fixpoint seq_run (f : iface) (h : loc) (l : list read_cmd) (s : rdcmd * list event) :
    list Z * (rdcmd * list event) :=
  match l with
  | [] => ([], s)
  | c :: l' =>
      let r := cmd_spec f h c s in
      let r' := seq_run f h l' r.2 in (r.1 :: r'.1, r'.2)
  end.

Lemma seq_run_snoc f h l c s :
  let r := seq_run f h l s in
  seq_run f h (l ++ [c]) s = (r.1 ++ [(cmd_spec f h c r.2).1], (cmd_spec f h c r.2).2).
Proof.
  cbn. revert s. induction l as [|c' l IH]; intros s; cbn.
  - by destruct (cmd_spec f h c s).
  - rewrite IH. cbn. done.
Qed.
End sequential.

(** A schedule is a run. *)
Lemma schedule_run `{E : Env} h l ts w ts' w' :
  schedule h l ts w = Ok ts' w' → rtc (tstep h) (ts, w) (ts', w').
Proof.
  revert ts w. induction l as [|[i a] l IH]; intros ts w; cbn; [by intros [= -> ->]|].
  destruct (move h i a ts) as [m|] eqn:Hm; [|apply IH].
  unfold mbind, M_bind. destruct (m w) as [ts1 w1| | | |] eqn:Hw; [|done..].
  intros H. eapply rtc_l; [by eapply tstep_move|by apply IH].
Qed.
