(* ===== verification/ThreadsSafe.v ===== *)
(** * Threads that share an endpoint

    The invariant of the interleaved reading commands of Threads, and what follows from it: no
    access fails, the commands are atomic, and each can be brought to its end. *)

From Stdlib Require Import ZArith Lia.
From stdpp Require Import base gmap list strings option relations.
From S2P Require Import Prelude World Objects Ledger Wp Refs Release Rules HRules.
From S2P Require Import Buffer HandleMisc Handle Trace Calls Io ReadCmd Threads.

Local Open Scope Z_scope.

(** ** Counting around an interrupted command *)

Lemma tok_set_same t n w : refs_of w t = Some n → tok_set t n w = w.
Proof.
  intros H. destruct t as [x|x|x|x]; cbn in H; apply fmap_Some in H as (i & Hi & ->); destruct w; cbn in *;
    [unfold upd_handles|unfold upd_reqs|unfold upd_bufs|unfold upd_loops]; cbn; f_equal;
    apply alter_id; intros j Hj; rewrite Hi in Hj; injection Hj as <-; by destruct i.
Qed.

Lemma tok_set_twice t n m w : tok_set t n (tok_set t m w) = tok_set t n w.
Proof.
  destruct t as [x|x|x|x], w; cbn;
    [unfold upd_handles|unfold upd_reqs|unfold upd_bufs|unfold upd_loops]; cbn; f_equal;
    rewrite alter_alter_eq; by apply alter_ext; intros [].
Qed.

Lemma cnt_replicate_self k t : cnt t (replicate k t) = k.
Proof. induction k as [|k IH]; [done|]. cbn. rewrite decide_True by done. lia. Qed.
Lemma cnt_replicate_other k t u : t ≠ u → cnt u (replicate k t) = 0%nat.
Proof. intros H. induction k as [|k IH]; [done|]. cbn. by rewrite decide_False. Qed.

(** [m] reports nothing to libuv or the client. *)
Definition silent {A} (m : M A) : Prop := ∀ w a w', m w = Ok a w' → w_log w' = w_log w.

Lemma wp_silent {A} (m : M A) (Q : A → world → Prop) w :
  silent m → wp m Q w → wp m (λ a w', Q a w' ∧ w_log w' = w_log w) w.
Proof. intros H. unfold wp. destruct (m w) eqn:Hm; [|done..]. intros HQ. split; [done|eauto]. Qed.

Lemma silent_bind {A B} (m : M A) (k : A → M B) :
  silent m → (∀ a, silent (k a)) → silent (m ≫= k).
Proof.
  intros Hm Hk w b w'. unfold mbind, M_bind. destruct (m w) as [a w1| | | |] eqn:Hw; [|done..].
  intros H. etrans; [by eapply Hk|by eapply Hm].
Qed.
Lemma silent_ret {A} (a : A) : silent (mret a).
Proof. by intros w b w' [= <- <-]. Qed.
Lemma silent_get_h h : silent (get_h h).
Proof. intros w i w'. unfold get_h. destruct (w_handles w !! h); [|done]. by intros [= _ <-]. Qed.
Lemma silent_modify_handles f : silent (modify (upd_handles f)).
Proof. by intros w [] w' [= <-]. Qed.
Lemma silent_mod_h h f : silent (mod_h h f).
Proof. apply silent_bind; [apply silent_get_h|]. intros. apply silent_modify_handles. Qed.
Create HintDb silent.
#[export] Hint Resolve silent_bind silent_ret silent_get_h silent_mod_h : silent.

Section silent.
Context `{E : Env}.

Lemma silent_mod_io h f : silent (mod_io h f).
Proof. unfold mod_io, mod_props. auto with silent. Qed.
Lemma silent_status h z : silent (handle_uv_status h z).
Proof. unfold handle_uv_status. auto with silent. Qed.
Lemma silent_get_io h : silent (get_io h).
Proof.
  unfold get_io, properties. apply silent_bind; [auto with silent|]. intros p.
  by destruct (io_of p); [apply silent_ret|intros w a w'].
Qed.
Lemma silent_handle_ref h : silent (handle_ref h).
Proof.
  apply silent_bind; [apply silent_get_h|]. intros i. destruct (ref_count.inc (h_refs i)); [|done].
  apply silent_mod_h.
Qed.
End silent.
#[export] Hint Resolve silent_mod_io silent_status silent_get_io silent_handle_ref : silent.

Section inside.
Context `{E : Env} `{EO : !EnvOk}.
Variables (h : loc) (ifc : iface) (F : list token) (X : list dying).
Implicit Types (io : io_props) (w : world) (n k : nat) (L : list event).

(** The threads have [k] references, the command that is inside has [n] of its own. *)
Definition th_at k n io w : Prop := io_at h ifc (replicate k (TH h) ++ F) X n io w.

Lemma th_at_refs k n io w : th_at k n io w →
  ∃ r, refs_of w (TH h) = Some r ∧ r ≠ 0 ∧
    Z.of_nat k + Z.of_nat n + (if reading (io_rdcmd io) then 1 else 0) ≤ r.
Proof.
  intros [I L (p & HP & Hio & Hr) _]. pose proof (inv_count _ _ _ I (TH h)) as Hc.
  apply fmap_Some in HP as (i & Hi & ->). unfold refs_of in *. rewrite Hi in *. cbn in Hc |- *.
  exists (h_refs i). split; [done|]. destruct Hc as [Hc _].
  unfold total in Hc. rewrite !cnt_app, !cnt_replicate_self in Hc.
  destruct (map_io_side ifc _ io (λ x, x) Hr Hio) as (Hs & _).
  unfold held in L. rewrite cnt_app, cnt_replicate_self in L. unfold owned in Hc.
  assert (h_refs i ≠ 0) as H0 by lia. split; [done|].
  destruct (reading (io_rdcmd io)); [|lia].
  pose proof (msum_lookup_le (λ h' i, cnt (TH h) (hinst_toks h' i)) _ _ _ Hi) as H1. cbn in H1.
  assert (1 ≤ cnt (TH h) (hinst_toks h i))%nat; [|lia].
  unfold hinst_toks, props_toks. rewrite (proj2 (Z.eqb_neq _ _)), Hs by done.
  cbn. rewrite decide_True by done. lia.
Qed.

(** Other threads copy and drop their variables meanwhile. *)
Lemma th_at_count k k' n io w r : (0 < k')%nat → th_at k n io w → refs_of w (TH h) = Some r →
  let r' := r + Z.of_nat k' - Z.of_nat k in
  th_at k' n io (tok_set (TH h) r' w).
Proof.
  intros Hk A Hr r'. destruct (th_at_refs _ _ _ _ A) as (r0 & Hr0 & H0 & Hle).
  rewrite Hr in Hr0. injection Hr0 as <-. destruct A as [I L P Hf].
  assert (r' ≠ 0) as H0' by (unfold r'; destruct (reading (io_rdcmd io)); lia).
  destruct (Inv_tok_set (TH h) r r' (replicate n (TH h) ++ replicate k (TH h) ++ F) (replicate n (TH h) ++ replicate k' (TH h) ++ F) X w
    Hr H0 H0') as [S I']; [|done|].
  { intros u. rewrite !cnt_app. destruct (decide (TH h = u)) as [<-|Hne].
    - rewrite !cnt_replicate_self. unfold r'. lia.
    - rewrite !cnt_replicate_other by done. lia. }
  split; [done| | |].
  - unfold held. rewrite cnt_app, cnt_replicate_self. lia.
  - by rewrite <-(sim_hprops _ _ h (proj1 S)).
  - by rewrite <-(sim_hiface _ _ h (proj1 S)).
Qed.

(** The state while a command is inside. Between the access that makes the state of the
    handle a reading one and [ref()] the handle has [debt]: one reference less than owners. *)
Definition inside_at (debt : bool) k n io L w : Prop :=
  w_log w = L ∧ io_rdlock io = true ∧
  if debt then
    reading (io_rdcmd io) = true ∧
    ∃ r, refs_of w (TH h) = Some r ∧ th_at k n io (tok_set (TH h) (r + 1) w)
  else th_at k n io w.

Definition ready io : Prop := is_Some (io_on_alloc io) ∧ is_Some (io_on_read io).

(** What is left of a command does not fail and ends in [target], its value, the command
    remembered and the calls of libuv, however many references the other threads have when
    each access is made. *)
Fixpoint psafe (target : Z * (rdcmd * list event)) (debt : bool) n io L (p : prog) : Prop :=
  match p with
  | Ret z => debt = false ∧ n = 0%nat ∧ io_rdlock io = true ∧ ready io ∧
      (z, (io_rdcmd io, L)) = target
  | Act m => ∀ k w, (0 < k)%nat → inside_at debt k n io L w →
      match m w with
      | Ok p' w' => ∃ debt' n' io' L',
          inside_at debt' k n' io' L' w' ∧ psafe target debt' n' io' L' p'
      | _ => False
      end
  end.

Lemma psafe_access {A} target debt n io L (m : M A) (kk : A → prog) :
  (∀ k w, (0 < k)%nat → inside_at debt k n io L w →
    wp m (λ a w', ∃ debt' n' io' L',
      inside_at debt' k n' io' L' w' ∧ psafe target debt' n' io' L' (kk a)) w) →
  psafe target debt n io L (access m kk).
Proof.
  intros H k w Hk A0. specialize (H k w Hk A0). unfold wp, mbind, M_bind in *.
  destruct (m w); [exact H|done..].
Qed.

(** An access that changes the references of the command and the properties. *)
Lemma psafe_step {A} target n n' io io' L (m : M A) (kk : A → prog) :
  silent m → io_rdlock io' = io_rdlock io →
  (∀ k w, (0 < k)%nat → th_at k n io w →
    wp m (λ a w', th_at k n' io' w' ∧ psafe target false n' io' L (kk a)) w) →
  psafe target false n io L (access m kk).
Proof.
  intros Hs Hl H. apply psafe_access. intros k w Hk (<- & Hlk & A0).
  eapply wp_mono; [by apply wp_silent, H|]. cbn. intros a w' [[A1 HP] HL].
  exists false, n', io', (w_log w). split; [|done]. split; [done|]. split; [congruence|done].
Qed.

Lemma psafe_get_io target n io L kk :
  psafe target false n io L (kk io) → psafe target false n io L (access (get_io h) kk).
Proof.
  intros HP. eapply psafe_step; [auto with silent|done|]. intros k w Hk A.
  by eapply wp_ia_get_io.
Qed.

Lemma psafe_status target n io L z kk :
  psafe target false n io L (kk z) →
  psafe target false n io L (access (handle_uv_status h z) kk).
Proof.
  intros HP. eapply psafe_step; [auto with silent|done|]. intros k w Hk A.
  eapply wp_ia_status; [done|by intros].
Qed.

Lemma psafe_mod target n io L f kk :
  io_rdlock (f io) = io_rdlock io →
  reading (io_rdcmd (f io)) = reading (io_rdcmd io) →
  psafe target false n (f io) L (kk tt) → psafe target false n io L (access (mod_io h f) kk).
Proof.
  intros Hl Hf HP. eapply psafe_step; [auto with silent|done|]. intros k w Hk A.
  eapply wp_ia_mod; [done..|by intros].
Qed.

(** The reference of the reading handle on itself becomes the command's. *)
Lemma psafe_mod_release target n io L f kk :
  io_rdlock (f io) = io_rdlock io →
  reading (io_rdcmd io) = true → reading (io_rdcmd (f io)) = false →
  psafe target false (S n) (f io) L (kk tt) →
  psafe target false n io L (access (mod_io h f) kk).
Proof.
  intros Hl Hr Hf HP. eapply psafe_step; [auto with silent|done|]. intros k w Hk A.
  eapply wp_ia_release; [done..|by intros].
Qed.

Lemma psafe_ref target n io L kk :
  psafe target false (S n) io L (kk tt) → psafe target false n io L (access (handle_ref h) kk).
Proof.
  intros HP. eapply psafe_step; [auto with silent|done|]. intros k w Hk A.
  eapply wp_ia_ref; [done|by intros].
Qed.

Lemma handle_ref_ok w w' : handle_ref h w = Ok tt w' →
  ∃ r, refs_of w (TH h) = Some r ∧ w' = tok_set (TH h) (r + 1) w.
Proof.
  unfold handle_ref, mbind, M_bind, mod_h, get_h. destruct (w_handles w !! h) as [i|] eqn:Hi; [|done].
  unfold ref_count.inc. destruct (h_refs i =? 0); [done|]. cbn. unfold mbind, M_bind, get_h.
  rewrite Hi. intros [= <-]. exists (h_refs i). split; [done|].
  symmetry. apply (tok_set_handle _ _ _ _ Hi).
Qed.

(** A start: the state is a reading one before the handle has the reference on itself. *)
Lemma psafe_acquire target n io L f kk :
  io_rdlock (f io) = io_rdlock io →
  reading (io_rdcmd io) = false → reading (io_rdcmd (f io)) = true →
  psafe target true n (f io) L (kk tt) →
  psafe target false n io L (access (mod_io h f) kk).
Proof.
  intros Hl Hr Hf HP. apply psafe_access. intros k w Hk (<- & Hlk & A).
  assert (wp (mod_io h f;; handle_ref h;; mret tt) (λ _ w', th_at k n (f io) w') w) as H.
  { eapply wp_ia_acquire; [done..|]. intros w' A'. by apply wp_ret. }
  pose proof (silent_mod_io h f w) as Hs. unfold wp, mbind, M_bind in *.
  destruct (mod_io h f w) as [[] w1| | | |]; [|done..].
  destruct (handle_ref h w1) as [[] w2| | | |] eqn:Hw2; [|done..]. cbn in H.
  apply handle_ref_ok in Hw2 as (r & Hr1 & ->).
  exists true, n, (f io), (w_log w). split; [|done].
  split; [by eapply Hs|]. split; [congruence|eauto].
Qed.

Lemma wp_handle_ref_eq r (Q : unit → world → Prop) w :
  refs_of w (TH h) = Some r → r ≠ 0 → Q tt (tok_set (TH h) (r + 1) w) → wp (handle_ref h) Q w.
Proof. apply (wp_tok_ref_eq (TH h)). Qed.

Lemma th_at_debt k n io r w : (0 < k)%nat → reading (io_rdcmd io) = true →
  refs_of w (TH h) = Some r → th_at k n io (tok_set (TH h) (r + 1) w) →
  Z.of_nat k + Z.of_nat n ≤ r.
Proof.
  intros Hk Hr Hw A. destruct (th_at_refs _ _ _ _ A) as (r' & Hr' & _ & Hle).
  rewrite refs_of_tok_set, decide_True, Hw in Hr' by done. cbn in Hr'. injection Hr' as <-.
  rewrite Hr in Hle. lia.
Qed.

Lemma psafe_ref_debt target n io L kk :
  psafe target false n io L (kk tt) → psafe target true n io L (access (handle_ref h) kk).
Proof.
  intros HP. apply psafe_access. intros k w Hk (<- & Hlk & Hr & r & Hw & A).
  pose proof (th_at_debt _ _ _ _ _ Hk Hr Hw A) as Hle.
  eapply wp_handle_ref_eq; [done|lia|]. exists false, n, io, (w_log w).
  split; [|done]. split; [by rewrite log_tok_set|by split].
Qed.

Lemma psafe_unref target n io L kk :
  psafe target false n io L (kk tt) → psafe target false (S n) io L (access (handle_unref h) kk).
Proof.
  intros HP. apply psafe_access. intros k w Hk (<- & Hlk & A).
  destruct (th_at_refs _ _ _ _ A) as (r & Hr & _ & Hle).
  assert (r ≠ 1) as H1 by (destruct (reading (io_rdcmd io)); lia).
  assert (wp (handle_unref h) (λ _ w', th_at k n io w') w) as H2.
  { eapply wp_ia_unref; [done|by intros]. }
  assert (wp (handle_unref h) (λ _ w', w_log w' = w_log w) w) as H3.
  { eapply (wp_tok_unref_eq (TH h)); [done..|]. apply log_tok_set. }
  unfold wp in *. destruct (handle_unref h w) as [[] w'| | | |]; [|done..].
  exists false, n, io, (w_log w). split; [by split|done].
Qed.

Lemma psafe_uv_call target n io L f args kk :
  psafe target false n io (uv_called f args L) (kk (uv_ret L f args)) →
  psafe target false n io L (access (uv_call f args) kk).
Proof.
  intros HP. apply psafe_access. intros k w Hk (<- & Hlk & A). apply wp_uv_call_eq.
  intros w' S HL. exists false, n, io, (uv_called f args (w_log w)). split; [|done].
  split; [done|]. split; [done|]. by eapply io_at_same.
Qed.

Lemma psafe_get_h target n io L kk :
  (∀ i, h_iface i = ifc → psafe target false n io L (kk i)) →
  psafe target false n io L (access (get_h h) kk).
Proof.
  intros HP. eapply psafe_step; [auto with silent|done|]. intros k w Hk A.
  eapply wp_ia_get; [done|]. intros i Hi. by split; [|apply HP].
Qed.

Lemma psafe_iface_stop target n io L kk :
  ifc = If_stream ∨ ifc = If_udp →
  (let fn := uv_read_fn ifc U_stop in let args := uv_read_args h U_stop in
   psafe target false n io (uv_called fn args L) (kk (uv_ret L fn args))) →
  psafe target false n io L (iface_read_stop h kk).
Proof.
  intros Hi HP. apply psafe_get_h. intros i Hf. rewrite Hf.
  destruct Hi as [-> | ->]; by apply psafe_uv_call.
Qed.

Lemma psafe_iface_start target n io L offset kk :
  ifc = If_stream ∨ ifc = If_udp →
  (let fn := uv_read_fn ifc U_start in let args := uv_read_args h U_start in
   psafe target false n (offset_set offset io) (uv_called fn args L) (kk (uv_ret L fn args))) →
  psafe target false n io L (iface_read_start h offset kk).
Proof.
  intros Hi HP. apply psafe_get_h. intros i Hf. rewrite Hf. unfold offset_set in HP.
  destruct Hi as [-> | ->]; destruct (0 <=? offset).
  all: first [by apply psafe_mod; [done..|]; apply psafe_uv_call
             |destruct io; by apply psafe_uv_call].
Qed.

Lemma psafe_started target n io L z :
  reading (io_rdcmd io) = true → io_rdlock io = true → ready io →
  target = (z, (if z <? 0 then RD_UNKNOWN else io_rdcmd io, L)) → n = 0%nat →
  psafe target false n io L (started h z).
Proof.
  intros Hr Hk Ha -> ->. unfold started. destruct (z <? 0); [|done].
  apply psafe_status, psafe_mod_release; [done..|]. by apply psafe_unref.
Qed.

(** Every command is safe, and is the command of the table. *)
Lemma psafe_cmd c io L :
  ifc = If_stream ∨ ifc = If_udp → io_rdlock io = true → ready io →
  psafe (cmd_spec ifc h c (io_rdcmd io, L)) false 0 io L (cmd_prog h c).
Proof.
  intros Hi Hk [[fa Ha] [fr Hf]]. destruct io as [lk st sz ofs al rd]. cbn in *. subst.
  destruct c; cbn [cmd_prog]; apply psafe_get_io; cbn [io_on_alloc io_on_read io_rdcmd];
    destruct st.
  all: repeat first
    [ by repeat split; eauto
    | apply psafe_ref_debt | apply psafe_ref | apply psafe_unref | apply psafe_status
    | apply psafe_get_io
    | apply psafe_mod; [reflexivity..|]
    | apply psafe_mod_release; [reflexivity..|]
    | apply psafe_acquire; [reflexivity..|]
    | apply psafe_iface_stop; [done|]; cbv zeta
    | apply psafe_iface_start; [done|]; cbv zeta ].
  all: apply psafe_started; [reflexivity..|by split; eexists|reflexivity|done].
Qed.
End inside.

(** ** All threads together *)

Definition is_inside (t : thread) : bool :=
  match th_pc t with Inside _ _ => true | _ => false end.

(** Nobody is between [lock()] and [unlock()]. *)
Definition unlocked (ts : tstate) : Prop :=
  ∀ i t, ts_threads ts !! i = Some t → is_inside t = false.
Definition only_inside (i : nat) (ts : tstate) : Prop :=
  ∀ j t, ts_threads ts !! j = Some t → is_inside t = true → j = i.

Section threads_ok.
Context `{E : Env} `{EO : !EnvOk}.
Variables (h : loc) (ifc : iface) (F : list token) (X : list dying).

Definition idle (s : rdcmd * list event) (k : nat) (w : world) : Prop :=
  ∃ io, th_at h ifc F X k 0 io w ∧ io_rdlock io = false ∧ ready io ∧
    s = (io_rdcmd io, w_log w).

(** Threads that share an endpoint nobody uses yet: the program gives them at least one
    variable. *)
Definition initial (s : rdcmd * list event) (ts : tstate) (w : world) : Prop :=
  (0 < all_refs ts)%nat ∧ ts_hist ts = [] ∧ idle s (all_refs ts) w ∧
  ∀ i t, ts_threads ts !! i = Some t → th_pc t = Outside.

(** The commands that have been executed, with what they answered, are those of one thread
    that executes them one after another from [s0], which leaves [s]. *)
Definition explained (s0 : rdcmd * list event) (ts : tstate) (s : rdcmd * list event) : Prop :=
  seq_run ifc h (ts_hist ts).*1 s0 = ((ts_hist ts).*2, s).

Record threads_inv (s0 : rdcmd * list event) (ts : tstate) (w : world) : Prop := {
  ti_refs i t : ts_threads ts !! i = Some t → th_pc t ≠ Outside → (0 < th_refs t)%nat;
  ti_lock :
    (unlocked ts ∧ ∃ s, explained s0 ts s ∧ Inv (replicate (all_refs ts) (TH h) ++ F) X w ∧
      ((0 < all_refs ts)%nat → idle s (all_refs ts) w)) ∨
    (∃ i t c p s debt n io L, ts_threads ts !! i = Some t ∧ th_pc t = Inside c p ∧
      only_inside i ts ∧ explained s0 ts s ∧
      inside_at h ifc F X debt (all_refs ts) n io L w ∧
      psafe h ifc F X (cmd_spec ifc h c s) debt n io L p)
}.

(** *** The other threads count their variables *)

Lemma inside_at_count debt k k' n io L w : (0 < k)%nat → (0 < k')%nat →
  inside_at h ifc F X debt k n io L w →
  ∃ r, refs_of w (TH h) = Some r ∧ Z.of_nat k ≤ r ∧
    inside_at h ifc F X debt k' n io L (tok_set (TH h) (r + Z.of_nat k' - Z.of_nat k) w).
Proof.
  intros Hk Hk' (HL & Hlk & A). destruct debt.
  - destruct A as (Hr & r & Hw & A).
    pose proof (th_at_debt _ _ _ _ _ _ _ _ _ Hk Hr Hw A) as Hle.
    exists r. split; [done|]. split; [lia|]. split; [by rewrite log_tok_set|]. split; [done|].
    split; [done|]. exists (r + Z.of_nat k' - Z.of_nat k).
    rewrite refs_of_tok_set, decide_True, Hw by done. split; [done|].
    assert (refs_of (tok_set (TH h) (r + 1) w) (TH h) = Some (r + 1)) as Hw'.
    { by rewrite refs_of_tok_set, decide_True, Hw. }
    pose proof (th_at_count _ _ _ _ _ k' _ _ _ _ Hk' A Hw') as A'. cbv zeta in A'.
    rewrite tok_set_twice in A' |- *. by replace (r + Z.of_nat k' - Z.of_nat k + 1)
      with (r + 1 + Z.of_nat k' - Z.of_nat k) by lia.
  - destruct (th_at_refs _ _ _ _ _ _ _ _ A) as (r & Hw & _ & Hle).
    exists r. split; [done|]. split; [destruct (reading (io_rdcmd io)); lia|].
    split; [by rewrite log_tok_set|]. split; [done|]. by apply th_at_count.
Qed.

Lemma idle_count s k k' w : (0 < k)%nat → (0 < k')%nat → idle s k w →
  ∃ r, refs_of w (TH h) = Some r ∧ Z.of_nat k ≤ r ∧
    idle s k' (tok_set (TH h) (r + Z.of_nat k' - Z.of_nat k) w).
Proof.
  intros Hk Hk' (io & A & Hlk & Ha & ->).
  destruct (th_at_refs _ _ _ _ _ _ _ _ A) as (r & Hw & _ & Hle).
  exists r. split; [done|]. split; [destruct (reading (io_rdcmd io)); lia|].
  exists io. split; [by apply th_at_count|]. by rewrite log_tok_set.
Qed.

Lemma idle_inv s k w : idle s k w → Inv (replicate k (TH h) ++ F) X w.
Proof. by intros (io & [I _ _ _] & _). Qed.

Lemma all_refs_put i n pc ts t : ts_threads ts !! i = Some t →
  (all_refs (put i n pc ts) + th_refs t = all_refs ts + n)%nat.
Proof.
  intros Hi. unfold all_refs, put. cbn.
  pose proof (msum_update (λ _ t, th_refs t) (ts_threads ts) i t {| th_refs := n; th_pc := pc |} Hi).
  cbn in *. lia.
Qed.

Lemma all_refs_le i ts t : ts_threads ts !! i = Some t → (th_refs t ≤ all_refs ts)%nat.
Proof. apply (msum_lookup_le (λ _ t, th_refs t)). Qed.

(** *** Every access keeps the invariant *)

Variable s0 : rdcmd * list event.

Definition keeps (m : M tstate) (w : world) : Prop := wp m (threads_inv s0) w.

(** The threads but [i] are as they were; [i] is where it was, or is not inside. *)
Lemma unlocked_put i n pc ts :
  is_inside {| th_refs := n; th_pc := pc |} = false → unlocked ts → unlocked (put i n pc ts).
Proof.
  intros Hp H j t Hj. cbn in Hj. destruct (decide (i = j)) as [->|Hne].
  - rewrite lookup_insert_eq in Hj. by injection Hj as <-.
  - rewrite lookup_insert_ne in Hj by done. eauto.
Qed.

Lemma only_inside_put k i n pc ts :
  (is_inside {| th_refs := n; th_pc := pc |} = true → i = k) →
  only_inside k ts → only_inside k (put i n pc ts).
Proof.
  intros Hp H j t Hj Ht. cbn in Hj. destruct (decide (i = j)) as [->|Hne].
  - rewrite lookup_insert_eq in Hj. injection Hj as <-. by apply Hp.
  - rewrite lookup_insert_ne in Hj by done. eauto.
Qed.

Lemma refs_put i n pc ts :
  (pc ≠ Outside → (0 < n)%nat) →
  (∀ j t, ts_threads ts !! j = Some t → th_pc t ≠ Outside → (0 < th_refs t)%nat) →
  ∀ j t, ts_threads (put i n pc ts) !! j = Some t → th_pc t ≠ Outside → (0 < th_refs t)%nat.
Proof.
  intros Hp H j t Hj Ht. cbn in Hj. destruct (decide (i = j)) as [->|Hne].
  - rewrite lookup_insert_eq in Hj. injection Hj as <-. by apply Hp.
  - rewrite lookup_insert_ne in Hj by done. eauto.
Qed.

(** A thread that is not inside gets other references, or calls a command. *)
Lemma inv_put i t n pc ts w r' :
  ts_threads ts !! i = Some t → is_inside t = false →
  is_inside {| th_refs := n; th_pc := pc |} = false → (pc ≠ Outside → (0 < n)%nat) →
  let k := all_refs ts in let k' := all_refs (put i n pc ts) in
  (0 < k)%nat → (0 < k')%nat → refs_of w (TH h) = Some r' →
  threads_inv s0 ts w →
  threads_inv s0 (put i n pc ts) (tok_set (TH h) (r' + Z.of_nat k' - Z.of_nat k) w).
Proof.
  intros Hi Ht Hp Hn k k' Hk Hk' Hr [Hrf Hl]. split; [by apply refs_put|].
  destruct Hl as [(Hu & s & He & _ & Hid)|(j & u & c & p & s & d & m & io & L & Hj & Hpj & Ho & He & Ha & Hs)].
  - left. split; [by apply unlocked_put|]. exists s. split; [done|].
    destruct (idle_count s k k' w Hk Hk' (Hid Hk)) as (r & Hr1 & _ & Hid').
    rewrite Hr in Hr1. injection Hr1 as <-. split; [by eapply idle_inv|done].
  - right. exists j, u, c, p, s, d, m, io, L.
    assert (i ≠ j) as Hne by (intros ->; simplify_eq; unfold is_inside in Ht; by rewrite Hpj in Ht).
    cbn. rewrite lookup_insert_ne by done. split_and!; try done.
    + apply only_inside_put; [by rewrite Hp|done].
    + destruct (inside_at_count d k k' m io L w Hk Hk' Ha) as (r & Hr1 & _ & Ha').
      rewrite Hr in Hr1. by injection Hr1 as <-.
Qed.

Lemma inv_refs ts w : (0 < all_refs ts)%nat → threads_inv s0 ts w →
  ∃ r, refs_of w (TH h) = Some r ∧ Z.of_nat (all_refs ts) ≤ r.
Proof.
  intros Hk [_ [(_ & s & _ & _ & Hid)|(j & u & c & p & s & d & m & io & L & _ & _ & _ & _ & Ha & _)]].
  - destruct (idle_count s _ _ w Hk Hk (Hid Hk)) as (r & Hr & Hle & _). eauto.
  - destruct (inside_at_count d _ _ m io L w Hk Hk Ha) as (r & Hr & Hle & _). eauto.
Qed.
Lemma inside_unique i t c p ts w (R : Prop) :
  ts_threads ts !! i = Some t → th_pc t = Inside c p → threads_inv s0 ts w →
  (∀ s debt n io L, only_inside i ts → explained s0 ts s →
    inside_at h ifc F X debt (all_refs ts) n io L w →
    psafe h ifc F X (cmd_spec ifc h c s) debt n io L p → R) → R.
Proof.
  intros Hi Hp [_ [(Hu & _)|(j & u & c' & p' & s & d & m & io & L & Hj & Hpj & Ho & He & Ha & Hs)]] HR.
  - specialize (Hu i t Hi). unfold is_inside in Hu. by rewrite Hp in Hu.
  - assert (i = j) as <- by (apply (Ho i t Hi); unfold is_inside; by rewrite Hp).
    rewrite Hi in Hj. injection Hj as <-. rewrite Hp in Hpj. injection Hpj as <- <-. eauto.
Qed.

Lemma step_call i t n c ts w :
  ts_threads ts !! i = Some t → th_pc t = Outside → th_refs t = S n →
  threads_inv s0 ts w → threads_inv s0 (put i (S n) (Waiting c) ts) w.
Proof.
  intros Hi Hp Hn I. pose proof (all_refs_le _ _ _ Hi) as Hk.
  destruct (inv_refs ts w) as (r & Hr & _); [lia|done|].
  pose proof (all_refs_put i (S n) (Waiting c) ts t Hi) as Hk'.
  assert (all_refs (put i (S n) (Waiting c) ts) = all_refs ts) as He by lia.
  pose proof (inv_put i t (S n) (Waiting c) ts w r Hi) as H. cbv zeta in H.
  rewrite He in H. replace (r + Z.of_nat (all_refs ts) - Z.of_nat (all_refs ts)) with r in H by lia.
  rewrite tok_set_same in H by done. apply H; try done; [by unfold is_inside; rewrite Hp|..]; lia.
Qed.

Lemma step_copy i t n ts w :
  ts_threads ts !! i = Some t → th_pc t = Outside → th_refs t = S n →
  threads_inv s0 ts w → keeps (handle_ref h;; mret (put i (S (S n)) Outside ts)) w.
Proof.
  intros Hi Hp Hn I. pose proof (all_refs_le _ _ _ Hi) as Hk.
  destruct (inv_refs ts w) as (r & Hr & Hle); [lia|done|].
  pose proof (all_refs_put i (S (S n)) Outside ts t Hi) as Hk'.
  unfold keeps. apply wp_bind. eapply wp_handle_ref_eq; [done|lia|]. apply wp_ret.
  replace (r + 1) with (r + Z.of_nat (all_refs (put i (S (S n)) Outside ts)) -
    Z.of_nat (all_refs ts)) by lia.
  eapply inv_put; try done; [by unfold is_inside; rewrite Hp|lia..].
Qed.

Lemma step_drop i t n ts w :
  ts_threads ts !! i = Some t → th_pc t = Outside → th_refs t = S n →
  threads_inv s0 ts w → keeps (handle_unref h;; mret (put i n Outside ts)) w.
Proof.
  intros Hi Hp Hn I. pose proof (all_refs_le _ _ _ Hi) as Hk.
  destruct (inv_refs ts w) as (r & Hr & Hle); [lia|done|].
  pose proof (all_refs_put i n Outside ts t Hi) as Hk'.
  unfold keeps. apply wp_bind. destruct (decide (all_refs (put i n Outside ts) = 0%nat)) as [H0|H0].
  - (* the last variable of all *)
    assert (unlocked ts ∧ ∃ s, explained s0 ts s ∧ Inv (TH h :: F) X w) as (Hu & s & He & I').
    { destruct I as [Hrf [(Hu & s & He & I' & _)|(j & u & c & p & _ & _ & _ & _ & _ & Hj & Hpj & _)]].
      - split; [done|]. exists s. split; [done|]. by replace (all_refs ts) with 1%nat in I' by lia.
      - assert (i ≠ j) as Hne by (intros ->; congruence).
        assert (ts_threads (put i n Outside ts) !! j = Some u) as Hj' by (cbn; by rewrite lookup_insert_ne).
        pose proof (all_refs_le _ _ _ Hj'). specialize (Hrf j u Hj). rewrite Hpj in Hrf.
        specialize (Hrf ltac:(done)). lia. }
    apply (wp_handle_unref h F X); [done|]. intros w' I1. apply wp_ret. split.
    + apply refs_put; [done|apply I].
    + left. split; [by apply unlocked_put|]. exists s. rewrite H0. split_and!; [done|done|lia].
  - eapply (wp_tok_unref_eq (TH h)); [done|lia|]. apply wp_ret.
    replace (r - 1) with (r + Z.of_nat (all_refs (put i n Outside ts)) - Z.of_nat (all_refs ts)) by lia.
    eapply inv_put; try done; [by unfold is_inside; rewrite Hp|lia..].
Qed.

Lemma step_give i j t u n ts w :
  ts_threads ts !! i = Some t → th_pc t = Outside → th_refs t = S n →
  ts_threads ts !! j = Some u → i ≠ j → threads_inv s0 ts w →
  threads_inv s0 (put j (S (th_refs u)) (th_pc u) (put i n Outside ts)) w.
Proof.
  intros Hi Hp Hn Hj Hne [Hrf Hl].
  assert (ts_threads (put i n Outside ts) !! j = Some u) as Hj' by (cbn; by rewrite lookup_insert_ne).
  pose proof (all_refs_put i n Outside ts t Hi) as Hk.
  pose proof (all_refs_put j (S (th_refs u)) (th_pc u) _ _ Hj') as Hk'.
  set (ts' := put j _ _ _) in *. assert (all_refs ts' = all_refs ts) as He by lia.
  split; [apply refs_put; [lia|]; by apply refs_put|]. rewrite He.
  destruct Hl as [(Hu & Hs)|(j0 & v & c & p & s & d & m & io & L & Hj0 & Hpv & Ho & Hx)].
  - left. split; [|done]. apply unlocked_put; [|by apply unlocked_put]. by apply (Hu j u).
  - right. assert (i ≠ j0) as Hne0 by (intros ->; congruence).
    assert (only_inside j0 ts') as Ho'.
    { apply only_inside_put; [|by apply only_inside_put].
      intros Hu. by apply (Ho j u). }
    destruct (decide (j = j0)) as [->|Hne'].
    + exists j0, {| th_refs := S (th_refs u); th_pc := th_pc u |}, c, p, s, d, m, io, L.
      split; [apply lookup_insert_eq|]. split; [cbn; congruence|]. split; [done|exact Hx].
    + exists j0, v, c, p, s, d, m, io, L. split; [cbn; by rewrite !lookup_insert_ne|].
      split; [done|]. split; [done|exact Hx].
Qed.
Lemma wp_inside_get_io debt k n io L (Q : io_props → world → Prop) w :
  inside_at h ifc F X debt k n io L w → Q io w → wp (get_io h) Q w.
Proof.
  intros (_ & _ & A) HQ. destruct debt; [|by eapply wp_ia_get_io].
  destruct A as (_ & r & _ & [_ _ (p & HP & Hio & _) _]).
  rewrite <-(sim_hprops _ _ h (wpsim_tok_set (TH h) (r + 1) w)) in HP.
  unfold get_io. apply wp_bind. eapply wp_properties; [done|]. rewrite Hio. by apply wp_ret.
Qed.

Lemma wp_lock_flag k io b w : th_at h ifc F X k 0 io w →
  wp (mod_io h (set_rdlock b)) (λ _ w', th_at h ifc F X k 0 (set_rdlock b io) w' ∧
    w_log w' = w_log w) w.
Proof.
  intros A. apply (wp_silent _ (λ _ w', th_at h ifc F X k 0 (set_rdlock b io) w'));
    [apply silent_mod_io|]. by eapply wp_ia_mod.
Qed.

Hypothesis Hifc : ifc = If_stream ∨ ifc = If_udp.

Lemma step_lock i t c ts w :
  ts_threads ts !! i = Some t → th_pc t = Waiting c → threads_inv s0 ts w →
  keeps (try_lock h (put i (th_refs t) (Inside c (cmd_prog h c)) ts) ts) w.
Proof.
  intros Hi Hp I. pose proof I as [Hrf Hl]. unfold keeps, try_lock.
  assert (0 < th_refs t)%nat as Ht by (eapply Hrf; [done|by rewrite Hp]).
  pose proof (all_refs_le _ _ _ Hi) as Hk. apply wp_bind.
  destruct Hl as [(Hu & s & He & _ & Hid)|(j & u & c' & p & s & d & m & io & L & _ & _ & _ & _ & Ha & _)].
  - destruct Hid as (io & A & Hlk & Hr & ->); [lia|]. eapply wp_ia_get_io; [done|]. rewrite Hlk.
    apply wp_bind. eapply wp_mono.
    { by apply (wp_lock_flag (all_refs ts) io true). }
    intros [] w' [A' HL]. apply wp_ret. split; [by apply refs_put|]. right.
    pose proof (all_refs_put i (th_refs t) (Inside c (cmd_prog h c)) ts t Hi) as Hk'.
    eexists i, _, c, _, _, false, 0%nat, (set_rdlock true io), (w_log w).
    split; [apply lookup_insert_eq|]. split; [done|]. split.
    { apply only_inside_put; [done|]. intros j u Hj Hin. by rewrite (Hu j u Hj) in Hin. }
    split; [done|]. replace (all_refs (put _ _ _ _)) with (all_refs ts) by lia.
    split; [by split|]. by apply (psafe_cmd h ifc F X c (set_rdlock true io)).
  - eapply wp_inside_get_io; [done|]. destruct Ha as (_ & -> & _). by apply wp_ret.
Qed.

Lemma step_act i t c m ts w :
  ts_threads ts !! i = Some t → th_pc t = Inside c (Act m) → threads_inv s0 ts w →
  keeps (p ← m; mret (put i (th_refs t) (Inside c p) ts)) w.
Proof.
  intros Hi Hp I. pose proof (ti_refs _ _ _ I i t Hi) as Ht. rewrite Hp in Ht.
  specialize (Ht ltac:(done)). pose proof (all_refs_le _ _ _ Hi) as Hk.
  eapply inside_unique; [done..|]. intros s debt n io L Ho He Ha Hs.
  specialize (Hs (all_refs ts) w ltac:(lia) Ha). unfold keeps. apply wp_bind. unfold wp at 1.
  destruct (m w) as [p' w'| | | |]; [|done..]. destruct Hs as (d' & n' & io' & L' & Ha' & Hs').
  apply wp_ret. split; [apply refs_put; [done|apply I]|]. right.
  pose proof (all_refs_put i (th_refs t) (Inside c p') ts t Hi) as Hk'.
  eexists i, _, c, _, s, d', n', io', L'. split; [apply lookup_insert_eq|]. split; [done|].
  split; [by apply only_inside_put|]. split; [done|].
  replace (all_refs (put _ _ _ _)) with (all_refs ts) by lia. by split.
Qed.

Lemma step_release i t c z ts w :
  ts_threads ts !! i = Some t → th_pc t = Inside c (Ret z) → threads_inv s0 ts w →
  keeps (rd_unlock h;; mret (returned c z (put i (th_refs t) Outside ts))) w.
Proof.
  intros Hi Hp I. eapply inside_unique; [done..|]. intros s debt n io L Ho He Ha Hs.
  destruct Hs as (-> & -> & Hlk & Hr & Hs), Ha as (<- & _ & A).
  unfold keeps, rd_unlock. apply wp_bind. eapply wp_mono.
  { by apply (wp_lock_flag (all_refs ts) io false). }
  intros [] w' [A' HL]. apply wp_ret. split; [apply refs_put; [done|apply I]|]. left.
  pose proof (all_refs_put i (th_refs t) Outside ts t Hi) as Hk'.
  change (all_refs (returned _ _ ?ts)) with (all_refs ts).
  replace (all_refs (put _ _ _ _)) with (all_refs ts) by lia. split.
  { intros j u Hj. cbn in Hj. destruct (decide (i = j)) as [->|Hne].
    - rewrite lookup_insert_eq in Hj. by injection Hj as <-.
    - rewrite lookup_insert_ne in Hj by done. destruct (is_inside u) eqn:Hu; [|done].
      by destruct Hne, (Ho j u). }
  exists (io_rdcmd io, w_log w). split; [|split; [apply A'|]].
  - unfold explained in *. cbn [ts_hist returned put]. rewrite !fmap_app.
    cbn [fmap list_fmap fst snd]. rewrite seq_run_snoc, He. cbn [fst snd]. by rewrite <-Hs.
  - intros _. exists (set_rdlock false io). by rewrite HL.
Qed.

Lemma step_keeps i a m ts w :
  threads_inv s0 ts w → move h i a ts = Some m → keeps m w.
Proof.
  intros I Hm. unfold move in Hm. destruct (ts_threads ts !! i) as [t|] eqn:Hi; [|done].
  destruct a as [c| | | |j], (th_pc t) as [|c'|c' [z|m']] eqn:Hp; try done.
  - destruct (th_refs t) as [|n] eqn:Hn; [done|]. injection Hm as <-. by eapply step_call.
  - assert (m = try_lock h (put i (th_refs t) (Inside c' (cmd_prog h c')) ts) ts) as ->
      by (by destruct (th_refs t); injection Hm). by apply step_lock.
  - assert (m = (rd_unlock h;; mret (returned c' z (put i (th_refs t) Outside ts)))) as ->
      by (by destruct (th_refs t); injection Hm). by apply step_release.
  - assert (m = (p ← m'; mret (put i (th_refs t) (Inside c' p) ts))) as ->
      by (by destruct (th_refs t); injection Hm). by apply step_act.
  - destruct (th_refs t) as [|n] eqn:Hn; [done|]. injection Hm as <-. by eapply step_copy.
  - destruct (th_refs t) as [|n] eqn:Hn; [done|]. injection Hm as <-. by eapply step_drop.
  - destruct (th_refs t) as [|n] eqn:Hn; [done|].
    destruct (ts_threads ts !! j) as [u|] eqn:Hj; [|done].
    destruct (decide (i = j)) as [|Hne]; [done|]. injection Hm as <-.
    by eapply step_give.
Qed.

(** *** Every command that has been called can end *)

Definition busy (t : thread) : nat := match th_pc t with Outside => 0 | _ => 1 end.
Definition all_busy (ts : tstate) : nat := msum (λ _ t, busy t) (ts_threads ts).

Lemma all_busy_put i n pc ts t : ts_threads ts !! i = Some t →
  (all_busy (put i n pc ts) + busy t = all_busy ts + busy {| th_refs := n; th_pc := pc |})%nat.
Proof.
  intros Hi. unfold all_busy, put. cbn.
  pose proof (msum_update (λ _ t, busy t) (ts_threads ts) i t {| th_refs := n; th_pc := pc |} Hi).
  cbn in *. lia.
Qed.

Lemma wp_schedule_app l l' ts (Q : tstate → world → Prop) w :
  wp (schedule h l ts) (λ ts' w', wp (schedule h l' ts') Q w') w →
  wp (schedule h (l ++ l') ts) Q w.
Proof.
  revert ts w. induction l as [|[i a] l IH]; intros ts w H; cbn in *; [exact H|].
  destruct (move h i a ts) as [m|]; [|by apply IH].
  apply wp_bind. unfold wp at 1 in H. unfold wp at 1. unfold mbind, M_bind in H.
  destruct (m w) as [ts1 w1| | | |]; [|done..]. by apply IH.
Qed.

Lemma wp_schedule_go i t m ts (Q : tstate → world → Prop) w :
  ts_threads ts !! i = Some t → move h i T_go ts = Some m → threads_inv s0 ts w →
  (∀ ts' w', m w = Ok ts' w' → threads_inv s0 ts' w' → Q ts' w') →
  wp (schedule h [(i, T_go)] ts) Q w.
Proof.
  intros Hi Hm I HQ. cbn. rewrite Hm. apply wp_bind.
  pose proof (step_keeps i T_go m ts w I Hm) as Hk. unfold keeps, wp in *.
  destruct (m w) as [ts1 w1| | | |]; [|done..]. by apply HQ.
Qed.

Lemma move_inside i t c p ts : ts_threads ts !! i = Some t → th_pc t = Inside c p →
  move h i T_go ts = Some match p with
    | Act m => p ← m; mret (put i (th_refs t) (Inside c p) ts)
    | Ret z => rd_unlock h;; mret (returned c z (put i (th_refs t) Outside ts))
    end.
Proof. intros Hi Hp. unfold move. rewrite Hi, Hp. by destruct p, (th_refs t). Qed.

Definition finishes (ts : tstate) (ts' : tstate) (w' : world) : Prop :=
  threads_inv s0 ts' w' ∧ unlocked ts' ∧ all_busy ts = S (all_busy ts').

Fixpoint finish_inside i t c p ts w {struct p} :
  ts_threads ts !! i = Some t → th_pc t = Inside c p → threads_inv s0 ts w →
  ∃ l, wp (schedule h l ts) (finishes ts) w.
Proof.
  intros Hi Hp I. destruct p as [z|m].
  - exists [(i, T_go)]. eapply wp_schedule_go; [done|by apply move_inside|done|].
    intros ts' w'. unfold mbind, M_bind. destruct (rd_unlock h w) as [[] w1| | | |]; [|done..].
    intros [= <- <-] I'. split; [done|]. split.
    + destruct I' as [_ [[Hu _]|(j & u & c' & p & _ & _ & _ & _ & _ & Hj & Hpj & _)]]; [done|].
      exfalso. apply (inside_unique i t c (Ret z) ts w); [done..|]. intros _ _ _ _ _ Ho _ _ _.
      cbn in Hj. destruct (decide (i = j)) as [->|Hne].
      * rewrite lookup_insert_eq in Hj. injection Hj as <-. done.
      * rewrite lookup_insert_ne in Hj by done. destruct Hne. symmetry.
        apply (Ho j u Hj). unfold is_inside. by rewrite Hpj.
    + pose proof (all_busy_put i (th_refs t) Outside ts t Hi) as Hb.
      unfold busy at 1 2 in Hb. rewrite Hp in Hb. cbn in Hb.
      change (all_busy (returned _ _ ?ts)) with (all_busy ts). lia.
  - pose proof (step_act i t c m ts w Hi Hp I) as Hk. unfold keeps, wp, mbind, M_bind in Hk.
    pose proof (move_inside i t c _ ts Hi Hp) as Hm. cbn in Hm.
    destruct (m w) as [p' w'| | | |] eqn:Hw; [|done..].
    destruct (finish_inside i {| th_refs := th_refs t; th_pc := Inside c p' |} c p'
      (put i (th_refs t) (Inside c p') ts) w') as [l Hl]; [|done|done|].
    { cbn. apply lookup_insert_eq. }
    exists ((i, T_go) :: l). cbn. rewrite Hm. unfold wp, mbind, M_bind in *. rewrite Hw. cbn.
    destruct (schedule h l _ w') as [ts2 w2| | | |]; [|done..].
    destruct Hl as (I2 & Hu2 & Hb2). split; [done|]. split; [done|].
    pose proof (all_busy_put i (th_refs t) (Inside c p') ts t Hi) as Hb.
    unfold busy at 1 2 in Hb. rewrite Hp in Hb. cbn in Hb. lia.
Qed.
Lemma wp_try_lock_free i t c ts a b w :
  ts_threads ts !! i = Some t → th_pc t = Waiting c → unlocked ts → threads_inv s0 ts w →
  wp (try_lock h a b) (λ ts' _, ts' = a) w.
Proof.
  intros Hi Hp Hu [Hrf Hl]. pose proof (all_refs_le _ _ _ Hi) as Hk.
  assert (0 < th_refs t)%nat as Ht by (eapply Hrf; [done|by rewrite Hp]).
  destruct Hl as [(_ & s & _ & _ & Hid)|(j & u & c' & p & _ & _ & _ & _ & _ & Hj & Hpj & _)].
  - destruct Hid as (io & A & Hlk & _ & _); [lia|]. unfold try_lock. apply wp_bind.
    eapply wp_ia_get_io; [done|]. rewrite Hlk. apply wp_bind.
    eapply wp_mono; [by apply (wp_lock_flag (all_refs ts) io true)|]. intros. by apply wp_ret.
  - specialize (Hu j u Hj). unfold is_inside in Hu. by rewrite Hpj in Hu.
Qed.

(** A thread that waits while the lock is free gets it and finishes. *)
Lemma finish_waiting i t c ts w :
  ts_threads ts !! i = Some t → th_pc t = Waiting c → unlocked ts → threads_inv s0 ts w →
  ∃ l, wp (schedule h l ts) (finishes ts) w.
Proof.
  intros Hi Hp Hu I. set (ts1 := put i (th_refs t) (Inside c (cmd_prog h c)) ts).
  pose proof (wp_try_lock_free i t c ts ts1 ts w Hi Hp Hu I) as H1.
  pose proof (step_lock i t c ts w Hi Hp I) as H2.
  assert (move h i T_go ts = Some (try_lock h ts1 ts)) as Hm.
  { unfold move. rewrite Hi, Hp. by destruct (th_refs t). }
  unfold keeps in H2. fold ts1 in H2. unfold wp in H1, H2.
  destruct (try_lock h ts1 ts w) as [ts' w'| | | |] eqn:Hw; [|done..]. subst ts'.
  destruct (finish_inside i {| th_refs := th_refs t; th_pc := Inside c (cmd_prog h c) |} c
    (cmd_prog h c) ts1 w') as [l Hl]; [|done|done|].
  { cbn. apply lookup_insert_eq. }
  exists ((i, T_go) :: l). cbn. rewrite Hm. apply wp_bind. unfold wp at 1. rewrite Hw.
  eapply wp_mono; [exact Hl|]. intros ts2 w2 (I2 & Hu2 & Hb2). split; [done|]. split; [done|].
  pose proof (all_busy_put i (th_refs t) (Inside c (cmd_prog h c)) ts t Hi) as Hb.
  fold ts1 in Hb. unfold busy at 1 2 in Hb. rewrite Hp in Hb. cbn in Hb. lia.
Qed.

Lemma all_outside ts : all_busy ts = 0%nat →
  ∀ i t, ts_threads ts !! i = Some t → th_pc t = Outside.
Proof.
  intros H0 i t Hi. pose proof (msum_lookup_le (λ _ t, busy t) _ _ _ Hi) as H. cbn in H.
  unfold all_busy in H0. unfold busy at 1 in H. destruct (th_pc t); [done|lia..].
Qed.

Lemma finish_all ts w : threads_inv s0 ts w →
  ∃ l, wp (schedule h l ts) (λ ts' _, ∀ i t, ts_threads ts' !! i = Some t → th_pc t = Outside) w.
Proof.
  remember (all_busy ts) as n eqn:Hn. revert ts w Hn.
  induction n as [|n IH]; intros ts w Hn I.
  { exists []. by apply wp_ret, all_outside. }
  assert (∃ l, wp (schedule h l ts) (finishes ts) w) as [l Hl].
  { destruct (ti_lock _ _ _ I) as [(Hu & _)|(j & u & c & p & _ & _ & _ & _ & _ & Hj & Hp & _)].
    2: by eapply finish_inside.
    destruct (msum_pos (λ _ t, busy t) (ts_threads ts)) as (i & t & Hi & Ht).
    { unfold all_busy in Hn. lia. }
    destruct (th_pc t) as [|c|c p] eqn:Hp.
    - unfold busy in Ht. rewrite Hp in Ht. lia.
    - by eapply finish_waiting.
    - by eapply finish_inside. }
  unfold wp at 1 in Hl. destruct (schedule h l ts w) as [ts1 w1| | | |] eqn:Hw; [|done..].
  destruct Hl as (I1 & _ & Hb). destruct (IH ts1 w1) as [l' Hl']; [congruence|done|].
  exists (l ++ l'). apply wp_schedule_app. unfold wp at 1. by rewrite Hw.
Qed.


Lemma initial_inv ts w : initial s0 ts w → threads_inv s0 ts w.
Proof.
  intros (Hk & Hh & Hid & Ho). split.
  - intros i t Hi Hn. by destruct Hn, (Ho i t Hi).
  - left. split; [by intros i t Hi; unfold is_inside; rewrite (Ho i t Hi)|].
    exists s0. unfold explained. rewrite Hh. split; [done|]. split; [by eapply idle_inv|done].
Qed.

Lemma schedule_inv ts0 w0 ts w :
  initial s0 ts0 w0 → rtc (tstep h) (ts0, w0) (ts, w) → threads_inv s0 ts w.
Proof.
  intros H0%initial_inv H. remember (ts0, w0) as x eqn:Hx. remember (ts, w) as y eqn:Hy.
  revert ts0 w0 H0 Hx. induction H as [x|x y' z H _ IH]; intros ts0 w0 H0 ->; [by simplify_eq|].
  inversion H as [i a ts1 w1 m ts2 w2 Hm Hw]; subst. eapply IH; [done| |done].
  pose proof (step_keeps i a m ts0 w0 H0 Hm) as Hk. unfold keeps, wp in Hk. by rewrite Hw in Hk.
Qed.
End threads_ok.

Section threads_theorems.
Context `{E : Env} `{EO : !EnvOk}.

(** C9: In every interleaving of threads that execute reading commands on a shared
    endpoint, access by access, and copy, drop and hand over their variables, no access
    fails: none is made to a deleted handle, nothing is thrown, and the counter is the
    number of owners whenever no thread is between lock() and unlock(). *)
Theorem threads_safe h ifc F X s0 ts0 w0 ts w i a m :
  ifc = If_stream ∨ ifc = If_udp →
  initial h ifc F X s0 ts0 w0 → rtc (tstep h) (ts0, w0) (ts, w) → move h i a ts = Some m →
  wp m (λ ts' w', unlocked ts' → Inv (replicate (all_refs ts') (TH h) ++ F) X w') w.
Proof.
  intros Hi H0 H Hm. pose proof (schedule_inv _ _ _ _ _ Hi _ _ _ _ H0 H) as I.
  pose proof (step_keeps _ _ _ _ _ Hi _ _ _ _ _ I Hm) as Hk. eapply wp_mono; [exact Hk|].
  cbn. intros ts' w' [_ [(_ & s & _ & I' & _)|(j & u & c & p & _ & _ & _ & _ & _ & Hj & Hp & _)]] Hu.
  - exact I'.
  - specialize (Hu j u Hj). unfold is_inside in Hu. by rewrite Hp in Hu.
Qed.

(** C8: The reading commands are atomic: whatever the interleaving, when no thread is
    inside a command, the values returned, the calls libuv has got, the answers it has
    given and the command remembered are those of one thread that executes the commands
    one after another, in the order in which they got the lock, by the table of
    handle-io.hpp. *)
Theorem commands_linearizable h ifc F X s0 ts0 w0 ts w :
  ifc = If_stream ∨ ifc = If_udp →
  initial h ifc F X s0 ts0 w0 → rtc (tstep h) (ts0, w0) (ts, w) →
  unlocked ts → (0 < all_refs ts)%nat →
  ∃ x io, w_handles w !! h = Some x ∧ io_of (h_props x) = Some io ∧ io_rdlock io = false ∧
    seq_run ifc h (ts_hist ts).*1 s0 = ((ts_hist ts).*2, (io_rdcmd io, w_log w)).
Proof.
  intros Hi H0 H Hu Hk. pose proof (schedule_inv _ _ _ _ _ Hi _ _ _ _ H0 H) as [_ Hl].
  destruct Hl as [(_ & s & He & _ & Hid)|(j & u & c & p & _ & _ & _ & _ & _ & Hj & Hp & _)].
  - destruct (Hid Hk) as (io & [_ _ (p & (x & Hx & ->)%fmap_Some & Hio & _) _] & Hlk & _ & ->).
    by exists x, io.
  - specialize (Hu j u Hj). unfold is_inside in Hu. by rewrite Hp in Hu.
Qed.

(** C10: No deadlock: from every state the threads can get into, each command that has
    been called can be brought to its end. *)
Theorem commands_finish h ifc F X s0 ts0 w0 ts w :
  ifc = If_stream ∨ ifc = If_udp →
  initial h ifc F X s0 ts0 w0 → rtc (tstep h) (ts0, w0) (ts, w) →
  ∃ l, wp (schedule h l ts) (λ ts' _, ∀ i t, ts_threads ts' !! i = Some t → th_pc t = Outside) w.
Proof.
  intros Hi H0 H. apply (finish_all h ifc F X s0 Hi). by eapply schedule_inv.
Qed.
End threads_theorems.
