(* ===== verification/ReadCb.v ===== *)
(** * Reading: the callbacks of libuv

    [io::io_alloc_cb] lends a buffer to libuv and [io::io_read_cb] gets it back: the
    reference added by the first is the one the second passes on to the client. *)

From Stdlib Require Import ZArith Lia.
From stdpp Require Import base gmap list strings option.
From S2P Require Import Prelude World Objects Ledger Wp Refs Release Rules HRules.
From S2P Require Import Buffer HandleMisc Handle Trace Io.

Local Open Scope Z_scope.

(** The contract of [on_alloc()]: the function leaves its parameter alone or moves from it,
    returns a buffer of one chunk, which is not empty, leaves the properties of the handle as
    they are, and otherwise keeps the ledger. *)
Definition alloc_contract (h : loc) (F : list token) (X : list dying) (w : world)
    (r : option loc * option loc) (w' : world) : Prop :=
  ∃ b base len,
    r.2 = Some b ∧ (r.1 = Some h ∨ r.1 = None) ∧ Inv (opt_tok TH r.1 ++ TB b :: F) X w' ∧
    b_bufs <$> w_bufs w' !! b = Some [(base, len)] ∧ base ≠ 0 ∧ uv_buf_from base = b ∧
    h_props <$> w_handles w' !! h = h_props <$> w_handles w !! h.

Class AllocOk `{E : Env} := {
  env_alloc f h size F X w :
    Inv (TH h :: F) X w → wp (user_alloc f (Some h) size) (alloc_contract h F X w) w
}.

(** *** Functions that meet it *)

(** A buffer of one chunk, which is not empty and lies where the buffer was made. *)
Definition one_chunk (b : loc) (w : world) : bool :=
  match b_bufs <$> w_bufs w !! b with
  | Some [(base, _)] => negb (base =? 0) && (uv_buf_from base =? b)
  | _ => false
  end.

Definition new_chunk (size : Z) : M loc := buffer_create [Z.max 1 (Z.min size 65536)].

Definition chunk_lent (h : loc) (F : list token) (X : list dying) (w : world)
    (b : loc) (w' : world) : Prop :=
  Inv (TB b :: F) X w' ∧ one_chunk b w' = true ∧
  h_props <$> w_handles w' !! h = h_props <$> w_handles w !! h.

Lemma wp_new_chunk size h F X w : Inv F X w → wp (new_chunk size) (chunk_lent h F X w) w.
Proof.
  intros I. unfold new_chunk. set (n := Z.max 1 (Z.min size 65536)).
  assert (1 ≤ n ≤ 65536) as Hn by lia.
  assert (fits [n]) as Hf by (split; [repeat constructor; lia|cbn; lia]).
  eapply wp_buffer_create; [done|by right|].
  intros b w1 Hpos Hb I1 Hbufs _ HH. split; [done|]. split; [|by rewrite HH].
  rewrite instance_bufs_eq in Hbufs; [|done|cbn; lia]. cbn in Hbufs.
  unfold one_chunk. rewrite Hbufs. unfold uv_buf_from.
  rewrite alignment_padding_0 by lia. unfold sizeof_uv_t.
  apply andb_true_iff. split; [apply negb_true_iff, Z.eqb_neq|apply Z.eqb_eq]; lia.
Qed.

Lemma chunk_lent_contract h F X w b w' :
  chunk_lent h (TH h :: F) X w b w' → alloc_contract h F X w (Some h, Some b) w'.
Proof.
  intros (I & Hb & HP). unfold one_chunk in Hb.
  destruct (b_bufs <$> w_bufs w' !! b) as [[|[base len] [|]]|] eqn:Hbufs; try done.
  apply andb_true_iff in Hb as [H0%negb_true_iff%Z.eqb_neq Hfrom%Z.eqb_eq].
  exists b, base, len. split_and!; [done|by left| |done..].
  eapply Inv_perm; [|done|done|exact I]. cbn. solve_Permutation.
Qed.

(** libuv holds the chunk [c]: a reference to the buffer found from its base. *)
Definition chunk_owned (c : Z * Z) (F : list token) (X : list dying) (w : world) : Prop :=
  c.1 ≠ 0 ∧ Inv (TB (uv_buf_from c.1) :: F) X w.

Section callbacks.
Context `{E : Env} `{EO : !EnvOk} `{AO : !AllocOk}.

(** Writes that leave the command alone, whatever the class. *)
Lemma wp_mod_io_quiet h f F X (Q : unit → world → Prop) w :
  Inv F X w → live F w (TH h) → (∀ io, io_rdcmd (f io) = io_rdcmd io) →
  (∀ w', Inv F X w' → Q tt w') → wp (mod_io h f) Q w.
Proof.
  intros I L Hf HQ. destruct (live_handle _ _ _ _ I L) as (i & Hi).
  eapply (wp_mod_props h (map_io f) (h_props i)); [done..| | | | |].
  - by rewrite Hi.
  - by destruct (h_props i); cbn; rewrite ?Hf.
  - by destruct (h_props i).
  - destruct (h_props i) eqn:Hp; try (by apply reads_kept_not_file).
    apply reads_kept_same; [done|]. by rewrite Hf.
  - intros w' I' _ _. by apply HQ.
Qed.

(** The handle [h] with the properties [p] is alive whatever the client's functions do: the
    running code has a reference to it, or it is started and keeps itself alive. *)
Definition anchored (h : loc) (p : props) (F : list token) (X : list dying) (w : world) : Prop :=
  live F w (TH h) ∧ ∀ G w', Inv (G ++ F) X w' → h_props <$> w_handles w' !! h = Some p →
    live F w' (TH h).

Lemma anchored_frame h p F X w : TH h ∈ F → anchored h p F X w.
Proof. intros L. split; [by apply live_frame|]. intros. by apply live_frame. Qed.

Lemma anchored_started h p F X w :
  Inv F X w → live F w (TH h) → props_self p = true → anchored h p F X w.
Proof.
  intros I L Hs. split; [done|]. intros G w' I' (i & Hi & ->)%fmap_Some.
  unfold live. enough (0 < owned w' (TH h))%nat by lia. eapply owned_handle; [done|].
  rewrite hinst_toks_live; [unfold props_toks; rewrite Hs; by left|]. intros H0.
  pose proof (inv_count _ _ _ I' (TH h)) as Hc. cbn in Hc. rewrite Hi in Hc. cbn in Hc.
  destruct Hc as [_ (d & Hd & Hin)%(λ f, list_elem_of_fmap_1 _ _ _ (f H0))].
  pose proof (proj1 (list.Forall_forall _ _) (inv_dying _ _ _ I) d Hin) as Hr%dying_refs.
  rewrite <-Hd in Hr. destruct (Inv_live _ _ _ _ I L) as (n & Hn & Hn0). congruence.
Qed.

Lemma wp_io_alloc_cb h size p io f F X (Q : Z * Z → world → Prop) w :
  Inv F X w → anchored h p F X w → h_props <$> w_handles w !! h = Some p →
  io_of p = Some io → io_on_alloc io = Some f →
  (∀ c w', c.1 ≠ 0 → Inv (TB (uv_buf_from c.1) :: F) X w' →
    h_props <$> w_handles w' !! h = Some p → Q c w') →
  wp (io_alloc_cb h size) Q w.
Proof.
  intros I [L HL] HP Hio Hf HQ. unfold io_alloc_cb, get_io. do 2 wp_struct.
  eapply wp_properties; [done|]. rewrite Hio. wp_struct. unfold call_alloc_cb. rewrite Hf.
  wp_struct. wp_struct. wp_op. wp_struct. apply wp_log_event. intros w1 S _.
  rewrite S in I0. rewrite (sim_hprops _ _ h (proj1 (wsame_sim _ _ S))) in HP. clear S L w0.
  wp_struct. eapply wp_mono; [by apply env_alloc|].
  intros [ho bo] w2 (b & base & len & Hb & Hho & I2 & Hbufs & Hb0 & Hfrom & HP2).
  rewrite HP in HP2. clear HP.
  cbn in Hb, Hho, I2. subst bo. wp_struct. cbn [fst snd].
  assert (∀ w3, Inv (TB b :: F) X w3 → b_bufs <$> w_bufs w3 !! b = Some [(base, len)] →
    h_props <$> w_handles w3 !! h = Some p →
    wp (finally (b0 ← deref (Some b); buffer_ref b0;; buffer_at b0 0) (drop_ptr (PB (Some b))))
      Q w3) as Hk.
  { intros w3 I3 Hb3 HP3. clear I2 Hbufs HP2. do 4 wp_struct. wp_op. unfold buffer_at.
    wp_struct. wp_op. rewrite Hb in Hb3. cbn in Hb3. injection Hb3 as ->. cbn.
    apply wp_ret. unfold drop_ptr. wp_struct. cbn [ptr_toks].
    eapply (wp_tok_unref_live (TB b) (TB b :: F)); [exact I|eauto with ledger|].
    intros w5 S5 I5. rewrite (sim_hprops _ _ h (proj1 S5)) in HP3.
    apply HQ; [done| |done]. cbn. by rewrite Hfrom. }
  destruct Hho as [-> | ->]; cbn [opt_tok app] in I2.
  - unfold drop_ptr at 1. wp_struct. cbn [ptr_toks tok_unref].
    assert (live (TB b :: F) w2 (TH h)) as Lh.
    { eapply live_cnt; [exact (HL [TH h; TB b] w2 I2 HP2)|intros; cbn; lia]. }
    eapply (wp_tok_unref_live (TH h)); [exact I2|done|]. intros w3 S3 I3. apply wp_ret.
    apply Hk; [done|by rewrite <-(sim_bbufs _ _ b (proj1 S3))|].
    by rewrite <-(sim_hprops _ _ h (proj1 S3)).
  - unfold drop_ptr at 1. wp_struct. cbn [ptr_toks]. apply wp_ret, wp_ret. by apply Hk.
Qed.

(** [io_read_cb] up to the end of the client's function, and what comes after it. *)
Definition read_call (h : loc) (nread : Z) (uv_buf : Z * Z) (info : Z) : M unit :=
  mod_h h (set_h_error (int32 nread));;
  p ← get_io h;
  b ← (if uv_buf.1 =? 0 then buffer_create [] else mret (uv_buf_from uv_buf.1));
  call_read_cb h (io_on_read p) nread b (io_rdoffset p) info.
Definition read_rest (h : loc) (nread : Z) : M unit :=
  when (0 <? nread) (mod_io h (λ p, set_rdoffset (io_rdoffset p + nread) p)).

Lemma io_read_cb_split h nread c info w :
  io_read_cb h nread c info w = (read_call h nread c info;; read_rest h nread) w.
Proof.
  unfold io_read_cb, read_call, read_rest, mbind, M_bind.
  destruct (mod_h _ _ w) as [? w1| | | |]; try done. destruct (get_io h w1) as [p w2| | | |]; try done.
  destruct (c.1 =? 0); [by destruct (buffer_create [] w2)|done].
Qed.

Lemma wp_read_rest h nread F X (Q : unit → world → Prop) w :
  Inv F X w → (0 < nread → live F w (TH h)) → (∀ w', Inv F X w' → Q tt w') →
  wp (read_rest h nread) Q w.
Proof.
  intros I L HQ. unfold read_rest. destruct (Z.ltb_spec 0 nread); cbn [when]; [|by apply wp_ret, HQ].
  by eapply wp_mod_io_quiet; [|apply L| |].
Qed.

Lemma wp_read_call h nread base len info p io f F X (Q : unit → world → Prop) w :
  Inv (TB (uv_buf_from base) :: F) X w → live F w (TH h) →
  h_props <$> w_handles w !! h = Some p →
  io_of p = Some io → io_on_read io = Some f → base ≠ 0 →
  (∀ w', Inv F X w' → Q tt w') → wp (read_call h nread (base, len) info) Q w.
Proof.
  intros I L HP Hio Hf Hb HQ. unfold read_call, get_io.
  apply (live_cnt F (TB (uv_buf_from base) :: F)) in L; [|intros; cbn; lia].
  destruct (live_handle _ _ _ h I L) as (i & Hi).
  wp_struct. wp_struct. set (w1 := upd_handles _ w).
  assert (wsame w w1) as S by by eapply wsame_handle. rewrite S in I.
  rewrite (wsame_sim _ _ S) in L. rewrite (sim_hprops _ _ h (proj1 (wsame_sim _ _ S))) in HP.
  do 2 wp_struct. eapply wp_properties; [done|]. rewrite Hio. do 2 wp_struct. cbn [fst].
  rewrite (proj2 (Z.eqb_neq _ _) Hb). wp_struct. unfold call_read_cb. rewrite Hf.
  wp_struct. apply (wp_tok_ref (TH h) (TB (uv_buf_from base) :: F) X); [done..|].
  intros w2 S2 I2. by eapply (wp_invoke _ _ F X).
Qed.

Lemma wp_io_read_cb h nread base len info p io f F X (Q : unit → world → Prop) w :
  Inv (TB (uv_buf_from base) :: F) X w → TH h ∈ F → h_props <$> w_handles w !! h = Some p →
  io_of p = Some io → io_on_read io = Some f → base ≠ 0 →
  (∀ w', Inv F X w' → Q tt w') → wp (io_read_cb h nread (base, len) info) Q w.
Proof.
  intros I L HP Hio Hf Hb HQ. unfold wp. rewrite io_read_cb_split. apply wp_bind.
  eapply wp_read_call; [done|by apply live_frame|done..|]. intros w1 I1.
  eapply wp_read_rest; eauto with ledger.
Qed.


End callbacks.
