(* ===== verification/FileRead.v ===== *)
(** * Reading of files

    [file::file_read] of src/include/uvcc/handle-fs.hpp asks the client for a buffer and hands it
    to libuv with the request that is embedded in the handle instance; its callback
    [file::read_cb] delivers the chunk and, while the file is reading, asks for the next one. *)

From Stdlib Require Import ZArith Lia.
From stdpp Require Import base gmap list strings option.
From S2P Require Import Prelude World Objects Ledger Wp Refs Release Rules HRules.
From S2P Require Import Buffer HandleMisc Handle Trace Io ReadCb.

Local Open Scope Z_scope.

(** The request that is pending while libuv reads into the chunk [c]. *)
Definition reading_into (h : loc) (c : Z * Z) : armed :=
  {| arm_cb := cb_file_read; arm_obj := h; arm_toks := [TB (uv_buf_from c.1)] |}.

(** What a read that returned [z] leaves behind: the reference to the buffer is pending with
    the callback, or, when libuv has refused the request, nobody has it. *)
Definition read_left (h : loc) (F : list token) (X : list dying) (z : Z) (c : Z * Z) (w : world) :
    Prop :=
  if z <? 0 then Inv (TB (uv_buf_from c.1) :: F) X w
  else Inv F X w ∧ reading_into h c ∈ w_armed w.

Section reading.
Context `{E : Env} `{EO : !EnvOk} `{AO : !AllocOk}.

Lemma wp_file_read h io f a F X (Q : Z → world → Prop) w :
  Inv F X w → TH h ∈ F → h_props <$> w_handles w !! h = Some (P_file io f) →
  io_on_alloc io = Some a → fi_rd_data f = Some h → reading (io_rdcmd io) = true →
  (∀ z c w', c.1 ≠ 0 → h_props <$> w_handles w' !! h = Some (P_file io (set_rd_buf c f)) →
    read_left h F X z c w' → Q z w') →
  wp (file_read h) Q w.
Proof.
  intros I L HP Ha Hd Hr HQ. unfold file_read. wp_struct.
  eapply wp_io_alloc_cb; [done|by apply anchored_frame|done..|]. intros c w1 Hc I1 HP1. wp_struct. unfold mod_file.
  assert (∀ w, live (TB (uv_buf_from c.1) :: F) w (TH h)) as LH.
  { intros v. apply live_frame. by right. }
  eapply wp_mod_props; [exact I1|apply LH|exact HP1|done..|by apply reads_kept_same|].
  intros w2 I2 W2 _. pose proof (wr_props _ _ _ _ W2) as HP2. cbn [map_file] in HP2. wp_struct.
  destruct (live_handle _ _ _ h I2 (LH _)) as (i & Hi). eapply wp_get_h; [done|].
  wp_struct. unfold get_io. wp_struct. eapply wp_properties; [done|]. cbn [io_of]. wp_struct.
  unfold uv_submit. wp_struct. apply wp_uv_call. intros z w3 S3. wp_struct.
  pose proof S3 as S3'. apply wsame_sim in S3' as [Sp Sd]. rewrite S3 in I2.
  rewrite (sim_hprops _ _ h Sp) in HP2.
  destruct (Z.leb_spec 0 z) as [Hz|Hz]; cbn [when].
  - apply wp_modify, wp_ret, (HQ z c); [done|done|]. unfold read_left.
    rewrite (proj2 (Z.ltb_ge z 0)) by done. split; [|by left].
    apply (Inv_arm (reading_into h c)); [exact I2|].
    apply fmap_Some in HP2 as (j & Hj & HPj). exists (uv_buf_from c.1). split; [done|].
    exists j, io, (set_rd_buf c f). split_and!; [done..|].
    rewrite hinst_toks_live.
    + unfold props_toks. rewrite <-HPj. cbn. rewrite Hr. by left.
    + eapply live_refs; [exact I2|apply LH|done].
  - do 2 apply wp_ret. apply (HQ z c); [done|done|]. unfold read_left.
    by rewrite (proj2 (Z.ltb_lt z 0)).
Qed.

(** C26: A file that is reading hands its client's buffer to libuv together with the
    reference that was taken for it; when libuv refuses the request this reference is
    left over. *)
Theorem file_read_ok h io f a F X w :
  Inv F X w → TH h ∈ F → h_props <$> w_handles w !! h = Some (P_file io f) →
  io_on_alloc io = Some a → fi_rd_data f = Some h → reading (io_rdcmd io) = true →
  wp (file_read h) (λ z w', ∃ c, c.1 ≠ 0 ∧
    h_props <$> w_handles w' !! h = Some (P_file io (set_rd_buf c f)) ∧
    read_left h F X z c w') w.
Proof.
  intros I L HP Ha Hd Hr. eapply wp_file_read; [done..|]. intros z c w' Hc HP' H'. by exists c.
Qed.
End reading.
