(* ===== verification/Commands.v ===== *)
(** * Start and stop of the event handles

    What the start and stop commands of idle, prepare, check, poll, fs_event, signal
    and timer handles do: the calls of libuv they make, the state and the status they leave
    behind, and the reference a started handle has on itself. *)

From Stdlib Require Import ZArith Lia.
From stdpp Require Import base gmap list strings option.
From S2P Require Import Prelude World Objects Ledger Wp Refs Release Rules HRules.
From S2P Require Import HandleMisc Trace.

Local Open Scope Z_scope.

(** References of a handle that are not its own. *)
Definition foreign_refs (i : hinst) : Z := h_refs i - (if props_self (h_props i) then 1 else 0).

(** [h] was [i] in [w0]; a command has left the properties [p], the status [err] and the trace
    [L], and everything else as it was. *)
Definition commanded (w0 : world) (h : loc) (i : hinst) (p : props) (err : Z) (L : list event)
    (w : world) : Prop :=
  w_log w = L ∧ aside h w0 w ∧ ∃ i', w_handles w !! h = Some i' ∧ h_props i' = p ∧ h_uv_error i' = err ∧
    foreign_refs i' = foreign_refs i.

Lemma commanded_intro w0 h i p err L w i' L' :
  at_h w0 h i' L' w → L' = L → h_props i' = p → h_uv_error i' = err →
  foreign_refs i' = foreign_refs i → commanded w0 h i p err L w.
Proof. intros ((u & Hu) & <- & HA) <- <- <- Hr. split; [done|]. split; [done|]. by eexists. Qed.

(** The handle is owned by somebody besides itself. *)
Definition owned_elsewhere (i : hinst) : Prop := 0 < foreign_refs i.

(** A return value that is an error. *)
Definition failed (z : Z) : bool := z <? 0.

(** [command_start Hi i]: follow the handle [i]; [command_run]: up to a status that decides;
    [command_end]: compare with the specification. *)
Ltac command_start Hi i :=
  lazymatch type of Hi with
  | w_handles ?w !! _ = _ =>
      let At := fresh "At" in
      pose proof (at_h_here _ _ _ Hi) as At; revert At; generalize (w_log w);
      let L := fresh "L" in intros L At; clear Hi;
      destruct i as [er rf dc pp fc lo ui]; cbn in *; subst pp;
      unfold owned_elsewhere, foreign_refs in *; cbn in *
  end.
Ltac command_run := repeat (progress (wp_at; cbn [h_props set_h_error set_h_refs set_h_props])).
Ltac command_end :=
  eapply commanded_intro; [eassumption|reflexivity|..]; cbn; try reflexivity;
  unfold foreign_refs; cbn; lia.

Section commands.
Context `{E : Env}.

(** ** idle, prepare, check, poll *)

(** start() of an idle, prepare, check or poll handle: one call of libuv whose
    answer is returned; on success the handle is started and holds one reference on
    itself, on failure it holds none and the error is the status, whatever state it was
    in before. *)
Theorem watcher_start_ok h rest i k st c w :
  w_handles w !! h = Some i → h_props i = P_watcher k st c → owned_elsewhere i →
  let fn := f_watcher_start k in
  let args := V_handle (Some h) :: rest ++ [V_self_cb] in
  wp (watchers.start h rest) (λ z w',
    z = uv_ret (w_log w) fn args ∧
    commanded w h i (P_watcher k (if failed z then OP_UNKNOWN else OP_START) c)
      (if failed z then z else 0) (uv_called fn args (w_log w)) w') w.
Proof.
  intros Hi Hp Ho. command_start Hi i. unfold watchers.start, failed.
  destruct st; cbn in Ho; command_run.
  all: destruct (_ <? 0) eqn:Hz; cbn [when]; command_run.
  all: split; [reflexivity|].
  all: rewrite Hz; command_end.
Qed.

Theorem watcher_stop_ok h i k st c w :
  w_handles w !! h = Some i → h_props i = P_watcher k st c → owned_elsewhere i →
  let fn := f_watcher_stop k in
  let args := [V_handle (Some h)] in
  wp (watchers.stop h) (λ z w',
    z = uv_ret (w_log w) fn args ∧
    commanded w h i (P_watcher k OP_STOP c) z (uv_called fn args (w_log w)) w') w.
Proof.
  intros Hi Hp Ho. command_start Hi i. unfold watchers.stop.
  destruct st; cbn in Ho; command_run.
  all: split; [reflexivity|command_end].
Qed.

(** ** fs_event: a second start is a stop followed by a start *)

(** fs_event::start on a started handle stops it first, then makes the one call to
    start; the self reference and the state follow the answer of libuv. *)
Theorem fs_event_start_ok h i st fl path c w :
  w_handles w !! h = Some i → h_props i = P_fs_event st fl path c → owned_elsewhere i →
  let L := if op_started st then uv_called f_fs_event_stop [V_handle (Some h)] (w_log w)
           else w_log w in
  let args := [V_handle (Some h); V_self_cb; V_str (Some path); V_int fl] in
  wp (fs_event.start h) (λ z w',
    z = uv_ret L f_fs_event_start args ∧
    commanded w h i (P_fs_event (if failed z then OP_UNKNOWN else OP_START) fl path c)
      (if failed z then z else 0) (uv_called f_fs_event_start args L) w') w.
Proof.
  intros Hi Hp Ho. command_start Hi i. unfold fs_event.start, failed.
  destruct st; cbn in Ho; command_run.
  all: destruct (_ <? 0) eqn:Hz; cbn [when]; command_run.
  all: split; [reflexivity|].
  all: rewrite Hz; command_end.
Qed.

Theorem fs_event_stop_ok h i st fl path c w :
  w_handles w !! h = Some i → h_props i = P_fs_event st fl path c → owned_elsewhere i →
  wp (fs_event.stop h) (λ z w',
    z = uv_ret (w_log w) f_fs_event_stop [V_handle (Some h)] ∧
    commanded w h i (P_fs_event OP_STOP fl path c) z
      (uv_called f_fs_event_stop [V_handle (Some h)] (w_log w)) w') w.
Proof.
  intros Hi Hp Ho. command_start Hi i. unfold fs_event.stop.
  destruct st; cbn in Ho; command_run.
  all: split; [reflexivity|command_end].
Qed.

(** ** signal *)

(** signal::start and start_oneshot: one call of libuv; on success the handle is in
    the state of the command and holds one reference on itself, on failure the state is
    UNKNOWN and it holds none. *)
Theorem signal_start_ok h cmd i st n c w :
  w_handles w !! h = Some i → h_props i = P_signal st n c → owned_elsewhere i →
  sig_started cmd = true →
  let args := [V_handle (Some h); V_self_cb; V_int n] in
  wp (signal.start_with h cmd) (λ z w',
    z = uv_ret (w_log w) f_signal_start args ∧
    commanded w h i (P_signal (if failed z then SG_UNKNOWN else cmd) n c)
      (if failed z then z else 0) (uv_called f_signal_start args (w_log w)) w') w.
Proof.
  intros Hi Hp Ho Hc. command_start Hi i. unfold signal.start_with, failed.
  destruct cmd, st; try done; cbn in Ho; command_run.
  all: destruct (_ <? 0) eqn:Hz; cbn [when]; command_run.
  all: split; [reflexivity|].
  all: rewrite Hz; command_end.
Qed.

(** A command that does not start anything is refused before anything happens. *)
Theorem signal_start_invalid h cmd w :
  sig_started cmd = false → signal.start_with h cmd w = Exn X_invalid_argument w.
Proof. by destruct cmd. Qed.

Theorem signal_stop_ok h i st n c w :
  w_handles w !! h = Some i → h_props i = P_signal st n c → owned_elsewhere i →
  wp (signal.stop h) (λ z w',
    z = uv_ret (w_log w) f_signal_stop [V_handle (Some h)] ∧
    commanded w h i (P_signal SG_STOP n c) z
      (uv_called f_signal_stop [V_handle (Some h)] (w_log w)) w') w.
Proof.
  intros Hi Hp Ho. command_start Hi i. unfold signal.stop.
  destruct st; cbn in Ho; command_run.
  all: split; [reflexivity|command_end].
Qed.

(** ** timer: the repeat interval libuv knows is the one it is started with again *)

(** timer::start restarts the timer with the repeat interval libuv has for it; on
    success the timer holds exactly one reference on itself, on failure none. *)
Theorem timer_start_ok h timeout i b c w :
  w_handles w !! h = Some i → h_props i = P_timer b c → owned_elsewhere i →
  let rep := uv_ret (w_log w) f_timer_get_repeat [V_handle (Some h)] in
  let L := uv_called f_timer_get_repeat [V_handle (Some h)] (w_log w) in
  let args := [V_handle (Some h); V_self_cb; V_int timeout; V_int rep] in
  wp (timer.start h timeout) (λ z w',
    z = uv_ret L f_timer_start args ∧
    commanded w h i (P_timer (negb (failed z)) c) (if failed z then z else 0)
      (uv_called f_timer_start args L) w') w.
Proof.
  intros Hi Hp Ho. command_start Hi i. unfold timer.start, failed.
  destruct b; cbn in Ho; command_run; cbn [negb when]; command_run.
  all: destruct (_ <? 0) eqn:Hz; cbn [when]; command_run.
  all: split; [reflexivity|].
  all: rewrite Hz; command_end.
Qed.

Theorem timer_stop_ok h i b c w :
  w_handles w !! h = Some i → h_props i = P_timer b c → owned_elsewhere i →
  wp (timer.stop h) (λ z w',
    z = uv_ret (w_log w) f_timer_stop [V_handle (Some h)] ∧
    commanded w h i (P_timer false c) z
      (uv_called f_timer_stop [V_handle (Some h)] (w_log w)) w') w.
Proof.
  intros Hi Hp Ho. command_start Hi i. unfold timer.stop.
  destruct b; cbn in Ho; command_run.
  all: split; [reflexivity|command_end].
Qed.
End commands.
