(* ===== verification/Client.v ===== *)
(** * A client and a libuv

    A simple environment that meets the conditions the theorems put on environments
    ([EnvOk], [AllocOk]), an executable check of the ledger, and a small state with one
    object of every family. *)

From Stdlib Require Import ZArith Lia.
From stdpp Require Import base gmap list strings option.
From S2P Require Import Prelude World Objects Ledger Wp Refs Release Rules Buffer Io.
From S2P Require Import ReadCb.

Local Open Scope Z_scope.

(** ** The environment *)

Definition init_type (f : uvfn) : uv_handle_type :=
  match f with
  | f_tcp_init | f_tcp_init_ex => UV_TCP
  | f_pipe_init => UV_NAMED_PIPE
  | f_tty_init => UV_TTY
  | f_udp_init | f_udp_init_ex => UV_UDP
  | f_async_init => UV_ASYNC
  | f_timer_init => UV_TIMER
  | f_watcher_init W_idle => UV_IDLE
  | f_watcher_init W_prepare => UV_PREPARE
  | f_watcher_init W_check => UV_CHECK
  | f_watcher_init W_poll => UV_POLL
  | f_fs_event_init => UV_FS_EVENT
  | f_signal_init => UV_SIGNAL
  | _ => UV_UNKNOWN_HANDLE
  end.

Definition set_uh_init (t : uv_handle_type) (l : loc) (u : uv_handle_t) : uv_handle_t :=
  {| uh_type := t; uh_loop := Some l; uh_data := uh_data u;
     uh_queue_size := uh_queue_size u; uh_ipc := uh_ipc u; uh_signum := uh_signum u;
     uh_pid := uh_pid u; uh_result := uh_result u; uh_path := uh_path u |}.

(** A libuv that accepts everything, at once. *)
Definition accept_all (f : uvfn) (args : list uvarg) : uv_reply :=
  match f, args with
  | f_is_closing, _ => {| rp_ret := 1; rp_out := []; rp_writes := [] |}
  | _, V_loop (Some l) :: V_handle (Some h) :: _ =>
      {| rp_ret := 0; rp_out := [];
         rp_writes := if is_init f then [UW_handle h (set_uh_init (init_type f) l)] else [] |}
  | _, _ => {| rp_ret := 0; rp_out := []; rp_writes := [] |}
  end.

(** A client whose functions do nothing, and whose allocation function makes a new buffer. *)
#[global] Instance simple_env : Env := {
  uv_exec _ f args := accept_all f args;
  uv_walk_handles _ _ := [];
  uv_run _ _ := mret 0;
  user_cb _ args := mret args;
  user_alloc _ ho size := b ← new_chunk size; mret (ho, Some b);
  run_fuel := 1
}.

Lemma arg_shape_refl l : Forall2 arg_shape l l.
Proof. induction l as [|a l IH]; constructor; [|done]. by destruct a as [[]| |]. Qed.

#[global] Instance simple_env_ok : EnvOk.
Proof.
  refine {| run_left _ _ := 0%nat |}; cbn.
  - intros id args F X w I. split; [done|]. split; [apply arg_shape_refl|by left].
  - intros log f l h rest w i Hf Hi _. destruct f; try done; cbn;
      by rewrite lookup_alter_eq, Hi.
  - intros log f args h w Hf. assert (rp_writes (accept_all f args) = []) as ->; [|done].
    unfold accept_all. rewrite Hf. by repeat case_match.
  - done.
  - intros F X w l h es _ _ Hh. by apply not_elem_of_nil in Hh.
  - lia.
  - intros l F X w I _. done.
Qed.

#[global] Instance simple_alloc_ok : AllocOk.
Proof.
  split. intros f h size F X w I. apply wp_bind. eapply wp_mono; [by eapply (wp_new_chunk size h)|].
  intros b w1 H. by apply wp_ret, chunk_lent_contract.
Qed.

(** ** An executable check of the ledger *)

(** All references recorded in a state. *)
Definition owners (w : world) : list token :=
  ((map_to_list (w_vars w)).*2 ≫= ptr_toks) ++
  (map_to_list (w_handles w) ≫= λ '(h, i), hinst_toks h i) ++
  (w_armed w ≫= arm_toks).

Definition keys (w : world) : list token :=
  (TH <$> (map_to_list (w_handles w)).*1) ++ (TR <$> (map_to_list (w_reqs w)).*1) ++
  (TB <$> (map_to_list (w_bufs w)).*1) ++ (TL <$> (map_to_list (w_loops w)).*1).

Definition endpoint_check (w : world) (o : option loc) : bool :=
  match o with
  | Some e => match w_handles w !! e with Some j => not_process (h_props j) | None => false end
  | None => true
  end.

Lemma endpoint_check_sound w o : endpoint_check w o = true → endpoint_ok w o.
Proof. destruct o as [e|]; cbn; [|done]. destruct (w_handles w !! e) as [j|]; [by exists j|done]. Qed.

Definition inv_check (F : list token) (w : world) : bool :=
  let os := owners w ++ F in
  forallb (λ t, match refs_of w t with
                | Some n => (0 <? n) && (n =? Z.of_nat (cnt t os)) && (tok_addr t <? w_brk w)
                | None => false end) (keys w) &&
  forallb (λ t, match refs_of w t with Some _ => true | None => false end) os &&
  forallb (λ '(_, i), forallb (endpoint_check w) (props_endpoints (h_props i)))
    (map_to_list (w_handles w)) &&
  (0 <=? w_brk w).

Lemma msum_list `{Countable K} {V} (f : K → V → nat) (m : gmap K V) :
  msum f m = foldr (λ '(k, x) acc, (f k x + acc)%nat) 0%nat (map_to_list m).
Proof.
  unfold msum. rewrite map_fold_foldr. induction (map_to_list m) as [|[k x] l IH]; [done|].
  cbn. by rewrite IH.
Qed.

Lemma cnt_bind {A} (f : A → list token) t l :
  cnt t (l ≫= f) = foldr (λ x acc, (cnt t (f x) + acc)%nat) 0%nat l.
Proof. induction l as [|x l IH]; [done|]. cbn. rewrite cnt_app, <-IH. done. Qed.

Lemma owned_owners w t : owned w t = cnt t (owners w).
Proof.
  unfold owned, owners. rewrite !cnt_app, !msum_list, <-Nat.add_assoc. f_equal; [|f_equal].
  - rewrite cnt_bind. induction (map_to_list (w_vars w)) as [|[x p] l IH]; [done|].
    cbn. by rewrite IH.
  - rewrite cnt_bind. induction (map_to_list (w_handles w)) as [|[x p] l IH]; [done|].
    cbn. by rewrite IH.
Qed.

Lemma refs_of_keys w t n : refs_of w t = Some n → t ∈ keys w.
Proof.
  unfold keys. intros H. destruct t as [x|x|x|x]; cbn in H;
    apply fmap_Some in H as (i & Hi & _); rewrite !elem_of_app;
    [left|right; left|right; right; left|right; right; right];
    apply list_elem_of_fmap_2, list_elem_of_fmap; exists (x, i);
    (split; [done|by apply elem_of_map_to_list]).
Qed.

Lemma cnt_zero t l : t ∉ l → cnt t l = 0%nat.
Proof. intros H. destruct (cnt t l) eqn:E; [done|]. exfalso. apply H, cnt_elem. lia. Qed.

(** The check is sound. *)
Lemma inv_check_sound F w :
  inv_check F w = true → Forall (arm_ok w) (w_armed w) → Inv F [] w.
Proof.
  unfold inv_check. rewrite !andb_true_iff, !forallb_forall. intros [[[Hk Ho] Hp] Hb] Ha.
  assert (Hrefs : ∀ t n, refs_of w t = Some n →
    0 < n ∧ n = Z.of_nat (cnt t (owners w ++ F)) ∧ tok_addr t < w_brk w).
  { intros t n Hn. specialize (Hk t). rewrite Hn in Hk.
    rewrite !andb_true_iff, Z.ltb_lt, Z.eqb_eq, Z.ltb_lt in Hk.
    destruct Hk as [[? ?] ?]; [|done]. apply list_elem_of_In. by eapply refs_of_keys. }
  split.
  - intros t. unfold total. rewrite owned_owners, <-cnt_app. cbn. rewrite Nat.add_0_r.
    destruct (refs_of w t) as [n|] eqn:Hn.
    + destruct (Hrefs _ _ Hn) as (? & ? & _). split; [done|lia].
    + apply cnt_zero. intros Hin%list_elem_of_In. specialize (Ho t Hin). by rewrite Hn in Ho.
  - constructor.
  - constructor.
  - intros t Ht. destruct (refs_of w t) as [n|] eqn:Hn; [|done].
    destruct (Hrefs _ _ Hn) as (_ & _ & ?). lia.
  - done.
  - intros h i Hi _. specialize (Hp (h, i)). cbn in Hp. rewrite forallb_forall in Hp.
    rewrite list.Forall_forall. intros o Hin. apply endpoint_check_sound, Hp.
    + by apply list_elem_of_In, elem_of_map_to_list.
    + by apply list_elem_of_In.
  - by apply Z.leb_le.
Qed.

(** ** A state with one object of every family *)

Definition a_loop : loc := 112.
Definition a_handle : loc := 208.
Definition a_request : loc := 304.
Definition a_buffer : loc := 448.

Definition sample_handle (f : iface) (p : props) (cbs : cb) : hinst :=
  {| h_uv_error := 0; h_refs := if props_self p then 2 else 1; h_destroy_cb := cbs;
     h_props := p; h_iface := f; h_loop := Some a_loop;
     h_uv := set_uh_init UV_TCP a_loop uv_handle_zero |}.
Definition sample_request (p : rprops) (c : cb) (u : uv_req_t) : rinst :=
  {| r_uv_error := 0; r_refs := 1; r_destroy_cb := None; r_request_cb := c; r_props := p; r_offset := 0;
     r_uv := u |}.

(** The client has a variable for each of them. *)
Definition sample (f : iface) (p : props) (rp : rprops) (c : cb) (u : uv_req_t) : world :=
  {| w_handles := {[ a_handle := sample_handle f p None ]};
     w_reqs := {[ a_request := sample_request rp c u ]};
     w_bufs := {[ a_buffer := {| b_refs := 1; b_sink_cb := None; b_bufs := [(464, 64)] |} ]};
     w_loops := {[ a_loop := {| l_uv_error := 0; l_refs := 2; l_destroy_cb := None;
                                l_exit_cb := None; l_uv := uv_loop_zero |} ]};
     w_vars := list_to_map [(1%positive, PL (Some a_loop)); (2%positive, PH (Some a_handle));
                            (3%positive, PR (Some a_request)); (4%positive, PB (Some a_buffer))];
     w_armed := []; w_brk := 4096; w_unwinding := false; w_log := [] |}.

(** The request of libuv at work on the handle. *)
Definition sample_uv_req : uv_req_t :=
  {| ur_type := UV_WRITE; ur_fs_type := UV_FS_UNKNOWN; ur_data := 0; ur_handle := Some a_handle;
     ur_send_handle := None; ur_loop := Some a_loop; ur_result := 0; ur_path := None;
     ur_addrinfo := 0 |}.

(** ... whose references have gone to the running code. *)
Definition taken_handle (w : world) : world := upd_vars (delete 2%positive) w.
Definition taken_request (w : world) : world := upd_vars (delete 3%positive) w.
Definition taken_buffer (w : world) : world := upd_vars (delete 4%positive) w.

Definition stream_io (st : rdcmd) : io_props :=
  {| io_rdlock := false; io_rdcmd := st; io_rdsize := 0; io_rdoffset := 0;
     io_on_alloc := Some 1; io_on_read := Some 2 |}.
Definition sample_stream (st : rdcmd) : world :=
  sample If_stream (P_stream (stream_io st) None) R_none None uv_req_zero.

Lemma sample_stream_ok : Inv [] [] (sample_stream RD_START).
Proof. apply inv_check_sound; [by vm_compute|constructor]. Qed.
