(* ===== verification/Stream.v ===== *)
(** * Streams and sockets: stream, tcp, pipe, tty, udp

    src/include/uvcc/handle-stream.hpp and handle-udp.hpp; [io::guess_handle] of handle-io.hpp. *)

From Stdlib Require Import ZArith Lia.
From stdpp Require Import base gmap list strings option.
From S2P Require Import Prelude World Objects Ledger Wp Refs Release Rules HRules.
From S2P Require Import Buffer HandleMisc Handle Trace Io.

Local Open Scope Z_scope.

(** The numbers of [uv_handle_type] in uv.h. *)
Definition uv_handle_type_of (z : Z) : uv_handle_type :=
  match z with
  | 1 => UV_ASYNC | 2 => UV_CHECK | 3 => UV_FS_EVENT | 4 => UV_FS_POLL | 5 => UV_HANDLE
  | 6 => UV_IDLE | 7 => UV_NAMED_PIPE | 8 => UV_POLL | 9 => UV_PREPARE | 10 => UV_PROCESS
  | 11 => UV_STREAM | 12 => UV_TCP | 13 => UV_TIMER | 14 => UV_TTY | 15 => UV_UDP
  | 16 => UV_SIGNAL | 17 => UV_FILE | _ => UV_UNKNOWN_HANDLE
  end.

Definition bool_Z (b : bool) : Z := if b then 1 else 0.

Module stream.
Section stream.
Context `{E : Env}.

Definition set_connection_cb (c : cb) (p : props) : props :=
  match p with P_stream io _ => P_stream io c | _ => p end.

Definition create : M loc := handle_create If_stream (P_stream io_props_init None).

Definition listen (h : loc) (backlog : Z) (c : cb) : M Z :=
  mod_props h (set_connection_cb c);;
  _ ← handle_uv_status h 0;
  uv_ret ← uv_call f_listen [V_handle (Some h); V_int backlog; V_self_cb];
  when (uv_ret <? 0) (_ ← handle_uv_status h uv_ret; mret tt);;
  mret uv_ret.

Definition connection_cb (h : loc) (status : Z) : M unit :=
  mod_h h (set_h_error status);;
  p ← properties h;
  match p with
  | P_stream _ c => call_handle_cb h c []
  | _ => undefined UB_type
  end.

Definition write_queue_size (h : loc) : M Z := i ← get_h h; mret (uh_queue_size (h_uv i)).
Definition is_readable (h : loc) : M bool :=
  z ← handle_call h f_is_readable []; mret (negb (z =? 0)).
Definition is_writable (h : loc) : M bool :=
  z ← handle_call h f_is_writable []; mret (negb (z =? 0)).
Definition set_blocking (h : loc) (enable : bool) : M Z :=
  handle_call h f_set_blocking [V_int (bool_Z enable)].

(** A client handle of the same kind: created, initialised on the loop of [server], and
    the loop booked unless that failed. *)
Definition accept_as (server : loc) (f : uvfn) (rest : hinst → list uvarg) : M (option loc) :=
  client ← create;
  i ← get_h server;
  z ← uv_call f (V_loop (uh_loop (h_uv i)) :: V_handle (Some client) :: rest i);
  _ ← handle_uv_status client z;
  ok ← handle_bool (Some client);
  when ok (book_loop client);;
  mret (Some client).

(** The end of [accept()] and of [accept_pending_handle()]. *)
Definition accept_into (server : loc) (client : option loc) : M (option loc) :=
  ok ← handle_bool client;
  (if negb ok then
     c ← deref client;
     e ← uv_status c;
     _ ← handle_uv_status server e; mret tt
   else
     c ← deref client;
     uv_ret ← uv_call f_accept [V_handle (Some server); V_handle (Some c)];
     z ← handle_uv_status server uv_ret;
     when (z <? 0) (_ ← handle_uv_status c uv_ret; mret tt));;
  mret client.

Definition accept (h : loc) : M (option loc) :=
  i ← get_h h;
  client ← match uh_type (h_uv i) with
           | UV_NAMED_PIPE => accept_as h f_pipe_init (λ i, [V_int (uh_ipc (h_uv i))])
           | UV_TCP => accept_as h f_tcp_init (λ _, [])
           | UV_TTY | _ => undefined UB_null        (* client.uv_status(..) of a void variable *)
           end;
  accept_into h client.
End stream.
End stream.

(** ** Buffer sizes of the operating system: tcp, pipe and udp have the same four members *)

Module sock.
Section sock.
Context `{E : Env}.
Definition uint32 (z : Z) : Z := z mod 2^32.

Definition send_buffer_size (h : loc) : M Z :=
  v ← handle_call_out h f_send_buffer_size 0; mret (uint32 v).
Definition set_send_buffer_size (h : loc) (v : Z) : M unit :=
  _ ← handle_call h f_send_buffer_size [V_int v]; mret tt.
Definition recv_buffer_size (h : loc) : M Z :=
  v ← handle_call_out h f_recv_buffer_size 0; mret (uint32 v).
Definition set_recv_buffer_size (h : loc) (v : Z) : M unit :=
  _ ← handle_call h f_recv_buffer_size [V_int v]; mret tt.
End sock.
End sock.

Module tcp.
Section tcp.
Context `{E : Env}.

(** [tcp(loop&, unsigned _flags)] *)
Definition new (l : loc) (flags : Z) : M loc :=
  h ← stream.create;
  handle_init h f_tcp_init_ex l [V_int flags] (mret tt);;
  mret h.

(** [tcp(loop&, uv_os_sock_t, bool _set_blocking)] *)
Definition open (l : loc) (socket : Z) (set_blocking : bool) : M loc :=
  h ← stream.create;
  uv_ret ← uv_call f_tcp_init [V_loop (Some l); V_handle (Some h)];
  z ← handle_uv_status h uv_ret;
  (if z <? 0 then mret tt
   else
     book_loop h;;
     z ← handle_call h f_tcp_open [V_int socket];
     if z <? 0 then mret tt
     else when set_blocking (_ ← stream.set_blocking h set_blocking; mret tt));;
  mret h.

Definition nodelay (h : loc) (enable : bool) : M Z :=
  handle_call h f_tcp_nodelay [V_int (bool_Z enable)].
Definition keepalive (h : loc) (enable : bool) (delay : Z) : M Z :=
  handle_call h f_tcp_keepalive [V_int (bool_Z enable); V_int delay].
Definition simultaneous_accepts (h : loc) (enable : bool) : M Z :=
  handle_call h f_tcp_simultaneous_accepts [V_int (bool_Z enable)].
Definition bind (h : loc) (sockaddr flags : Z) : M Z :=
  handle_call h f_tcp_bind [V_int sockaddr; V_int flags].

(** [getsockname(_T_&)] and [getpeername(_T_&)]: [size] is [sizeof(_T_)], the length
    libuv stores is compared as a [std::size_t]. *)
Definition get_name (h : loc) (f : uvfn) (size : Z) : M bool :=
  r ← uv_call_out f [V_handle (Some h); V_int size];
  z ← handle_uv_status h (fst r);
  mret (negb (z =? 0) && (w64 (default size (head (snd r))) <=? size)).
Definition getsockname (h : loc) (size : Z) : M bool := get_name h f_tcp_getsockname size.
Definition getpeername (h : loc) (size : Z) : M bool := get_name h f_tcp_getpeername size.
End tcp.
End tcp.

Module pipe.
Section pipe.
Context `{E : Env}.

(** [pipe(loop&, bool _ipc)] *)
Definition new (l : loc) (ipc : bool) : M loc :=
  h ← stream.create;
  handle_init h f_pipe_init l [V_int (bool_Z ipc)] (mret tt);;
  mret h.

(** [pipe(loop&, name, ipc)] *)
Definition bound (l : loc) (name : option string) (ipc : bool) : M loc :=
  h ← new l ipc;
  e ← uv_status h;
  (if e <? 0 then mret tt
   else _ ← handle_call h f_pipe_bind [V_str name]; mret tt);;
  mret h.

(** [pipe(loop&, uv_file, ipc, set_blocking)] *)
Definition open (l : loc) (fd : Z) (ipc set_blocking : bool) : M loc :=
  h ← new l ipc;
  e ← uv_status h;
  (if e <? 0 then mret tt
   else
     z ← handle_call h f_pipe_open [V_int fd];
     if z <? 0 then mret tt
     else when set_blocking (_ ← stream.set_blocking h set_blocking; mret tt));;
  mret h.

Definition ipc (h : loc) : M Z := i ← get_h h; mret (uh_ipc (h_uv i)).

(** [std::string::resize(len, '\0')] *)
Definition resize (len : nat) (s : list Z) : list Z :=
  take len s ++ replicate (len - length s) 0.
(** The characters libuv writes to the beginning of the buffer. *)
Definition overwrite (bytes s : list Z) : list Z :=
  take (length s) bytes ++ drop (length bytes) s.

(** The loop of [getsockname()] and [getpeername()]; libuv answers with the length
    and the characters. *)
Fixpoint name_loop (fuel : nat) (h : loc) (f : uvfn) (len : Z) (name : list Z) : M (list Z) :=
  match fuel with
  | O => hang
  | S fuel' =>
      r ← uv_call_out f [V_handle (Some h); V_int len];
      z ← handle_uv_status h (fst r);
      let len' := default len (head (snd r)) in
      let name' := overwrite (drop 1 (snd r)) name in
      if (z <? 0) && (z =? UV_ENOBUFS)
      then name_loop fuel' h f len' (resize (Z.to_nat len') name')
      else mret name'
  end.
Definition getsockname (h : loc) : M (list Z) :=
  name_loop run_fuel h f_pipe_getsockname 108 (replicate 108 0).
Definition getpeername (h : loc) : M (list Z) :=
  name_loop run_fuel h f_pipe_getpeername 108 (replicate 108 0).

Definition pending_instances (h : loc) (count : Z) : M unit :=
  _ ← uv_call f_pipe_pending_instances [V_handle (Some h); V_int count]; mret tt.
Definition pending_handle_count (h : loc) : M Z :=
  uv_call f_pipe_pending_count [V_handle (Some h)].

Definition accept_pending_handle (h : loc) : M (option loc) :=
  t ← uv_call f_pipe_pending_type [V_handle (Some h)];
  fd ← match uv_handle_type_of t with
       | UV_NAMED_PIPE => stream.accept_as h f_pipe_init (λ i, [V_int (uh_ipc (h_uv i))])
       | UV_TCP => stream.accept_as h f_tcp_init (λ _, [])
       | _ => undefined UB_null                     (* fd.uv_status(..) of a void variable *)
       end;
  stream.accept_into h fd.
End pipe.
End pipe.

Module tty.
Section tty.
Context `{E : Env}.

Definition new (l : loc) (fd : Z) (readable set_blocking : bool) : M loc :=
  h ← stream.create;
  uv_ret ← uv_call f_tty_init
    [V_loop (Some l); V_handle (Some h); V_int fd; V_int (bool_Z readable)];
  z ← handle_uv_status h uv_ret;
  (if z <? 0 then mret tt
   else
     book_loop h;;
     when set_blocking (_ ← stream.set_blocking h set_blocking; mret tt));;
  mret h.

Definition set_mode (h : loc) (mode : Z) : M Z := handle_call h f_tty_set_mode [V_int mode].

(** The status and the window size; [width] and [height] are the values before. *)
Definition get_winsize (h : loc) (width height : Z) : M (Z * (Z * Z)) :=
  r ← uv_call_out f_tty_get_winsize [V_handle (Some h)];
  z ← handle_uv_status h (fst r);
  mret (z, (default width (snd r !! 0%nat), default height (snd r !! 1%nat))).

Definition reset_mode : M Z := uv_call f_tty_reset_mode [].
End tty.
End tty.

Module udp.
Section udp.
Context `{E : Env}.

Definition create : M loc := handle_create If_udp (P_udp io_props_init).

Definition new (l : loc) (flags : Z) : M loc :=
  h ← create;
  handle_init h f_udp_init_ex l [V_int flags] (mret tt);;
  mret h.

Definition open (l : loc) (socket : Z) : M loc :=
  h ← create;
  uv_ret ← uv_call f_udp_init [V_loop (Some l); V_handle (Some h)];
  z ← handle_uv_status h uv_ret;
  (if z <? 0 then mret tt
   else book_loop h;; _ ← handle_call h f_udp_open [V_int socket]; mret tt);;
  mret h.

Definition send_queue_size (h : loc) : M Z := i ← get_h h; mret (uh_queue_size (h_uv i)).

Definition set_multicast_membership (h : loc) (multicast_addr interface_addr : option string)
    (membership : Z) : M Z :=
  handle_call h f_udp_set_membership
    [V_str multicast_addr; V_str interface_addr; V_int membership].
Definition set_multicast_loop (h : loc) (enable : bool) : M Z :=
  handle_call h f_udp_set_multicast_loop [V_int (bool_Z enable)].
Definition set_multicast_ttl (h : loc) (value : Z) : M Z :=
  handle_call h f_udp_set_multicast_ttl [V_int value].
Definition set_multicast_interface (h : loc) (addr : option string) : M Z :=
  handle_call h f_udp_set_multicast_interface [V_str addr].
Definition set_broadcast (h : loc) (enable : bool) : M Z :=
  handle_call h f_udp_set_broadcast [V_int (bool_Z enable)].
Definition set_ttl (h : loc) (value : Z) : M Z := handle_call h f_udp_set_ttl [V_int value].
Definition bind (h : loc) (sockaddr flags : Z) : M Z :=
  handle_call h f_udp_bind [V_int sockaddr; V_int flags].

Definition getsockname (h : loc) (size : Z) : M bool :=
  r ← uv_call_out f_udp_getsockname [V_handle (Some h); V_int size];
  z ← handle_uv_status h (fst r);
  mret ((0 <=? z) && (w64 (default size (head (snd r))) <=? size)).

(** Aliases of the reading commands; a size only, so the offset is the default one. *)
Definition recv_start (h : loc) (size : Z) : M Z := io.read_start h size (-1).
Definition recv_start_cbs (h : loc) (alloc_cb recv_cb : cb) (size : Z) : M Z :=
  io.read_start_cbs h alloc_cb recv_cb size (-1).
Definition recv_stop (h : loc) : M Z := io.read_stop h.

(** [udp::recv_cb]; [info] stands for the [io_info] structure on the stack. *)
Definition recv_cb (h : loc) (nread : Z) (uv_buf : Z * Z) (info : Z) : M unit :=
  io_read_cb h nread uv_buf info.
End udp.
End udp.

Section guess.
Context `{E : Env}.

(** [io::guess_handle(loop&, uv_file)] *)
Definition guess_handle (l : loc) (fd : Z) : M (option loc) :=
  t ← uv_call f_guess_handle [V_int fd];
  match uv_handle_type_of t with
  | UV_NAMED_PIPE => h ← pipe.open l fd false false; mret (Some h)
  | UV_TCP => h ← tcp.open l fd false; mret (Some h)
  | UV_TTY => h ← tty.new l fd true false; mret (Some h)
  | UV_UDP => h ← udp.open l fd; mret (Some h)
  | UV_FILE => h ← file.new_fd l fd None; mret (Some h)
  | _ => undefined UB_null                          (* ret.uv_status(..) of a void variable *)
  end.
End guess.

(** ** Names of sockets *)

Section names.
Context `{E : Env}.

Lemma get_name_eq h f size i w :
  w_handles w !! h = Some i →
  let rp := uv_exec (w_log w) f [V_handle (Some h); V_int size] in
  wp (tcp.get_name h f size) (λ b w', b = negb (rp_ret rp =? 0) &&
    (w64 (default size (head (rp_out rp))) <=? size)) w.
Proof.
  intros Hi rp. unfold tcp.get_name. wp_struct. unfold uv_call_out, wp. cbn -[wp].
  fold rp. set (w1 := upd_log _ _).
  assert (wsame w w1) as S by (etrans; [apply wsame_uv_writes|apply wsame_log]).
  destruct (sim_handle _ _ _ _ (proj1 (wsame_sim _ _ S)) Hi) as (j & Hj & _).
  apply wp_bind. unfold handle_uv_status. by wp_structs.
Qed.

(** Whenever libuv succeeds, tcp::getsockname and tcp::getpeername answer false. *)
Theorem tcp_name_success_is_false h f size i w :
  w_handles w !! h = Some i →
  rp_ret (uv_exec (w_log w) f [V_handle (Some h); V_int size]) = 0 →
  wp (tcp.get_name h f size) (λ b _, b = false) w.
Proof.
  intros Hi Hr. eapply wp_mono; [by eapply get_name_eq|]. cbn. intros b _ ->. by rewrite Hr.
Qed.

(** [udp::getsockname()] answers [true] exactly when libuv succeeds and the address fits. *)
Theorem udp_getsockname_ok h size i w :
  w_handles w !! h = Some i →
  let rp := uv_exec (w_log w) f_udp_getsockname [V_handle (Some h); V_int size] in
  0 ≤ default size (head (rp_out rp)) < 2^31 →
  wp (udp.getsockname h size) (λ b _,
    b = true ↔ 0 ≤ rp_ret rp ∧ default size (head (rp_out rp)) ≤ size) w.
Proof.
  intros Hi rp Hb. unfold udp.getsockname. wp_struct. unfold uv_call_out, wp. cbn -[wp].
  fold rp. set (w1 := upd_log _ _).
  assert (wsame w w1) as S by (etrans; [apply wsame_uv_writes|apply wsame_log]).
  destruct (sim_handle _ _ _ _ (proj1 (wsame_sim _ _ S)) Hi) as (j & Hj & _).
  apply wp_bind. unfold handle_uv_status. wp_structs.
  rewrite w64_id by lia. rewrite andb_true_iff, !Z.leb_le. done.
Qed.
End names.

(** ** Accepting connections *)

Section accept.
Context `{E : Env} `{EO : !EnvOk}.

(** Asking the new handle for its status is asking libuv's answer. *)
Lemma status_then_bool {A} c z (m : M unit) (k : M A) w :
  (_ ← handle_uv_status c z; ok ← handle_bool (Some c); when ok m;; k) w =
  ((z' ← handle_uv_status c z; if z' <? 0 then mret tt else m);; k) w.
Proof.
  unfold handle_uv_status, mod_h, get_h, handle_bool, uv_status, mbind, M_bind, mret, M_ret.
  cbn. destruct (w_handles w !! c) as [i|] eqn:Hi; [|done]. unfold get_h. cbn.
  rewrite lookup_insert_eq. cbn. rewrite Z.leb_antisym. by destruct (z <? 0).
Qed.

Lemma wp_accept_as server f rest i l F X (Q : option loc → world → Prop) w :
  Inv F X w → is_init f = true → w_handles w !! server = Some i →
  uh_loop (h_uv i) = Some l → live F w (TL l) → held F w (TH server) →
  (∀ c w', Inv (TH c :: F) X w' → held F w' (TH server) → w_vars w' = w_vars w →
    Q (Some c) w') →
  wp (stream.accept_as server f rest) Q w.
Proof.
  intros I Hf Hi Hl Ll Ls HQ. unfold stream.accept_as, stream.create. wp_struct.
  eapply wp_handle_create; [done..|].
  intros c w1 j Hfresh Hh HP _ HL _ _ _ _ _ HV HA HO I1.
  assert (c ≠ server) as Hne by (intros ->; congruence). wp_struct.
  eapply wp_get_h; [by rewrite Hh, lookup_insert_ne|]. rewrite Hl. wp_struct.
  assert (fresh_handle c (P_stream io_props_init None) F X w w1) as Fh.
  { split; try done; rewrite Hh, lookup_insert_eq; cbn; congruence. }
  pose proof (owned_eq_live _ _ _ _ HO Ll) as Ll1.
  eapply wp_mono.
  { eapply (wp_init_fresh f l c (rest i) _ F X (λ z w2, fresh_handle c
      (P_stream io_props_init None) F X w w2 ∧ live F w2 (TL l) ∧
      ((0 ≤ z)%Z → on_loop c l w2) ∧ True)); [done|exact Fh|done|]. auto. }
  cbn beta. intros z w2 (Fh2 & L2 & HU & _). unfold wp. rewrite status_then_bool.
  change (wp ((z' ← handle_uv_status c z; if z' <? 0 then mret tt else book_loop c);;
    mret (Some c)) Q w2).
  wp_struct. eapply (wp_init_tail c l z _ F X _ w); [done..|].
  intros w3 I3 HP3 HV3 HA3. apply wp_ret, HQ; [done| |done]. by eapply held_vars.
Qed.

(** [listen()] and the event of a connection *)
Lemma wp_listen h backlog c io c' F X w :
  Inv F X w → live F w (TH h) → h_props <$> w_handles w !! h = Some (P_stream io c') →
  wp (stream.listen h backlog c) (λ _ w', Inv F X w') w.
Proof.
  intros I L HP. unfold stream.listen. wp_struct.
  eapply wp_mod_props; [done..|by apply reads_kept_not_file|]. intros w1 I1 _ HO.
  apply (owned_eq_live F w w1) in L; [|done]. wp_auto.
  destruct (z <? 0); cbn [when]; wp_auto; done.
Qed.

Lemma wp_connection_cb h status io c F X w :
  Inv F X w → live F w (TH h) → h_props <$> w_handles w !! h = Some (P_stream io c) →
  wp (stream.connection_cb h status) (λ _ w', Inv F X w') w.
Proof.
  intros I L HP. eapply wp_report; [done..|]. intros w1 I1 L1 HP1. wp_struct.
  eapply wp_properties; [by rewrite HP1|]. by eapply wp_call_handle_cb.
Qed.

Lemma wp_accept_into server c F X w :
  Inv (TH c :: F) X w → held F w (TH server) →
  wp (stream.accept_into server (Some c)) (λ r w', r = Some c ∧ Inv (TH c :: F) X w' ∧
    w_vars w' = w_vars w) w.
Proof.
  intros I L. assert (∃ v, v = w_vars w) as [v HV] by eauto. rewrite <-HV.
  unfold stream.accept_into, uv_status. wp_struct. cbn [handle_bool].
  unfold uv_status. wp_auto. destruct (negb _); wp_auto; [done|].
  destruct (z <? 0); cbn [when]; wp_auto; done.
Qed.

Lemma wp_accept server i l F X w :
  Inv F X w → held F w (TH server) → live F w (TL l) →
  w_handles w !! server = Some i → uh_loop (h_uv i) = Some l →
  uh_type (h_uv i) = UV_TCP ∨ uh_type (h_uv i) = UV_NAMED_PIPE →
  wp (stream.accept server) (λ r w', ∃ c, r = Some c ∧ Inv (TH c :: F) X w' ∧
    w_vars w' = w_vars w) w.
Proof.
  intros I L Ll Hi Hl Ht. unfold stream.accept. wp_struct. eapply wp_get_h; [done|].
  destruct Ht as [-> | ->]; wp_struct; (eapply wp_accept_as; [done..|]; intros c w1 I1 L1 HV1;
    eapply wp_mono; [by eapply wp_accept_into|]; intros r w2 (-> & I2 & HV2);
    exists c; split_and!; [done..|congruence]).
Qed.

(** What libuv says of the next handle that waits in a pipe, and of a descriptor. *)
Definition pending_type (h : loc) (w : world) : uv_handle_type :=
  uv_handle_type_of (uv_ret (w_log w) f_pipe_pending_type [V_handle (Some h)]).
Definition guessed_type (fd : Z) (w : world) : uv_handle_type :=
  uv_handle_type_of (uv_ret (w_log w) f_guess_handle [V_int fd]).

(** The handle that waits in a pipe is accepted in the same way, as what libuv says it is. *)
Lemma wp_accept_pending server i l F X w :
  Inv F X w → held F w (TH server) → live F w (TL l) →
  w_handles w !! server = Some i → uh_loop (h_uv i) = Some l →
  (let t := pending_type server w in t = UV_TCP ∨ t = UV_NAMED_PIPE) →
  wp (pipe.accept_pending_handle server) (λ r w', ∃ c, r = Some c ∧ Inv (TH c :: F) X w' ∧
    w_vars w' = w_vars w) w.
Proof.
  intros I L Ll Hi Hl Ht. unfold pipe.accept_pending_handle. wp_struct.
  apply (wp_uv_call_loop _ _ server l); [done|unfold on_loop; rewrite Hi; cbn; congruence|].
  intros w1 S1 (j & Hj & Hlj)%fmap_Some.
  change (uv_handle_type_of (rp_ret _)) with (pending_type server w).
  pose proof (sim_vars _ _ (proj1 (wsame_sim _ _ S1))) as HV. rewrite S1 in I.
  rewrite (wsame_sim _ _ S1) in Ll.
  assert (held F w1 (TH server)) as L1 by by eapply held_vars.
  cbn in Ht. destruct Ht as [-> | ->]; wp_struct; (eapply wp_accept_as; [done..|];
    intros c w2 I2 L2 HV2; eapply wp_mono; [by eapply wp_accept_into|];
    intros r w3 (-> & I3 & HV3); exists c; split_and!; [done..|congruence]).
Qed.

End accept.

(** accept() on a TTY stores the error status through a null handle. *)
Theorem accept_tty_undefined `{E : Env} h i w :
  w_handles w !! h = Some i → uh_type (h_uv i) = UV_TTY →
  stream.accept h w = Undefined UB_null.
Proof.
  intros Hi Ht. unfold stream.accept, get_h, mbind, M_bind. rewrite Hi. cbn. by rewrite Ht.
Qed.
