(* ===== verification/Process.v ===== *)
(** * Child processes

    The class [process] of src/include/uvcc/handle-misc.hpp: the options of the child are
    gathered in the properties of the handle, in two vectors for its standard streams: what
    libuv is told ([stdio_uv_containers]) and the class objects that keep the endpoints alive
    ([stdio_uvcc_endpoints]). *)

From Stdlib Require Import ZArith Lia.
From stdpp Require Import base gmap list strings option.
From S2P Require Import Prelude World Objects Ledger Wp Refs Release Rules HRules.
From S2P Require Import Buffer HandleMisc Handle Io Stream.

Local Open Scope Z_scope.

(** [uv_stdio_flags] and [uv_process_flags] *)
Definition UV_IGNORE : Z := 0.
Definition UV_CREATE_PIPE : Z := 1.
Definition UV_INHERIT_FD : Z := 2.
Definition UV_INHERIT_STREAM : Z := 4.
Definition UV_READABLE_PIPE : Z := 16.
Definition UV_WRITABLE_PIPE : Z := 32.
Definition UV_PROCESS_SETUID : Z := 1.
Definition UV_PROCESS_SETGID : Z := 2.

(** [unsigned] arithmetic *)
Definition w32 (z : Z) : Z := z mod 2^32.

(** ** The properties *)

Definition stdio_container_init : stdio_container :=
  {| sc_flags := UV_IGNORE; sc_data := SD_fd (-1) |}.

Definition process_props_init : process_props :=
  {| ps_file := None; ps_args := None; ps_env := None; ps_cwd := None; ps_flags := 0;
     ps_uid := 0; ps_gid := 0; ps_stdio_count := 0; ps_exit_cb := None;
     ps_containers := []; ps_endpoints := [] |}.

Definition set_ps_spawn (file : option string) (args : option Z) (flags : Z)
    (p : process_props) : process_props :=
  {| ps_file := file; ps_args := args; ps_env := ps_env p; ps_cwd := ps_cwd p;
     ps_flags := Z.lor (ps_flags p) flags; ps_uid := ps_uid p; ps_gid := ps_gid p;
     ps_stdio_count := ps_stdio_count p; ps_exit_cb := ps_exit_cb p;
     ps_containers := ps_containers p; ps_endpoints := ps_endpoints p |}.
Definition set_ps_where (env : option Z) (cwd : option string) (p : process_props) : process_props :=
  {| ps_file := ps_file p; ps_args := ps_args p; ps_env := env; ps_cwd := cwd;
     ps_flags := ps_flags p; ps_uid := ps_uid p; ps_gid := ps_gid p;
     ps_stdio_count := ps_stdio_count p; ps_exit_cb := ps_exit_cb p;
     ps_containers := ps_containers p; ps_endpoints := ps_endpoints p |}.
Definition set_ps_ids (flags uid gid : Z) (p : process_props) : process_props :=
  {| ps_file := ps_file p; ps_args := ps_args p; ps_env := ps_env p; ps_cwd := ps_cwd p;
     ps_flags := flags; ps_uid := uid; ps_gid := gid;
     ps_stdio_count := ps_stdio_count p; ps_exit_cb := ps_exit_cb p;
     ps_containers := ps_containers p; ps_endpoints := ps_endpoints p |}.
Definition set_ps_stdio (count : Z) (cs : list stdio_container) (es : list (option loc))
    (p : process_props) : process_props :=
  {| ps_file := ps_file p; ps_args := ps_args p; ps_env := ps_env p; ps_cwd := ps_cwd p;
     ps_flags := ps_flags p; ps_uid := ps_uid p; ps_gid := ps_gid p;
     ps_stdio_count := count; ps_exit_cb := ps_exit_cb p;
     ps_containers := cs; ps_endpoints := es |}.
Definition set_ps_exit_cb (c : cb) (p : process_props) : process_props :=
  {| ps_file := ps_file p; ps_args := ps_args p; ps_env := ps_env p; ps_cwd := ps_cwd p;
     ps_flags := ps_flags p; ps_uid := ps_uid p; ps_gid := ps_gid p;
     ps_stdio_count := ps_stdio_count p; ps_exit_cb := c;
     ps_containers := ps_containers p; ps_endpoints := ps_endpoints p |}.

Definition in_process (f : process_props → process_props) (p : props) : props :=
  match p with P_process ps => P_process (f ps) | _ => p end.

(** The two assignments into the vectors at [n]. *)
Definition put_container (n : nat) (c : stdio_container) (p : process_props) : process_props :=
  set_ps_stdio (ps_stdio_count p) (<[n := c]> (ps_containers p)) (ps_endpoints p) p.
Definition put_endpoint (n : nat) (e : option loc) (p : process_props) : process_props :=
  set_ps_stdio (ps_stdio_count p) (ps_containers p) (<[n := e]> (ps_endpoints p)) p.

(** [resize(size)] of both vectors, and the new number and address for libuv. *)
Definition resize_stdio (size : nat) (p : process_props) : process_props :=
  set_ps_stdio (int32 (Z.of_nat size))
    (resize size stdio_container_init (ps_containers p))
    (resize size None (ps_endpoints p)) p.

Module process.
Section process.
Context `{E : Env}.

Definition new (l : loc) : M loc :=
  h ← handle_create If_handle (P_process process_props_init);
  mod_h h (set_h_uv (λ u, {| uh_type := uh_type u; uh_loop := Some l; uh_data := uh_data u;
    uh_queue_size := uh_queue_size u; uh_ipc := uh_ipc u; uh_signum := uh_signum u;
    uh_pid := uh_pid u; uh_result := uh_result u; uh_path := uh_path u |}));;
  book_loop h;;
  mret h.

Definition process_properties (h : loc) : M process_props :=
  p ← properties h;
  match p with P_process ps => mret ps | _ => undefined UB_type end.
Definition mod_process (h : loc) (f : process_props → process_props) : M unit :=
  mod_props h (in_process f).

Definition disable_stdio_inheritance : M unit := _ ← uv_call f_disable_stdio_inheritance []; mret tt.
Definition kill_pid (pid signum : Z) : M Z := uv_call f_kill [V_int pid; V_int signum].
Definition pid (h : loc) : M Z := i ← get_h h; mret (uh_pid (h_uv i)).
Definition on_exit (h : loc) (c : cb) : M unit := mod_process h (set_ps_exit_cb c).

Definition set_environment (h : loc) (envp : option Z) : M unit :=
  mod_process h (λ p, set_ps_where envp (ps_cwd p) p).
Definition set_working_dir (h : loc) (cwd : option string) : M unit :=
  mod_process h (λ p, set_ps_where (ps_env p) cwd p).

(** [properties::ensure_stdio_number(unsigned)]; the class objects cut off by [resize] are
    destroyed. *)
Definition ensure_stdio_number (h : loc) (n : Z) : M unit :=
  p ← process_properties h;
  if Z.of_nat (length (ps_containers p)) <=? n then
    let size := Z.to_nat (w32 (n + 1)) in
    mod_process h (resize_stdio size);;
    drop_endpoints io_unref (drop size (ps_endpoints p))
  else mret tt.

(** [vector[n] = c] *)
Definition set_container (h : loc) (n : Z) (c : stdio_container) : M unit :=
  p ← process_properties h;
  if Z.of_nat (length (ps_containers p)) <=? n then undefined UB_bounds
  else mod_process h (put_container (Z.to_nat n) c).

(** [vector[n] = std::move(io)]: the endpoint that was there is released. *)
Definition move_endpoint (h : loc) (n : Z) (e : option loc) : M unit :=
  p ← process_properties h;
  match ps_endpoints p !! Z.to_nat n with
  | None => undefined UB_bounds
  | Some t =>
      mod_process h (put_endpoint (Z.to_nat n) e);;
      match t with Some t => noexcept (handle_unref t) | None => mret tt end
  end.

(** [inherit_stdio(unsigned, io)]; the reference of the parameter goes to the endpoint. *)
Definition inherit_stdio_io (h : loc) (n : Z) (io : option loc) : M unit :=
  on_throw (
    ensure_stdio_number h n;;
    match io with
    | Some s =>
        t ← uv_interface_type s;
        match t with
        | UV_NAMED_PIPE | UV_STREAM | UV_TCP | UV_TTY =>
            set_container h n {| sc_flags := UV_INHERIT_STREAM; sc_data := SD_stream (Some s) |}
        | UV_FILE =>
            fd ← file.fd s;
            set_container h n {| sc_flags := UV_INHERIT_FD; sc_data := SD_fd fd |}
        | _ => set_container h n {| sc_flags := UV_IGNORE; sc_data := SD_fd (-1) |}
        end
    | None => mret tt
    end) (drop_ptr (PH io));;
  move_endpoint h n io.

Definition inherit_stdio_fd (h : loc) (n fd : Z) : M unit :=
  ensure_stdio_number h n;;
  set_container h n {| sc_flags := UV_INHERIT_FD; sc_data := SD_fd fd |}.

Definition create_stdio_pipe (h : loc) (n : Z) (pipe_loop : loc) (pipe_flags : Z) (ipc : bool) :
    M Z :=
  ensure_stdio_number h n;;
  p ← pipe.new pipe_loop ipc;
  good ← handle_bool (Some p);
  if negb good then
    finally (z ← uv_status p; handle_uv_status h z) (handle_unref p)
  else
    let flags := Z.lor UV_CREATE_PIPE (Z.lor
      (if Z.land pipe_flags UV_READABLE_PIPE =? 0 then 0 else UV_READABLE_PIPE)
      (if Z.land pipe_flags UV_WRITABLE_PIPE =? 0 then 0 else UV_WRITABLE_PIPE)) in
    set_container h n {| sc_flags := flags; sc_data := SD_stream (Some p) |};;
    move_endpoint h n (Some p);;
    mret 0.

(** The user and group identifiers are [unsigned]: -1 is [UINT_MAX]. *)
Definition set_uid (h : loc) (uid : Z) : M unit :=
  mod_process h (λ p,
    set_ps_ids (if uid =? w32 (-1) then Z.ldiff (ps_flags p) UV_PROCESS_SETUID
                else Z.lor (ps_flags p) UV_PROCESS_SETUID) uid (ps_gid p) p).
Definition set_gid (h : loc) (gid : Z) : M unit :=
  mod_process h (λ p,
    set_ps_ids (if gid =? w32 (-1) then Z.ldiff (ps_flags p) UV_PROCESS_SETGID
                else Z.lor (ps_flags p) UV_PROCESS_SETGID) (ps_uid p) gid p).

Definition spawn (h : loc) (file : option string) (argv : option Z) (flags : Z) : M Z :=
  mod_process h (set_ps_spawn file argv flags);;
  p ← process_properties h;
  i ← get_h h;
  z ← uv_call f_spawn
    [V_loop (uh_loop (h_uv i)); V_handle (Some h); V_str (ps_file p);
     V_int (default 0 (ps_args p)); V_int (default 0 (ps_env p)); V_str (ps_cwd p);
     V_int (ps_flags p); V_int (ps_stdio_count p); V_stdio (ps_containers p);
     V_int (ps_uid p); V_int (ps_gid p); V_self_cb];
  handle_uv_status h z.

Definition kill (h : loc) (signum : Z) : M Z := handle_call h f_process_kill [V_int signum].

Definition exit_cb (h : loc) (exit_status termination_signal : Z) : M unit :=
  p ← process_properties h;
  call_handle_cb h (ps_exit_cb p) [A_int exit_status; A_int termination_signal].
End process.
End process.

(** ** The standard streams of the child *)

#[local] Arguments resize : simpl never.

(** [properties] after [ensure_stdio_number(n)] *)
Definition ensured (n : nat) (p : process_props) : process_props :=
  if decide (length (ps_containers p) ≤ n)%nat then resize_stdio (S n) p else p.

(** Every stream libuv is pointed to is kept alive by the endpoint at the same index. *)
Definition stdio_consistent (p : process_props) : Prop :=
  length (ps_containers p) = length (ps_endpoints p) ∧
  ∀ n c s, ps_containers p !! n = Some c → sc_data c = SD_stream (Some s) →
    ps_endpoints p !! n = Some (Some s).

Lemma ensured_consistent n p : stdio_consistent p → stdio_consistent (ensured n p) ∧
  (n < length (ps_containers (ensured n p)))%nat.
Proof.
  intros [Hl Hc]. unfold ensured. case_decide; [|split; [done|lia]]. cbn. split.
  - split; [cbn; by rewrite !length_resize|]. cbn. intros k c s Hk Hs.
    destruct (decide (k < length (ps_containers p))%nat) as [Hlt|].
    + rewrite lookup_resize in Hk by lia. rewrite lookup_resize by lia. by eapply Hc.
    + exfalso. destruct (decide (k < S n)%nat).
      * rewrite lookup_resize_new in Hk by lia. by simplify_eq/=.
      * by rewrite lookup_resize_old in Hk by lia.
  - rewrite length_resize. lia.
Qed.

Lemma put_consistent n c e p :
  (∀ s, sc_data c = SD_stream (Some s) → e = Some s) → (n < length (ps_containers p))%nat →
  stdio_consistent p → stdio_consistent (put_endpoint n e (put_container n c p)).
Proof.
  intros Hce Hn [Hl Hc]. split; [cbn; by rewrite !length_insert|]. cbn. intros k c' s Hk Hs.
  destruct (decide (n = k)) as [->|].
  - rewrite list_lookup_insert_eq in Hk by lia. rewrite list_lookup_insert_eq by lia.
    simplify_eq. f_equal. by apply Hce.
  - rewrite list_lookup_insert_ne in Hk by done. rewrite list_lookup_insert_ne by done.
    by eapply Hc.
Qed.

Section rules.
Context `{E : Env} `{EO : !EnvOk}.

(** The endpoints of a process change: what is in [F] and not in [F'] has moved into them,
    and the other way round. *)
Lemma wp_process_endpoints h f p F F' X (Q : unit → world → Prop) w :
  Inv F X w → live F w (TH h) → h_props <$> w_handles w !! h = Some (P_process p) →
  (∀ u, cnt u F' + cnt u (ps_endpoints (f p) ≫= opt_tok TH) =
        cnt u F + cnt u (ps_endpoints p ≫= opt_tok TH))%nat →
  Forall (endpoint_ok w) (ps_endpoints (f p)) →
  (∀ w', Inv F' X w' → wrote h (P_process (f p)) w w' →
    (∀ t, owned w' t + cnt t F' = owned w t + cnt t F)%nat → Q tt w') →
  wp (process.mod_process h f) Q w.
Proof.
  intros I L HP HF He HQ. apply fmap_Some in HP as (i & Hi & HPi).
  pose proof (live_refs _ _ _ _ _ I L Hi) as H0.
  unfold process.mod_process, mod_props. wp_structs. rewrite <-HPi.
  set (j := set_h_props (in_process f (P_process p)) i).
  assert (Ht : ∀ u, (cnt u F' + cnt u (hinst_toks h j) = cnt u F + cnt u (hinst_toks h i))%nat).
  { intros u. rewrite !hinst_toks_live by done. cbn. rewrite <-HPi.
    rewrite !cnt_app, !cnt_props_toks. cbn. specialize (HF u). lia. }
  apply HQ.
  - eapply Inv_upd_handle; try done.
    + intros u. specialize (Ht u). cbn. case_decide; lia.
    + cbn. by rewrite <-HPi.
    + apply reads_kept_keeps; [done..|]. rewrite <-HPi. by apply reads_kept_not_file.
  - by eapply wrote_upd.
  - intros t. pose proof (owned_upd_handle w h i j t Hi). specialize (Ht t). lia.
Qed.

Lemma cnt_resize_none u n (l : list (option loc)) : (length l ≤ n)%nat →
  cnt u (resize n None l ≫= opt_tok TH) = cnt u (l ≫= opt_tok TH).
Proof.
  intros Hn. rewrite resize_ge by done. rewrite bind_app, cnt_app.
  assert (∀ k, replicate k None ≫= opt_tok TH = []) as -> by (intros k; by induction k).
  cbn. lia.
Qed.

Lemma cnt_insert_endpoint u n e t (l : list (option loc)) : l !! n = Some t →
  (cnt u (<[n := e]> l ≫= opt_tok TH) + cnt u (opt_tok TH t) =
   cnt u (l ≫= opt_tok TH) + cnt u (opt_tok TH e))%nat.
Proof.
  revert n. induction l as [|x l IH]; intros [|n] Hn; try done.
  - cbn in Hn. simplify_eq. cbn. rewrite !cnt_app. lia.
  - change (<[S n := e]> (x :: l)) with (x :: <[n := e]> l). rewrite !bind_cons, !cnt_app.
    specialize (IH n Hn). lia.
Qed.

Lemma endpoints_resize w n l : Forall (endpoint_ok w) l → Forall (endpoint_ok w) (resize n None l).
Proof. intros H. by apply Forall_resize. Qed.

(** [ensure_stdio_number] for a number that does not wrap around. *)
Lemma wp_ensure h n p F X (Q : unit → world → Prop) w :
  Inv F X w → live F w (TH h) → h_props <$> w_handles w !! h = Some (P_process p) →
  0 ≤ n < 2^32 - 1 → length (ps_containers p) = length (ps_endpoints p) →
  (∀ w', Inv F X w' → wrote h (P_process (ensured (Z.to_nat n) p)) w w' →
    (∀ t, owned w' t = owned w t) → Q tt w') →
  wp (process.ensure_stdio_number h n) Q w.
Proof.
  intros I L HP Hn Hl HQ. unfold process.ensure_stdio_number, process.process_properties.
  do 2 wp_struct. eapply wp_properties; [done|]. cbn beta iota. wp_struct.
  unfold ensured in HQ. destruct (Z.leb_spec (Z.of_nat (length (ps_containers p))) n) as [Hle|Hgt].
  - rewrite decide_True in HQ by lia. unfold w32. rewrite Z.mod_small by lia.
    replace (Z.to_nat (n + 1)) with (S (Z.to_nat n)) by lia.
    rewrite drop_ge by lia. wp_struct.
    pose proof HP as (i & Hi & HPi)%fmap_Some.
    eapply (wp_process_endpoints h _ p F F); [done..| | |].
    + intros u. cbn. rewrite cnt_resize_none by lia. lia.
    + cbn. apply endpoints_resize. pose proof (inv_endpoints _ _ _ I h i Hi) as He.
      rewrite <-HPi in He. apply He. by eapply live_refs.
    + intros w1 I1 W HO. apply wp_ret, HQ; [done|done|]. intros t. specialize (HO t). lia.
  - rewrite decide_False in HQ by lia. apply wp_ret, HQ; [done| |done].
    pose proof HP as (i & Hi & HPi)%fmap_Some. split; try done.
Qed.

(** The endpoint moves in; the one that was there is released. *)
Lemma wp_move_endpoint h n e p F X (Q : unit → world → Prop) w :
  Inv (opt_tok TH e ++ F) X w → live F w (TH h) →
  h_props <$> w_handles w !! h = Some (P_process p) →
  (Z.to_nat n < length (ps_endpoints p))%nat → endpoint_ok w e →
  (∀ w1 w', wrote h (P_process (put_endpoint (Z.to_nat n) e p)) w w1 → Inv F X w' →
    (ps_endpoints p !! Z.to_nat n = Some None → w' = w1) → Q tt w') →
  wp (process.move_endpoint h n e) Q w.
Proof.
  intros I L HP Hn He HQ. unfold process.move_endpoint, process.process_properties.
  do 2 wp_struct. eapply wp_properties; [done|]. cbn beta iota. wp_struct.
  destruct (ps_endpoints p !! Z.to_nat n) as [t|] eqn:Ht;
    [|apply lookup_ge_None in Ht; lia].
  pose proof HP as (i & Hi & HPi)%fmap_Some. wp_struct.
  assert (live (opt_tok TH e ++ F) w (TH h)) as L' by
    (eapply live_cnt; [done|intros; rewrite cnt_app; lia]).
  eapply (wp_process_endpoints h _ p _ (opt_tok TH t ++ F)); [done..| | |].
  - intros u. pose proof (cnt_insert_endpoint u _ e _ _ Ht). cbn. rewrite !cnt_app. lia.
  - cbn. apply Forall_insert; [|done]. pose proof (inv_endpoints _ _ _ I h i Hi) as Hes.
    rewrite <-HPi in Hes. apply Hes. by eapply live_refs.
  - intros w1 I1 W HO. destruct t as [t|]; [|by eapply wp_ret, HQ].
    wp_struct. cbn [opt_tok app] in I1. eapply (wp_tok_unref (TH t)); [done|].
    intros w2 I2. by eapply HQ.
Qed.

Lemma wp_set_container h n c p F X (Q : unit → world → Prop) w :
  Inv F X w → live F w (TH h) → h_props <$> w_handles w !! h = Some (P_process p) →
  0 ≤ n → (Z.to_nat n < length (ps_containers p))%nat →
  (∀ w', Inv F X w' → wrote h (P_process (put_container (Z.to_nat n) c p)) w w' →
    (∀ t, owned w' t = owned w t) → Q tt w') →
  wp (process.set_container h n c) Q w.
Proof.
  intros I L HP H0 Hn HQ. unfold process.set_container, process.process_properties.
  do 2 wp_struct. eapply wp_properties; [done|]. cbn beta iota. wp_struct.
  rewrite (proj2 (Z.leb_gt _ _)) by lia. pose proof HP as (i & Hi & HPi)%fmap_Some.
  eapply (wp_process_endpoints h _ p F F); [done..| | |].
  - intros u. done.
  - cbn. pose proof (inv_endpoints _ _ _ I h i Hi) as Hes.
    rewrite <-HPi in Hes. apply Hes. by eapply live_refs.
  - intros w1 I1 W HO. apply HQ; [done|done|]. intros t. specialize (HO t). lia.
Qed.

(** What libuv is told about the stream [i] of the parent. *)
Definition inherited (s : loc) (i : hinst) : stdio_container :=
  match h_iface i with
  | If_file => {| sc_flags := UV_INHERIT_FD; sc_data := SD_fd (int32 (uh_result (h_uv i))) |}
  | _ =>
      match uh_type (h_uv i) with
      | UV_NAMED_PIPE | UV_STREAM | UV_TCP | UV_TTY =>
          {| sc_flags := UV_INHERIT_STREAM; sc_data := SD_stream (Some s) |}
      | UV_FILE => {| sc_flags := UV_INHERIT_FD; sc_data := SD_fd (int32 (uh_result (h_uv i))) |}
      | _ => {| sc_flags := UV_IGNORE; sc_data := SD_fd (-1) |}
      end
  end.

Lemma wrote_then h p q w w1 w2 : wrote h p w w1 → wrote h q w1 w2 → wrote h q w w2.
Proof.
  intros [? O1 ? ? ? ? ? ? ? ?] [? O2 ? ? ? ? ? ? ? ?]. split; try congruence.
  intros k Hne. rewrite O2 by done. by apply O1.
Qed.

(** [properties] after [inherit_stdio(n, io)] for the stream [i] at [s] *)
Definition with_endpoint (n : nat) (s : loc) (i : hinst) (p : process_props) : process_props :=
  put_endpoint n (Some s) (put_container n (inherited s i) (ensured n p)).

Lemma wp_inherit_stdio h n s i p F X w :
  Inv (TH s :: F) X w → live F w (TH h) →
  h_props <$> w_handles w !! h = Some (P_process p) → w_handles w !! s = Some i → h ≠ s →
  not_process (h_props i) = true → 0 ≤ n < 2^32 - 1 → stdio_consistent p →
  wp (process.inherit_stdio_io h n (Some s)) (λ _ w', Inv F X w' ∧
    stdio_consistent (with_endpoint (Z.to_nat n) s i p) ∧ ∃ w1,
      wrote h (P_process (with_endpoint (Z.to_nat n) s i p)) w w1 ∧
      (ps_endpoints (ensured (Z.to_nat n) p) !! Z.to_nat n = Some None → w' = w1)) w.
Proof.
  intros I L HP Hi Hne Hnp Hn Hc. unfold process.inherit_stdio_io.
  destruct (ensured_consistent (Z.to_nat n) p Hc) as [Hc1 Hn1].
  do 2 wp_struct. wp_struct.
  eapply (wp_ensure h n p (TH s :: F)); [done| |done|done|apply Hc|].
  { eapply live_cnt; [done|intros; cbn; lia]. }
  intros w1 I1 W1 HO1. apply (owned_eq_live F w w1) in L; [|done].
  assert (w_handles w1 !! s = Some i) as Hi1 by (by rewrite (wr_other _ _ _ _ W1)).
  assert (Hrest : wp (process.set_container h n (inherited s i)) (λ _ w2,
    wp (process.move_endpoint h n (Some s)) (λ _ w', Inv F X w' ∧
    stdio_consistent (with_endpoint (Z.to_nat n) s i p) ∧ ∃ w1,
      wrote h (P_process (with_endpoint (Z.to_nat n) s i p)) w w1 ∧
      (ps_endpoints (ensured (Z.to_nat n) p) !! Z.to_nat n = Some None → w' = w1)) w2) w1).
  { eapply (wp_set_container h n _ _ (TH s :: F)); [done| |by apply W1|lia|done|].
    { eapply live_cnt; [done|intros; cbn; lia]. }
    intros w2 I2 W2 HO2. eapply (wp_move_endpoint h n (Some s)); [exact I2| |by apply W2| | |].
    - by eapply owned_eq_live.
    - change (Z.to_nat n < length (ps_endpoints (ensured (Z.to_nat n) p)))%nat.
      destruct Hc1 as [<- _]. done.
    - exists i. split; [|done]. by rewrite (wr_other _ _ _ _ W2).
    - intros w3 w4 W3 I4 Hold. split; [done|]. split.
      + apply put_consistent; [|done|done]. intros s' Hs. unfold inherited in Hs.
        destruct (h_iface i), (uh_type (h_uv i)); simplify_eq/=; done.
      + exists w3. split; [eapply wrote_then; [|exact W3]; by eapply wrote_then|done]. }
  unfold uv_interface_type, file.fd. wp_structs. unfold inherited in *.
  destruct (h_iface i), (uh_type (h_uv i)); wp_structs; exact Hrest.
Qed.

(** [inherit_stdio(unsigned, uv_file)] *)
Lemma wp_inherit_fd h n fd p F X w :
  Inv F X w → live F w (TH h) → h_props <$> w_handles w !! h = Some (P_process p) →
  0 ≤ n < 2^32 - 1 → stdio_consistent p →
  wp (process.inherit_stdio_fd h n fd) (λ _ w', Inv F X w') w.
Proof.
  intros I L HP Hn Hc. unfold process.inherit_stdio_fd.
  destruct (ensured_consistent (Z.to_nat n) p Hc) as [Hc1 Hn1]. wp_struct.
  eapply (wp_ensure h n p F); [done..|apply Hc|]. intros w1 I1 W1 HO1.
  apply (owned_eq_live F w w1) in L; [|done].
  by eapply (wp_set_container h n _ _ F); [done|done|apply W1|lia|done|].
Qed.

(** [spawn] and the other members that write to fields of the properties *)
Lemma wp_mod_process h f p F X (Q : unit → world → Prop) w :
  Inv F X w → live F w (TH h) → h_props <$> w_handles w !! h = Some (P_process p) →
  ps_endpoints (f p) = ps_endpoints p →
  (∀ w', Inv F X w' → live F w' (TH h) →
    h_props <$> w_handles w' !! h = Some (P_process (f p)) → Q tt w') →
  wp (process.mod_process h f) Q w.
Proof.
  intros I L HP He HQ. pose proof HP as (i & Hi & HPi)%fmap_Some.
  eapply (wp_process_endpoints h f p F F); [done..| | |].
  - intros u. by rewrite He.
  - rewrite He. pose proof (inv_endpoints _ _ _ I h i Hi) as Hes. rewrite <-HPi in Hes.
    apply Hes. by eapply live_refs.
  - intros w1 I1 W HO. apply HQ; [done| |apply W].
    eapply owned_eq_live; [|done]. intros t. specialize (HO t). lia.
Qed.

Lemma wp_spawn h file argv flags p F X w :
  Inv F X w → live F w (TH h) → h_props <$> w_handles w !! h = Some (P_process p) →
  wp (process.spawn h file argv flags) (λ _ w', Inv F X w') w.
Proof.
  intros I L HP. unfold process.spawn. wp_struct.
  eapply wp_mod_process; [done..|]. clear w I L HP. intros w I L HP. wp_struct.
  unfold process.process_properties. wp_struct. eapply wp_properties; [done|]. cbn beta iota.
  wp_auto. done.
Qed.

Lemma wp_exit_cb h status signal p F X w :
  Inv F X w → live F w (TH h) → h_props <$> w_handles w !! h = Some (P_process p) →
  wp (process.exit_cb h status signal) (λ _ w', Inv F X w') w.
Proof.
  intros I L HP. unfold process.exit_cb, process.process_properties. do 2 wp_struct.
  eapply wp_properties; [done|]. cbn beta iota. wp_struct. by eapply wp_call_handle_cb.
Qed.


(** Moving an empty [io] into a stream that was connected releases its endpoint, but libuv
    is still told to connect the child to it. *)
Theorem inherit_null_dangles h n s c p F X w :
  Inv F X w → live F w (TH h) → h_props <$> w_handles w !! h = Some (P_process p) →
  0 ≤ n < 2^32 - 1 → stdio_consistent p →
  ps_containers p !! Z.to_nat n = Some c → sc_data c = SD_stream (Some s) →
  let q := put_endpoint (Z.to_nat n) None p in
  wp (process.inherit_stdio_io h n None) (λ _ w', Inv F X w' ∧
    ps_endpoints q !! Z.to_nat n = Some None ∧ ps_containers q !! Z.to_nat n = Some c ∧
    ∃ w1, wrote h (P_process q) w w1) w.
Proof.
  intros I L HP Hn Hc Hcn Hs q. pose proof (lookup_lt_Some _ _ _ Hcn) as Hlt.
  assert (ensured (Z.to_nat n) p = p) as Heq by (unfold ensured; by rewrite decide_False by lia).
  unfold process.inherit_stdio_io. do 2 wp_struct. wp_struct.
  eapply wp_ensure; [done..|apply Hc|]. intros w1 I1 W1 HO1. rewrite Heq in W1. apply wp_ret.
  eapply (wp_move_endpoint h n None); [exact I1|by eapply owned_eq_live|by apply W1| |done|].
  - destruct Hc as [<- _]. done.
  - intros w2 w3 W2 I3 _. split; [done|]. split; [|split; [done|]].
    + cbn. apply list_lookup_insert_eq. destruct Hc as [<- _]. done.
    + exists w2. by eapply wrote_then.
Qed.

(** For the greatest [unsigned] the number of streams wraps around to zero, and the
    assignment that follows is outside of the vector. *)
Theorem ensure_stdio_wraps h fd i p w :
  w_handles w !! h = Some i → h_props i = P_process p → ps_endpoints p = [] →
  Z.of_nat (length (ps_containers p)) ≤ 2^32 - 1 →
  process.inherit_stdio_fd h (2^32 - 1) fd w = Undefined UB_bounds.
Proof.
  intros Hi Hp He Hl.
  assert (Hprops : ∀ w p, h_props <$> w_handles w !! h = Some (P_process p) →
    process.process_properties h w = Ok p w).
  { intros w1 q (k & Hk & Hq)%fmap_Some.
    unfold process.process_properties, properties, get_h, mbind, M_bind. rewrite Hk. cbn.
    by rewrite <-Hq. }
  unfold process.inherit_stdio_fd, process.ensure_stdio_number. unfold mbind at 1, M_bind at 1.
  unfold mbind at 1, M_bind at 1. rewrite (Hprops w p) by (by rewrite Hi, <-Hp).
  rewrite (proj2 (Z.leb_le _ _)) by done. change (Z.to_nat (w32 (2 ^ 32 - 1 + 1))) with 0%nat.
  rewrite He. unfold process.mod_process, mod_props, mod_h, mbind at 1, M_bind at 1.
  unfold get_h, mbind at 1, M_bind at 1. rewrite Hi. cbn [modify]. cbn -[process.set_container].
  unfold process.set_container. unfold mbind at 1, M_bind at 1.
  erewrite Hprops; [|cbn; rewrite lookup_insert_eq; cbn; by rewrite Hp].
  assert (ps_containers (resize_stdio 0 p) = []) as -> by (cbn; by destruct (ps_containers p)).
  reflexivity.
Qed.
End rules.
