(* ===== verification/ReqFs.v ===== *)
(** * File system requests

    src/include/uvcc/request-fs.hpp: twenty request classes, whose [run] members and callbacks
    share one protocol. A request without a callback runs synchronously; one with a callback
    takes a reference to every object it works on, which the callback gives back. *)

From Stdlib Require Import ZArith Lia.
From stdpp Require Import base gmap list strings option.
From S2P Require Import Prelude World Objects Ledger Wp Refs Release Rules HRules.
From S2P Require Import ReqStream Buffer Handle Io.

Local Open Scope Z_scope.

(** ** Properties of the request classes *)

Definition fs_set_file (uh : option loc) (p : rprops) : rprops :=
  match p with R_fs own _ ub off ps uo => R_fs own uh ub off ps uo | _ => p end.
Definition fs_set_buf (ub : option loc) (p : rprops) : rprops :=
  match p with R_fs own uh _ off ps uo => R_fs own uh ub off ps uo | _ => p end.
Definition fs_set_offset (off : Z) (p : rprops) : rprops :=
  match p with R_fs own uh ub _ ps uo => R_fs own uh ub off ps uo | _ => p end.
Definition fs_set_pending (ps : Z) (p : rprops) : rprops :=
  match p with R_fs own uh ub off _ uo => R_fs own uh ub off ps uo | _ => p end.
Definition fs_set_out (uo : option loc) (p : rprops) : rprops :=
  match p with R_fs own uh ub off ps _ => R_fs own uh ub off ps uo | _ => p end.
Definition fs_set_own (p : rprops) : rprops :=
  match p with R_fs _ uh ub off ps uo => R_fs true uh ub off ps uo | _ => p end.

Definition set_ur_fs (t : uv_fs_type) (u : uv_req_t) : uv_req_t :=
  {| ur_type := UV_FS; ur_fs_type := t; ur_data := ur_data u; ur_handle := ur_handle u;
     ur_send_handle := ur_send_handle u; ur_loop := ur_loop u; ur_result := ur_result u;
     ur_path := ur_path u; ur_addrinfo := ur_addrinfo u |}.

Section fs.
Context `{E : Env}.

Definition mod_rprops (r : loc) (f : rprops → rprops) : M unit :=
  mod_r r (λ i, set_r_props (f (r_props i)) i).

(** The constructors: [instance::create()] and [init< _UV_FS_TYPE_ >()]. *)
Definition fs_new (t : uv_fs_type) : M loc :=
  r ← request_create (R_fs false None None 0 0 None);
  mod_r r (set_r_uv (set_ur_fs t));;
  mod_rprops r fs_set_own;;
  mret r.

Definition fs_type (r : loc) : M uv_fs_type := i ← get_r r; mret (ur_fs_type (r_uv i)).
Definition fs_loop (r : loc) : M (option loc) :=
  i ← get_r r; adopt_new TL (ur_loop (r_uv i)).
Definition on_request (r : loc) (c : cb) : M unit := mod_r r (set_r_request_cb c).

Definition req_cleanup (r : loc) : M unit :=
  _ ← uv_call f_fs_req_cleanup [V_req (Some r)]; mret tt.

Fixpoint toks_ref (l : list token) : M unit :=
  match l with [] => mret tt | t :: l' => tok_ref t;; toks_ref l' end.
Fixpoint toks_unref (l : list token) : M unit :=
  match l with [] => mret tt | t :: l' => tok_unref t;; toks_unref l' end.

(** The body of [run] after the request has been cleaned up: [toks] are the objects the
    request works on and the request itself; [sync] and [async] are the writes to the
    properties, [before] and [undo] what else happens before the asynchronous call and when it is
    refused. *)
Definition fs_run (r : loc) (t : uv_fs_type) (toks : list token) (sync async : rprops → rprops)
    (mid_sync before undo : M unit) (f : uvfn) (args : list uvarg) : M Z :=
  i ← get_r r;
  match r_request_cb i with
  | None =>
      mod_rprops r sync;;
      mid_sync;;
      z ← uv_call f (args ++ [V_nullcb]);
      request_uv_status r z
  | Some _ =>
      toks_ref toks;;
      mod_rprops r async;;
      before;;
      _ ← request_uv_status r 0;
      uv_ret ← uv_submit f (args ++ [V_cb (cb_fs t)]) (cb_fs t) r toks;
      when (uv_ret <? 0) (
        _ ← request_uv_status r uv_ret;
        undo;;
        toks_unref toks);;
      mret uv_ret
  end.

(** A request on a path. *)
Definition path_run (r : loc) (t : uv_fs_type) (prep : rprops → rprops) (f : uvfn)
    (l : loc) (rest : list uvarg) : M Z :=
  req_cleanup r;;
  fs_run r t [TR r] prep prep (mret tt) (mret tt) (mret tt) f
    (V_loop (Some l) :: V_req (Some r) :: rest).

(** A request on an open file. *)
Definition file_run (r h : loc) (t : uv_fs_type) (prep : rprops → rprops)
    (mid : M unit) (f : uvfn) (rest : list uvarg) : M Z :=
  i ← get_h h;
  fs_run r t [TH h; TR r] prep prep mid mid (mret tt) f
    (V_loop (uh_loop (h_uv i)) :: V_req (Some r) :: V_int (int32 (uh_result (h_uv i))) :: rest).

(** [if (_offset < 0) _offset = lseek64(fd, 0, SEEK_CUR)] *)
Definition current_offset (h : loc) (offset : Z) : M Z :=
  if offset <? 0 then fd ← file.fd h; uv_call f_lseek64 [V_int fd; V_int 0; V_int 1]
  else mret offset.

(** ** The callbacks: the status, the guards in the order of their declaration, the client's
    function *)

Definition fs_status (r : loc) : M rinst :=
  i ← get_r r;
  mod_r r (set_r_error (int32 (ur_result (r_uv i))));;
  get_r r.

(** [if (cb) cb(request)] *)
Definition call_fs_cb (r : loc) : M unit :=
  i ← get_r r;
  match r_request_cb i with Some f => call_request_cb r f [] | None => mret tt end.

(** [if (cb) cb(request, buffer(uv_buf, adopt_ref)); else uv_buf->unref();] *)
Definition call_fs_buf_cb (r : loc) : M unit :=
  i ← get_r r;
  match r_props i with
  | R_fs _ _ ub _ _ _ =>
      match r_request_cb i with
      | Some f => call_request_cb r f [A_ptr (PB ub)]
      | None => b ← deref ub; buffer_unref b
      end
  | _ => undefined UB_type
  end.

Definition path_cb (r : loc) : M unit :=
  _ ← fs_status r;
  finally (call_fs_cb r) (request_unref r).

Definition file_cb (r : loc) : M unit :=
  i ← fs_status r;
  match r_props i with
  | R_fs _ uh _ _ _ _ =>
      h ← deref uh;
      finally (finally (call_fs_cb r) (request_unref r)) (handle_unref h)
  | _ => undefined UB_type
  end.

(** ... of the classes that have a [run] on a path and one on a file. *)
Definition path_or_file_cb (r : loc) : M unit :=
  i ← fs_status r;
  match r_props i with
  | R_fs _ (Some h) _ _ _ _ =>
      finally (finally (call_fs_cb r) (request_unref r)) (handle_unref h)
  | R_fs _ None _ _ _ _ => finally (call_fs_cb r) (request_unref r)
  | _ => undefined UB_type
  end.

(** [write_queue_size += d] with [std::size_t] arithmetic. *)
Definition add_wqs (h : loc) (d : Z) : M unit :=
  mod_file h (λ f, set_wqs (w64 (fi_wqs f + d)) f).
End fs.

(** ** The classes *)

Module close.
Section close.
Context `{E : Env}.
Definition new : M loc := fs_new UV_FS_CLOSE.

Definition run (r h : loc) : M Z :=
  req_cleanup r;;
  mod_file h (set_closing 1);;
  file_run r h UV_FS_CLOSE (fs_set_file (Some h)) (_ ← io.read_stop h; mret tt) f_fs_close [].

Definition close_cb (r : loc) : M unit := file_cb r.
End close.
End close.

Module read.
Section read.
Context `{E : Env}.
Definition new : M loc := fs_new UV_FS_READ.

Definition run (r h b : loc) (offset : Z) : M Z :=
  req_cleanup r;;
  off ← current_offset h offset;
  i ← get_h h;
  bufs ← get_b b;
  fs_run r UV_FS_READ [TH h; TB b; TR r]
    (λ p, fs_set_offset off (fs_set_file (Some h) p))
    (λ p, fs_set_offset off (fs_set_buf (Some b) (fs_set_file (Some h) p)))
    (mret tt) (mret tt) (mret tt) f_fs_read
    [V_loop (uh_loop (h_uv i)); V_req (Some r); V_int (int32 (uh_result (h_uv i)));
     V_bufs (b_bufs bufs) (Z.of_nat (length (b_bufs bufs))); V_int off].

Definition read_cb (r : loc) : M unit :=
  i ← fs_status r;
  match r_props i with
  | R_fs _ uh _ _ _ _ =>
      h ← deref uh;
      finally (finally (call_fs_buf_cb r) (request_unref r)) (handle_unref h)
  | _ => undefined UB_type
  end.

Definition offset (r : loc) : M Z :=
  i ← get_r r;
  match r_props i with R_fs _ _ _ off _ _ => mret off | _ => undefined UB_type end.
End read.
End read.

Module fs_write.
Section fs_write.
Context `{E : Env}.
Definition new : M loc := fs_new UV_FS_WRITE.

(** [for (i = 0; i < buf_count; ++i) wr_size += _buf.len(i);] *)
Definition wr_size (bufs : list (Z * Z)) : Z := total_buf_len (snd <$> bufs).

Definition run (r h b : loc) (offset : Z) : M Z :=
  req_cleanup r;;
  off ← current_offset h offset;
  i ← get_h h;
  bufs ← get_b b;
  let n := wr_size (b_bufs bufs) in
  fs_run r UV_FS_WRITE [TH h; TB b; TR r]
    (λ p, fs_set_offset off (fs_set_file (Some h) p))
    (λ p, fs_set_pending n (fs_set_offset off (fs_set_buf (Some b) (fs_set_file (Some h) p))))
    (mret tt) (add_wqs h n) (add_wqs h (- n)) f_fs_write
    [V_loop (uh_loop (h_uv i)); V_req (Some r); V_int (int32 (uh_result (h_uv i)));
     V_bufs (b_bufs bufs) (Z.of_nat (length (b_bufs bufs))); V_int off].

Definition try_write (r h b : loc) (offset : Z) : M Z :=
  req_cleanup r;;
  q ← write_queue_size h;
  if negb (q =? 0) then request_uv_status r UV_EAGAIN
  else
    off ← current_offset h offset;
    mod_rprops r (λ p, fs_set_offset off (fs_set_file (Some h) p));;
    i ← get_h h;
    bufs ← get_b b;
    z ← uv_call f_fs_write
      [V_loop (uh_loop (h_uv i)); V_req (Some r); V_int (int32 (uh_result (h_uv i)));
       V_bufs (b_bufs bufs) (Z.of_nat (length (b_bufs bufs))); V_int off; V_nullcb];
    request_uv_status r z.

Definition write_cb (r : loc) : M unit :=
  i ← fs_status r;
  match r_props i with
  | R_fs _ uh _ _ ps _ =>
      h ← deref uh;
      finally (finally (add_wqs h (- ps);; call_fs_buf_cb r) (request_unref r)) (handle_unref h)
  | _ => undefined UB_type
  end.
End fs_write.
End fs_write.

Module sync.
Section sync.
Context `{E : Env}.
Definition new : M loc := fs_new UV_FS_FSYNC.
Definition run (r h : loc) (flush_all_metadata : bool) : M Z :=
  req_cleanup r;;
  file_run r h UV_FS_FSYNC (fs_set_file (Some h)) (mret tt)
    (if flush_all_metadata then f_fs_fsync else f_fs_fdatasync) [].
Definition sync_cb (r : loc) : M unit := file_cb r.
End sync.
End sync.

Module truncate.
Section truncate.
Context `{E : Env}.
Definition new : M loc := fs_new UV_FS_FTRUNCATE.
Definition run (r h : loc) (offset : Z) : M Z :=
  req_cleanup r;;
  off ← current_offset h offset;
  file_run r h UV_FS_FTRUNCATE (λ p, fs_set_offset off (fs_set_file (Some h) p)) (mret tt)
    f_fs_ftruncate [V_int off].
Definition truncate_cb (r : loc) : M unit := file_cb r.
End truncate.
End truncate.

Module sendfile.
Section sendfile.
Context `{E : Env}.
Definition new : M loc := fs_new UV_FS_SENDFILE.

(** [if (_out.type() == UV_FILE) write_queue_size += d] *)
Definition add_out (out : loc) (d : Z) : M unit :=
  t ← uv_interface_type out;
  if decide (t = UV_FILE) then add_wqs out d else mret tt.

(** On Unix a descriptor of the operating system is a [uv_file]. *)
Definition run (r out h_in : loc) (offset length : Z) : M Z :=
  req_cleanup r;;
  t ← uv_interface_type out;
  out_fd ← (if decide (t = UV_FILE) then file.fd out else fileno out);
  if out_fd =? -1 then mret UV_EBADF
  else
    off ← current_offset h_in offset;
    i ← get_h h_in;
    fs_run r UV_FS_SENDFILE [TH out; TH h_in; TR r]
      (λ p, fs_set_offset off (fs_set_file (Some h_in) (fs_set_out (Some out) p)))
      (λ p, fs_set_pending length
         (fs_set_offset off (fs_set_file (Some h_in) (fs_set_out (Some out) p))))
      (mret tt) (add_out out length) (add_out out (- length)) f_fs_sendfile
      [V_loop (uh_loop (h_uv i)); V_req (Some r); V_int out_fd;
       V_int (int32 (uh_result (h_uv i))); V_int off; V_int length].

Definition sendfile_cb (r : loc) : M unit :=
  i ← fs_status r;
  match r_props i with
  | R_fs _ uh _ _ ps uo =>
      out ← deref uo;
      h_in ← deref uh;
      finally (finally (finally (
        add_out out (- ps);;
        call_fs_cb r) (request_unref r)) (handle_unref h_in)) (handle_unref out)
  | _ => undefined UB_type
  end.
End sendfile.
End sendfile.

(** stat, chmod, chown, utime: on a path or on an open file *)

Module stat.
Section stat.
Context `{E : Env}.
Definition new : M loc := fs_new UV_FS_STAT.

(** [handle()] and [path()], the same members in all four classes. *)
Definition handle (r : loc) : M (option loc) :=
  i ← get_r r;
  match r_props i with
  | R_fs _ (Some h) _ _ _ _ => adopt_new TH (Some h)
  | R_fs _ None _ _ _ _ =>
      l ← deref (ur_loop (r_uv i));
      h ← file.new_fd l (-1) (ur_path (r_uv i));
      mret (Some h)
  | _ => undefined UB_type
  end.
Definition path (r : loc) : M (option string) :=
  i ← get_r r;
  match r_props i with
  | R_fs _ (Some h) _ _ _ _ => file.path h
  | R_fs _ None _ _ _ _ => mret (ur_path (r_uv i))
  | _ => undefined UB_type
  end.

Definition run_path (r l : loc) (path : option string) (follow_symlinks : bool) : M Z :=
  path_run r UV_FS_STAT (fs_set_file None) (if follow_symlinks then f_fs_stat else f_fs_lstat)
    l [V_str path].
Definition run_file (r h : loc) : M Z :=
  req_cleanup r;; file_run r h UV_FS_STAT (fs_set_file (Some h)) (mret tt) f_fs_fstat [].
Definition stat_cb (r : loc) : M unit := path_or_file_cb r.
End stat.
End stat.

Module chmod.
Section chmod.
Context `{E : Env}.
Definition new : M loc := fs_new UV_FS_CHMOD.
Definition run_path (r l : loc) (path : option string) (mode : Z) : M Z :=
  path_run r UV_FS_CHMOD (fs_set_file None) f_fs_chmod l [V_str path; V_int mode].
Definition run_file (r h : loc) (mode : Z) : M Z :=
  req_cleanup r;;
  file_run r h UV_FS_CHMOD (fs_set_file (Some h)) (mret tt) f_fs_fchmod [V_int mode].
Definition chmod_cb (r : loc) : M unit := path_or_file_cb r.
End chmod.
End chmod.

Module chown.
Section chown.
Context `{E : Env}.
Definition new : M loc := fs_new UV_FS_CHOWN.
Definition run_path (r l : loc) (path : option string) (uid gid : Z) : M Z :=
  path_run r UV_FS_CHOWN (fs_set_file None) f_fs_chown l [V_str path; V_int uid; V_int gid].
Definition run_file (r h : loc) (uid gid : Z) : M Z :=
  req_cleanup r;;
  file_run r h UV_FS_CHOWN (fs_set_file (Some h)) (mret tt) f_fs_fchown [V_int uid; V_int gid].
Definition chown_cb (r : loc) : M unit := path_or_file_cb r.
End chown.
End chown.

(** The times are numbers of type [double], named by integers here. *)
Module utime.
Section utime.
Context `{E : Env}.
Definition new : M loc := fs_new UV_FS_UTIME.
Definition run_path (r l : loc) (path : option string) (atime mtime : Z) : M Z :=
  path_run r UV_FS_UTIME (fs_set_file None) f_fs_utime l [V_str path; V_int atime; V_int mtime].
Definition run_file (r h : loc) (atime mtime : Z) : M Z :=
  req_cleanup r;;
  file_run r h UV_FS_UTIME (fs_set_file (Some h)) (mret tt) f_fs_futime
    [V_int atime; V_int mtime].
Definition utime_cb (r : loc) : M unit := path_or_file_cb r.
End utime.
End utime.

(** Requests on paths only: their properties are those of [fs]. *)

Module unlink.
Section unlink.
Context `{E : Env}.
Definition new : M loc := fs_new UV_FS_UNLINK.
Definition run (r l : loc) (path : option string) : M Z :=
  path_run r UV_FS_UNLINK (λ p, p) f_fs_unlink l [V_str path].
Definition unlink_cb (r : loc) : M unit := path_cb r.
End unlink.
End unlink.

Module mkdir.
Section mkdir.
Context `{E : Env}.
Definition new : M loc := fs_new UV_FS_MKDIR.
Definition run (r l : loc) (path : option string) (mode : Z) : M Z :=
  path_run r UV_FS_MKDIR (λ p, p) f_fs_mkdir l [V_str path; V_int mode].
Definition mkdir_cb (r : loc) : M unit := path_cb r.
End mkdir.
End mkdir.

Module mkdtemp.
Section mkdtemp.
Context `{E : Env}.
Definition new : M loc := fs_new UV_FS_MKDTEMP.
Definition run (r l : loc) (template : option string) : M Z :=
  path_run r UV_FS_MKDTEMP (λ p, p) f_fs_mkdtemp l [V_str template].
Definition mkdtemp_cb (r : loc) : M unit := path_cb r.
End mkdtemp.
End mkdtemp.

Module rmdir.
Section rmdir.
Context `{E : Env}.
Definition new : M loc := fs_new UV_FS_RMDIR.
Definition run (r l : loc) (path : option string) : M Z :=
  path_run r UV_FS_RMDIR (λ p, p) f_fs_rmdir l [V_str path].
Definition rmdir_cb (r : loc) : M unit := path_cb r.
End rmdir.
End rmdir.

Module scandir.
Section scandir.
Context `{E : Env}.
Definition new : M loc := fs_new UV_FS_SCANDIR.
Definition run (r l : loc) (path : option string) : M Z :=
  path_run r UV_FS_SCANDIR (λ p, p) f_fs_scandir l [V_str path; V_int 0].
Definition scandir_next (r : loc) : M Z :=
  z ← uv_call f_fs_scandir_next [V_req (Some r)]; request_uv_status r z.
Definition scandir_cb (r : loc) : M unit := path_cb r.
End scandir.
End scandir.

Module rename.
Section rename.
Context `{E : Env}.
Definition new : M loc := fs_new UV_FS_RENAME.
Definition run (r l : loc) (path new_path : option string) : M Z :=
  path_run r UV_FS_RENAME (λ p, p) f_fs_rename l [V_str path; V_str new_path].
Definition rename_cb (r : loc) : M unit := path_cb r.
End rename.
End rename.

Module access.
Section access.
Context `{E : Env}.
Definition new : M loc := fs_new UV_FS_ACCESS.
Definition run (r l : loc) (path : option string) (mode : Z) : M Z :=
  path_run r UV_FS_ACCESS (λ p, p) f_fs_access l [V_str path; V_int mode].
Definition access_cb (r : loc) : M unit := path_cb r.
End access.
End access.

Module link.
Section link.
Context `{E : Env}.
Definition new : M loc := fs_new UV_FS_LINK.
Definition run (r l : loc) (path link_path : option string) (symlink : bool)
    (symlink_flags : Z) : M Z :=
  if symlink then
    path_run r UV_FS_LINK (λ p, p) f_fs_symlink l [V_str path; V_str link_path; V_int symlink_flags]
  else path_run r UV_FS_LINK (λ p, p) f_fs_link l [V_str path; V_str link_path].
Definition link_cb (r : loc) : M unit := path_cb r.
End link.
End link.

Module readlink.
Section readlink.
Context `{E : Env}.
Definition new : M loc := fs_new UV_FS_READLINK.
Definition run (r l : loc) (path : option string) : M Z :=
  path_run r UV_FS_READLINK (λ p, p) f_fs_readlink l [V_str path].
Definition readlink_cb (r : loc) : M unit := path_cb r.
End readlink.
End readlink.

Module realpath.
Section realpath.
Context `{E : Env}.
Definition new : M loc := fs_new UV_FS_REALPATH.
Definition run (r l : loc) (path : option string) : M Z :=
  path_run r UV_FS_REALPATH (λ p, p) f_fs_realpath l [V_str path].
Definition realpath_cb (r : loc) : M unit := path_cb r.
End realpath.
End realpath.
