(* ===== verification/FsLedger.v ===== *)
(** * The ledger across file system requests *)

From Stdlib Require Import ZArith Lia.
From stdpp Require Import base gmap list strings option.
From S2P Require Import Prelude World Objects Ledger Wp Refs Release Rules HRules.
From S2P Require Import ReqStream Buffer Handle Io ReadCb ReqFs.

Local Open Scope Z_scope.

(** The references of an asynchronous request, from its properties. *)
Definition fs_toks (r : loc) (p : rprops) : list token :=
  match p with
  | R_fs _ uh ub _ _ uo => opt_tok TH uo ++ opt_tok TH uh ++ opt_tok TB ub ++ [TR r]
  | _ => []
  end.

(** The file, the buffer and the target. *)
Definition fs_ptrs (p : rprops) : option (option loc * option loc * option loc) :=
  match p with R_fs _ uh ub _ _ uo => Some (uh, ub, uo) | _ => None end.

(** What a request leaves pending: nothing when it is synchronous or refused. *)
Definition fs_submitted (c : cb) (z : Z) (a : armed) (A : list armed) : list armed :=
  match c with None => A | Some _ => submitted z a A end.

Section ledger.
Context `{E : Env} `{EO : !EnvOk}.

(** A file that is not being read. *)
Definition idle_file (w : world) (h : loc) : Prop := ∃ io f,
  h_props <$> w_handles w !! h = Some (P_file io f) ∧ h_iface <$> w_handles w !! h = Some If_file ∧
  io_rdlock io = false ∧ reading (io_rdcmd io) = false.

Lemma idle_file_sim w w' h : wsim w w' → idle_file w h → idle_file w' h.
Proof.
  intros S (io & f & HP & HF & H). exists io, f.
  by rewrite <-(sim_hprops _ _ h (proj1 S)), <-(sim_hiface _ _ h (proj1 S)).
Qed.

Variables (r : loc) (toks : list token) (idle : list loc) (G : list token) (X : list dying).

(** The request [r] is not in use, somebody else owns what it works on ([G]), the running code
    has the references [l] of its own, and the files [idle] are not being read. *)
Record fs_ready (l : list token) (p : rprops) (c : cb) (A : list armed) (w : world) : Prop := {
  fr_inv : Inv (l ++ G) X w;
  fr_live : ∀ t, t ∈ toks → live G w t;
  fr_unarmed : unarmed r w;
  fr_props : r_props <$> w_reqs w !! r = Some p;
  fr_cb : r_request_cb <$> w_reqs w !! r = Some c;
  fr_armed : w_armed w = A;
  fr_idle : Forall (idle_file w) idle
}.

Lemma fs_ready_sim l l' p c A w w' :
  wsim w w' → Inv (l' ++ G) X w' → fs_ready l p c A w → fs_ready l' p c A w'.
Proof.
  intros S I' [I L U HP HC HA HF]. split; [done| | | | | |].
  - intros t Ht. specialize (L t Ht). unfold live in *.
    by rewrite <-(owned_proper w w' S t t eq_refl).
  - by apply (unarmed_sim _ _ _ S).
  - by rewrite <-(sim_rprops _ _ r (proj1 S)).
  - apply fmap_Some in HC as (i & Hi & ->).
    destruct (sim_req _ _ _ _ (proj1 S) Hi) as (j & -> & _ & Hj & _). cbn. congruence.
  - by rewrite <-(sim_armed _ _ (proj1 S)).
  - eapply list.Forall_impl; [exact HF|]. intros h. by apply idle_file_sim.
Qed.

Lemma fs_ready_same l p c A w w' : wsame w w' → fs_ready l p c A w → fs_ready l p c A w'.
Proof.
  intros S R. pose proof (wsame_sim _ _ S) as Sm. eapply fs_ready_sim; [done| |done].
  rewrite <-S. apply R.
Qed.

Lemma fs_ready_live l p c A w t : fs_ready l p c A w → t ∈ toks → live (l ++ G) w t.
Proof.
  intros R Ht. eapply live_cnt; [by apply R|]. intros u. rewrite cnt_app. lia.
Qed.

(** A step that leaves the request alone. *)
Definition quiet (m : M unit) : Prop := ∀ l p c A w (Q : unit → world → Prop),
  fs_ready l p c A w → (∀ w', fs_ready l p c A w' → Q tt w') → wp m Q w.

Lemma quiet_ret : quiet (mret tt).
Proof. intros l p c A w Q R HQ. by apply wp_ret, HQ. Qed.

Lemma wp_fs_mod_rprops l p c A f w (Q : unit → world → Prop) :
  fs_ready l p c A w → TR r ∈ toks →
  (∀ w', fs_ready l (f p) c A w' → Q tt w') → wp (mod_rprops r f) Q w.
Proof.
  intros R Hin HQ. pose proof R as [I L U HP HC HA HF]. unfold mod_rprops.
  destruct (live_req _ _ _ r I) as (i & Hi); [by eapply fs_ready_live|]. wp_structs. apply HQ.
  rewrite Hi in HP, HC. cbn in HP, HC. simplify_eq. split.
  - eapply Inv_upd_req; [done|done|done|by right].
  - intros t Ht. by apply (live_owned G w), L.
  - done.
  - cbn. by rewrite lookup_insert_eq.
  - cbn. by rewrite lookup_insert_eq.
  - done.
  - done.
Qed.

Lemma wp_toks_ref l' l p c A w (Q : unit → world → Prop) :
  fs_ready l p c A w → (∀ t, t ∈ l' → t ∈ toks) →
  (∀ w', fs_ready (l' ++ l) p c A w' → Q tt w') → wp (toks_ref l') Q w.
Proof.
  revert l w Q. induction l' as [|t l' IH]; intros l w Q R Hl HQ; [by apply wp_ret, HQ|].
  cbn. wp_struct. assert (t ∈ toks) as Ht by (apply Hl; by left).
  apply (wp_tok_ref t (l ++ G) X); [apply R|by eapply fs_ready_live|]. intros w1 S I1.
  eapply (IH (t :: l)).
  - by eapply fs_ready_sim.
  - intros u Hu. apply Hl. by right.
  - intros w2 R2. apply HQ. destruct R2 as [I2 L2 U2 HP2 HC2 HA2 HF2]. split; try done.
    eapply Inv_perm; [|done|done|exact I2]. cbn. solve_Permutation.
Qed.

(** Giving the references back destroys nothing, since everything has another owner. *)
Lemma wp_toks_unref l' p c A w (Q : unit → world → Prop) :
  fs_ready l' p c A w → (∀ t, t ∈ l' → t ∈ toks) →
  (∀ w', fs_ready [] p c A w' → Q tt w') → wp (toks_unref l') Q w.
Proof.
  revert w Q. induction l' as [|t l' IH]; intros w Q R Hl HQ; [by apply wp_ret, HQ|].
  cbn. wp_struct. assert (t ∈ toks) as Ht by (apply Hl; by left).
  apply (wp_tok_unref_live t (l' ++ G) X); [apply R| |].
  { eapply live_cnt; [by apply R|]. intros u. rewrite cnt_app. lia. }
  intros w1 S I1. apply IH; [by eapply fs_ready_sim| |done].
  intros u Hu. apply Hl. by right.
Qed.

Lemma wp_fs_status_set l p c A z w (Q : Z → world → Prop) :
  fs_ready l p c A w → TR r ∈ toks →
  (∀ w', fs_ready l p c A w' → Q z w') → wp (request_uv_status r z) Q w.
Proof.
  intros R Hin HQ. eapply wp_r_status; [apply R|by eapply fs_ready_live|]. intros w' S.
  by eapply HQ, fs_ready_same.
Qed.

(** The protocol of a file system request keeps the ledger: an accepted asynchronous
    request has left exactly the references its properties name with libuv. *)
Lemma wp_fs_run t sync async mid before undo f args p c w :
  fs_ready [] p c (w_armed w) w → TR r ∈ toks →
  quiet mid → quiet before → quiet undo →
  (c ≠ None → ∃ uh ub uo, fs_ptrs (async p) = Some (uh, ub, uo) ∧ fs_shape t uh ub uo = true ∧
    toks = opt_tok TH uo ++ opt_tok TH uh ++ opt_tok TB ub ++ [TR r]) →
  wp (fs_run r t toks sync async mid before undo f args) (λ z w', Inv G X w' ∧
    w_armed w' = fs_submitted c z
      {| arm_cb := cb_fs t; arm_obj := r; arm_toks := toks |} (w_armed w)) w.
Proof.
  intros R Hin Hmid Hbefore Hundo Hasync. remember (w_armed w) as A eqn:HA. clear HA.
  unfold fs_run. wp_struct.
  destruct (live_req _ _ _ r (fr_inv _ _ _ _ _ R)) as (i & Hi); [by eapply fs_ready_live|].
  wp_struct. assert (r_request_cb i = c) as ->.
  { pose proof (fr_cb _ _ _ _ _ R) as HC. rewrite Hi in HC. by simplify_eq/=. }
  clear Hi. destruct c as [fc|].
  - destruct Hasync as (uh & ub & uo & Hp & Hs & Ht); [done|].
    wp_struct. eapply wp_toks_ref; [exact R|done|]. intros w1 R1. rewrite app_nil_r in R1.
    wp_struct. eapply wp_fs_mod_rprops; [exact R1|done|]. intros w2 R2.
    wp_struct. eapply Hbefore; [exact R2|]. intros w3 R3.
    wp_struct. eapply wp_fs_status_set; [exact R3|done|]. intros w4 R4. wp_struct.
    apply (wp_uv_submit _ _ (cb_fs t) r toks G X); [apply R4| | |].
    + pose proof (fr_props _ _ _ _ _ R4) as HP4. unfold arm_ok. cbn. rewrite HP4.
      destruct (async p); try done. cbn in Hp. simplify_eq.
      eexists _, _, _, _, _, _. by split.
    + intros z w5 Hz S5 _. rewrite (proj2 (Z.ltb_lt z 0) Hz). cbn [when].
      assert (fs_ready toks (async p) (Some fc) A w5) as R5 by (by eapply fs_ready_same).
      do 2 wp_struct. eapply wp_fs_status_set; [exact R5|done|]. intros w6 R6. wp_struct.
      eapply Hundo; [exact R6|]. intros w7 R7.
      eapply wp_toks_unref; [exact R7|done|]. intros w8 R8. apply wp_ret.
      split; [apply R8|]. cbn. rewrite submitted_neg by done. apply R8.
    + intros z w5 Hz I5 HA5. rewrite (proj2 (Z.ltb_ge z 0) Hz). cbn [when].
      wp_structs. split; [done|]. cbn. rewrite submitted_pos by done. rewrite HA5.
      f_equal. apply R4.
  - wp_struct. eapply wp_fs_mod_rprops; [exact R|done|]. intros w2 R2.
    wp_struct. eapply Hmid; [exact R2|]. intros w3 R3. wp_struct.
    apply wp_uv_call. intros z w4 S4. eapply wp_fs_status_set; [by eapply fs_ready_same|done|].
    intros w5 R5. split; [apply R5|apply R5].
Qed.

Lemma wp_fs_cleanup l p c A w (Q : unit → world → Prop) :
  fs_ready l p c A w → (∀ w', fs_ready l p c A w' → Q tt w') → wp (req_cleanup r) Q w.
Proof.
  intros R HQ. unfold req_cleanup. wp_struct. apply wp_uv_call. intros z w' S.
  apply wp_ret, HQ. by eapply fs_ready_same.
Qed.

Lemma wp_fs_get_h h l p c A w (Q : hinst → world → Prop) :
  fs_ready l p c A w → TH h ∈ toks → (∀ i, Q i w) → wp (get_h h) Q w.
Proof.
  intros R Hin HQ. destruct (live_handle _ _ _ h (fr_inv _ _ _ _ _ R)) as (i & Hi);
    [by eapply fs_ready_live|]. eapply wp_get_h; [done|apply HQ].
Qed.

Lemma wp_fs_get_b b l p c A w (Q : binst → world → Prop) :
  fs_ready l p c A w → TB b ∈ toks → (∀ i, Q i w) → wp (get_b b) Q w.
Proof.
  intros R Hin HQ. destruct (live_buf _ _ _ b (fr_inv _ _ _ _ _ R)) as (i & Hi);
    [by eapply fs_ready_live|]. eapply wp_get_b; [done|apply HQ].
Qed.

Lemma wp_fs_offset h off l p c A w (Q : Z → world → Prop) :
  fs_ready l p c A w → TH h ∈ toks → (∀ z w', fs_ready l p c A w' → Q z w') →
  wp (current_offset h off) Q w.
Proof.
  intros R Hin HQ. unfold current_offset. destruct (off <? 0); [|by apply wp_ret, HQ].
  unfold file.fd. do 2 wp_struct. eapply wp_fs_get_h; [done..|]. intros i. wp_struct.
  apply wp_uv_call. intros z w' S. by eapply HQ, fs_ready_same.
Qed.

(** The properties of a handle have been written. *)
Lemma fs_ready_wrote l p c A h q w w' :
  fs_ready l p c A w → Inv (l ++ G) X w' → wrote h q w w' → (∀ t, owned w' t = owned w t) →
  Forall (idle_file w') idle → fs_ready l p c A w'.
Proof.
  intros [I L U HP HC HA HF] I' W HO HF'. split; try done.
  - intros t Ht. eapply owned_eq_live; [done|by apply L].
  - eapply unarmed_eq; [by apply (wr_armed _ _ _ _ W)|done].
  - by rewrite (wr_reqs _ _ _ _ W).
  - by rewrite (wr_reqs _ _ _ _ W).
  - by rewrite (wr_armed _ _ _ _ W).
Qed.

(** A change of the properties of a file that keeps what it holds. *)
Lemma wp_fs_mod_file l p c A h g w (Q : unit → world → Prop) :
  fs_ready l p c A w → TH h ∈ toks →
  (∀ q, props_self (g q) = props_self q ∧ same_endpoints q (g q) ∧
    ∀ io f, q = P_file io f → ∃ io' f', g q = P_file io' f' ∧
      fi_rd_data f' = fi_rd_data f ∧ reading (io_rdcmd io') = reading (io_rdcmd io)) →
  (∀ w', Inv (l ++ G) X w' → wrote h (from_option (g ∘ h_props) P_none (w_handles w !! h)) w w' →
    (Forall (idle_file w') idle → fs_ready l p c A w') → Q tt w') →
  wp (mod_props h g) Q w.
Proof.
  intros R Hin Hg HQ. pose proof R as [I L U HP HC HA HF].
  destruct (live_handle _ _ _ h I) as (i & Hi); [by eapply fs_ready_live|].
  destruct (Hg (h_props i)) as (Hs & He & Hr).
  eapply (wp_mod_props h g (h_props i)); [done|by eapply fs_ready_live|by rewrite Hi|done|done| |].
  - destruct (h_props i) eqn:Hp; try (by apply reads_kept_not_file).
    destruct (Hr io f eq_refl) as (io' & f' & -> & Hd & Hc). apply reads_kept_same; [done|].
    by rewrite Hc.
  - intros w' I' W HO. apply HQ; [done|by rewrite Hi|]. by eapply fs_ready_wrote.
Qed.

(** The files stay idle when the change keeps the lock and the command. *)
Lemma idle_wrote h g w w' :
  wrote h (from_option (g ∘ h_props) P_none (w_handles w !! h)) w w' →
  (∀ io f, ∃ io' f', g (P_file io f) = P_file io' f' ∧ io_rdlock io' = io_rdlock io ∧
    reading (io_rdcmd io') = reading (io_rdcmd io)) →
  Forall (idle_file w) idle → Forall (idle_file w') idle.
Proof.
  intros W Hg HF. eapply list.Forall_impl; [exact HF|].
  intros h' (io & f & HP & Hi & Hk & Hr). destruct (decide (h = h')) as [<-|Hne].
  - apply fmap_Some in HP as (i & Hh & Hp). destruct (Hg io f) as (io' & f' & E1 & E2 & E3).
    exists io', f'. rewrite (wr_iface _ _ _ _ W), (wr_props _ _ _ _ W), Hh. cbn.
    rewrite <-Hp, E1, E2, E3. rewrite Hh in Hi. by split_and!.
  - exists io, f. by rewrite (wr_other _ _ _ _ W h').
Qed.

Lemma quiet_mod_file h g : TH h ∈ toks →
  (∀ f, fi_rd_data (g f) = fi_rd_data f) → quiet (mod_file h g).
Proof.
  intros Hin Hg l p c A w Q R HQ. unfold mod_file. eapply wp_fs_mod_file; [exact R|done| |].
  - intros []; cbn; (split_and!; [done|done|]); intros ? ? [=]; subst. by eexists _, _.
  - intros w' _ W H. eapply HQ, H, idle_wrote; [exact W| |by apply R]. intros io f. by eexists _, _.
Qed.

(** The write queue of a file only counts. *)
Lemma quiet_add_wqs h d : TH h ∈ toks → quiet (add_wqs h d).
Proof. intros Hin. by apply quiet_mod_file. Qed.

Lemma quiet_add_out h d : TH h ∈ toks → quiet (sendfile.add_out h d).
Proof.
  intros Hin l p c A w Q R HQ. unfold sendfile.add_out, uv_interface_type. do 2 wp_struct.
  eapply wp_fs_get_h; [done..|]. intros i. wp_struct.
  case_decide; [by eapply quiet_add_wqs|by apply wp_ret, HQ].
Qed.
End ledger.

(** ** [read_stop()] of a file that is not being read *)

Section stop.
Context `{E : Env} `{EO : !EnvOk}.
Variables (r : loc) (toks : list token) (h : loc) (G : list token) (X : list dying).
Hypothesis (Hin : TH h ∈ toks).

(** The command is under way: the lock of [io] is taken. *)
Definition stopping (l : list token) (p : rprops) (c : cb) (A : list armed) (io : io_props)
    (w : world) : Prop :=
  fs_ready r toks [] G X l p c A w ∧ h_iface <$> w_handles w !! h = Some If_file ∧
  ∃ f, h_props <$> w_handles w !! h = Some (P_file io f).

Lemma stopping_begin l p c A w : fs_ready r toks [h] G X l p c A w →
  ∃ io, stopping l p c A io w ∧ io_rdlock io = false ∧ reading (io_rdcmd io) = false.
Proof.
  intros [I L U HP HC HA HF]. apply list.Forall_singleton in HF as (io & f & Hp & Hi & Hk & Hr).
  exists io. split_and!; [|done..]. split; [by split|]. split; [done|by exists f].
Qed.

Lemma stopping_end l p c A io w : stopping l p c A io w →
  io_rdlock io = false → reading (io_rdcmd io) = false → fs_ready r toks [h] G X l p c A w.
Proof.
  intros ([I L U HP HC HA _] & Hi & f & Hp) Hk Hr. split; try done.
  apply list.Forall_singleton. by exists io, f.
Qed.

Lemma wp_stopping_get l p c A io (Q : io_props → world → Prop) w :
  stopping l p c A io w → Q io w → wp (get_io h) Q w.
Proof.
  intros (R & Hi & f & Hp) HQ. unfold get_io. wp_struct. eapply wp_properties; [done|].
  by apply wp_ret.
Qed.

Lemma wp_stopping_mod l p c A io g (Q : unit → world → Prop) w :
  stopping l p c A io w → reading (io_rdcmd io) = false → reading (io_rdcmd (g io)) = false →
  (∀ w', stopping l p c A (g io) w' → Q tt w') → wp (mod_io h g) Q w.
Proof.
  intros (R & Hi & f & Hp) Hr Hg HQ. pose proof R as [I L U HP HC HA HF].
  eapply (wp_mod_props h (map_io g) (P_file io f)); [done|by eapply fs_ready_live|done|..]; cbn.
  - by rewrite Hr, Hg.
  - done.
  - apply reads_kept_same; [done|congruence].
  - intros w' I' W HO. apply HQ. split; [|split].
    + by eapply fs_ready_wrote.
    + by rewrite (wr_iface _ _ _ _ W).
    + exists f. apply (wr_props _ _ _ _ W).
Qed.

(** Such a file has no reference to itself, and none is given back. *)
Lemma quiet_read_stop : quiet r toks [h] G X (_ ← io.read_stop h; mret tt).
Proof.
  intros l p c A w Q R HQ. destruct (stopping_begin _ _ _ _ _ R) as (io & S & Hk & Hr). clear R.
  wp_struct. unfold io.read_stop, with_rdlock, rd_lock, rd_unlock.
  do 2 wp_struct. eapply wp_stopping_get; [exact S|]. rewrite Hk.
  eapply wp_stopping_mod; [exact S|done..|]. clear S. intros w1 S.
  do 2 wp_struct. eapply wp_stopping_get; [exact S|].
  wp_struct. eapply wp_stopping_mod; [exact S|done..|]. clear S. intros w2 S.
  wp_struct. unfold uv_interface_read_stop. do 2 wp_struct.
  destruct S as (R & Hi & f & Hp). pose proof Hi as (i & Hh & Hf)%fmap_Some.
  wp_struct. rewrite <-Hf. wp_struct. wp_struct.
  eapply wp_h_status; [apply R|by eapply fs_ready_live|]. intros w3 S3.
  assert (stopping l p c A (set_rdcmd RD_STOP (set_rdlock true io)) w3) as S.
  { split; [by eapply fs_ready_same|]. split.
    - by rewrite <-(sim_hiface _ _ h (proj1 (wsame_sim _ _ S3))).
    - exists f. by rewrite <-(sim_hprops _ _ h (proj1 (wsame_sim _ _ S3))). }
  wp_struct. cbn [io_rdcmd set_rdlock].
  assert (wp (match io_rdcmd io with RD_UNKNOWN | RD_STOP | RD_PAUSE => mret tt
    | RD_START | RD_RESUME => handle_unref h end) (λ _ w', w' = w3) w3) as Hm.
  { destruct (io_rdcmd io); try done; by apply wp_ret. }
  eapply wp_mono; [exact Hm|]. intros [] w' ->. wp_struct.
  eapply wp_stopping_mod; [exact S|done..|]. intros w4 S4. apply wp_ret, HQ.
  by eapply stopping_end.
Qed.
End stop.

(** ** The requests *)

Section requests.
Context `{E : Env} `{EO : !EnvOk}.
Variables (G : list token) (X : list dying).

Lemma fs_ready_intro r toks p c w :
  Inv G X w → (∀ t, t ∈ toks → live G w t) → unarmed r w →
  (λ i, (r_props i, r_request_cb i)) <$> w_reqs w !! r = Some (p, c) →
  fs_ready r toks [] G X [] p c (w_armed w) w.
Proof.
  intros I L U (i & Hi & Hpc)%fmap_Some. simplify_eq. split; try done; by rewrite Hi.
Qed.

(** The twenty requests that work on paths, and those that work on an open file. *)
Inductive path_op :=
| PO_unlink (path : option string) | PO_mkdir (path : option string) (mode : Z)
| PO_mkdtemp (template : option string) | PO_rmdir (path : option string)
| PO_scandir (path : option string) | PO_rename (path new_path : option string)
| PO_access (path : option string) (mode : Z)
| PO_link (path link_path : option string) (symlink : bool) (flags : Z)
| PO_readlink (path : option string) | PO_realpath (path : option string)
| PO_stat (path : option string) (follow : bool) | PO_chmod (path : option string) (mode : Z)
| PO_chown (path : option string) (uid gid : Z) | PO_utime (path : option string) (a m : Z).

Definition path_op_run (r l : loc) (q : path_op) : M Z :=
  match q with
  | PO_unlink path => unlink.run r l path
  | PO_mkdir path mode => mkdir.run r l path mode
  | PO_mkdtemp template => mkdtemp.run r l template
  | PO_rmdir path => rmdir.run r l path
  | PO_scandir path => scandir.run r l path
  | PO_rename path new_path => rename.run r l path new_path
  | PO_access path mode => access.run r l path mode
  | PO_link path link_path symlink flags => link.run r l path link_path symlink flags
  | PO_readlink path => readlink.run r l path
  | PO_realpath path => realpath.run r l path
  | PO_stat path follow => stat.run_path r l path follow
  | PO_chmod path mode => chmod.run_path r l path mode
  | PO_chown path uid gid => chown.run_path r l path uid gid
  | PO_utime path a m => utime.run_path r l path a m
  end.

Definition path_op_type (q : path_op) : uv_fs_type :=
  match q with
  | PO_unlink _ => UV_FS_UNLINK | PO_mkdir _ _ => UV_FS_MKDIR | PO_mkdtemp _ => UV_FS_MKDTEMP
  | PO_rmdir _ => UV_FS_RMDIR | PO_scandir _ => UV_FS_SCANDIR | PO_rename _ _ => UV_FS_RENAME
  | PO_access _ _ => UV_FS_ACCESS | PO_link _ _ _ _ => UV_FS_LINK
  | PO_readlink _ => UV_FS_READLINK | PO_realpath _ => UV_FS_REALPATH
  | PO_stat _ _ => UV_FS_STAT | PO_chmod _ _ => UV_FS_CHMOD | PO_chown _ _ _ => UV_FS_CHOWN
  | PO_utime _ _ _ => UV_FS_UTIME
  end.

(** The classes that have no [run] on an open file. *)
Definition path_only (q : path_op) : bool :=
  match q with PO_stat _ _ | PO_chmod _ _ | PO_chown _ _ _ | PO_utime _ _ _ => false | _ => true end.

Inductive file_op :=
| FO_sync (flush_all_metadata : bool) | FO_truncate (offset : Z) | FO_stat
| FO_chmod (mode : Z) | FO_chown (uid gid : Z) | FO_utime (a m : Z).

Definition file_op_run (r h : loc) (q : file_op) : M Z :=
  match q with
  | FO_sync b => sync.run r h b
  | FO_truncate offset => truncate.run r h offset
  | FO_stat => stat.run_file r h
  | FO_chmod mode => chmod.run_file r h mode
  | FO_chown uid gid => chown.run_file r h uid gid
  | FO_utime a m => utime.run_file r h a m
  end.

Definition file_op_type (q : file_op) : uv_fs_type :=
  match q with
  | FO_sync _ => UV_FS_FSYNC | FO_truncate _ => UV_FS_FTRUNCATE | FO_stat => UV_FS_STAT
  | FO_chmod _ => UV_FS_CHMOD | FO_chown _ _ => UV_FS_CHOWN | FO_utime _ _ => UV_FS_UTIME
  end.

(** The callback [c] of the request [r] of type [t] with its references. *)
Definition fs_arm (t : uv_fs_type) (r : loc) (toks : list token) : armed :=
  {| arm_cb := cb_fs t; arm_obj := r; arm_toks := toks |}.

Lemma wp_path_run r t prep f l rest p c w :
  Inv G X w → live G w (TR r) → unarmed r w →
  (λ i, (r_props i, r_request_cb i)) <$> w_reqs w !! r = Some (p, c) →
  fs_ptrs (prep p) = Some (None, None, None) → fs_shape t None None None = true →
  wp (path_run r t prep f l rest) (λ z w', Inv G X w' ∧
    w_armed w' = fs_submitted c z (fs_arm t r [TR r]) (w_armed w)) w.
Proof.
  intros I L U HP Hfs Ht. remember (w_armed w) as A eqn:HA.
  assert (fs_ready r [TR r] [] G X [] p c A w) as R.
  { subst A. apply fs_ready_intro; try done. by intros t' ->%list_elem_of_singleton. }
  unfold path_run. wp_struct. eapply wp_fs_cleanup; [exact R|]. intros w1 R1.
  rewrite <-(fr_armed _ _ _ _ _ _ _ _ _ _ R1).
  eapply wp_fs_run; try apply quiet_ret; [|by left|eauto 8].
  by rewrite (fr_armed _ _ _ _ _ _ _ _ _ _ R1).
Qed.

Lemma wp_file_run r h idle t prep mid f rest p c w :
  fs_ready r [TH h; TR r] idle G X [] p c (w_armed w) w → quiet r [TH h; TR r] idle G X mid →
  fs_ptrs (prep p) = Some (Some h, None, None) → fs_shape t (Some h) None None = true →
  wp (file_run r h t prep mid f rest) (λ z w', Inv G X w' ∧
    w_armed w' = fs_submitted c z (fs_arm t r [TH h; TR r]) (w_armed w)) w.
Proof.
  intros R Hq Hfs Ht. unfold file_run. wp_struct. eapply wp_fs_get_h; [exact R|list_in|].
  intros i. eapply wp_fs_run; try apply quiet_ret; [done|list_in|done..|eauto 8].
Qed.

Lemma wp_path_op r l q p c w :
  Inv G X w → live G w (TR r) → unarmed r w →
  (λ i, (r_props i, r_request_cb i)) <$> w_reqs w !! r = Some (p, c) →
  fs_ptrs (fs_set_file None p) = Some (None, None, None) →
  (path_only q = true → fs_set_file None p = p) →
  wp (path_op_run r l q) (λ z w', Inv G X w' ∧
    w_armed w' = fs_submitted c z (fs_arm (path_op_type q) r [TR r]) (w_armed w)) w.
Proof.
  intros I L U HP Hfs Ht.
  assert (∀ t prep f rest, fs_ptrs (prep p) = Some (None, None, None) →
    fs_shape t None None None = true →
    wp (path_run r t prep f l rest) (λ z w', Inv G X w' ∧
      w_armed w' = fs_submitted c z (fs_arm t r [TR r]) (w_armed w)) w) as Hk.
  { intros t prep f rest H1 H2. by eapply wp_path_run. }
  clear I L U HP.
  destruct q; cbn [path_op_run path_op_type path_only] in *;
    unfold unlink.run, mkdir.run, mkdtemp.run, rmdir.run, scandir.run, rename.run, access.run,
      link.run, readlink.run, realpath.run, stat.run_path, chmod.run_path, chown.run_path,
      utime.run_path; try (destruct symlink); try (rewrite Ht in Hfs by reflexivity);
    lazymatch goal with
    | |- wp (path_run _ ?t ?prep ?f _ ?rest) _ _ => exact (Hk t prep f rest Hfs eq_refl)
    end.
Qed.

(** The fourteen file system requests on a path keep the ledger: synchronous ones
    take no reference, asynchronous ones leave a reference to the request with the
    pending callback when libuv accepts them and none when it refuses. *)
Theorem path_requests_ok r l q p c w :
  Inv G X w → live G w (TR r) → unarmed r w →
  (λ i, (r_props i, r_request_cb i)) <$> w_reqs w !! r = Some (p, c) →
  fs_ptrs (fs_set_file None p) = Some (None, None, None) →
  (path_only q = true → fs_set_file None p = p) →
  wp (path_op_run r l q) (λ z w', Inv G X w' ∧
    w_armed w' = fs_submitted c z (fs_arm (path_op_type q) r [TR r]) (w_armed w)) w.
Proof. apply wp_path_op. Qed.

Lemma wp_file_op r h q p c w :
  Inv G X w → live G w (TR r) → live G w (TH h) → unarmed r w →
  (λ i, (r_props i, r_request_cb i)) <$> w_reqs w !! r = Some (p, c) →
  fs_ptrs (fs_set_file None p) = Some (None, None, None) →
  wp (file_op_run r h q) (λ z w', Inv G X w' ∧
    w_armed w' = fs_submitted c z (fs_arm (file_op_type q) r [TH h; TR r]) (w_armed w)) w.
Proof.
  intros I L Lh U HP Hfs. remember (w_armed w) as A eqn:HA.
  assert (fs_ready r [TH h; TR r] [] G X [] p c A w) as R.
  { subst A. apply fs_ready_intro; try done.
    intros t' [->|[->|[]%not_elem_of_nil]%elem_of_cons]%elem_of_cons; done. }
  clear I L Lh U HP HA.
  assert (∀ o, fs_ptrs (fs_set_offset o (fs_set_file (Some h) p)) = Some (Some h, None, None) ∧
    fs_ptrs (fs_set_file (Some h) p) = Some (Some h, None, None)) as Hp.
  { intros o. destruct p; try done. cbn in *. by simplify_eq. }
  assert (∀ t prep f rest, fs_ptrs (prep p) = Some (Some h, None, None) →
    fs_shape t (Some h) None None = true →
    wp (req_cleanup r;; file_run r h t prep (mret tt) f rest) (λ z w', Inv G X w' ∧
      w_armed w' = fs_submitted c z (fs_arm t r [TH h; TR r]) A) w) as Hk.
  { intros t prep f rest H1 H2. wp_struct. eapply wp_fs_cleanup; [exact R|]. intros w1 R1.
    rewrite <-(fr_armed _ _ _ _ _ _ _ _ _ _ R1). eapply wp_file_run; [|apply quiet_ret|done..].
    by rewrite (fr_armed _ _ _ _ _ _ _ _ _ _ R1). }
  destruct q; try (by apply Hk; [apply (Hp 0)|]).
  cbn. unfold truncate.run. wp_struct. eapply wp_fs_cleanup; [exact R|]. intros w1 R1.
  wp_struct. eapply wp_fs_offset; [exact R1|list_in|]. intros z w2 R2.
  rewrite <-(fr_armed _ _ _ _ _ _ _ _ _ _ R2).
  eapply wp_file_run; [by rewrite (fr_armed _ _ _ _ _ _ _ _ _ _ R2)|apply quiet_ret|apply Hp|done].
Qed.

(** The six file system requests on an open file keep the ledger: an accepted
    asynchronous one leaves references to the file and the request with the pending
    callback, a refused or synchronous one none. *)
Theorem file_requests_ok r h q p c w :
  Inv G X w → live G w (TR r) → live G w (TH h) → unarmed r w →
  (λ i, (r_props i, r_request_cb i)) <$> w_reqs w !! r = Some (p, c) →
  fs_ptrs (fs_set_file None p) = Some (None, None, None) →
  wp (file_op_run r h q) (λ z w', Inv G X w' ∧
    w_armed w' = fs_submitted c z (fs_arm (file_op_type q) r [TH h; TR r]) (w_armed w)) w.
Proof. apply wp_file_op. Qed.

(** The request that closes a file stops its reading first. *)
Lemma wp_close r h p c w :
  Inv G X w → Forall (live G w) [TH h; TR r] → unarmed r w → idle_file w h →
  (λ i, (r_props i, r_request_cb i)) <$> w_reqs w !! r = Some (p, c) →
  fs_ptrs (fs_set_file None p) = Some (None, None, None) →
  wp (close.run r h) (λ z w', Inv G X w' ∧
    w_armed w' = fs_submitted c z (fs_arm UV_FS_CLOSE r [TH h; TR r]) (w_armed w)) w.
Proof.
  intros I L U HF (i & Hi & Hpc)%fmap_Some Hfs. remember (w_armed w) as A eqn:HA.
  assert (fs_ready r [TH h; TR r] [h] G X [] p c A w) as R.
  { rewrite list.Forall_forall in L. simplify_eq.
    split; try done; [by rewrite Hi..|by apply list.Forall_singleton]. }
  clear L. assert (TH h ∈ [TH h; TR r]) as Hin by by left.
  unfold close.run. wp_struct. eapply wp_fs_cleanup; [exact R|]. intros w1 R1. wp_struct.
  eapply (quiet_mod_file r [TH h; TR r] [h] G X h (set_closing 1)); [done|done|exact R1|]. intros w2 R2.
  pose proof (fr_armed _ _ _ _ _ _ _ _ _ _ R2) as HA2. rewrite <-HA2 in R2 |- *.
  eapply wp_file_run; [exact R2|by apply quiet_read_stop| |done].
  destruct p; try done. cbn in *. by simplify_eq.
Qed.

(** Requests that move data. *)
Lemma fs_ready_list r toks p c w :
  Inv G X w → Forall (live G w) toks → unarmed r w →
  (λ i, (r_props i, r_request_cb i)) <$> w_reqs w !! r = Some (p, c) →
  fs_ready r toks [] G X [] p c (w_armed w) w.
Proof.
  intros I L U HP. apply fs_ready_intro; try done. rewrite list.Forall_forall in L. exact L.
Qed.

Lemma wp_read_write r h b off own uh ub o ps c w :
  Inv G X w → Forall (live G w) [TH h; TB b; TR r] → unarmed r w →
  (λ i, (r_props i, r_request_cb i)) <$> w_reqs w !! r = Some (R_fs own uh ub o ps None, c) →
  let a t := fs_arm t r [TH h; TB b; TR r] in
  wp (read.run r h b off) (λ z w', Inv G X w' ∧
    w_armed w' = fs_submitted c z (a UV_FS_READ) (w_armed w)) w ∧
  wp (fs_write.run r h b off) (λ z w', Inv G X w' ∧
    w_armed w' = fs_submitted c z (a UV_FS_WRITE) (w_armed w)) w.
Proof.
  intros I L U HP a. pose proof (fs_ready_list _ _ _ _ _ I L U HP) as R. clear I L U HP.
  remember (w_armed w) as A eqn:HA. clear HA.
  split; [unfold read.run|unfold fs_write.run];
    (wp_struct; eapply wp_fs_cleanup; [exact R|]; intros w1 R1; clear R;
     wp_struct; eapply wp_fs_offset; [exact R1|list_in|]; intros z w2 R2; clear R1;
     wp_struct; eapply wp_fs_get_h; [exact R2|list_in|]; intros i;
     wp_struct; eapply wp_fs_get_b; [exact R2|list_in|]; intros bi; cbv zeta;
     pose proof (fr_armed _ _ _ _ _ _ _ _ _ _ R2) as HA2; rewrite <-HA2;
     rewrite <-HA2 in R2; eapply wp_fs_run; [exact R2|list_in|..];
     try apply quiet_ret; try (apply quiet_add_wqs; list_in); intros _; by eexists _, _, _).
Qed.

(** fs::read::run and fs::write::run keep the ledger on every branch: an accepted
    asynchronous request leaves references to the file, the buffer and the request with
    the pending callback, otherwise none is left. *)
Theorem read_write_ok r h b off own uh ub o ps c w :
  Inv G X w → Forall (live G w) [TH h; TB b; TR r] → unarmed r w →
  (λ i, (r_props i, r_request_cb i)) <$> w_reqs w !! r = Some (R_fs own uh ub o ps None, c) →
  let a t := fs_arm t r [TH h; TB b; TR r] in
  wp (read.run r h b off) (λ z w', Inv G X w' ∧
    w_armed w' = fs_submitted c z (a UV_FS_READ) (w_armed w)) w ∧
  wp (fs_write.run r h b off) (λ z w', Inv G X w' ∧
    w_armed w' = fs_submitted c z (a UV_FS_WRITE) (w_armed w)) w.
Proof. apply wp_read_write. Qed.

Lemma wp_sendfile r out h off n own uh o ps uo c w :
  Inv G X w → Forall (live G w) [TH out; TH h; TR r] → unarmed r w →
  (λ i, (r_props i, r_request_cb i)) <$> w_reqs w !! r = Some (R_fs own uh None o ps uo, c) →
  h_iface <$> w_handles w !! out = Some If_file →
  wp (sendfile.run r out h off n) (λ z w', Inv G X w' ∧
    (z = UV_EBADF ∧ w_armed w' = w_armed w ∨
     w_armed w' = fs_submitted c z (fs_arm UV_FS_SENDFILE r [TH out; TH h; TR r])
       (w_armed w))) w.
Proof.
  intros I L U HP HF. pose proof (fs_ready_list _ _ _ _ _ I L U HP) as R. clear I L U HP.
  remember (w_armed w) as A eqn:HA. clear HA. unfold sendfile.run, uv_interface_type.
  wp_struct. unfold req_cleanup. wp_struct. apply wp_uv_call. intros z w1 S. wp_struct.
  rewrite (sim_hiface _ _ out (proj1 (wsame_sim _ _ S))) in HF.
  pose proof (fs_ready_same _ _ _ _ _ _ _ _ _ _ _ S R) as R1. clear R S.
  apply fmap_Some in HF as (i & Hi & Hf). do 2 wp_struct. eapply wp_get_h; [done|].
  rewrite <-Hf. wp_structs. cbn [decide]. rewrite decide_True by done. unfold file.fd.
  wp_structs. destruct (_ =? -1); [apply wp_ret; split; [apply R1|left; split; [done|apply R1]]|].
  wp_struct. eapply wp_fs_offset; [exact R1|list_in|]. intros off' w2 R2.
  wp_struct. eapply wp_fs_get_h; [exact R2|list_in|]. intros j.
  pose proof (fr_armed _ _ _ _ _ _ _ _ _ _ R2) as HA2. rewrite <-HA2 in R2 |- *.
  eapply wp_mono; [eapply wp_fs_run; [exact R2|list_in|..];
    try apply quiet_ret; try (apply quiet_add_out; list_in); intros _; by eexists _, _, _|].
  cbn. intros z2 w3 [I3 HA3]. split; [done|]. by right.
Qed.

(** fs::sendfile::run answers UV_EBADF without any effect on the ledger when the
    target has no descriptor; otherwise an accepted asynchronous request leaves
    references to both files and the request with the pending callback. *)
Theorem sendfile_ok r out h off n own uh o ps uo c w :
  Inv G X w → Forall (live G w) [TH out; TH h; TR r] → unarmed r w →
  (λ i, (r_props i, r_request_cb i)) <$> w_reqs w !! r = Some (R_fs own uh None o ps uo, c) →
  h_iface <$> w_handles w !! out = Some If_file →
  wp (sendfile.run r out h off n) (λ z w', Inv G X w' ∧
    (z = UV_EBADF ∧ w_armed w' = w_armed w ∨
     w_armed w' = fs_submitted c z (fs_arm UV_FS_SENDFILE r [TH out; TH h; TR r])
       (w_armed w))) w.
Proof. apply wp_sendfile. Qed.

(** ** The callbacks

    give back exactly the references the request took, and pass the buffer on. *)

Lemma wp_fs_status r i (Q : rinst → world → Prop) w :
  w_reqs w !! r = Some i →
  (∀ j w', wsame w w' → w_reqs w' !! r = Some j → r_props j = r_props i → Q j w') →
  wp (fs_status r) Q w.
Proof.
  intros Hi HQ. unfold fs_status. wp_structs. eapply wp_get_r; [cbn; apply lookup_insert_eq|].
  apply HQ; [by eapply wsame_req|cbn; apply lookup_insert_eq|done].
Qed.

Lemma wp_call_fs_cb r F (Q : unit → world → Prop) w :
  Inv F X w → live F w (TR r) → (∀ w', Inv F X w' → Q tt w') → wp (call_fs_cb r) Q w.
Proof.
  intros I L HQ. unfold call_fs_cb. wp_struct. wp_op.
  destruct (r_request_cb ri); [|by apply wp_ret, HQ]. unfold call_request_cb. wp_struct. wp_op.
  by apply (wp_invoke _ _ F X).
Qed.

Lemma wp_call_fs_buf_cb r b own uh off ps uo F (Q : unit → world → Prop) w :
  Inv (TB b :: F) X w → live F w (TR r) →
  r_props <$> w_reqs w !! r = Some (R_fs own uh (Some b) off ps uo) →
  (∀ w', Inv F X w' → Q tt w') → wp (call_fs_buf_cb r) Q w.
Proof.
  intros I L (i & Hi & Hp)%fmap_Some HQ. unfold call_fs_buf_cb. wp_struct.
  eapply wp_get_r; [done|]. rewrite <-Hp. destruct (r_request_cb i).
  - unfold call_request_cb. wp_struct.
    assert (live (TB b :: F) w (TR r)) as L' by live_tac. clear L.
    apply (wp_tok_ref (TR r) _ _ _ _ I); [done|]. intros w1 S I1.
    by apply (wp_invoke _ _ F X).
  - wp_struct. wp_struct. by eapply wp_buffer_unref.
Qed.

Lemma wp_add_wqs h d F (Q : unit → world → Prop) w :
  Inv F X w → live F w (TH h) →
  (∀ w', Inv F X w' → w_reqs w' = w_reqs w → (∀ t, owned w' t = owned w t) → Q tt w') →
  wp (add_wqs h d) Q w.
Proof.
  intros I L HQ. unfold add_wqs, mod_file. destruct (live_handle _ _ _ h I L) as (i & Hi).
  eapply (wp_mod_props h _ (h_props i)); [done|done|by rewrite Hi| | | |].
  - by destruct (h_props i).
  - by destruct (h_props i).
  - destruct (h_props i); try (by apply reads_kept_not_file). by apply reads_kept_same.
  - intros w' I' W HO. apply HQ; [done|apply W|done].
Qed.

Lemma wp_add_out out d F (Q : unit → world → Prop) w :
  Inv F X w → live F w (TH out) →
  (∀ w', Inv F X w' → (∀ t, owned w' t = owned w t) → Q tt w') →
  wp (sendfile.add_out out d) Q w.
Proof.
  intros I L HQ. unfold sendfile.add_out, uv_interface_type. do 2 wp_struct. wp_op. wp_struct.
  case_decide; [|by apply wp_ret, HQ]. eapply wp_add_wqs; [done..|]. intros. by apply HQ.
Qed.

Lemma wp_fs_callbacks r i own uh ub off ps uo w :
  w_reqs w !! r = Some i → r_props i = R_fs own uh ub off ps uo →
  Inv (fs_toks r (r_props i) ++ G) X w →
  let ok m := wp m (λ _ w', Inv G X w') w in
  match uo, uh, ub with
  | None, None, None => ok (path_cb r) ∧ ok (path_or_file_cb r)
  | None, Some _, None => ok (file_cb r) ∧ ok (path_or_file_cb r)
  | None, Some _, Some _ => ok (read.read_cb r) ∧ ok (fs_write.write_cb r)
  | Some _, Some _, None => ok (sendfile.sendfile_cb r)
  | _, _, _ => True
  end.
Proof.
  intros Hi Hp I ok. unfold ok. rewrite Hp in I.
  destruct uo as [out|], uh as [h|], ub as [b|]; cbn in I; try done;
    try split;
    unfold path_cb, file_cb, path_or_file_cb, read.read_cb, fs_write.write_cb,
      sendfile.sendfile_cb; wp_struct; (eapply wp_fs_status; [done|]);
    intros j w1 S Hj HPj; rewrite S in I; rewrite ?HPj, ?Hp; wp_structs.
  all: assert (r_props <$> w_reqs w1 !! r = Some (r_props i)) as HP1 by (rewrite Hj; cbn; congruence).
  all: rewrite Hp in HP1; clear Hi Hp Hj HPj S ok.
  - eapply wp_add_out; [exact I|apply live_frame; list_in|]. intros w2 I2 _.
    eapply wp_call_fs_cb; [exact I2|apply live_frame; list_in|].
    clear I I2. intros w3 I3. wp_auto. done.
  - front (TB b). eapply (wp_call_fs_buf_cb r b _ _ _ _ _ (TH h :: TR r :: G));
      [done|apply live_frame; list_in|done|]. clear I. intros w3 I3. wp_auto. done.
  - eapply wp_add_wqs; [exact I|apply live_frame; list_in|]. intros w2 I2 HR _.
    rewrite <-HR in HP1. clear I. front (TB b).
    eapply (wp_call_fs_buf_cb r b _ _ _ _ _ (TH h :: TR r :: G));
      [done|apply live_frame; list_in|done|]. clear I2. intros w3 I3. wp_auto. done.
  - eapply wp_call_fs_cb; [exact I|apply live_frame; list_in|]. clear I. intros w3 I3. wp_auto. done.
  - eapply wp_call_fs_cb; [exact I|apply live_frame; list_in|]. clear I. intros w3 I3. wp_auto. done.
  - eapply wp_call_fs_cb; [exact I|apply live_frame; list_in|]. clear I. intros w3 I3. wp_auto. done.
  - eapply wp_call_fs_cb; [exact I|apply live_frame; list_in|]. clear I. intros w3 I3. wp_auto. done.
Qed.

(** The callback given to libuv with a request of type [t]. *)
Definition fs_callback (t : uv_fs_type) : loc → M unit :=
  match t with
  | UV_FS_UNKNOWN => λ _, mret tt
  | UV_FS_OPEN => λ _, mret tt              (* of the class [file], not of a request *)
  | UV_FS_CLOSE => close.close_cb | UV_FS_READ => read.read_cb | UV_FS_WRITE => fs_write.write_cb
  | UV_FS_SENDFILE => sendfile.sendfile_cb | UV_FS_STAT => stat.stat_cb
  | UV_FS_FTRUNCATE => truncate.truncate_cb | UV_FS_UTIME => utime.utime_cb
  | UV_FS_ACCESS => access.access_cb | UV_FS_CHMOD => chmod.chmod_cb
  | UV_FS_FSYNC => sync.sync_cb | UV_FS_UNLINK => unlink.unlink_cb
  | UV_FS_RMDIR => rmdir.rmdir_cb | UV_FS_MKDIR => mkdir.mkdir_cb
  | UV_FS_MKDTEMP => mkdtemp.mkdtemp_cb | UV_FS_RENAME => rename.rename_cb
  | UV_FS_SCANDIR => scandir.scandir_cb | UV_FS_LINK => link.link_cb
  | UV_FS_READLINK => readlink.readlink_cb | UV_FS_CHOWN => chown.chown_cb
  | UV_FS_REALPATH => realpath.realpath_cb
  end.

Lemma wp_fs_callback t r own uh ub off ps uo w :
  r_props <$> w_reqs w !! r = Some (R_fs own uh ub off ps uo) → fs_shape t uh ub uo = true →
  Inv ((opt_tok TH uo ++ opt_tok TH uh ++ opt_tok TB ub ++ [TR r]) ++ G) X w →
  wp (fs_callback t r) (λ _ w', Inv G X w') w.
Proof.
  intros (i & Hi & Hp)%fmap_Some Hs I.
  assert (Inv (fs_toks r (r_props i) ++ G) X w) as I' by (by rewrite <-Hp).
  pose proof (wp_fs_callbacks r i own uh ub off ps uo w Hi (eq_sym Hp) I') as H. cbv zeta in H.
  destruct t, uh, ub, uo; try discriminate Hs; cbn [fs_callback]; first [apply H | exact H].
Qed.

(** The callbacks of the file system requests give back exactly the references
    their run took: of a request on a path the request, of one on a file the file and
    the request, of read and write also the buffer, of sendfile both files. *)
Theorem fs_callbacks_ok t r own uh ub off ps uo w :
  r_props <$> w_reqs w !! r = Some (R_fs own uh ub off ps uo) → fs_shape t uh ub uo = true →
  Inv ((opt_tok TH uo ++ opt_tok TH uh ++ opt_tok TB ub ++ [TR r]) ++ G) X w →
  wp (fs_callback t r) (λ _ w', Inv G X w') w.
Proof. apply wp_fs_callback. Qed.
End requests.
