(* ===== verification/ReqMisc.v ===== *)
(** * The class [request], and the requests that are not on streams or files

    src/include/uvcc/request-base.hpp (the members every request class inherits),
    request-udp.hpp, request-misc.hpp (thread pool work), request-dns.hpp and request-io.hpp
    (output to any endpoint). *)

From Stdlib Require Import ZArith Lia.
From stdpp Require Import base gmap list strings option.
From S2P Require Import Prelude World Objects Ledger Wp Refs Release Rules HRules.
From S2P Require Import Netstruct ReqStream Handle Io ReqFs FsLedger.

Local Open Scope Z_scope.

(** ** [request] *)

Definition set_ur_data (d : Z) (u : uv_req_t) : uv_req_t :=
  {| ur_type := ur_type u; ur_fs_type := ur_fs_type u; ur_data := d; ur_handle := ur_handle u;
     ur_send_handle := ur_send_handle u; ur_loop := ur_loop u; ur_result := ur_result u;
     ur_path := ur_path u; ur_addrinfo := ur_addrinfo u |}.
Definition set_ur_addrinfo (a : Z) (u : uv_req_t) : uv_req_t :=
  {| ur_type := ur_type u; ur_fs_type := ur_fs_type u; ur_data := ur_data u;
     ur_handle := ur_handle u; ur_send_handle := ur_send_handle u; ur_loop := ur_loop u;
     ur_result := ur_result u; ur_path := ur_path u; ur_addrinfo := a |}.

Module request.
Section request.
Context `{E : Env}.

Definition id (r : option loc) : Z := default 0 r.
Definition nrefs (r : loc) : M Z := i ← get_r r; mret (r_refs i).
Definition uv_status (r : loc) : M Z := i ← get_r r; mret (r_uv_error i).
Definition on_destroy (r : loc) (c : cb) : M unit := mod_r r (set_r_destroy c).

Definition type (r : loc) : M uv_req_type := i ← get_r r; mret (ur_type (r_uv i)).

(** [UV_REQ_TYPE_MAP] of uv.h *)
Definition type_name_of (t : uv_req_type) : string :=
  match t with
  | UV_REQ => "req" | UV_CONNECT => "connect" | UV_WRITE => "write"
  | UV_SHUTDOWN => "shutdown" | UV_UDP_SEND => "udp_send" | UV_FS => "fs"
  | UV_WORK => "work" | UV_GETADDRINFO => "getaddrinfo" | UV_GETNAMEINFO => "getnameinfo"
  | UV_UNKNOWN_REQ => "<unknown>"
  end.
Definition type_name (r : loc) : M string := t ← type r; mret (type_name_of t).

Definition data_get (r : loc) : M Z := i ← get_r r; mret (ur_data (r_uv i)).
Definition data_set (r : loc) (d : Z) : M unit := mod_r r (set_r_uv (set_ur_data d)).

(** The status of the request is not touched. *)
Definition cancel (r : loc) : M Z := uv_call f_cancel [V_req (Some r)].

Definition to_bool (r : loc) : M bool := z ← uv_status r; mret (0 <=? z).

(** [handle()] of the stream and UDP requests and [loop()] of the others *)
Definition handle (r : loc) : M (option loc) :=
  i ← get_r r; adopt_new TH (ur_handle (r_uv i)).
Definition loop (r : loc) : M (option loc) :=
  i ← get_r r; adopt_new TL (ur_loop (r_uv i)).
End request.
End request.

(** ** [udp_send] *)

Module udp_send.
Section udp_send.
Context `{E : Env}.

Definition new : M loc := request_new UV_UDP_SEND (R_udp_send None (zeroed 128)).

(** [getpeername(_T_&)] for a [_T_] of [size] bytes *)
Definition getpeername (r : loc) (size : nat) : M (bool * list Z) :=
  i ← get_r r;
  match r_props i with
  | R_udp_send _ peer =>
      let sockaddr := take size peer in
      mret (if sa_family sockaddr =? AF_INET then (sizeof_sockaddr_in <=? size)%nat
            else if sa_family sockaddr =? AF_INET6 then (sizeof_sockaddr_in6 <=? size)%nat
            else (size =? sizeof_sockaddr_storage)%nat, sockaddr)
  | _ => undefined UB_type
  end.

Definition run (r udp buf : loc) (sockaddr : list Z) : M Z :=
  handle_ref udp;;
  buffer_ref buf;;
  request_ref r;;
  peer ← init_ss_sockaddr sockaddr;
  mod_r r (set_r_props (R_udp_send (Some buf) (snd peer)));;
  _ ← request_uv_status r 0;
  b ← get_b buf;
  uv_ret ← uv_submit f_udp_send
    [V_req (Some r); V_handle (Some udp); V_bufs (b_bufs b) (Z.of_nat (length (b_bufs b)));
     V_bytes sockaddr; V_cb cb_udp_send]
    cb_udp_send r [TH udp; TB buf; TR r];
  when (uv_ret <? 0) (
    _ ← request_uv_status r uv_ret;
    handle_unref udp;;
    buffer_unref buf;;
    request_unref r);;
  mret uv_ret.

Definition try_send (r udp buf : loc) (sockaddr : list Z) : M Z :=
  b ← get_b buf;
  z ← uv_call f_udp_try_send
    [V_handle (Some udp); V_bufs (b_bufs b) (Z.of_nat (length (b_bufs b))); V_bytes sockaddr];
  request_uv_status r z.

Definition udp_send_cb (r : loc) (status : Z) : M unit :=
  mod_r r (set_r_error status);;
  i ← get_r r;
  h ← deref (ur_handle (r_uv i));
  finally (finally (
    i ← get_r r;
    match r_request_cb i, r_props i with
    | Some f, R_udp_send uv_buf _ => call_request_cb r f [A_ptr (PB uv_buf)]
    | None, R_udp_send uv_buf _ => b ← deref uv_buf; buffer_unref b
    | _, _ => undefined UB_type
    end) (request_unref r)) (handle_unref h).
End udp_send.
End udp_send.

(** ** [work] *)

Module work.
Section work.
Context `{E : Env}.

Definition new : M loc := request_new UV_WORK (R_work None None).

(** The task stands for the bound function, and its result for the future of the task. *)
Definition run (r l : loc) (task : Z) : M Z :=
  request_ref r;;
  mod_r r (set_r_props (R_work (Some (task, false)) (Some task)));;
  _ ← request_uv_status r 0;
  uv_ret ← uv_submit f_queue_work [V_loop (Some l); V_req (Some r); V_self_cb; V_cb cb_work]
    cb_work r [TR r];
  when (uv_ret <? 0) (
    _ ← request_uv_status r uv_ret;
    request_unref r);;
  mret uv_ret.

Definition catch_all {A} (m : M A) : M unit := λ w,
  match m w with
  | Ok _ w' | Exn _ w' => Ok tt w'
  | Undefined u => Undefined u | Terminated => Terminated | Hang => Hang
  end.

(** [task()] of a [packaged_task]: what the function throws is kept in the future; a task that
    has been invoked refuses to be invoked again. *)
Definition invoke_task (r : loc) (f : Z) (invoked : bool) (result : option Z) : M unit :=
  if invoked then throw X_logic_error
  else
    mod_r r (set_r_props (R_work (Some (f, true)) result));;
    catch_all (call_user f []).

Definition work_cb (r : loc) : M unit :=
  i ← get_r r;
  match r_props i with
  | R_work (Some (f, invoked)) result => invoke_task r f invoked result
  | R_work None _ => mret tt
  | _ => undefined UB_type
  end.

Definition after_work_cb (r : loc) (status : Z) : M unit :=
  mod_r r (set_r_error status);;
  finally (
    i ← get_r r;
    match r_request_cb i with
    | Some f => call_request_cb r f []
    | None => mret tt
    end) (request_unref r).

Definition result (r : loc) : M (option Z) :=
  i ← get_r r;
  match r_props i with R_work _ res => mret res | _ => undefined UB_type end.
End work.
End work.

(** ** [getaddrinfo] and [getnameinfo] *)

Module getaddrinfo.
Section getaddrinfo.
Context `{E : Env}.

Definition new : M loc :=
  r ← request_new UV_GETADDRINFO (R_getaddrinfo false);
  mod_r r (set_r_uv (set_ur_addrinfo 0));;
  mod_r r (set_r_props (R_getaddrinfo true));;
  mret r.

Definition addrinfo (r : loc) : M Z := i ← get_r r; mret (ur_addrinfo (r_uv i)).

(** [uv_freeaddrinfo] of the previous result; [hints] is null for the second [run]. *)
Definition run_ (r l : loc) (hostname service : option string) (hints : option Z) : M Z :=
  a ← addrinfo r;
  _ ← uv_call f_freeaddrinfo [V_int a];
  i ← get_r r;
  let args c := [V_loop (Some l); V_req (Some r); c; V_str hostname; V_str service;
                 V_int (default 0 hints)] in
  match r_request_cb i with
  | None => z ← uv_call f_getaddrinfo (args V_nullcb); request_uv_status r z
  | Some _ =>
      request_ref r;;
      _ ← request_uv_status r 0;
      uv_ret ← uv_submit f_getaddrinfo (args (V_cb cb_getaddrinfo)) cb_getaddrinfo r [TR r];
      when (uv_ret <? 0) (
        _ ← request_uv_status r uv_ret;
        request_unref r);;
      mret uv_ret
  end.
Definition run (r l : loc) (hostname service : option string) (hints : Z) : M Z :=
  run_ r l hostname service (Some hints).
Definition run_no_hints (r l : loc) (hostname service : option string) : M Z :=
  run_ r l hostname service None.

Definition getaddrinfo_cb (r : loc) (status : Z) : M unit :=
  mod_r r (set_r_error status);;
  finally (
    i ← get_r r;
    match r_request_cb i with
    | Some f => call_request_cb r f []
    | None => mret tt
    end) (request_unref r).
End getaddrinfo.
End getaddrinfo.

Module getnameinfo.
Section getnameinfo.
Context `{E : Env}.

Definition new : M loc := request_new UV_GETNAMEINFO R_none.

Definition run (r l : loc) (sa : list Z) (flags : Z) : M Z :=
  i ← get_r r;
  let args c := [V_loop (Some l); V_req (Some r); c; V_bytes sa; V_int flags] in
  match r_request_cb i with
  | None => z ← uv_call f_getnameinfo (args V_nullcb); request_uv_status r z
  | Some _ =>
      request_ref r;;
      _ ← request_uv_status r 0;
      uv_ret ← uv_submit f_getnameinfo (args (V_cb cb_getnameinfo)) cb_getnameinfo r [TR r];
      when (uv_ret <? 0) (
        _ ← request_uv_status r uv_ret;
        request_unref r);;
      mret uv_ret
  end.

Definition getnameinfo_cb (r : loc) (status : Z) : M unit :=
  mod_r r (set_r_error status);;
  finally (
    i ← get_r r;
    match r_request_cb i with
    | Some f => call_request_cb r f []
    | None => mret tt
    end) (request_unref r).
End getnameinfo.
End getnameinfo.

(** ** [output] *)

Module output.
Section output.
Context `{E : Env}.

(** The union of the three [properties] types is zeroed by its constructor. *)
Definition new : M loc := request_new UV_REQ R_none.

(** The union seen as the properties of the request type [t]: zeros are the initial value of
    each of them; to read another member than the one written is not defined. *)
Definition storage_as (t : uv_req_type) (p : rprops) : option rprops :=
  match t, p with
  | UV_WRITE, R_none => Some (R_write None)
  | UV_WRITE, R_write _ => Some p
  | UV_UDP_SEND, R_none => Some (R_udp_send None (zeroed 128))
  | UV_UDP_SEND, R_udp_send _ _ => Some p
  | UV_FS, R_none => Some (R_fs false None None 0 0 None)
  | UV_FS, R_fs _ _ _ _ _ _ => Some p
  | _, _ => None
  end.

(** [reinterpret_cast< write* >(this)] and the like, after the type has been set. *)
Definition cast (r : loc) (t : uv_req_type) : M unit :=
  i ← get_r r;
  match storage_as t (r_props i) with
  | Some p => mod_r r (set_r_props p)
  | None => undefined UB_type
  end.

Definition set_type (r : loc) (t : uv_req_type) : M unit :=
  mod_r r (set_r_uv (set_ur_type t)).
Definition set_fs_write (r : loc) : M unit :=
  mod_r r (set_r_uv (set_ur_fs UV_FS_WRITE)).

(** [info] is the peer address [static_cast< const udp::io_info* >(_info)->peer], if any. *)
Definition run (r io buf : loc) (offset : Z) (info : option (list Z)) : M Z :=
  t ← uv_interface_type io;
  match t with
  | UV_NAMED_PIPE | UV_TCP | UV_TTY =>
      set_type r UV_WRITE;;
      mod_r r (set_r_offset offset);;
      cast r UV_WRITE;;
      write.run r io buf
  | UV_UDP =>
      set_type r UV_UDP_SEND;;
      mod_r r (set_r_offset offset);;
      match info with
      | Some peer => cast r UV_UDP_SEND;; udp_send.run r io buf peer
      | None => request_uv_status r UV_EINVAL
      end
  | UV_FILE =>
      set_fs_write r;;
      mod_r r (set_r_offset offset);;
      cast r UV_FS;;
      fs_write.run r io buf offset
  | _ => request_uv_status r UV_EBADF
  end.

Definition try_output (r io buf : loc) (offset : Z) (info : option (list Z)) : M Z :=
  t ← uv_interface_type io;
  match t with
  | UV_NAMED_PIPE | UV_TCP | UV_TTY =>
      set_type r UV_WRITE;; write.try_write r io buf
  | UV_UDP =>
      set_type r UV_UDP_SEND;;
      match info with
      | Some peer => udp_send.try_send r io buf peer
      | None => request_uv_status r UV_EINVAL
      end
  | UV_FILE =>
      set_fs_write r;; cast r UV_FS;; fs_write.try_write r io buf offset
  | _ => request_uv_status r UV_EBADF
  end.

Definition offset (r : loc) : M Z := i ← get_r r; mret (r_offset i).

(** The default case sets the status of a handle object that refers to nothing. *)
Definition handle (r : loc) : M (option loc) :=
  i ← get_r r;
  match ur_type (r_uv i), r_props i with
  | UV_WRITE, _ | UV_UDP_SEND, _ => adopt_new TH (ur_handle (r_uv i))
  | UV_FS, R_fs _ uh _ _ _ _ => adopt_new TH uh
  | UV_FS, _ => undefined UB_type
  | _, _ => h ← deref None; _ ← handle_uv_status h UV_EBADF; mret None
  end.
End output.
End output.

(** ** The ledger across these requests *)

Section ledger.
Context `{E : Env} `{EO : !EnvOk}.

Lemma wp_udp_send_run r udp buf sa F X w :
  Inv F X w → live F w (TR r) → live F w (TH udp) → live F w (TB buf) → unarmed r w →
  (sizeof_sockaddr_in6 ≤ length sa)%nat →
  wp (udp_send.run r udp buf sa) (λ z w', Inv F X w' ∧
    w_armed w' = submitted z (arm cb_udp_send r [TH udp; TB buf; TR r]) (w_armed w)) w.
Proof.
  intros I Lr Lh Lb U Hl. remember (w_armed w) as A eqn:HA. symmetry in HA.
  unfold udp_send.run. wp_auto. apply wp_init_ss; [done|]. intros ss.
  wp_auto. wp_submit F; [eauto|wp_finish..].
Qed.

Theorem udp_send_run_ok r udp buf sa F X w :
  Inv F X w → live F w (TR r) → live F w (TH udp) → live F w (TB buf) → unarmed r w →
  (sizeof_sockaddr_in6 ≤ length sa)%nat →
  wp (udp_send.run r udp buf sa) (λ z w', Inv F X w' ∧
    w_armed w' = submitted z (arm cb_udp_send r [TH udp; TB buf; TR r]) (w_armed w)) w.
Proof. apply wp_udp_send_run. Qed.

Theorem udp_send_cb_ok r status i h b q F X w :
  Inv ([TH h; TB b; TR r] ++ F) X w → w_reqs w !! r = Some i →
  ur_handle (r_uv i) = Some h → r_props i = R_udp_send (Some b) q →
  wp (udp_send.udp_send_cb r status) (λ _ w', Inv F X w') w.
Proof.
  intros I Hi Hh Hp. unfold udp_send.udp_send_cb. wp_prologue Hi. cbn. rewrite Hh. wp_auto.
  assert (r_props ri = R_udp_send (Some b) q) as ->
    by (rewrite Hr in HP; cbn in HP; congruence).
  destruct (r_request_cb ri); unfold call_request_cb; wp_auto; done.
Qed.

Theorem work_run_ok r l task F X w :
  Inv F X w → live F w (TR r) → unarmed r w →
  wp (work.run r l task) (λ z w', Inv F X w' ∧
    w_armed w' = submitted z (arm cb_work r [TR r]) (w_armed w)) w.
Proof.
  intros I Lr U. remember (w_armed w) as A eqn:HA. symmetry in HA.
  unfold work.run. wp_auto. wp_submit F; [done|wp_finish..].
Qed.

(** The asynchronous half of the two DNS requests. *)
Lemma wp_request_run r f args c F X w :
  Inv F X w → live F w (TR r) →
  (∀ A, arm_ok A (arm c r [TR r])) →
  wp (request_ref r;;
      _ ← request_uv_status r 0;
      uv_ret ← uv_submit f args c r [TR r];
      when (uv_ret <? 0) (_ ← request_uv_status r uv_ret; request_unref r);;
      mret uv_ret) (λ z w', Inv F X w' ∧
    w_armed w' = submitted z (arm c r [TR r]) (w_armed w)) w.
Proof.
  intros I Lr Hc. remember (w_armed w) as A eqn:HA. symmetry in HA.
  wp_auto. wp_submit F; [apply Hc|wp_finish..].
Qed.

Lemma wp_getaddrinfo_run r l host serv hints i F X w :
  Inv F X w → live F w (TR r) → w_reqs w !! r = Some i →
  wp (getaddrinfo.run_ r l host serv hints) (λ z w', Inv F X w' ∧
    w_armed w' = fs_submitted (r_request_cb i) z (arm cb_getaddrinfo r [TR r]) (w_armed w)) w.
Proof.
  intros I L Hi. unfold getaddrinfo.run_, getaddrinfo.addrinfo. wp_structs.
  apply wp_uv_call. intros z w1 S. rewrite S in I.
  rewrite (wsame_sim _ _ S) in L.
  rewrite (sim_armed _ _ (proj1 (wsame_sim _ _ S))).
  destruct (sim_req _ _ _ _ (proj1 (wsame_sim _ _ S)) Hi) as (j & Hj & _ & HC & _).
  wp_struct. eapply wp_get_r; [exact Hj|]. rewrite <-HC. destruct (r_request_cb i).
  - by apply wp_request_run.
  - remember (w_armed w1) as A eqn:HA. symmetry in HA. wp_auto. by split.
Qed.

(** getaddrinfo::run keeps the ledger: an accepted asynchronous request leaves a
    reference to itself with the pending callback, a synchronous or refused one none. *)
Theorem getaddrinfo_run_ok r l host serv hints i F X w :
  Inv F X w → live F w (TR r) → w_reqs w !! r = Some i →
  wp (getaddrinfo.run_ r l host serv hints) (λ z w', Inv F X w' ∧
    w_armed w' = fs_submitted (r_request_cb i) z (arm cb_getaddrinfo r [TR r]) (w_armed w)) w.
Proof. apply wp_getaddrinfo_run. Qed.

Theorem getnameinfo_run_ok r l sa flags i F X w :
  Inv F X w → live F w (TR r) → w_reqs w !! r = Some i →
  wp (getnameinfo.run r l sa flags) (λ z w', Inv F X w' ∧
    w_armed w' = fs_submitted (r_request_cb i) z (arm cb_getnameinfo r [TR r]) (w_armed w)) w.
Proof.
  intros I L Hi. unfold getnameinfo.run. wp_struct. eapply wp_get_r; [exact Hi|].
  destruct (r_request_cb i);
    [by apply wp_request_run|].
  remember (w_armed w) as A eqn:HA. symmetry in HA. wp_auto. by split.
Qed.

Lemma wp_request_callbacks r status F X w :
  Inv (TR r :: F) X w →
  let ok m := wp m (λ _ w', Inv F X w') w in
  ok (work.after_work_cb r status) ∧ ok (getaddrinfo.getaddrinfo_cb r status) ∧
  ok (getnameinfo.getnameinfo_cb r status).
Proof.
  intros I ok.
  assert (ok (mod_r r (set_r_error status);;
    finally (
      i ← get_r r;
      match r_request_cb i with Some f => call_request_cb r f [] | None => mret tt end)
      (request_unref r))) as H; [|by split; [|split]].
  unfold ok. wp_auto. destruct (r_request_cb ri); unfold call_request_cb; wp_auto; done.
Qed.

(** The callbacks of work, getaddrinfo and getnameinfo requests give back the
    reference their run took. *)
Theorem request_callbacks_ok r status F X w :
  Inv (TR r :: F) X w →
  let ok m := wp m (λ _ w', Inv F X w') w in
  ok (work.after_work_cb r status) ∧ ok (getaddrinfo.getaddrinfo_cb r status) ∧
  ok (getnameinfo.getnameinfo_cb r status).
Proof. apply wp_request_callbacks. Qed.

(** ** [output] *)

(** The request is of the class it is used as. *)
Definition request_view (r : loc) (p : rprops) (c : cb) (w : world) : Prop :=
  (λ i, (r_props i, r_request_cb i)) <$> w_reqs w !! r = Some (p, c).

Lemma wp_mod_r_same r f p c F X (Q : unit → world → Prop) w :
  Inv F X w → request_view r p c w →
  (∀ i, rinst_sim i (f i) ∧ r_refs i = r_refs (f i)) →
  (∀ w', wsame w w' → request_view r p c w' → Q tt w') → wp (mod_r r f) Q w.
Proof.
  intros I (i & Hi & E1)%fmap_Some Hf HQ. eapply wp_mod_r; [done|]. apply HQ.
  - eapply wsame_req; [done|apply Hf..].
  - unfold request_view. cbn. rewrite lookup_insert_eq. cbn. rewrite E1.
    destruct (Hf i) as [(-> & -> & _) _]. done.
Qed.

Lemma wp_cast r t p q c F X (Q : unit → world → Prop) w :
  Inv F X w → request_view r p c w → unarmed r w → output.storage_as t p = Some q →
  (∀ w', Inv F X w' → request_view r q c w' → (∀ t, owned w' t = owned w t) →
    w_armed w' = w_armed w → Q tt w') →
  wp (output.cast r t) Q w.
Proof.
  intros I (i & Hi & E1)%fmap_Some U Hs HQ. simplify_eq. unfold output.cast. wp_structs.
  rewrite Hs. eapply wp_mod_r; [done|]. apply HQ; try done.
  - eapply Inv_upd_req; [done|done|done|by right].
  - unfold request_view. cbn. by rewrite lookup_insert_eq.
Qed.

(** The request an endpoint needs, as documented: file, stream or UDP socket. *)
Definition endpoint_request (i : hinst) : option uv_req_type :=
  match h_iface i with
  | If_file => Some UV_FS
  | _ =>
      match uh_type (h_uv i) with
      | UV_NAMED_PIPE | UV_TCP | UV_TTY => Some UV_WRITE
      | UV_UDP => Some UV_UDP_SEND
      | UV_FILE => Some UV_FS
      | _ => None
      end
  end.
Definition output_armed (t : uv_req_type) (r io buf : loc) : armed :=
  arm (match t with UV_WRITE => cb_write | UV_UDP_SEND => cb_udp_send
       | _ => cb_fs UV_FS_WRITE end) r [TH io; TB buf; TR r].

(** From the choice of the endpoint to the call of the request it needs. *)
Lemma wp_output_cast r f off t p q c toks (m : M Z) (Q : Z → world → Prop) F X w :
  Inv F X w → Forall (live F w) toks → unarmed r w → request_view r p c w →
  output.storage_as t p = Some q →
  (∀ i, rinst_sim i (f i) ∧ r_refs i = r_refs (f i)) →
  (∀ w', Inv F X w' → Forall (live F w') toks → unarmed r w' →
    request_view r q c w' → w_armed w' = w_armed w → wp m Q w') →
  wp (mod_r r f;; mod_r r (set_r_offset off);; output.cast r t;; m) Q w.
Proof.
  intros I L U V Hq Hf Hm. wp_struct. eapply wp_mod_r_same; [done..|]. intros w1 S1 V1.
  rewrite S1 in I. wp_struct.
  eapply wp_mod_r_same; [done|done|by intros []|]. intros w2 S2 V2. rewrite S2 in I.
  pose proof (wsame_sim _ _ (transitivity S1 S2)) as S. wp_struct.
  eapply wp_cast; [done|done|by eapply unarmed_sim|done|].
  intros w3 I3 V3 HO HA. apply Hm; try done.
  - eapply list.Forall_impl; [exact L|]. intros u Hu. apply (owned_eq_live F w2); [done|].
    by rewrite <-S.
  - eapply unarmed_eq; [done|]. by eapply unarmed_sim.
  - rewrite HA. symmetry. apply S.
Qed.

Lemma wp_output_run r io buf off info p c i t q F X w :
  Inv F X w → Forall (live F w) [TH io; TB buf; TR r] → unarmed r w →
  request_view r p c w → w_handles w !! io = Some i → endpoint_request i = Some t →
  output.storage_as t p = Some q →
  (t = UV_UDP_SEND → ∃ peer, info = Some peer ∧ (sizeof_sockaddr_in6 ≤ length peer)%nat) →
  (∀ own uh ub o ps uo, p = R_fs own uh ub o ps uo → uo = None) →
  wp (output.run r io buf off info) (λ z w', Inv F X w' ∧
    w_armed w' = (if decide (t = UV_FS) then fs_submitted c z else submitted z)
                   (output_armed t r io buf) (w_armed w)) w.
Proof.
  intros I L U V Hi Ht Hq Hudp Hfs. unfold output.run, uv_interface_type.
  do 2 wp_struct. eapply wp_get_h; [done|]. wp_struct. 
  set (k := match h_iface i with If_file => UV_FILE | _ => uh_type (h_uv i) end).
  assert (endpoint_request i = match k with
    | UV_FILE => Some UV_FS | UV_NAMED_PIPE | UV_TCP | UV_TTY => Some UV_WRITE
    | UV_UDP => Some UV_UDP_SEND | _ => None end) as Hk
    by (unfold endpoint_request, k; by destruct (h_iface i)).
  rewrite Ht in Hk. clearbody k. clear Ht Hi.
  assert (Hlive : ∀ w', Forall (live F w') [TH io; TB buf; TR r] →
    live F w' (TR r) ∧ live F w' (TH io) ∧ live F w' (TB buf)).
  { intros w'. rewrite !list.Forall_cons. tauto. }
  assert (Hw : t = UV_WRITE → wp (output.set_type r UV_WRITE;; mod_r r (set_r_offset off);;
    output.cast r UV_WRITE;; write.run r io buf) (λ z w', Inv F X w' ∧
      w_armed w' = submitted z (output_armed UV_WRITE r io buf) (w_armed w)) w).
  { intros ->. eapply wp_output_cast; [done..|by intros []|].
    intros w1 I1 (L1 & L2 & L3)%Hlive U1 V1 <-. by apply wp_write_run. }
  destruct k; simplify_eq; try by apply Hw.
  - destruct Hudp as (peer & -> & Hl); [done|].
    eapply wp_output_cast; [done..|by intros []|].
    intros w1 I1 (L1 & L2 & L3)%Hlive U1 V1 <-. by apply wp_udp_send_run.
  - eapply wp_output_cast; [done..|by intros []|].
    intros w1 I1 L1 U1 V1 <-. destruct p; simplify_eq/=.
    + by eapply wp_read_write.
    + rewrite (Hfs _ _ _ _ _ _ eq_refl) in V1. by eapply wp_read_write.
Qed.


(** output::run refuses an endpoint that is neither a stream, a datagram endpoint
    nor a file with UV_EBADF, and a datagram without an address with UV_EINVAL; the
    status of the request says so and no counter changes. *)
Lemma wp_output_refused r io buf off info p c i F X w :
  Inv F X w → live F w (TR r) → request_view r p c w → w_handles w !! io = Some i →
  endpoint_request i = None ∨ endpoint_request i = Some UV_UDP_SEND ∧ info = None →
  wp (output.run r io buf off info) (λ z w', Inv F X w' ∧ w_armed w' = w_armed w ∧
    z = (if decide (endpoint_request i = None) then UV_EBADF else UV_EINVAL) ∧
    r_uv_error <$> w_reqs w' !! r = Some z ∧ (∀ t, refs_of w' t = refs_of w t)) w.
Proof.
  intros I L V Hi Hc. unfold output.run, uv_interface_type.
  do 2 wp_struct. eapply wp_get_h; [done|]. wp_struct.
  set (k := match h_iface i with If_file => UV_FILE | _ => uh_type (h_uv i) end).
  assert (endpoint_request i = match k with
    | UV_FILE => Some UV_FS | UV_NAMED_PIPE | UV_TCP | UV_TTY => Some UV_WRITE
    | UV_UDP => Some UV_UDP_SEND | _ => None end) as Hk
    by (unfold endpoint_request, k; by destruct (h_iface i)).
  rewrite Hk in Hc |- *. clearbody k. clear Hk.
  assert (Hs : ∀ z w1, Inv F X w1 → wsame w w1 → wp (request_uv_status r z) (λ z' w',
    Inv F X w' ∧ w_armed w' = w_armed w ∧ z' = z ∧
    r_uv_error <$> w_reqs w' !! r = Some z' ∧ (∀ t, refs_of w' t = refs_of w t)) w1).
  { intros z w1 I1 S1. assert (live F w1 (TR r)) as L1 by (by rewrite <-(wsame_sim _ _ S1)).
    destruct (live_req _ _ _ _ I1 L1) as (j & Hj). unfold request_uv_status. wp_structs.
    assert (wsame w1 (upd_reqs (<[r := set_r_error z j]>) w1)) as S2 by (by eapply wsame_req).
    split; [by rewrite <-S2|]. split; [symmetry; apply S1|]. split; [done|]. split.
    - cbn. by rewrite lookup_insert_eq.
    - intros t. destruct (transitivity S1 S2) as [_ ->]. done. }
  destruct k; try (destruct Hc as [Hc|[Hc ->]]; simplify_eq); cbn [decide];
    try (rewrite decide_True by done; by apply Hs).
  rewrite decide_False by done. 
  wp_struct. eapply wp_mod_r_same; [done|done|by intros []|]. intros w1 S1 V1.
  wp_struct. rewrite S1 in I. eapply wp_mod_r_same; [done|done|by intros []|].
  intros w2 S2 V2. rewrite S2 in I. apply Hs; [done|by etrans].
Qed.

(** A synchronous getaddrinfo request that libuv refuses at once keeps the pointer
    to the result it has just freed, and frees it again when it is destroyed. *)
Theorem getaddrinfo_frees_twice r l i w :
  (∀ log f args, f = f_freeaddrinfo ∨ f = f_getaddrinfo → rp_writes (uv_exec log f args) = []) →
  (∀ log args, rp_ret (uv_exec log f_getaddrinfo args) < 0) →
  w_reqs w !! r = Some i → r_props i = R_getaddrinfo true → r_request_cb i = None →
  r_destroy_cb i = None → r_refs i = 1 →
  let freed z := E_uv f_freeaddrinfo [V_int (ur_addrinfo (r_uv i))] z in
  wp (_ ← getaddrinfo.run_ r l None None None; request_unref r) (λ _ w', ∃ z1 z2 z args,
    w_log w' = E_delete (TR r) :: freed z2 :: E_uv f_getaddrinfo args z :: freed z1 :: w_log w ∧
    w_reqs w' !! r = None) w.
Proof.
  intros Hw Hz Hi Hp Hc Hd Hr freed.
  assert (Hcall : ∀ f args (Q : Z → world → Prop) w, f = f_freeaddrinfo ∨ f = f_getaddrinfo →
    (∀ z, Q z (upd_log (cons (E_uv f args z)) w)) → wp (uv_call f args) Q w).
  { intros f args Q w1 Hf HQ. unfold uv_call, uv_call_out. apply wp_bind. cbn. rewrite Hw by done. apply HQ. }
  unfold getaddrinfo.run_, getaddrinfo.addrinfo, request_uv_status. wp_structs.
  apply Hcall; [by left|]. intros z1. wp_struct. eapply wp_get_r; [done|]. rewrite Hc. wp_struct.
  assert (Hreq : ∀ j w, w_reqs (upd_reqs (<[r := j]>) w) !! r = Some j)
    by (intros; apply lookup_insert_eq).
  apply Hcall; [by right|]. intros z. wp_structs. eapply wp_mod_r; [exact Hi|]. wp_structs.
  unfold request_unref, destroy_instance. wp_struct. eapply wp_get_r; [apply Hreq|]. wp_structs.
  eapply wp_mod_r; [apply Hreq|]. cbn [r_refs set_r_error]. rewrite Hr. cbn [when].
  change (when (ref_count.dec 1 =? 0)) with (when true). cbn [when]. wp_struct.
  eapply wp_get_r; [apply Hreq|]. cbn [r_destroy_cb set_r_refs set_r_error]. rewrite Hd.
  cbn [call_destroy_cb]. wp_structs. eapply wp_get_r; [apply Hreq|].
  cbn [r_props r_uv set_r_refs set_r_error]. rewrite Hp. cbn [rprops_dtor]. wp_structs.
  apply Hcall; [by left|]. intros z2. unfold request_free. wp_structs.
  eapply wp_get_r; [apply Hreq|]. wp_structs. unfold log_event. apply wp_modify.
  apply wp_modify. eexists z1, z2, z, _. split; [done|]. cbn. apply lookup_delete_eq.
Qed.
End ledger.
