(* ===== verification/Requests.v ===== *)
(** * What a request asks libuv for

    The ledger theorems count references. Here is what the [run] members do besides: which
    function of libuv is called, once and with which arguments, what is returned, which status is
    left in the request, and which counters change. The tables of calls are the specification;
    the classes of request-stream.hpp, request-udp.hpp, request-misc.hpp and request-fs.hpp
    implement them. *)

From Stdlib Require Import ZArith Lia.
From stdpp Require Import base gmap list strings option.
From S2P Require Import Prelude World Objects Ledger Wp Refs Release Rules HRules Trace Calls.
From S2P Require Import Netstruct ReqStream Buffer Handle Io ReqFs FsLedger ReqMisc.

Local Open Scope Z_scope.

(** ** Requests on endpoints, and work *)

Inductive endpoint_req :=
| EP_connect (tcp : loc) (sockaddr : Z)
| EP_write (stream buf : loc)
| EP_write2 (pipe buf send_handle : loc)
| EP_shutdown (stream : loc)
| EP_udp_send (udp buf : loc) (sockaddr : list Z)
| EP_work (l : loc) (task : Z).

(** The call: the chunks of a buffer are its array of [uv_buf_t] and their number. *)
Definition endpoint_call (r : loc) (bufs : loc → option (list (Z * Z))) (q : endpoint_req) :
    uvfn * list uvarg :=
  let chunks b := let l := default [] (bufs b) in V_bufs l (Z.of_nat (length l)) in
  match q with
  | EP_connect tcp sockaddr =>
      (f_tcp_connect, [V_req (Some r); V_handle (Some tcp); V_int sockaddr; V_cb cb_connect])
  | EP_write stream buf =>
      (f_write, [V_req (Some r); V_handle (Some stream); chunks buf; V_cb cb_write])
  | EP_write2 pipe buf send_handle =>
      (f_write2, [V_req (Some r); V_handle (Some pipe); chunks buf;
                  V_handle (Some send_handle); V_cb cb_write2])
  | EP_shutdown stream => (f_shutdown, [V_req (Some r); V_handle (Some stream); V_cb cb_shutdown])
  | EP_udp_send udp buf sockaddr =>
      (f_udp_send, [V_req (Some r); V_handle (Some udp); chunks buf; V_bytes sockaddr;
                    V_cb cb_udp_send])
  | EP_work l task => (f_queue_work, [V_loop (Some l); V_req (Some r); V_self_cb; V_cb cb_work])
  end.

Definition endpoint_cb (q : endpoint_req) : cbname :=
  match q with
  | EP_connect _ _ => cb_connect
  | EP_write _ _ => cb_write
  | EP_write2 _ _ _ => cb_write2
  | EP_shutdown _ => cb_shutdown
  | EP_udp_send _ _ _ => cb_udp_send
  | EP_work _ _ => cb_work
  end.

(** The objects that have to exist until the callback. *)
Definition endpoint_toks (r : loc) (q : endpoint_req) : list token :=
  match q with
  | EP_connect h _ | EP_shutdown h => [TH h; TR r]
  | EP_write h b | EP_udp_send h b _ => [TH h; TB b; TR r]
  | EP_write2 h b s => [TH h; TB b; TH s; TR r]
  | EP_work _ _ => [TR r]
  end.

(** The properties of the request: the buffer is found there when the callback is made. *)
Definition endpoint_props (q : endpoint_req) (p0 p : rprops) : Prop :=
  match q with
  | EP_write _ b | EP_write2 _ b _ => p = R_write (Some b)
  | EP_udp_send _ b _ => ∃ peer, p = R_udp_send (Some b) peer
  | EP_work _ task => p = R_work (Some (task, false)) (Some task)
  | EP_connect _ _ | EP_shutdown _ => p = p0
  end.

(** The address of a datagram is a whole structure. *)
Definition endpoint_args_ok (q : endpoint_req) : Prop :=
  match q with EP_udp_send _ _ sa => (sizeof_sockaddr_in6 ≤ length sa)%nat | _ => True end.

Section endpoint.
Context `{E : Env}.

Definition endpoint_run (r : loc) (q : endpoint_req) : M Z :=
  match q with
  | EP_connect tcp sockaddr => connect.run_tcp r tcp sockaddr
  | EP_write stream buf => write.run r stream buf
  | EP_write2 pipe buf send_handle => write.run2 r pipe buf send_handle
  | EP_shutdown stream => shutdown.run r stream
  | EP_udp_send udp buf sockaddr => udp_send.run r udp buf sockaddr
  | EP_work l task => work.run r l task
  end.

(** The end of every [run]: a refused request gives its references back, in the order of the
    source. *)
Lemma wp_request_tail f args r cb' toks ts g (P : rprops * cb → Prop) undo L0 z c p B B' w0 w :
  let a := {| arm_cb := cb'; arm_obj := r; arm_toks := toks |} in
  z = uv_ret L0 f args → P (p, c) → (∀ u, cnt u ts = cnt u toks) →
  seen r (0, c, p) (uv_called f args L0) (counted ts (refs_of w0)) (rs_submit z a B) w →
  rs_armed B = w_armed w0 → rs_armed B' = w_armed w0 →
  based (g true) w0 B → based (g false) w0 B' →
  (∀ w1, seen r (z, c, p) (uv_called f args L0) (counted ts (refs_of w0)) B w1 →
    wp undo (λ _ w2, seen r (z, c, p) (uv_called f args L0) (counted [] (refs_of w0)) B' w2) w1) →
  wp (when (z <? 0) (_ ← request_uv_status r z; undo))
    (λ _ w', request_made f args r cb' true toks g P L0 z w0 w') w.
Proof.
  intros a Hz HP Hc S HA HA' HH HH' Hu. unfold rs_submit in S.
  destruct (z <? 0) eqn:Hn; cbn [when].
  - assert ((0 <=? z) = false) as Hp by lia. rewrite Hp in S. apply wp_bind.
    eapply wp_seen_status; [exact S|].
    intros w1 S1. eapply wp_mono; [by apply Hu|]. cbn. intros [] w2 S2.
    eapply request_made_intro; [done|reflexivity|exact HP|rewrite Hp; exact S2|by rewrite Hp|by rewrite Hp].
  - assert ((0 <=? z) = true) as Hp by lia. rewrite Hp in S. apply wp_ret.
    apply (request_made_intro r f args cb' true toks g P L0 z 0 c p
      (Rest (rs_bufs B) (rs_handles B) (a :: rs_armed B) (rs_destroy B) (rs_vars B))); rewrite ?Hp; cbn; [done..| |by rewrite HA|done].
    eapply seen_ext; [|exact S]. intros t. unfold counted. by rewrite Hc.
Qed.

Lemma untouched_handles accepted w h : handles_of w h = untouched accepted h <$> handles_of w h.
Proof. by destruct (handles_of w h). Qed.

Lemma based_rest accepted w : based (untouched accepted) w (rest_of w).
Proof. split_and!; [done..|]. intros h. apply untouched_handles. Qed.

Lemma based_sync w : based (λ _ x, x) w (rest_of w).
Proof. split_and!; [done..|]. intros h. cbn. by rewrite option_fmap_id. Qed.

Lemma wp_plain_tail f args r cb' toks ts (P : rprops * cb → Prop) undo L0 z c p w0 w :
  let a := {| arm_cb := cb'; arm_obj := r; arm_toks := toks |} in
  z = uv_ret L0 f args → P (p, c) → (∀ u, cnt u ts = cnt u toks) →
  seen r (0, c, p) (uv_called f args L0) (counted ts (refs_of w0)) (rs_submit z a (rest_of w0)) w →
  (∀ w1, seen r (z, c, p) (uv_called f args L0) (counted ts (refs_of w0)) (rest_of w0) w1 →
    wp undo (λ _ w2, seen r (z, c, p) (uv_called f args L0) (counted [] (refs_of w0)) (rest_of w0) w2)
      w1) →
  wp (when (z <? 0) (_ ← request_uv_status r z; undo))
    (λ _ w', request_made f args r cb' true toks untouched P L0 z w0 w') w.
Proof.
  intros a Hz HP Hc S Hu. apply (wp_request_tail f args r cb' toks ts untouched P undo L0 z c p (rest_of w0) (rest_of w0));
    (done || apply based_rest).
Qed.

End endpoint.

(** The end of [run], with the trace before it at hand. *)
Ltac made_tail :=
  lazymatch goal with
  | S : seen _ _ _ _ _ ?w |- wp (when _ _) _ ?w =>
      eapply wp_mono; [eapply wp_plain_tail; [reflexivity| | |exact S|]
        |intros ? ? HR; apply wp_ret; exact HR];
      [first [reflexivity|eexists; split; [eassumption|split; [reflexivity|cbn; by eauto]]]
      |intros ?; cbn; repeat case_decide; lia|clear S; intros ? S; wp_seen; exact S]
  end.

Section endpoint_made.
Context `{E : Env}.

Lemma wp_endpoint_run r q F X w :
  Inv F X w → Forall (live F w) (endpoint_toks r q) → endpoint_args_ok q →
  let call := endpoint_call r (bufs_of w) q in
  wp (endpoint_run r q)
    (λ z w', request_made call.1 call.2 r (endpoint_cb q) true (endpoint_toks r q) untouched
      (λ p, ∃ i, w_reqs w !! r = Some i ∧ p.2 = r_request_cb i ∧ endpoint_props q (r_props i) p.1)
      (w_log w) z w w') w.
Proof.
  intros I HL Hok call.
  assert (Forall (has_refs (refs_of w)) (endpoint_toks r q)) as HP.
  { eapply list.Forall_impl; [exact HL|]. intros t Ht. by eapply Inv_has_refs. }
  assert (has_refs (refs_of w) (TR r)) as (n & Hn & _).
  { rewrite list.Forall_forall in HP. apply HP. destruct q; cbn; list_in. }
  cbn in Hn. apply fmap_Some in Hn as (i & Hi & _).
  pose proof (seen_counted r _ _ _ _ _ (seen_here r i w Hi)) as S. unfold rview in S.
  destruct q; cbn [endpoint_run endpoint_toks endpoint_cb] in *; unfold call;
    cbn [endpoint_call fst snd];
    rewrite !list.Forall_cons in HP; destruct_and?.
  all: unfold connect.run_tcp, write.run, write.run2, shutdown.run, udp_send.run, work.run; wp_seen.
  all: try made_tail.
  apply wp_init_ss; [done|]. intros ss. wp_seen. made_tail.
Qed.

(** C18: run() of connect, write, shutdown, udp_send and work makes exactly one call to
    libuv, of the function and with the arguments of the table (the chunks of the
    buffer, the handles, the callback), and returns its answer; the answer is the status
    of the request when libuv refuses, and it is 0 while the request is pending; the
    counters of the objects of a pending request are one higher for each reference it
    has and its callback is pending once; no other counter, buffer, handle, variable or
    pending callback has changed, and the request keeps what its callback will need. *)
Theorem endpoint_request_made r q F X w :
  Inv F X w → Forall (live F w) (endpoint_toks r q) → endpoint_args_ok q →
  let call := endpoint_call r (bufs_of w) q in
  wp (endpoint_run r q)
    (λ z w', request_made call.1 call.2 r (endpoint_cb q) true (endpoint_toks r q) untouched
      (λ p, ∃ i, w_reqs w !! r = Some i ∧ p.2 = r_request_cb i ∧ endpoint_props q (r_props i) p.1)
      (w_log w) z w w') w.
Proof. apply wp_endpoint_run. Qed.
End endpoint_made.

(** ** File system requests *)

Definition cb_arg (t : uv_fs_type) (c : cb) : uvarg :=
  match c with Some _ => V_cb (cb_fs t) | None => V_nullcb end.
Definition has_cb (c : cb) : bool := match c with Some _ => true | None => false end.

Section fs.
Context `{E : Env}.
Variable r : loc.
Implicit Types (R : token → option Z) (B : rest) (L : list event).

Lemma wp_toks_ref_counted v L R B toks ts (Q : unit → world → Prop) w :
  seen r v L (counted ts R) B w → Forall (has_refs R) toks →
  (∀ ts' w', (∀ u, cnt u ts' = (cnt u toks + cnt u ts)%nat) →
    seen r v L (counted ts' R) B w' → Q tt w') → wp (toks_ref toks) Q w.
Proof.
  revert ts w. induction toks as [|t toks IH]; intros ts w S HP HQ; cbn [toks_ref].
  - by apply wp_ret, (HQ ts).
  - apply list.Forall_cons in HP as [Ht HP]. apply wp_bind.
    eapply wp_counted_ref; [done..|]. intros w1 S1. eapply IH; [done..|].
    intros ts' w2 Hc S2. apply (HQ ts'); [|done]. intros u. rewrite Hc. cbn. case_decide; lia.
Qed.

Lemma wp_toks_unref_counted v L R B toks ts ts' (Q : unit → world → Prop) w :
  seen r v L (counted ts R) B w → Forall (has_refs R) toks →
  (∀ u, cnt u ts = (cnt u toks + cnt u ts')%nat) →
  (∀ w', seen r v L (counted ts' R) B w' → Q tt w') → wp (toks_unref toks) Q w.
Proof.
  revert ts w. induction toks as [|t toks IH]; intros ts w S HP Hc HQ; cbn [toks_unref].
  - apply wp_ret, HQ. eapply seen_ext; [|exact S]. intros u. unfold counted. by rewrite Hc.
  - apply list.Forall_cons in HP as [Ht HP]. apply wp_bind.
    eapply (wp_counted_unref _ _ _ _ _ _ (toks ++ ts')); [done..| |].
    { intros u. rewrite Hc. change (t :: toks ++ ts') with ((t :: toks) ++ ts'). by rewrite cnt_app. }
    intros w1 S1. eapply IH; [done..| |done]. intros u. by rewrite cnt_app.
Qed.

Lemma wp_seen_rprops e c p f L R B (Q : unit → world → Prop) w :
  seen r (e, c, p) L R B w → (∀ w', seen r (e, c, f p) L R B w' → Q tt w') →
  wp (mod_rprops r f) Q w.
Proof.
  intros S HQ. unfold mod_rprops. apply (wp_seen_mod _ _ (e, c, f p) L R B _ _ _ S); [|done|done|exact HQ].
  intros i Hi. unfold rview in *. by simplify_eq/=.
Qed.

(** What happens to the properties of the file around the call: [m] changes them by [g]. *)
Definition shifts (g : loc → iface * props → iface * props) (toks : list token) (m : M unit) : Prop :=
  ∀ v L R B w (Q : unit → world → Prop),
    seen r v L R B w → Forall (λ t, is_Some (R t)) toks →
    (∀ w', seen r v L R (rs_map g B) w' → Q tt w') → wp m Q w.

Lemma shifts_ret toks : shifts (untouched true) toks (mret tt).
Proof.
  intros v L R B w Q [Hv HL HR HB HH HA HD HV] _ HQ. apply wp_ret, HQ. split; try done.
  intros h. rewrite HH. cbn. by destruct (rs_handles B h).
Qed.

(** [write_queue_size += d] of the file [h], as its properties show it. *)
Definition grow (d : Z) (x : iface * props) : iface * props :=
  (x.1, map_file (λ f, set_wqs (w64 (fi_wqs f + d)) f) x.2).
Definition grown (h : loc) (d : Z) (h' : loc) (x : iface * props) : iface * props :=
  if decide (h' = h) then grow d x else x.

Lemma grown_back h d h' x : grown h (- d) h' (grown h d h' x) = grown h 0 h' x.
Proof.
  unfold grown. case_decide; [|done]. destruct x as [ifc p]. 
  destruct p as [| | |p f| | | | | |]; try done. unfold grow, set_wqs. cbn.
  assert (w64 (w64 (fi_wqs f + d) + - d) = w64 (fi_wqs f + 0)) as Hw; [|by rewrite Hw].
  unfold w64. rewrite Zplus_mod_idemp_l. f_equal. lia.
Qed.

Lemma shifts_add_wqs h d toks : TH h ∈ toks → shifts (grown h d) toks (add_wqs h d).
Proof.
  intros Hin v L R B w Q [Hv HL HR HB HH HA HD HV] HS HQ. rewrite list.Forall_forall in HS.
  destruct (HS _ Hin) as [n Hn]. rewrite <-HR in Hn. cbn in Hn.
  apply fmap_Some in Hn as (i & Hi & _). unfold add_wqs, mod_file, mod_props.
  eapply wp_mod_h; [done|]. apply HQ. split; try done.
  - intros t. rewrite <-HR. destruct t; cbn; try done. by eapply fmap_insert_same.
  - intros h'. cbn. rewrite <-HH. unfold handles_of, grown. cbn. case_decide as Hd.
    + subst h'. by rewrite lookup_insert_eq, Hi.
    + rewrite lookup_insert_ne by done. by destruct (w_handles w !! h').
Qed.

(** The protocol of [fs_run]: a request without a callback runs at once, and its answer is the
    status; one with a callback is pending when libuv accepts it. *)
Lemma wp_fs_run_made t toks sync async before undo f args c L e p g gu (P : rprops * cb → Prop) w0 w :
  seen r (e, c, p) L (counted [] (refs_of w0)) (rest_of w0) w → Forall (has_refs (refs_of w0)) toks →
  shifts (g true) toks before → shifts gu toks undo → (∀ h x, gu h (g true h x) = g false h x) →
  P (if has_cb c then async p else sync p, c) →
  wp (fs_run r t toks sync async (mret tt) before undo f args)
    (λ z w', request_made f (args ++ [cb_arg t c]) r (cb_fs t) (has_cb c) toks g P L z w0 w') w.
Proof.
  intros S HP Hb Hu Hg Hp. unfold fs_run. apply wp_bind. eapply wp_seen_get; [exact S|].
  intros i Hi _. assert (r_request_cb i = c) as -> by (unfold rview in Hi; by simplify_eq).
  assert (∀ ts, Forall (λ t, is_Some (counted ts (refs_of w0) t)) toks) as Hr.
  { intros ts. eapply list.Forall_impl; [exact HP|]. intros t' (n & Hn & _). unfold counted.
    rewrite Hn. by eexists. }
  destruct c as [c|]; cbn [has_cb cb_arg].
  - apply wp_bind. eapply wp_toks_ref_counted; [done..|]. intros ts w1 Hc S1. cbn in Hc.
    apply wp_bind. eapply wp_seen_rprops; [done|]. intros w2 S2.
    apply wp_bind. eapply Hb; [exact S2|done|]. intros w3 S3.
    apply wp_bind. eapply wp_seen_status; [done|]. intros w4 S4.
    apply wp_bind. eapply wp_seen_submit; [done|]. intros w5 S5. apply wp_bind.
    eapply wp_mono; [eapply (wp_request_tail _ _ _ _ toks ts g P _ _ _ _ _ _
      (rs_map gu (rs_map (g true) (rest_of w0)))); [reflexivity|exact Hp| |exact S5|done|done| | |]|].
    + intros u. rewrite Hc. lia.
    + by split_and!.
    + split_and!; [done..|]. intros h. cbn. rewrite <-option_fmap_compose.
      apply option_fmap_ext. intros x. apply Hg.
    + intros w6 S6. apply wp_bind. eapply Hu; [exact S6|done|]. intros w7 S7.
      eapply (wp_toks_unref_counted _ _ _ _ _ ts []); [exact S7|done| |done].
      intros u. by rewrite Hc.
    + intros [] w6 H6. apply wp_ret. exact H6.
  - apply wp_bind. eapply wp_seen_rprops; [done|]. intros w1 S1. apply wp_bind, wp_ret.
    apply wp_bind. eapply wp_seen_call; [done|]. intros w2 S2.
    eapply wp_seen_status; [done|]. intros w3 S3. eapply request_made_intro; [done|done|exact Hp|exact S3|done|apply based_sync].
Qed.

(** ... of a request that leaves the handles alone. *)
Lemma wp_fs_run_plain t toks sync async f args c L e p (P : rprops * cb → Prop) w0 w :
  seen r (e, c, p) L (counted [] (refs_of w0)) (rest_of w0) w →
  Forall (has_refs (refs_of w0)) toks →
  P (if has_cb c then async p else sync p, c) →
  wp (fs_run r t toks sync async (mret tt) (mret tt) (mret tt) f args)
    (λ z w', request_made f (args ++ [cb_arg t c]) r (cb_fs t) (has_cb c) toks untouched P L z w0 w') w.
Proof. intros. eapply wp_fs_run_made; [done..|apply shifts_ret|apply shifts_ret|done|done]. Qed.
End fs.

(** *** Requests on paths *)

Definition path_op_call (q : path_op) : uvfn * list uvarg :=
  match q with
  | PO_unlink path => (f_fs_unlink, [V_str path])
  | PO_mkdir path mode => (f_fs_mkdir, [V_str path; V_int mode])
  | PO_mkdtemp template => (f_fs_mkdtemp, [V_str template])
  | PO_rmdir path => (f_fs_rmdir, [V_str path])
  | PO_scandir path => (f_fs_scandir, [V_str path; V_int 0])
  | PO_rename path new_path => (f_fs_rename, [V_str path; V_str new_path])
  | PO_access path mode => (f_fs_access, [V_str path; V_int mode])
  | PO_link path link_path true flags =>
      (f_fs_symlink, [V_str path; V_str link_path; V_int flags])
  | PO_link path link_path false _ => (f_fs_link, [V_str path; V_str link_path])
  | PO_readlink path => (f_fs_readlink, [V_str path])
  | PO_realpath path => (f_fs_realpath, [V_str path])
  | PO_stat path true => (f_fs_stat, [V_str path])
  | PO_stat path false => (f_fs_lstat, [V_str path])
  | PO_chmod path mode => (f_fs_chmod, [V_str path; V_int mode])
  | PO_chown path uid gid => (f_fs_chown, [V_str path; V_int uid; V_int gid])
  | PO_utime path a m => (f_fs_utime, [V_str path; V_int a; V_int m])
  end.

(** The requests that can also be run on a file forget the file of the last run. *)
Definition path_op_props (q : path_op) : rprops → rprops :=
  match q with
  | PO_stat _ _ | PO_chmod _ _ | PO_chown _ _ _ | PO_utime _ _ _ => fs_set_file None
  | _ => λ p, p
  end.

Section paths.
Context `{E : Env}.

(** [uv_fs_req_cleanup] goes first. *)
Definition cleaned (r : loc) (L : list event) : list event :=
  uv_called f_fs_req_cleanup [V_req (Some r)] L.

Lemma wp_seen_cleanup r v L R B (Q : unit → world → Prop) w :
  seen r v L R B w → (∀ w', seen r v (cleaned r L) R B w' → Q tt w') → wp (req_cleanup r) Q w.
Proof.
  intros S HQ. unfold req_cleanup. apply wp_bind. eapply wp_seen_call; [exact S|].
  intros w1 S1. by apply wp_ret, HQ.
Qed.

(** C19: run() of the fourteen file system requests on a path calls uv_fs_req_cleanup
    and then, once, the function of the table with the path and the other arguments;
    without a callback the answer is the status, with one it is only when libuv refuses,
    and only then is no reference and no callback left pending; nothing else has
    changed. *)
Theorem path_request_made r l q c F X w :
  Inv F X w → live F w (TR r) → r_request_cb <$> w_reqs w !! r = Some c →
  let call := path_op_call q in
  wp (path_op_run r l q) (λ z w', request_made call.1
    (V_loop (Some l) :: V_req (Some r) :: call.2 ++ [cb_arg (path_op_type q) c])
    r (cb_fs (path_op_type q)) (has_cb c) [TR r] untouched
    (λ p, Some p = (λ i, (path_op_props q (r_props i), r_request_cb i)) <$> w_reqs w !! r)
    (cleaned r (w_log w)) z w w') w.
Proof.
  intros I HL (i & Hi & ->)%fmap_Some call. rewrite Hi. cbn.
  pose proof (seen_counted r _ _ _ _ _ (seen_here r i w Hi)) as S. unfold rview in S.
  assert (has_refs (refs_of w) (TR r)) as HP by by eapply Inv_has_refs.
  assert (∀ t prep f rest, wp (path_run r t prep f l rest) (λ z w', request_made f
    (V_loop (Some l) :: V_req (Some r) :: rest ++ [cb_arg t (r_request_cb i)])
    r (cb_fs t) (has_cb (r_request_cb i)) [TR r] untouched (λ p, Some p = Some (prep (r_props i), r_request_cb i))
    (cleaned r (w_log w)) z w w') w) as Hk.
  { intros t prep f rest. unfold path_run. apply wp_bind. eapply wp_seen_cleanup; [exact S|].
    intros w1 S1.
    eapply (wp_fs_run_plain r t [TR r] prep prep f (V_loop (Some l) :: V_req (Some r) :: rest));
      [exact S1|by repeat constructor|by destruct (r_request_cb i)]. }
  unfold call.
  destruct q as [| | | | | | |? ? []| | |? []| | |]; cbn [path_op_run path_op_call path_op_type path_op_props fst snd];
    unfold unlink.run, mkdir.run, mkdtemp.run, rmdir.run, scandir.run, rename.run, access.run,
      link.run, readlink.run, realpath.run, stat.run_path, chmod.run_path, chown.run_path,
      utime.run_path;
    lazymatch goal with |- wp (path_run _ ?t ?prep ?f _ ?rest) _ _ => exact (Hk t prep f rest) end.
Qed.
End paths.

(** *** Requests on open files *)

Inductive file_req := F_op (q : file_op) | F_read (buf : loc) (offset : Z) | F_write (buf : loc) (offset : Z).

Definition file_req_toks (r h : loc) (q : file_req) : list token :=
  match q with F_op _ => [TH h; TR r] | F_read b _ | F_write b _ => [TH h; TB b; TR r] end.
Definition file_req_type (q : file_req) : uv_fs_type :=
  match q with F_op q => file_op_type q | F_read _ _ => UV_FS_READ | F_write _ _ => UV_FS_WRITE end.

(** The offset a request names, if it has one. *)
Definition file_req_offset (q : file_req) : option Z :=
  match q with F_op (FO_truncate off) | F_read _ off | F_write _ off => Some off | _ => None end.

(** The write queue of the file: the bytes of a pending write are added to it, modulo the width of
    [std::size_t]; when libuv refuses the request they are taken off again. *)
Definition file_req_queue (bufs : loc → option (list (Z * Z))) (h : loc) (q : file_req)
    (accepted : bool) (h' : loc) (x : iface * props) : iface * props :=
  match q with
  | F_write b _ => grown h (if accepted then fs_write.wr_size (default [] (bufs b)) else 0) h' x
  | _ => x
  end.

(** The properties of the request: its file, the position it works at, and, of a pending request,
    its buffer and the size of what is written. *)
Definition file_req_props (bufs : loc → option (list (Z * Z))) (h : loc) (q : file_req)
    (callback : bool) (offset : Z) (p : rprops) : rprops :=
  match q with
  | F_op (FO_truncate _) => fs_set_offset offset (fs_set_file (Some h) p)
  | F_op _ => fs_set_file (Some h) p
  | F_read b _ =>
      fs_set_offset offset
        (if callback then fs_set_buf (Some b) (fs_set_file (Some h) p) else fs_set_file (Some h) p)
  | F_write b _ =>
      if callback then
        fs_set_pending (fs_write.wr_size (default [] (bufs b)))
          (fs_set_offset offset (fs_set_buf (Some b) (fs_set_file (Some h) p)))
      else fs_set_offset offset (fs_set_file (Some h) p)
  end.

Definition file_req_call (bufs : loc → option (list (Z * Z))) (q : file_req) (offset : Z) :
    uvfn * list uvarg :=
  let chunks b := let l := default [] (bufs b) in V_bufs l (Z.of_nat (length l)) in
  match q with
  | F_op (FO_sync true) => (f_fs_fsync, [])
  | F_op (FO_sync false) => (f_fs_fdatasync, [])
  | F_op (FO_truncate _) => (f_fs_ftruncate, [V_int offset])
  | F_op FO_stat => (f_fs_fstat, [])
  | F_op (FO_chmod mode) => (f_fs_fchmod, [V_int mode])
  | F_op (FO_chown uid gid) => (f_fs_fchown, [V_int uid; V_int gid])
  | F_op (FO_utime a m) => (f_fs_futime, [V_int a; V_int m])
  | F_read b _ => (f_fs_read, [chunks b; V_int offset])
  | F_write b _ => (f_fs_write, [chunks b; V_int offset])
  end.

Section files.
Context `{E : Env}.

(** Neither [uv_fs_req_cleanup] nor [lseek64] writes to the structures of libuv that the
    library reads. *)
Hypothesis no_writes : ∀ L f args, f = f_fs_req_cleanup ∨ f = f_lseek64 →
  rp_writes (uv_exec L f args) = [].

Definition file_req_run (r h : loc) (q : file_req) : M Z :=
  match q with
  | F_op q => file_op_run r h q
  | F_read b offset => read.run r h b offset
  | F_write b offset => fs_write.run r h b offset
  end.

(** The offset at which the request works and the trace before it: a negative offset stands for
    the position of the file. *)
Definition position (fd : Z) (o : option Z) (L : list event) : Z * list event :=
  let args := [V_int fd; V_int 0; V_int 1] in
  match o with
  | Some offset =>
      if offset <? 0 then (uv_ret L f_lseek64 args, uv_called f_lseek64 args L) else (offset, L)
  | None => (0, L)
  end.

Lemma wp_quiet_call r f args v L R B h i (Q : Z → world → Prop) w :
  f = f_fs_req_cleanup ∨ f = f_lseek64 → seen r v L R B w → w_handles w !! h = Some i →
  (∀ w', seen r v (uv_called f args L) R B w' → w_handles w' !! h = Some i →
    Q (uv_ret L f args) w') →
  wp (uv_call f args) Q w.
Proof.
  intros Hf S Hi HQ. pose proof (sn_log _ _ _ _ _ _ S) as HL. unfold uv_call, uv_call_out.
  apply wp_bind. unfold wp at 1. rewrite (no_writes _ _ _ Hf), HL. apply wp_ret, HQ; [|done].
  destruct S. split; try done. cbn. by rewrite HL.
Qed.

Lemma wp_position r v L R B h i o (Q : Z → world → Prop) w :
  seen r v L R B w → w_handles w !! h = Some i →
  let p := position (int32 (uh_result (h_uv i))) (Some o) L in
  (∀ w', seen r v p.2 R B w' → w_handles w' !! h = Some i → Q p.1 w') →
  wp (current_offset h o) Q w.
Proof.
  intros S Hi p HQ. unfold current_offset, file.fd. unfold p, position in HQ.
  destruct (o <? 0); [|by apply wp_ret, HQ]. do 2 apply wp_bind. eapply wp_get_h; [done|].
  apply wp_ret. eapply wp_quiet_call; [by right|done..|exact HQ].
Qed.

Lemma wp_file_run_made r h t prep f rest c L e p i w0 w :
  seen r (e, c, p) L (counted [] (refs_of w0)) (rest_of w0) w →
  Forall (has_refs (refs_of w0)) [TH h; TR r] → w_handles w !! h = Some i →
  wp (file_run r h t prep (mret tt) f rest) (λ z w', request_made f
    (V_loop (uh_loop (h_uv i)) :: V_req (Some r) :: V_int (int32 (uh_result (h_uv i))) ::
     rest ++ [cb_arg t c]) r (cb_fs t) (has_cb c) [TH h; TR r] untouched
    (λ p', Some p' = Some (prep p, c)) L z w0 w') w.
Proof.
  intros S HP Hi. unfold file_run. apply wp_bind. eapply wp_get_h; [done|].
  eapply (wp_fs_run_plain r t [TH h; TR r] prep prep f (V_loop (uh_loop (h_uv i)) ::
    V_req (Some r) :: V_int (int32 (uh_result (h_uv i))) :: rest)); [done..|]. by destruct c.
Qed.

Lemma wp_file_cleanup r v L R B h i (Q : unit → world → Prop) w :
  seen r v L R B w → w_handles w !! h = Some i →
  (∀ w', seen r v (cleaned r L) R B w' → w_handles w' !! h = Some i → Q tt w') →
  wp (req_cleanup r) Q w.
Proof.
  intros S Hi HQ. unfold req_cleanup. apply wp_bind. eapply wp_quiet_call; [by left|done..|].
  intros w1 S1 Hi1. by apply wp_ret, HQ.
Qed.

(** Up to the call: the position, the file, the chunks of the buffer. *)
Ltac data_prologue S Hi HP :=
  apply wp_bind; (eapply wp_file_cleanup; [exact S|exact Hi|]); clear S; intros ? S ?;
  apply wp_bind; (eapply wp_position; [exact S|eassumption|]); cbv zeta; clear S; intros ? S ?;
  apply wp_bind; (eapply wp_get_h; [eassumption|]);
  apply wp_bind; eapply wp_chunks; [exact S|reflexivity|by (inversion_clear HP as [|? ? ? HP']; inversion_clear HP')|];
  let x := fresh in let Hx := fresh in intros x Hx; rewrite !Hx; clear Hx x.

Lemma wp_file_request r h q c i F X w :
  Inv F X w → Forall (live F w) (file_req_toks r h q) →
  r_request_cb <$> w_reqs w !! r = Some c → w_handles w !! h = Some i →
  let fd := int32 (uh_result (h_uv i)) in
  let p := position fd (file_req_offset q) (cleaned r (w_log w)) in
  let call := file_req_call (bufs_of w) q p.1 in
  wp (file_req_run r h q) (λ z w', request_made call.1
    (V_loop (uh_loop (h_uv i)) :: V_req (Some r) :: V_int fd ::
     call.2 ++ [cb_arg (file_req_type q) c])
    r (cb_fs (file_req_type q)) (has_cb c) (file_req_toks r h q)
    (file_req_queue (bufs_of w) h q)
    (λ p', Some p' = (λ i, (file_req_props (bufs_of w) h q (has_cb c) p.1 (r_props i), c)) <$>
      w_reqs w !! r)
    p.2 z w w') w.
Proof.
  intros I HL (j & Hj & ->)%fmap_Some Hi fd p call. rewrite Hj. cbn [fmap option_fmap option_map].
  pose proof (seen_counted r _ _ _ _ _ (seen_here r j w Hj)) as S. unfold rview in S.
  assert (Forall (has_refs (refs_of w)) (file_req_toks r h q)) as HP.
  { eapply list.Forall_impl; [exact HL|]. intros t Ht. by eapply Inv_has_refs. }
  clear HL I. remember (r_request_cb j) as c eqn:Hc. clear Hc Hj. unfold call, p, fd.
  destruct q as [q|b o|b o]; cbn [file_req_run file_req_toks file_req_type file_req_offset
    file_req_call fst snd] in *.
  - destruct q as [[]|o| | | |]; cbn [file_op_run file_op_type fst snd position];
      unfold sync.run, truncate.run, stat.run_file, chmod.run_file, chown.run_file, utime.run_file;
      apply wp_bind; (eapply wp_file_cleanup; [exact S|exact Hi|]); intros w1 S1 Hi1.
    all: try (lazymatch goal with |- wp (file_run _ _ ?t ?prep _ ?f ?rest) _ _ =>
      exact (wp_file_run_made r h t prep f rest _ _ _ _ _ _ _ S1 HP Hi1) end).
    apply wp_bind. eapply wp_position; [exact S1|exact Hi1|]. cbv zeta. intros w2 S2 Hi2.
    lazymatch goal with |- wp (file_run _ _ ?t ?prep _ ?f ?rest) _ _ =>
      exact (wp_file_run_made r h t prep f rest _ _ _ _ _ _ _ S2 HP Hi2) end.
  - unfold read.run. data_prologue S Hi HP.
    eapply (wp_fs_run_plain r _ _ _ _ _ (_ :: _ :: _ :: _)); [exact S|exact HP|by destruct c].
  - unfold fs_write.run. data_prologue S Hi HP.
    eapply (wp_fs_run_made r _ _ _ _ _ _ _ (_ :: _ :: _ :: _));
      [exact S|exact HP|apply (shifts_add_wqs r); list_in|apply (shifts_add_wqs r); list_in
      | |by destruct c].
    intros h' x. apply grown_back.
Qed.

End files.

(** ** Name resolution *)

Inductive dns_req :=
| D_addrinfo (l : loc) (hostname service : option string) (hints : option Z)
| D_nameinfo (l : loc) (sockaddr : list Z) (flags : Z).

Definition dns_call (r : loc) (c : uvarg) (q : dns_req) : uvfn * list uvarg :=
  match q with
  | D_addrinfo l hostname service hints =>
      (f_getaddrinfo, [V_loop (Some l); V_req (Some r); c; V_str hostname; V_str service;
                       V_int (default 0 hints)])
  | D_nameinfo l sockaddr flags =>
      (f_getnameinfo, [V_loop (Some l); V_req (Some r); c; V_bytes sockaddr; V_int flags])
  end.
Definition dns_cb (q : dns_req) : cbname :=
  match q with D_addrinfo _ _ _ _ => cb_getaddrinfo | D_nameinfo _ _ _ => cb_getnameinfo end.

Section dns.
Context `{E : Env}.

Definition dns_run (r : loc) (q : dns_req) : M Z :=
  match q with
  | D_addrinfo l hostname service hints => getaddrinfo.run_ r l hostname service hints
  | D_nameinfo l sockaddr flags => getnameinfo.run r l sockaddr flags
  end.

(** [getaddrinfo] frees the result of the last run first. *)
Definition dns_before (q : dns_req) (i : rinst) (L : list event) : list event :=
  match q with
  | D_addrinfo _ _ _ _ => uv_called f_freeaddrinfo [V_int (ur_addrinfo (r_uv i))] L
  | D_nameinfo _ _ _ => L
  end.

Lemma wp_dns_body r f (args : uvarg → list uvarg) cbn' c L e p w0 w :
  seen r (e, c, p) L (counted [] (refs_of w0)) (rest_of w0) w → has_refs (refs_of w0) (TR r) →
  wp (i ← get_r r;
      match r_request_cb i with
      | None => z ← uv_call f (args V_nullcb); request_uv_status r z
      | Some _ =>
          request_ref r;;
          _ ← request_uv_status r 0;
          uv_ret ← uv_submit f (args (V_cb cbn')) cbn' r [TR r];
          when (uv_ret <? 0) (_ ← request_uv_status r uv_ret; request_unref r);;
          mret uv_ret
      end)
    (λ z w', request_made f (args (match c with Some _ => V_cb cbn' | None => V_nullcb end)) r
      cbn' (has_cb c) [TR r] untouched (eq (p, c)) L z w0 w') w.
Proof.
  intros S HP. apply wp_bind. eapply wp_seen_get; [exact S|]. intros i Hi _.
  assert (r_request_cb i = c) as -> by (unfold rview in Hi; by simplify_eq).
  destruct c as [c|]; cbn [has_cb].
  - wp_seen. made_tail.
  - apply wp_bind. eapply wp_seen_call; [done|]. intros w2 S2.
    eapply wp_seen_status; [done|]. intros w3 S3. eapply request_made_intro; [done|done|reflexivity|exact S3|done|apply based_sync].
Qed.

(** getaddrinfo::run and getnameinfo::run make one request to libuv, with their arguments; a
    request without a callback is answered at once. *)
Theorem dns_request_made r q i F X w :
  Inv F X w → live F w (TR r) → w_reqs w !! r = Some i →
  let c := r_request_cb i in
  let call := dns_call r (match c with Some _ => V_cb (dns_cb q) | None => V_nullcb end) q in
  wp (dns_run r q) (λ z w', request_made call.1 call.2 r (dns_cb q) (has_cb c) [TR r]
    untouched (eq (r_props i, c)) (dns_before q i (w_log w)) z w w') w.
Proof.
  intros I HL Hi c call.
  pose proof (seen_counted r _ _ _ _ _ (seen_here r i w Hi)) as S. unfold rview in S.
  assert (has_refs (refs_of w) (TR r)) as HP by by eapply Inv_has_refs.
  destruct q as [l hn sv hs|l sa fl]; cbn [dns_run].
  - unfold getaddrinfo.run_, getaddrinfo.addrinfo. do 2 apply wp_bind. eapply wp_get_r; [done|].
    apply wp_ret. apply wp_bind. eapply wp_seen_call; [exact S|]. intros w1 S1.
    exact (wp_dns_body r f_getaddrinfo (λ c, [V_loop (Some l); V_req (Some r); c; V_str hn; V_str sv;
      V_int (default 0 hs)]) cb_getaddrinfo _ _ _ _ _ _ S1 HP).
  - exact (wp_dns_body r f_getnameinfo (λ c, [V_loop (Some l); V_req (Some r); c; V_bytes sa;
      V_int fl]) cb_getnameinfo _ _ _ _ _ _ S HP).
Qed.
End dns.
