(* ===== verification/Vars.v ===== *)
(** * Class objects: counted variables

    The classes [handle], [request], [buffer] and [loop] have the same constructors,
    assignments and destructor over the [ref()] and [unref()] of their instances
    (src/include/uvcc/handle-base.hpp, request-base.hpp, buffer.hpp, loop.hpp). They are written
    once over the interface [Counted] and instantiated for each class. *)

From Stdlib Require Import ZArith Lia.
From stdpp Require Import base gmap list strings option.
From S2P Require Import Prelude World Objects Ledger Wp Refs Release Rules.

(** What a class provides: its pointer field, and the counter of the instance. *)
Class Counted `{E : Env} (P : option loc → ptr) := {
  ptr_get : ptr → option (option loc);
  inst_ref : loc → M unit;
  inst_unref : loc → M unit
}.
Arguments ptr_get {E} P {_} p.
Arguments inst_ref {E} P {_} l.
Arguments inst_unref {E} P {_} l.

(** What the clients of the interface rely on: the field and the pointer determine each other,
    and the counter is the one of the ledger. *)
Class CountedOk `{E : Env} (P : option loc → ptr) `{!Counted P} := {
  counted_tok : loc → token;
  counted_get o : ptr_get P (P o) = Some o;
  counted_put p o : ptr_get P p = Some o → p = P o;
  counted_toks o : ptr_toks (P o) = opt_tok counted_tok o;
  counted_ref l : inst_ref P l = tok_ref (counted_tok l);
  counted_unref l : inst_unref P l = tok_unref (counted_tok l)
}.

#[export] Instance handle_counted `{E : Env} : Counted PH :=
  {| ptr_get p := match p with PH o => Some o | _ => None end;
     inst_ref := handle_ref; inst_unref := handle_unref |}.
#[export] Instance request_counted `{E : Env} : Counted PR :=
  {| ptr_get p := match p with PR o => Some o | _ => None end;
     inst_ref := request_ref; inst_unref := request_unref |}.
#[export] Instance buffer_counted `{E : Env} : Counted PB :=
  {| ptr_get p := match p with PB o => Some o | _ => None end;
     inst_ref := buffer_ref; inst_unref := buffer_unref |}.
#[export] Instance loop_counted `{E : Env} : Counted PL :=
  {| ptr_get p := match p with PL o => Some o | _ => None end;
     inst_ref := loop_ref; inst_unref := loop_unref |}.

#[export] Instance handle_counted_ok `{E : Env} : CountedOk PH.
Proof. refine {| counted_tok := TH |}; try done; intros []; cbn; congruence. Defined.
#[export] Instance request_counted_ok `{E : Env} : CountedOk PR.
Proof. refine {| counted_tok := TR |}; try done; intros []; cbn; congruence. Defined.
#[export] Instance buffer_counted_ok `{E : Env} : CountedOk PB.
Proof. refine {| counted_tok := TB |}; try done; intros []; cbn; congruence. Defined.
#[export] Instance loop_counted_ok `{E : Env} : CountedOk PL.
Proof. refine {| counted_tok := TL |}; try done; intros []; cbn; congruence. Defined.

(** ** The members *)

Section members.
Context `{E : Env} (P : option loc → ptr) `{!Counted P}.

(** The field of the variable [x]. *)
Definition field (x : positive) : M (option loc) := λ w,
  match w_vars w !! x ≫= ptr_get P with
  | Some o => Ok o w
  | None => Undefined UB_type
  end.
Definition set_field (x : positive) (o : option loc) : M unit :=
  modify (upd_vars (<[x := P o]>)).

Definition unref_opt (t : option loc) : M unit :=
  match t with Some l => inst_unref P l | None => mret tt end.

(** The constructor from a libuv pointer: [ref()] first, then the field is set. *)
Definition construct (x : positive) (o : option loc) : M unit :=
  match o with Some l => inst_ref P l | None => mret tt end;;
  set_field x o.

Definition copy_construct (x that : positive) : M unit :=
  o ← field that; construct x o.

Definition copy_assign (x that : positive) : M unit :=
  if decide (x = that) then mret tt
  else
    o ← field that;
    match o with Some l => inst_ref P l | None => mret tt end;;
    t ← field x;
    set_field x o;;
    unref_opt t.

Definition move_construct (x that : positive) : M unit :=
  noexcept (o ← field that; set_field x o;; set_field that None).

Definition move_assign (x that : positive) : M unit :=
  noexcept (
    if decide (x = that) then mret tt
    else
      t ← field x;
      o ← field that;
      set_field x o;;
      set_field that None;;
      unref_opt t).

Definition swap (x that : positive) : M unit :=
  noexcept (
    a ← field x;
    b ← field that;
    set_field x b;;
    set_field that a).

(** The destructor; the life of the variable is over when it begins. *)
Definition destruct_var (x : positive) : M unit :=
  noexcept (
    o ← field x;
    modify (upd_vars (delete x));;
    unref_opt o).
End members.

(** ** The four classes *)

Module handle_var.
Section handle_var.
Context `{E : Env}.
Definition construct := construct PH.
Definition copy_construct := copy_construct PH.
Definition copy_assign := copy_assign PH.
Definition move_construct := move_construct PH.
Definition move_assign := move_assign PH.
Definition swap := swap PH.
Definition destruct_var := destruct_var PH.
End handle_var.
End handle_var.

Module request_var.
Section request_var.
Context `{E : Env}.
Definition construct := construct PR.
Definition copy_construct := copy_construct PR.
Definition copy_assign := copy_assign PR.
Definition move_construct := move_construct PR.
Definition move_assign := move_assign PR.
Definition swap := swap PR.
Definition destruct_var := destruct_var PR.
End request_var.
End request_var.

Module buffer_var.
Section buffer_var.
Context `{E : Env}.
Definition construct := construct PB.
Definition copy_construct := copy_construct PB.
Definition copy_assign := copy_assign PB.
Definition move_construct := move_construct PB.
Definition move_assign := move_assign PB.
Definition swap := swap PB.
Definition destruct_var := destruct_var PB.
End buffer_var.
End buffer_var.

Module loop_var.
Section loop_var.
Context `{E : Env}.
Definition construct := construct PL.
Definition copy_construct := copy_construct PL.
Definition copy_assign := copy_assign PL.
Definition move_construct := move_construct PL.
Definition move_assign := move_assign PL.
Definition swap := swap PL.
Definition destruct_var := destruct_var PL.
End loop_var.
End loop_var.

(** ** What the members do, for any class with the interface *)

Section laws.
Context `{E : Env} `{EO : !EnvOk} (P : option loc → ptr) `{!Counted P} `{!CountedOk P}.
Local Abbreviation tok := (counted_tok (P := P)).

Lemma wp_field x o (Q : option loc → world → Prop) w :
  w_vars w !! x = Some (P o) → Q o w → wp (field P x) Q w.
Proof. intros Hx HQ. unfold field, wp. rewrite Hx. cbn. by rewrite counted_get. Qed.

(** The variable [x] is overwritten: its reference goes to the running code, and the
    reference it gets comes from there. *)
Lemma Inv_set_field x o t F X w :
  Inv (opt_tok tok o ++ F) X w → w_vars w !! x = Some (P t) →
  Inv (opt_tok tok t ++ F) X (upd_vars (<[x := P o]>) w).
Proof.
  intros I Hx. eapply Inv_set_var; [done|]. intros u. rewrite Hx. cbn.
  rewrite !counted_toks, !cnt_app. lia.
Qed.

Lemma Inv_new_field x o F X w :
  Inv (opt_tok tok o ++ F) X w → w_vars w !! x = None →
  Inv F X (upd_vars (<[x := P o]>) w).
Proof.
  intros I Hx. eapply Inv_set_var; [done|]. intros u. rewrite Hx. cbn.
  rewrite !counted_toks, !cnt_app. cbn. lia.
Qed.

Lemma owned_var x o l w : w_vars w !! x = Some (P o) → o = Some l → (0 < owned w (tok l))%nat.
Proof.
  intros Hx ->. unfold owned.
  pose proof (msum_lookup_le (λ _ p, cnt (tok l) (ptr_toks p)) _ _ _ Hx) as Hle. cbn in Hle.
  rewrite counted_toks in Hle. cbn in Hle. rewrite decide_True in Hle by done. lia.
Qed.

Lemma wp_ref_opt o F X (Q : unit → world → Prop) w :
  Inv F X w → (∀ l, o = Some l → live F w (tok l)) →
  (∀ w', wsim w w' → Inv (opt_tok tok o ++ F) X w' → Q tt w') →
  wp (match o with Some l => inst_ref P l | None => mret tt end) Q w.
Proof.
  intros I L HQ. destruct o as [l|]; [|by apply wp_ret, HQ]. rewrite counted_ref.
  apply (wp_tok_ref _ _ _ _ _ I); [by apply L|done].
Qed.

(** A reference given up: the object may go, and then client code may run. *)
Lemma wp_unref_opt t F X (Q : unit → world → Prop) w :
  Inv (opt_tok tok t ++ F) X w →
  (∀ w', Inv F X w' →
     ((∀ l, t = Some l → live F w (tok l)) → w_vars w' = w_vars w) → Q tt w') →
  wp (unref_opt P t) Q w.
Proof.
  intros I HQ. destruct t as [l|]; [|by apply wp_ret, HQ]. cbn [unref_opt].
  rewrite counted_unref. cbn [opt_tok app] in I.
  destruct (decide (0 < owned w (tok l) + cnt (tok l) F)%nat) as [L|N].
  - eapply wp_tok_unref_live; [exact I|exact L|]. intros w' S I'. apply HQ; [done|].
    intros _. symmetry. apply S.
  - eapply wp_tok_unref; [done|]. intros w' I'. apply HQ; [done|]. intros L. exfalso.
    apply N. by apply L.
Qed.

(** The object of another variable, or of the running code, is not affected. *)
Definition kept (F : list token) (w : world) (t : option loc) : Prop :=
  ∀ l, t = Some l → live F w (tok l).

Theorem construct_ok x that o F X w :
  Inv F X w → w_vars w !! x = None → w_vars w !! that = Some (P o) →
  wp (copy_construct P x that) (λ _ w', Inv F X w' ∧ w_vars w' = <[x := P o]> (w_vars w)) w ∧
  wp (move_construct P x that) (λ _ w', Inv F X w' ∧
    w_vars w' = <[that := P None]> (<[x := P o]> (w_vars w))) w.
Proof.
  intros I Hx Ht. assert (x ≠ that) as Hne by congruence. split.
  - unfold copy_construct, construct. wp_struct. eapply wp_field; [done|]. wp_struct.
    eapply wp_ref_opt; [done| |].
    { intros l ->. unfold live. pose proof (owned_var _ _ _ _ Ht eq_refl). lia. }
    intros w1 S I1. apply wp_modify. rewrite (sim_vars _ _ (proj1 S)) in Hx |- *.
    split; [by apply Inv_new_field|done].
  - unfold move_construct. wp_struct. wp_struct. eapply wp_field; [done|]. wp_struct.
    apply wp_modify, wp_modify. split; [|done].
    set (w1 := upd_vars (<[that := P None]>) w).
    assert (Inv (opt_tok tok o ++ F) X w1) as I1 by (by apply (Inv_set_field that None o F)).
    assert (upd_vars <[that:=P None]> (upd_vars <[x:=P o]> w) = upd_vars <[x:=P o]> w1) as ->.
    { unfold w1, upd_vars. cbn. f_equal. by apply insert_insert_ne. }
    apply Inv_new_field; [done|]. cbn. by rewrite lookup_insert_ne.
Qed.

Lemma wp_copy_assign x that t o F X w :
  Inv F X w → w_vars w !! x = Some (P t) → w_vars w !! that = Some (P o) → x ≠ that →
  wp (copy_assign P x that) (λ _ w', Inv F X w' ∧
    (kept F (upd_vars (<[x := P o]>) w) t → w_vars w' = <[x := P o]> (w_vars w))) w.
Proof.
  intros I Hx Ht Hne. unfold copy_assign. rewrite decide_False by done.
  wp_struct. eapply wp_field; [done|]. wp_struct. eapply wp_ref_opt; [done| |].
  { intros l ->. unfold live. pose proof (owned_var _ _ _ _ Ht eq_refl). lia. }
  intros w1 S I1. rewrite (sim_vars _ _ (proj1 S)) in Hx. wp_struct.
  eapply wp_field; [done|]. wp_struct. apply wp_modify.
  apply (Inv_set_field x o t) in I1; [|done]. eapply wp_unref_opt; [done|].
  intros w2 I2 HV. split; [done|]. intros HK. rewrite HV; [cbn; by rewrite (sim_vars _ _ (proj1 S))|].
  intros l Hl. specialize (HK l Hl). unfold live in *.
  assert (owned (upd_vars <[x:=P o]> w1) (tok l) = owned (upd_vars <[x:=P o]> w) (tok l)) as ->;
    [|done].
  pose proof (owned_proper w w1 S (tok l) (tok l) eq_refl) as HO. unfold owned in *. cbn.
  rewrite <-(sim_vars _ _ (proj1 S)) in *. lia.
Qed.


Lemma wp_move_assign x that t o F X w :
  Inv F X w → w_vars w !! x = Some (P t) → w_vars w !! that = Some (P o) → x ≠ that →
  let w1 := upd_vars (λ m, <[that := P None]> (<[x := P o]> m)) w in
  wp (move_assign P x that) (λ _ w', Inv F X w' ∧ (kept F w1 t → w_vars w' = w_vars w1)) w.
Proof.
  intros I Hx Ht Hne w1. unfold move_assign. wp_struct. rewrite decide_False by done.
  wp_struct. eapply wp_field; [done|]. wp_struct. eapply wp_field; [done|].
  wp_struct. apply wp_modify. wp_struct. apply wp_modify.
  assert (Inv (opt_tok tok t ++ F) X w1) as I1.
  { set (w0 := upd_vars (<[that := P None]>) w).
    assert (Inv (opt_tok tok o ++ F) X w0) as I0 by (by apply (Inv_set_field that None o F)).
    assert (w1 = upd_vars <[x:=P o]> w0) as ->.
    { unfold w1, w0, upd_vars. cbn. f_equal. by apply insert_insert_ne. }
    apply Inv_set_field; [done|]. cbn. by rewrite lookup_insert_ne. }
  eapply (wp_unref_opt t F X _ w1); [done|]. intros w2 I2 HV. by split.
Qed.


(** Swapping touches no counter. *)
Theorem swap_ok x that a b F X w :
  Inv F X w → w_vars w !! x = Some (P a) → w_vars w !! that = Some (P b) →
  wp (swap P x that) (λ _ w', Inv F X w' ∧ (∀ t, refs_of w' t = refs_of w t) ∧
    w_vars w' = <[that := P a]> (<[x := P b]> (w_vars w))) w.
Proof.
  intros I Hx Ht. unfold swap. wp_struct. wp_struct. eapply wp_field; [done|].
  wp_struct. eapply wp_field; [done|]. wp_struct. apply wp_modify, wp_modify.
  split; [|split; [by intros []|done]]. destruct (decide (x = that)) as [->|Hne].
  - assert (a = b) as ->.
    { rewrite Hx in Ht. pose proof (counted_get (P := P) a). pose proof (counted_get (P := P) b).
      congruence. }
    eapply (Inv_set_var that (P b) F); [eapply (Inv_set_var that (P b) F); [done|]|];
      intros u; cbn; rewrite ?lookup_insert_eq, ?Hx; done.
  - split; try apply I. intros u. pose proof (inv_count _ _ _ I u) as Hc.
    change (refs_of (upd_vars _ _) u) with (refs_of w u).
    set (f := λ (_ : positive) p, cnt u (ptr_toks p)).
    assert (msum f (<[that := P a]> (<[x := P b]> (w_vars w))) = msum f (w_vars w)) as HS.
    { pose proof (msum_update f (w_vars w) x _ (P b) Hx) as H1.
      pose proof (msum_update f (<[x := P b]> (w_vars w)) that (P b) (P a)) as H2.
      rewrite lookup_insert_ne in H2 by done. specialize (H2 Ht). unfold f in *. lia. }
    unfold total, owned in *. cbn. fold f in Hc |- *. rewrite HS. done.
Qed.

Lemma wp_destruct x o F X w :
  Inv F X w → w_vars w !! x = Some (P o) →
  wp (destruct_var P x) (λ _ w', Inv F X w' ∧
    (kept F (upd_vars (delete x) w) o → w_vars w' = delete x (w_vars w))) w.
Proof.
  intros I Hx. unfold destruct_var. wp_struct. wp_struct. eapply wp_field; [done|].
  wp_struct. apply wp_modify. pose proof (Inv_delete_var x _ _ _ _ I Hx) as I1.
  cbn in I1. rewrite counted_toks in I1.
  eapply (wp_unref_opt o F X); [done|]. intros w2 I2 HV. by split.
Qed.

(** C13: The destructor of a variable gives back exactly the reference of the variable
    and keeps the ledger, also when it is the last reference and the object, and what
    only that object kept alive, are destroyed. *)
Theorem destruct_ok x o F X w :
  Inv F X w → w_vars w !! x = Some (P o) →
  wp (destruct_var P x) (λ _ w', Inv F X w' ∧
    (kept F (upd_vars (delete x) w) o → w_vars w' = delete x (w_vars w))) w.
Proof. apply wp_destruct. Qed.
End laws.
