(* ===== verification/Loop.v ===== *)
(** * The class [loop]

    src/include/uvcc/loop.hpp: the members of the class; the life of its instance is modelled
    with the other counted objects in Objects, its variables in Vars. *)

From Stdlib Require Import ZArith Lia.
From stdpp Require Import base gmap list strings option.
From S2P Require Import Prelude World Objects Ledger Wp Refs Release Rules Vars.

Local Open Scope Z_scope.

Module loop.
Section loop.
Context `{E : Env}.

(** [static loop default_loop], a variable made on first use *)
Definition default_var : positive := 1.
Definition Default : M unit :=
  w ← get;
  match w_vars w !! default_var with
  | Some _ => mret tt
  | None => l ← loop_create; set_field PL default_var (Some l)
  end.

Definition nrefs (l : loc) : M Z := i ← get_l l; mret (l_refs i).
Definition uv_status (l : loc) : M Z := i ← get_l l; mret (l_uv_error i).
Definition on_destroy (l : loc) (c : cb) : M unit := mod_l l (set_l_destroy c).
Definition on_exit (l : loc) (c : cb) : M unit := mod_l l (set_l_exit c).
Definition data_get (l : loc) : M Z := i ← get_l l; mret (ul_data (l_uv i)).
Definition data_set (l : loc) (d : Z) : M unit := mod_l l (set_l_uv (λ _, {| ul_data := d |})).

Definition configure (l : loc) (opt : Z) (args : list Z) : M Z :=
  z ← uv_call f_loop_configure (V_loop (Some l) :: V_int opt :: (V_int <$> args));
  loop_uv_status l z.

(** [run(mode)]: the exit callback gets a new variable for the loop. *)
Definition run (l : loc) (mode : Z) : M Z :=
  z ← uv_run l mode;
  uv_ret ← loop_uv_status l z;
  i ← get_l l;
  match l_exit_cb i with
  | Some f => loop_ref l;; invoke f [A_ptr (PL (Some l))]
  | None => mret tt
  end;;
  mret uv_ret.

Definition stop (l : loc) : M unit := _ ← uv_call f_stop [V_loop (Some l)]; mret tt.
Definition is_alive (l : loc) : M Z :=
  z ← uv_call f_loop_alive [V_loop (Some l)]; loop_uv_status l z.
Definition backend_fd (l : loc) : M Z := uv_call f_backend_fd [V_loop (Some l)].
Definition backend_timeout (l : loc) : M Z := uv_call f_backend_timeout [V_loop (Some l)].
Definition now (l : loc) : M Z := uv_call f_now [V_loop (Some l)].
Definition update_time (l : loc) : M unit := _ ← uv_call f_update_time [V_loop (Some l)]; mret tt.

(** The callback given to [uv_walk]: the client's function gets a new variable for the handle. *)
Definition walk_cb (h : loc) (f : Z) : M unit :=
  handle_ref h;; invoke f [A_ptr (PH (Some h))].

(** [uv_walk] makes it for the handles the loop has when it begins and still has when their
    turn comes. *)
Fixpoint walk_over (l : loc) (hs : list loc) (f : Z) : M unit :=
  match hs with
  | [] => mret tt
  | h :: hs' =>
      w ← get;
      (if decide (h ∈ uv_walk_handles (w_log w) l) then walk_cb h f else mret tt);;
      walk_over l hs' f
  end.
Definition walk (l : loc) (f : cb) : M unit :=
  match f with
  | Some f =>
      w ← get;
      let hs := uv_walk_handles (w_log w) l in
      log_event (E_uv f_walk [V_loop (Some l)] 0);;
      walk_over l hs f
  | None => mret tt
  end.

Definition to_bool (l : loc) : M bool := z ← uv_status l; mret (0 <=? z).
End loop.
End loop.

Section ledger.
Context `{E : Env} `{EO : !EnvOk}.

Lemma wp_loop_run l mode F X w :
  Inv (TL l :: F) X w → wp (loop.run l mode) (λ _ w', Inv (TL l :: F) X w') w.
Proof.
  intros I. unfold loop.run. wp_struct. eapply wp_mono; [by apply env_run|].
  cbn. intros z w1 I1. wp_auto.
  destruct (l_exit_cb li); wp_auto; done.
Qed.

(** The loop runs, its status is recorded, and then the exit callback is called with a
    reference of its own. *)
Theorem loop_run_ok l mode F X w :
  Inv (TL l :: F) X w →
  wp (loop.run l mode) (λ z w', Inv (TL l :: F) X w') w.
Proof. apply wp_loop_run. Qed.

(** Every handle of a loop that [uv_walk] reports has an owner: it has not been closed. *)
Class WalkOk := walk_live : ∀ l F X w h,
  Inv F X w → h ∈ uv_walk_handles (w_log w) l → live F w (TH h).

Theorem loop_walk_ok l f F X w :
  WalkOk → Inv (TL l :: F) X w →
  wp (loop.walk l f) (λ _ w', Inv (TL l :: F) X w') w.
Proof.
  intros HW I. unfold loop.walk. destruct f as [f|]; [|by apply wp_ret].
  wp_structs. apply wp_log_event. intros w1 S _. rewrite S in I. clear S.
  revert w1 I. generalize (uv_walk_handles (w_log w) l) as hs. intros hs.
  induction hs as [|h hs IH]; intros w1 I; [by apply wp_ret|].
  cbn. wp_structs. case_decide as Hin; [|apply wp_ret; by apply IH].
  pose proof (walk_live l _ _ _ _ I Hin) as L. unfold loop.walk_cb. wp_auto. by apply IH.
Qed.
(** libuv will close the loop when it is asked to. *)
Definition drained (l : loc) (w : world) : Prop :=
  rp_ret (uv_exec (w_log w) f_loop_close [V_loop (Some l)]) = 0.

End ledger.
