(* ===== verification/Concurrent.v ===== *)
(** * Reference counters and spin locks used by several threads

    [ref_count] and [spinlock] of src/include/uvcc/utility.hpp as step relations: every step is
    one access to the atomic variable by one thread, in any interleaving; an access sees the last
    value written. *)

From Stdlib Require Import ZArith Lia.
From stdpp Require Import base gmap list strings option relations sets.
From S2P Require Import Prelude.

Local Open Scope Z_scope.

(** ** [ref_count] *)

Module atomic_count.

(** Where a thread is in the functions of [ref_count]; [R_inc], [R_dec] and [R_value] carry the
    value that was returned, [Inc c] is the loop of [inc()] with the value [c] it has read. *)
Inductive pc := Idle | Inc (c : Z) | Threw | R_inc (v : Z) | R_dec (v : Z) | R_value (v : Z).

(** A thread: the references it owns, and the threads whose work before their [dec()] it is
    synchronised with. *)
Record thread := { th_pc : pc; th_refs : nat; th_seen : gset nat }.

(** The counter: its value, and what the release sequence of the [dec()]s carries. *)
Record state := { count : Z; released : gset nat; threads : gmap nat thread }.

Definition put (i : nat) (t : thread) (c : Z) (R : gset nat) (s : state) : state :=
  {| count := c; released := R; threads := <[i := t]> (threads s) |}.

(** A thread that enters a function is in none. *)
Definition returned (p : pc) : Prop := match p with Inc _ => False | _ => True end.

Inductive step (s : state) : state → Prop :=
(** [auto c = count.load(std::memory_order_relaxed);] The caller copies a variable: one of
    its own, or one it does not own that may be going away. *)
| inc_load i t : threads s !! i = Some t → returned (th_pc t) →
    step s (put i {| th_pc := Inc (count s); th_refs := th_refs t; th_seen := th_seen t |}
                (count s) (released s) s)
(** [if (c == 0) throw std::runtime_error(..);] *)
| inc_throw i t : threads s !! i = Some t → th_pc t = Inc 0 →
    step s (put i {| th_pc := Threw; th_refs := th_refs t; th_seen := th_seen t |}
                (count s) (released s) s)
(** [compare_exchange_weak(c, c+1)] that succeeds ... *)
| inc_cas i t c : threads s !! i = Some t → th_pc t = Inc c → c ≠ 0 → count s = c →
    step s (put i {| th_pc := R_inc (c + 1); th_refs := S (th_refs t); th_seen := th_seen t |}
                (c + 1) (released s) s)
(** ... and that fails, perhaps spuriously, and loads the value again *)
| inc_retry i t c : threads s !! i = Some t → th_pc t = Inc c → c ≠ 0 →
    step s (put i {| th_pc := Inc (count s); th_refs := th_refs t; th_seen := th_seen t |}
                (count s) (released s) s)
(** [count.fetch_sub(1, std::memory_order_release)], by the owner of a reference *)
| dec i t n : threads s !! i = Some t → returned (th_pc t) → th_refs t = S n →
    step s (put i {| th_pc := R_dec (count s - 1); th_refs := n; th_seen := th_seen t |}
                (count s - 1) (released s ∪ th_seen t) s)
(** [count.load(std::memory_order_acquire)] *)
| get_value i t : threads s !! i = Some t → returned (th_pc t) →
    step s (put i {| th_pc := R_value (count s); th_refs := th_refs t;
                     th_seen := th_seen t ∪ released s |} (count s) (released s) s).

(** A new counter is owned once, by the thread [i] that made it; every thread has done some
    work of its own. *)
Definition initial (s : state) : Prop :=
  count s = 1 ∧ released s = ∅ ∧
  (∃ i, th_refs <$> threads s !! i = Some 1%nat ∧
    ∀ j t, threads s !! j = Some t → th_pc t = Idle ∧ (j ≠ i → th_refs t = 0%nat)) ∧
  ∀ j t, threads s !! j = Some t → j ∈ th_seen t.

Definition reachable (s : state) : Prop := ∃ s0, initial s0 ∧ rtc step s0 s.

Definition owners (s : state) : nat := msum (λ _ t, th_refs t) (threads s).

Lemma owners_put i t t' c R s : threads s !! i = Some t →
  (owners (put i t' c R s) + th_refs t = owners s + th_refs t')%nat.
Proof.
  intros Hi. unfold owners. cbn.
  pose proof (msum_update (λ _ t, th_refs t) (threads s) i t t' Hi). cbn in *. lia.
Qed.

Lemma owners_initial s : initial s → owners s = 1%nat.
Proof.
  intros (_ & _ & (i & (t & Hi & Ht)%fmap_Some & Hj) & _). unfold owners.
  rewrite (msum_delete _ _ i t) by done. rewrite <-Ht.
  assert (msum (λ _ t, th_refs t) (delete i (threads s)) = 0%nat) as ->; [|done].
  rewrite <-(msum_empty (λ (_ : nat) t, th_refs t)). symmetry.
  assert (∀ m : gmap nat thread, (∀ k x, m !! k = Some x → th_refs x = 0%nat) →
    msum (λ _ t, th_refs t) m = 0%nat) as Hm.
  { intros m. induction m as [|k x m Hk IH] using map_ind; intros H; [apply msum_empty|].
    rewrite msum_insert_fresh by done. rewrite (H k x) by apply lookup_insert_eq.
    apply IH. intros k' x' Hk'. apply (H k'). rewrite lookup_insert_ne; [done|congruence]. }
  rewrite msum_empty. symmetry. apply Hm. intros k x Hk.
  destruct (decide (i = k)) as [->|]; [by rewrite lookup_delete_eq in Hk|].
  rewrite lookup_delete_ne in Hk by done. by apply (Hj k x).
Qed.

(** What holds in every state. *)
Definition inv (s : state) : Prop := count s = Z.of_nat (owners s).

Lemma inv_step s s' : inv s → step s s' → inv s'.
Proof.
  unfold inv. intros I H. inversion H; subst; cbn [count put].
  all: match goal with Hi : threads ?s0 !! ?i = Some ?t |- context [put ?i ?t' ?c ?R ?s0] =>
         pose proof (owners_put i t t' c R s0 Hi) as HO; cbn in HO end; lia.
Qed.

Lemma rtc_inv s s' : inv s → rtc step s s' → inv s'.
Proof. intros I. apply (rtc_invariant inv); eauto using inv_step. Qed.

Lemma inv_reachable s : reachable s → inv s.
Proof.
  intros (s0 & H0 & H). apply (rtc_inv s0); [|done]. unfold inv.
  rewrite owners_initial by done. apply H0.
Qed.

(** C16: In every interleaving of inc(), dec() and get_value() by any number of threads
    the value of the atomic counter is the number of references the threads own. *)
Theorem count_is_owners s : reachable s → count s = Z.of_nat (owners s).
Proof. apply inv_reachable. Qed.

(** A counter that has reached zero stays there: nobody owns a reference, and [inc()] throws. *)
Lemma zero_step s s' : inv s → count s = 0 → step s s' → count s' = 0.
Proof.
  unfold inv. intros I H0 H. inversion H; subst; cbn; try done; try lia.
  match goal with Hi : threads _ !! _ = Some _ |- _ =>
    pose proof (msum_lookup_le (λ _ t, th_refs t) _ _ _ Hi) end. unfold owners in I. cbn in *. lia.
Qed.

(** [dec()] answers zero to one thread only: the step that takes the last reference. *)
Definition last_dec (s s' : state) : Prop :=
  step s s' ∧ ∃ i t, threads s' !! i = Some t ∧ threads s' !! i ≠ threads s !! i ∧
    th_pc t = R_dec 0.

(** What a thread sees when [dec()] answers it zero. *)
Lemma last_dec_counts s s' : last_dec s s' → count s = 1 ∧ count s' = 0.
Proof.
  intros [H (k & x & Hk & Hn & Hx)]. inversion H; subst; cbn in *.
  all: match goal with Hi0 : threads _ !! ?i0 = Some _ |- _ =>
         destruct (decide (i0 = k)) as [->|]; [rewrite lookup_insert_eq in Hk; simplify_eq/=|
           by rewrite lookup_insert_ne in Hn by done] end.
  lia.
Qed.

Lemma zero_steps s s' : inv s → count s = 0 → rtc step s s' → inv s' ∧ count s' = 0.
Proof.
  intros I H0. apply (rtc_invariant (λ s, inv s ∧ count s = 0)); [|done].
  intros v v' [Iv Hv] H. split; [by eapply inv_step|by eapply zero_step].
Qed.


(** [get_value()] synchronises: a thread that reads the counter has seen the work of every
    thread before its [dec()]. *)
Theorem get_value_synchronised s s' i t j :
  step s s' → threads s' !! i = Some t → threads s' !! i ≠ threads s !! i →
  (∃ v, th_pc t = R_value v) → j ∈ released s → j ∈ th_seen t.
Proof.
  intros H Hi Hn [v Hv] Hj. inversion H; subst; cbn in *.
  all: match goal with Hi0 : threads _ !! ?i0 = Some _ |- _ =>
         destruct (decide (i0 = i)) as [->|]; [rewrite lookup_insert_eq in Hi; simplify_eq/=|
           by rewrite lookup_insert_ne in Hn by done] end.
  set_solver.
Qed.

(** [dec()] only releases: the thread that takes the counter to zero, and destroys the object,
    is not synchronised with the thread that gave up its reference before. *)
Definition two_threads : state :=
  {| count := 1; released := ∅;
     threads := {[ 0%nat := {| th_pc := Idle; th_refs := 1; th_seen := {[0%nat]} |};
                   1%nat := {| th_pc := Idle; th_refs := 0; th_seen := {[1%nat]} |} ]} |}.

(** The second thread copies the reference, the first one drops its own, and then the second
    one does. *)
Definition first (p : pc) (n : nat) : thread := {| th_pc := p; th_refs := n; th_seen := {[0%nat]} |}.
Definition second (p : pc) (n : nat) : thread := {| th_pc := p; th_refs := n; th_seen := {[1%nat]} |}.
Definition copied : state :=
  put 1 (second (R_inc 2) 1) 2 ∅ (put 1 (second (Inc 1) 0) 1 ∅ two_threads).
Definition dropped : state := put 0 (first (R_dec 1) 0) 1 (∅ ∪ {[0%nat]}) copied.
Definition destroyed : state :=
  put 1 (second (R_dec 0) 0) 0 (∅ ∪ {[0%nat]} ∪ {[1%nat]}) dropped.

Lemma two_threads_initial : initial two_threads.
Proof.
  split; [done|]. split; [done|]. split.
  - exists 0%nat. split; [done|]. intros j t Hj. unfold two_threads in Hj. cbn [threads] in Hj.
    by apply lookup_insert_Some in Hj as [[<- <-]|[Hj [<- <-]%lookup_singleton_Some]].
  - intros j t Hj. unfold two_threads in Hj. cbn [threads] in Hj.
    apply lookup_insert_Some in Hj as [[<- <-]|[_ [<- <-]%lookup_singleton_Some]];
      cbn; set_solver.
Qed.

Lemma dropped_reachable : reachable dropped.
Proof.
  exists two_threads. split; [apply two_threads_initial|].
  eapply rtc_l; [by eapply (inc_load two_threads 1 (second Idle 0))|].
  eapply rtc_l; [by eapply (inc_cas _ 1 (second (Inc 1) 0) 1)|].
  eapply rtc_l; [by eapply (dec copied 0 (first Idle 1) 0)|]. apply rtc_refl.
Qed.

Lemma destroyed_last : last_dec dropped destroyed.
Proof.
  split; [by eapply (dec dropped 1 (second (R_inc 2) 1) 0)|].
  exists 1%nat, (second (R_dec 0) 0). split; [done|]. by split.
Qed.

(** dec() only releases: there is an execution in which the thread that takes the
    counter to zero, and destroys the object, is not synchronised with the thread that
    dropped its reference before. *)
Theorem last_dec_unsynchronised : ∃ s s' t,
  reachable s ∧ last_dec s s' ∧ threads s' !! 1%nat = Some t ∧ th_pc t = R_dec 0 ∧
  0%nat ∈ released s' ∧ 0%nat ∉ th_seen t.
Proof.
  exists dropped, destroyed, (second (R_dec 0) 0).
  split; [apply dropped_reachable|]. split; [apply destroyed_last|].
  split; [done|split; [done|set_solver]].
Qed.
End atomic_count.

(** ** [spinlock] *)

Module spinlock.

(** A thread is outside, in [lock()] (it has found the flag set [n] times), or inside. *)
Inductive pc := Outside | Trying (n : nat) | Inside.
#[global] Instance pc_eq_dec : EqDecision pc.
Proof. solve_decision. Defined.

Record state := { flag : bool; threads : gmap nat pc }.

Definition put (i : nat) (p : pc) (f : bool) (s : state) : state :=
  {| flag := f; threads := <[i := p]> (threads s) |}.

Inductive step (s : state) : state → Prop :=
| enter i : threads s !! i = Some Outside → step s (put i (Trying 0) (flag s) s)
(** [while (flag.test_and_set(_o));] *)
| acquired i n : threads s !! i = Some (Trying n) → flag s = false → step s (put i Inside true s)
| spin i n : threads s !! i = Some (Trying n) → flag s = true →
    step s (put i (Trying (S n)) true s)
(** [flag.clear(_o)], by the thread that holds the lock *)
| unlock i : threads s !! i = Some Inside → step s (put i Outside false s).

Definition initial (s : state) : Prop :=
  flag s = false ∧ ∀ i p, threads s !! i = Some p → p = Outside.
Definition reachable (s : state) : Prop := ∃ s0, initial s0 ∧ rtc step s0 s.

(** The flag is set exactly while a thread is inside, and then only one is. *)
Definition inv (s : state) : Prop :=
  (flag s = false → ∀ i, threads s !! i ≠ Some Inside) ∧
  (flag s = true → ∃ i, threads s !! i = Some Inside ∧
    ∀ j, threads s !! j = Some Inside → j = i).

Lemma lock_inv_initial s : initial s → inv s.
Proof. intros [Hf H]. split; rewrite Hf; [|done]. intros _ i Hi. by apply H in Hi. Qed.

Lemma lock_inv_step s s' : inv s → step s s' → inv s'.
Proof.
  intros [I0 I1] H. inversion H as [i Hi|i n Hi Hf|i n Hi Hf|i Hi]; subst; split; cbn.
  - intros Hf k. destruct (decide (i = k)) as [->|]; [by rewrite lookup_insert_eq|].
    rewrite lookup_insert_ne by done. by apply I0.
  - intros (k & Hk & Hu)%I1. exists k.
    assert (i ≠ k) by congruence. rewrite lookup_insert_ne by done. split; [done|].
    intros j. destruct (decide (i = j)) as [->|]; [by rewrite lookup_insert_eq|].
    rewrite lookup_insert_ne by done. apply Hu.
  - done.
  - intros _. exists i. rewrite lookup_insert_eq. split; [done|]. intros j.
    destruct (decide (i = j)) as [->|]; [done|]. rewrite lookup_insert_ne by done.
    intros Hj. by destruct (I0 Hf j).
  - done.
  - intros _. destruct (I1 Hf) as (k & Hk & Hu). exists k.
    assert (i ≠ k) by congruence. rewrite lookup_insert_ne by done. split; [done|].
    intros j. destruct (decide (i = j)) as [->|]; [by rewrite lookup_insert_eq|].
    rewrite lookup_insert_ne by done. apply Hu.
  - intros _ k. destruct (decide (i = k)) as [->|]; [by rewrite lookup_insert_eq|].
    rewrite lookup_insert_ne by done. intros Hk. destruct (flag s) eqn:Hf.
    + destruct (I1 eq_refl) as (m & _ & Hu). rewrite (Hu i Hi), (Hu k Hk) in *. done.
    + by apply (I0 eq_refl k).
  - done.
Qed.

Lemma lock_inv_reachable s : reachable s → inv s.
Proof.
  intros (s0 & H0 & H). apply lock_inv_initial in H0. induction H; [done|]. eauto using lock_inv_step.
Qed.

(** Two threads, the first of which has the lock and the second waits for it. *)
Definition idle : state := {| flag := false; threads := {[ 0%nat := Outside; 1%nat := Outside ]} |}.
Definition contended : state :=
  put 1 (Trying 0) true (put 0 Inside true (put 0 (Trying 0) false idle)).

Lemma contended_reachable : reachable contended.
Proof.
  exists idle. split.
  - split; [done|]. intros i p Hp. unfold idle in Hp. cbn [threads] in Hp.
    by apply lookup_insert_Some in Hp as [[_ <-]|[_ [_ <-]%lookup_singleton_Some]].
  - eapply rtc_l; [by apply (enter idle 0)|].
    eapply rtc_l; [by eapply (acquired _ 0 0)|].
    eapply rtc_l; [by apply (enter _ 1)|]. apply rtc_refl.
Qed.

(** C31: Two threads are never between lock() and unlock() of a spinlock at the same
    time. *)
Theorem mutual_exclusion s i j :
  reachable s → threads s !! i = Some Inside → threads s !! j = Some Inside → i = j.
Proof.
  intros [I0 I1]%lock_inv_reachable Hi Hj. destruct (flag s) eqn:Hf.
  - destruct (I1 eq_refl) as (k & _ & Hu). by rewrite (Hu i Hi), (Hu j Hj).
  - by destruct (I0 eq_refl i).
Qed.

(** C32: The spinlock is never lost: a thread that waits in lock() either waits for
    another one that is inside, or its next attempt succeeds. *)
Theorem lock_progress s i n :
  reachable s → threads s !! i = Some (Trying n) →
  (∃ j, j ≠ i ∧ threads s !! j = Some Inside) ∨ step s (put i Inside true s).
Proof.
  intros [I0 I1]%lock_inv_reachable Hi. destruct (flag s) eqn:Hf.
  - left. destruct (I1 eq_refl) as (k & Hk & _). exists k. split; [congruence|done].
  - right. by eapply acquired.
Qed.
End spinlock.
