(* ===== verification/Endian.v ===== *)
(** * Byte order conversion

    src/include/uvcc/endian.hpp on a little-endian host: the conversions of the C library
    ([htobe16] and the like), and the ones the file itself composes of [htonl] on Windows. *)

From Stdlib Require Import ZArith Lia.
From stdpp Require Import base list.
From S2P Require Import Prelude.

Local Open Scope Z_scope.

(** The bytes of an [n]-byte unsigned integer in the memory of a little-endian host. *)
Fixpoint le_bytes (n : nat) (x : Z) : list Z :=
  match n with O => [] | S n' => x mod 256 :: le_bytes n' (x / 256) end.
Fixpoint from_le (l : list Z) : Z :=
  match l with [] => 0 | b :: l' => b + 256 * from_le l' end.

(** [htobe16(x)], ...: the integer whose memory holds the bytes of [x] in network order. *)
Definition htobe (n : nat) (x : Z) : Z := from_le (reverse (le_bytes n x)).

(** The cast [(uintN_t)(x)] *)
Definition cast (n : nat) (x : Z) : Z := x mod 2^(8 * Z.of_nat n).

Definition hton16 (i : Z) : Z := htobe 2 (cast 2 i).
Definition hton32 (i : Z) : Z := htobe 4 (cast 4 i).
Definition hton64 (i : Z) : Z := htobe 8 (cast 8 i).
Definition ntoh16 (i : Z) : Z := htobe 2 (cast 2 i).
Definition ntoh32 (i : Z) : Z := htobe 4 (cast 4 i).
Definition ntoh64 (i : Z) : Z := htobe 8 (cast 8 i).

(** [HOST_to_NET_64(x)] and [NET_to_HOST_64(x)] for a little-endian Windows:
    [(uint64_t)::htonl((uint32_t)((uint64_t)(x) >> 32)) | ((uint64_t)::htonl((uint32_t)(x)) << 32)] *)
Definition htonl (x : Z) : Z := htobe 4 x.
Definition HOST_to_NET_64 (x : Z) : Z :=
  Z.lor (htonl (cast 4 (Z.shiftr (cast 8 x) 32)))
        (cast 8 (Z.shiftl (htonl (cast 4 x)) 32)).

(** ** Bytes and integers *)

Definition is_bytes (l : list Z) : Prop := Forall (λ b, 0 ≤ b < 256) l.

Lemma length_le_bytes n x : length (le_bytes n x) = n.
Proof. revert x. induction n; intros x; cbn; auto. Qed.

Lemma le_bytes_is_bytes n x : is_bytes (le_bytes n x).
Proof.
  revert x. unfold is_bytes. induction n; intros x; cbn; [done|]. constructor; [|done].
  apply Z.mod_pos_bound. lia.
Qed.

Lemma le_bytes_from_le l : is_bytes l → le_bytes (length l) (from_le l) = l.
Proof.
  induction 1 as [|b l Hb Hl IH]; [done|]. cbn. f_equal.
  - rewrite Z.mul_comm, Z.mod_add by lia. by apply Z.mod_small.
  - rewrite Z.mul_comm, Z.div_add, Z.div_small, Z.add_0_l by lia. done.
Qed.

Lemma from_le_bound l : is_bytes l → 0 ≤ from_le l < 2^(8 * Z.of_nat (length l)).
Proof.
  induction 1 as [|b l Hb Hl IH]; [done|]. cbn [length from_le].
  replace (8 * Z.of_nat (S (length l))) with (8 + 8 * Z.of_nat (length l)) by lia.
  rewrite Z.pow_add_r by lia. change (2^8) with 256. nia.
Qed.

Lemma from_le_bytes n x : from_le (le_bytes n x) = cast n x.
Proof.
  unfold cast. revert x. induction n as [|n IH]; intros x; cbn [le_bytes from_le].
  - cbn. by rewrite Z.mod_1_r.
  - rewrite IH. replace (8 * Z.of_nat (S n)) with (8 + 8 * Z.of_nat n) by lia.
    rewrite Z.pow_add_r by lia. change (2^8) with 256.
    rewrite Z.rem_mul_r by (lia || apply Z.pow_nonzero; lia). lia.
Qed.

Lemma from_le_app l1 l2 : from_le (l1 ++ l2) = from_le l1 + 2^(8 * Z.of_nat (length l1)) * from_le l2.
Proof.
  induction l1 as [|b l IH]; cbn [app from_le length]; [rewrite Z.mul_1_l; done|].
  rewrite IH. replace (8 * Z.of_nat (S (length l))) with (8 + 8 * Z.of_nat (length l)) by lia.
  rewrite Z.pow_add_r by lia. change (2^8) with 256. lia.
Qed.

Lemma le_bytes_add n m x :
  le_bytes (n + m) x = le_bytes n x ++ le_bytes m (x / 2^(8 * Z.of_nat n)).
Proof.
  revert x. induction n as [|n IH]; intros x; cbn [le_bytes app Nat.add].
  - by rewrite Z.div_1_r.
  - f_equal. rewrite IH. f_equal. f_equal. rewrite Z.div_div by (lia || apply Z.pow_pos_nonneg; lia).
    f_equal. replace (8 * Z.of_nat (S n)) with (8 + 8 * Z.of_nat n) by lia.
    by rewrite Z.pow_add_r by lia.
Qed.

Lemma is_bytes_reverse l : is_bytes l → is_bytes (reverse l).
Proof. apply Forall_reverse. Qed.

(** Network order: the memory of the result holds the bytes of the argument reversed. *)
Lemma htobe_bytes n x : le_bytes n (htobe n x) = reverse (le_bytes n x).
Proof.
  unfold htobe. rewrite <-(length_le_bytes n x) at 1. rewrite <-length_reverse.
  apply le_bytes_from_le, is_bytes_reverse, le_bytes_is_bytes.
Qed.

Lemma htobe_bound n x : 0 ≤ htobe n x < 2^(8 * Z.of_nat n).
Proof.
  pose proof (from_le_bound (reverse (le_bytes n x))) as H.
  rewrite length_reverse, length_le_bytes in H. apply H, is_bytes_reverse, le_bytes_is_bytes.
Qed.

Lemma cast_id n x : 0 ≤ x < 2^(8 * Z.of_nat n) → cast n x = x.
Proof. apply Z.mod_small. Qed.

Lemma htobe_involutive n x : htobe n (htobe n x) = cast n x.
Proof. unfold htobe at 1. by rewrite htobe_bytes, reverse_involutive, from_le_bytes. Qed.

(** Conversion to network order and back gives the argument as an unsigned integer
    of the width, and in between its bytes are in network order. *)
Theorem hton_ntoh i :
  ntoh16 (hton16 i) = i mod 2^16 ∧ ntoh32 (hton32 i) = i mod 2^32 ∧
  ntoh64 (hton64 i) = i mod 2^64 ∧
  le_bytes 2 (hton16 i) = reverse (le_bytes 2 (i mod 2^16)) ∧
  le_bytes 4 (hton32 i) = reverse (le_bytes 4 (i mod 2^32)) ∧
  le_bytes 8 (hton64 i) = reverse (le_bytes 8 (i mod 2^64)).
Proof.
  assert (∀ n, htobe n (cast n (htobe n (cast n i))) = cast n i) as H.
  { intros n. rewrite (cast_id n (htobe _ _)) by apply htobe_bound.
    rewrite htobe_involutive. unfold cast. apply Z.mod_mod, Z.pow_nonzero; lia. }
  split_and!; try apply H; apply htobe_bytes.
Qed.

Lemma land_shiftl_low a b n : 0 ≤ n → 0 ≤ b < 2^n → Z.land (Z.shiftl a n) b = 0.
Proof.
  intros Hn Hb. apply Z.bits_inj'. intros k Hk. rewrite Z.land_spec, Z.bits_0.
  destruct (Z.lt_ge_cases k n).
  - by rewrite Z.shiftl_spec_low.
  - rewrite <-(Z.mod_small b (2^n)) by done. rewrite Z.mod_pow2_bits_high by lia.
    apply andb_false_r.
Qed.

(** C34: The 64-bit conversion the library composes of two 32-bit ones is the 64-bit
    conversion of the C library. *)
Theorem HOST_to_NET_64_ok x : HOST_to_NET_64 x = hton64 x.
Proof.
  unfold HOST_to_NET_64, hton64, htonl. set (y := cast 8 x).
  assert (0 ≤ y < 2^64) as Hy by (apply Z.mod_pos_bound; lia).
  assert (cast 4 x = cast 4 y) as ->.
  { unfold y, cast. change (8 * Z.of_nat 4) with 32. change (8 * Z.of_nat 8) with 64.
    replace (2^64) with (2^32 * 2^32) by done. rewrite Z.rem_mul_r by lia.
    rewrite (Z.mul_comm (2^32)), Z.mod_add, Z.mod_mod by lia. done. }
  rewrite Z.shiftr_div_pow2 by lia.
  assert (Hhi : ∀ n z, htobe n (cast n z) = htobe n z).
  { intros n z. unfold htobe. f_equal. f_equal. rewrite <-from_le_bytes.
    rewrite <-(length_le_bytes n z) at 1. apply le_bytes_from_le, le_bytes_is_bytes. }
  rewrite !Hhi. set (hi := htobe 4 (y / 2^32)). set (lo := htobe 4 y).
  assert (0 ≤ hi < 2^32) as Hh by apply htobe_bound.
  assert (0 ≤ lo < 2^32) as Hl by apply htobe_bound.
  assert (cast 8 (Z.shiftl lo 32) = lo * 2^32) as ->.
  { rewrite Z.shiftl_mul_pow2 by lia. apply cast_id. change (2^(8 * Z.of_nat 8)) with (2^32 * 2^32).
    nia. }
  rewrite Z.lor_comm, <-Z.shiftl_mul_pow2 by lia. 
  assert (Z.lor (Z.shiftl lo 32) hi = hi + 2^32 * lo) as ->.
  { rewrite <-Z.lxor_lor, <-Z.add_nocarry_lxor by (by apply land_shiftl_low).
    rewrite Z.shiftl_mul_pow2 by lia. lia. }
  unfold htobe. change 8%nat with (4 + 4)%nat. rewrite le_bytes_add, reverse_app, from_le_app.
  rewrite length_reverse, length_le_bytes. done.
Qed.
