(* ===== verification/Construct.v ===== *)
(** * Construction of handles

    The constructors of the handle classes, over the loop they work on: [tcp], [pipe], [tty],
    [udp] (handle-stream.hpp, handle-udp.hpp), [file] (handle-fs.hpp), [process], and those of
    handle-misc.hpp. Whatever libuv answers, the new handle has one reference, its loop is
    booked only when libuv has initialised it, and nothing else changes hands. *)

From Stdlib Require Import ZArith Lia.
From stdpp Require Import base gmap list strings option.
From S2P Require Import Prelude World Objects Ledger Wp Refs Release Rules HRules.
From S2P Require Import HandleMisc Handle Io Stream Process.

Local Open Scope Z_scope.

(** ** The constructors *)

Inductive handle_new :=
| C_watcher (k : watcher) (rest : list uvarg) | C_timer (repeat_interval : Z)
| C_async | C_signal (signum : Z) | C_fs_event (flags : Z)
| C_tcp (flags : Z) | C_tcp_open (socket : Z) (set_blocking : bool)
| C_pipe (ipc : bool) | C_pipe_bound (name : option string) (ipc : bool)
| C_pipe_open (fd : Z) (ipc set_blocking : bool)
| C_tty (fd : Z) (readable set_blocking : bool)
| C_udp (flags : Z) | C_udp_open (socket : Z)
| C_file (fd : Z) (path : option string)
| C_file_sync (path : option string) (flags mode : Z)
| C_file_async (path : option string) (flags mode : Z) (c : cb)
| C_process.

Section construct.
Context `{E : Env} `{EO : !EnvOk}.

Definition handle_new_run (l : loc) (c : handle_new) : M loc :=
  match c with
  | C_watcher k rest => watchers.new k l rest
  | C_timer repeat_interval => timer.new l repeat_interval
  | C_async => async.new l
  | C_signal signum => signal.new l signum
  | C_fs_event flags => fs_event.new l flags
  | C_tcp flags => tcp.new l flags
  | C_tcp_open socket set_blocking => tcp.open l socket set_blocking
  | C_pipe ipc => pipe.new l ipc
  | C_pipe_bound name ipc => pipe.bound l name ipc
  | C_pipe_open fd ipc set_blocking => pipe.open l fd ipc set_blocking
  | C_tty fd readable set_blocking => tty.new l fd readable set_blocking
  | C_udp flags => udp.new l flags
  | C_udp_open socket => udp.open l socket
  | C_file fd path => file.new_fd l fd path
  | C_file_sync path flags mode => file.open_sync l path flags mode
  | C_file_async path flags mode c => file.open_async l path flags mode c
  | C_process => process.new l
  end.

Lemma fresh_same h p F X w0 w w' :
  wsame w w' → fresh_handle h p F X w0 w → fresh_handle h p F X w0 w'.
Proof.
  intros S [I HP HL HV HA]. pose proof (wsame_sim _ _ S) as [Sw _]. split.
  - by rewrite <-S.
  - by rewrite <-(sim_hprops _ _ _ Sw).
  - by rewrite <-(sim_hloop _ _ _ Sw).
  - by rewrite <-(sim_vars _ _ Sw).
  - by rewrite <-(sim_armed _ _ Sw).
Qed.

(** [book_loop()] of a handle that libuv has initialised. *)
Lemma wp_book_fresh h l p F X (Q : unit → world → Prop) w0 w :
  fresh_handle h p F X w0 w → live F w (TL l) → on_loop h l w →
  (∀ w', Inv (TH h :: F) X w' → w_vars w' = w_vars w0 → Q tt w') → wp (book_loop h) Q w.
Proof.
  intros [I HP HL HV HA] L HU HQ. apply fmap_Some in HP as (i & Hi & HPi).
  unfold on_loop in HU. rewrite Hi in HL, HU. cbn in HL, HU.
  eapply (wp_book_loop h i l); [exact I|eauto with ledger| |done|congruence|congruence|].
  - unfold live in *. cbn. lia.
  - intros w' I' HV' _ _ _ _ _. apply HQ; [done|congruence].
Qed.

Lemma wp_timer_new l repeat_interval F X (Q : loc → world → Prop) w :
  Inv F X w → live F w (TL l) →
  (∀ h w', Inv (TH h :: F) X w' → w_vars w' = w_vars w → Q h w') →
  wp (timer.new l repeat_interval) Q w.
Proof.
  intros I L HQ. unfold timer.new. wp_struct. eapply wp_create_fresh; [done..|].
  intros h w1 Fh L1. wp_struct. eapply wp_init_fresh; [done..|].
  intros z w2 Fh2 L2 HU. wp_struct. unfold handle_uv_status.
  pose proof (fh_props _ _ _ _ _ _ Fh2) as (i & Hi & _)%fmap_Some. wp_structs.
  set (w3 := upd_handles _ w2). assert (wsame w2 w3) as S3 by (by eapply wsame_handle).
  pose proof (fresh_same _ _ _ _ _ _ _ S3 Fh2) as Fh3. rewrite (wsame_sim _ _ S3) in L2.
  destruct (Z.ltb_spec z 0) as [Hz|Hz]; wp_structs.
  { apply HQ; [apply Fh3|apply Fh3]. }
  unfold uv_call, uv_call_out. wp_structs. apply wp_ret.
  set (w4 := upd_log _ (apply_uv_writes _ w3)).
  assert (wsame w3 w4) as S4 by (etrans; [apply wsame_uv_writes|apply wsame_log]).
  eapply wp_book_fresh; [by eapply fresh_same|by rewrite <-(wsame_sim _ _ S4)| |].
  - specialize (HU Hz). unfold on_loop in *. unfold w4. cbn.
    rewrite env_loop_kept by done. cbn. rewrite lookup_insert_eq. cbn. by rewrite Hi in HU.
  - intros w5 I5 HV5. by apply wp_ret, HQ.
Qed.

(** The other handles: created, initialised, and one of their properties set. *)
Lemma wp_init_new ifc p f l rest between F X (Q : loc → world → Prop) w :
  Inv F X w → live F w (TL l) → is_init f = true →
  props_self p = false → props_endpoints p = [] →
  ((∀ h, between h = mret tt) ∨ rest = [] ∧ ∃ g, (∀ h, between h = mod_props h g) ∧
    props_self (g p) = props_self p ∧ same_endpoints p (g p) ∧
    ∀ h w, reads_kept h p (g p) w) →
  (∀ h w', Inv (TH h :: F) X w' → w_vars w' = w_vars w → Q h w') →
  wp (h ← handle_create ifc p; handle_init h f l rest (between h);; mret h) Q w.
Proof.
  intros I L Hf Hs He Hb HQ. wp_struct. eapply wp_create_fresh; [done..|].
  intros h w1 Fh L1. wp_struct. destruct Hb as [Hb|(-> & g & Hb & H1 & H2 & H3)]; rewrite Hb.
  - eapply wp_handle_init; [done..|]. intros w2 I2 _ HV _. by apply wp_ret, HQ.
  - eapply wp_handle_init_set; [done..|]. intros w2 I2 _ HV _. by apply wp_ret, HQ.
Qed.

(** What is asked of the rest of a constructor, once the loop of [h] is booked. *)
Definition keeps (m : M unit) (h : loc) : Prop := ∀ F X w,
  Inv (TH h :: F) X w → wp m (λ _ w', Inv (TH h :: F) X w' ∧ w_vars w' = w_vars w) w.

Lemma keeps_mret h : keeps (mret tt) h.
Proof. intros F X w I. by apply wp_ret. Qed.

Lemma keeps_call h f rest (k : Z → M unit) :
  (∀ z, keeps (k z) h) → keeps (z ← handle_call h f rest; k z) h.
Proof.
  intros Hk F X w I. wp_struct.
  eapply wp_handle_call; [exact I|eauto with ledger|]. intros z w1 S.
  rewrite S in I. eapply wp_mono; [by apply Hk|]. intros _ w2 [I2 HV]. split; [done|].
  by rewrite HV, (sim_vars _ _ (proj1 (wsame_sim _ _ S))).
Qed.

Lemma keeps_blocking h b : keeps (when b (_ ← stream.set_blocking h b; mret tt)) h.
Proof.
  destruct b; [|apply keeps_mret]. apply keeps_call. intros z. apply keeps_mret.
Qed.

Lemma keeps_opened h f rest b :
  keeps (z ← handle_call h f rest;
    if z <? 0 then mret tt else when b (_ ← stream.set_blocking h b; mret tt)) h.
Proof. apply keeps_call. intros z. destruct (z <? 0); [apply keeps_mret|apply keeps_blocking]. Qed.

(** The status of a handle under construction. *)
Lemma wp_fresh_status h l z p F X (Q : Z → world → Prop) w0 w :
  fresh_handle h p F X w0 w → live F w (TL l) → (0 ≤ z → on_loop h l w) →
  (∀ w', fresh_handle h p F X w0 w' → live F w' (TL l) → (0 ≤ z → on_loop h l w') → Q z w') →
  wp (handle_uv_status h z) Q w.
Proof.
  intros Fh L HU HQ. unfold handle_uv_status.
  pose proof (fh_props _ _ _ _ _ _ Fh) as (i & Hi & _)%fmap_Some. wp_structs.
  set (w3 := upd_handles _ w). assert (wsame w w3) as S3 by (by eapply wsame_handle).
  apply wp_ret, HQ.
  - by eapply fresh_same.
  - by rewrite <-(wsame_sim _ _ S3).
  - intros Hz. specialize (HU Hz). unfold on_loop, w3 in *. cbn. rewrite lookup_insert_eq.
    by rewrite Hi in HU.
Qed.

(** A constructor that goes on after the loop is booked. *)
Lemma wp_init_then ifc p f l rest body F X w :
  Inv F X w → live F w (TL l) → is_init f = true →
  props_self p = false → props_endpoints p = [] → (∀ h, keeps (body h) h) →
  wp (h ← handle_create ifc p;
      uv_ret ← uv_call f (V_loop (Some l) :: V_handle (Some h) :: rest);
      z ← handle_uv_status h uv_ret;
      (if z <? 0 then mret tt else book_loop h;; body h);; mret h)
    (λ h w', Inv (TH h :: F) X w' ∧ w_vars w' = w_vars w) w.
Proof.
  intros I L Hf Hs He Hb. wp_struct. eapply wp_create_fresh; [done..|].
  intros h w1 Fh L1. wp_struct. eapply wp_init_fresh; [done..|].
  intros z w2 Fh2 L2 HU. wp_struct. eapply wp_fresh_status; [done..|].
  intros w3 Fh3 L3 HU3. wp_struct. destruct (Z.ltb_spec z 0) as [Hz|Hz].
  { apply wp_ret, wp_ret. split; apply Fh3. }
  wp_struct. eapply wp_book_fresh; [done|done|by apply HU3|]. intros w4 I4 HV4.
  eapply wp_mono; [by apply Hb|]. intros _ w5 [I5 HV5]. apply wp_ret. split; congruence.
Qed.
(** The pipe constructors go on from [pipe(loop&, bool)]. *)
Lemma wp_new_then l ipc (body : loc → M unit) F X w :
  Inv F X w → live F w (TL l) → (∀ h, keeps (body h) h) →
  wp (h ← pipe.new l ipc; e ← uv_status h; (if e <? 0 then mret tt else body h);; mret h)
    (λ h w', Inv (TH h :: F) X w' ∧ w_vars w' = w_vars w) w.
Proof.
  intros I L Hb. wp_struct. unfold pipe.new, stream.create.
  eapply (wp_init_new _ _ f_pipe_init l _ (λ _, mret tt)); [done..|by left; auto|].
  intros h w1 I1 HV. unfold uv_status.
  destruct (live_handle _ _ _ h I1) as (i & Hi); [eauto with ledger|].
  wp_structs. destruct (_ <? 0); [by do 2 apply wp_ret|].
  eapply wp_mono; [by apply Hb|]. intros _ w2 [I2 HV2]. apply wp_ret. split; congruence.
Qed.

(** Constructors that fill in the structure themselves. *)
Lemma wp_set_loop h l p f F X (Q : unit → world → Prop) w0 w :
  fresh_handle h p F X w0 w → live F w (TL l) → (∀ u, uh_loop (f u) = Some l) →
  (∀ w', fresh_handle h p F X w0 w' → live F w' (TL l) → on_loop h l w' → Q tt w') →
  wp (mod_h h (set_h_uv f)) Q w.
Proof.
  intros Fh L Hf HQ. pose proof (fh_props _ _ _ _ _ _ Fh) as (i & Hi & _)%fmap_Some.
  wp_structs. set (w1 := upd_handles _ w). assert (wsame w w1) as S by (by eapply wsame_handle).
  apply HQ; [by eapply fresh_same|by rewrite <-(wsame_sim _ _ S)|].
  unfold on_loop, w1. cbn. rewrite lookup_insert_eq. cbn. by rewrite Hf.
Qed.

Lemma wp_file_new l fd path F X w :
  Inv F X w → live F w (TL l) →
  wp (file.new_fd l fd path) (λ h w', Inv (TH h :: F) X w' ∧ w_vars w' = w_vars w) w.
Proof.
  intros I L. unfold file.new_fd. wp_struct. eapply wp_create_fresh; [done..|].
  intros h w1 Fh L1. wp_struct. eapply wp_set_loop; [done..|]. intros w2 Fh2 L2 HU2.
  wp_struct. destruct (fd <? 0); cbn [when].
  - eapply wp_fresh_mod; [done..|by apply reads_kept_same|]. intros w3 Fh3 HO HL. wp_struct.
    eapply wp_book_fresh; [done|by eapply owned_eq_live|auto|]. intros. by apply wp_ret.
  - apply wp_ret. wp_struct. eapply wp_book_fresh; [done..|]. intros. by apply wp_ret.
Qed.

Lemma wp_process_new l F X w :
  Inv F X w → live F w (TL l) →
  wp (process.new l) (λ h w', Inv (TH h :: F) X w' ∧ w_vars w' = w_vars w) w.
Proof.
  intros I L. unfold process.new. wp_struct. eapply wp_create_fresh; [done..|].
  intros h w1 Fh L1. wp_struct. eapply wp_set_loop; [done..|]. intros w2 Fh2 L2 HU2.
  wp_struct. eapply wp_book_fresh; [done..|]. intros. by apply wp_ret.
Qed.

Lemma wp_file_open_sync l path flags mode F X w :
  Inv F X w → live F w (TL l) →
  wp (file.open_sync l path flags mode)
    (λ h w', Inv (TH h :: F) X w' ∧ w_vars w' = w_vars w) w.
Proof.
  intros I L. unfold file.open_sync. wp_struct. eapply wp_create_fresh; [done..|].
  intros h w1 Fh L1. wp_struct. eapply wp_init_fresh; [done..|]. intros z w2 Fh2 L2 HU2.
  wp_struct. eapply wp_fresh_status; [done..|]. intros w3 Fh3 L3 HU3. wp_struct.
  destruct (Z.leb_spec 0 z); cbn [when].
  - eapply wp_book_fresh; [done..|auto|]. intros. by apply wp_ret.
  - do 2 apply wp_ret. split; apply Fh3.
Qed.
(** The asynchronous open keeps the handle alive until [open_cb]. *)
Lemma wp_file_open_async l path flags mode c F X w :
  Inv F X w → live F w (TL l) →
  wp (file.open_async l path flags mode c)
    (λ h w', Inv (TH h :: F) X w' ∧ w_vars w' = w_vars w) w.
Proof.
  intros I L. destruct c as [c|]; [|by apply wp_file_open_sync].
  unfold file.open_async. wp_struct. eapply wp_create_fresh; [done..|].
  intros h w1 Fh L1. wp_struct.
  eapply (wp_tok_ref (TH h)); [apply Fh|eauto with ledger|]. intros w2 S2 I2.
  assert (fresh_handle h (P_file io_props_init file_props_init) (TH h :: F) X w w2) as Fh2.
  { destruct Fh as [_ HP HL HV HA], S2 as [S2 _]. split; [done|..].
    - by rewrite <-(sim_hprops _ _ _ S2).
    - by rewrite <-(sim_hloop _ _ _ S2).
    - by rewrite <-(sim_vars _ _ S2).
    - by rewrite <-(sim_armed _ _ S2). }
  assert (live (TH h :: F) w2 (TL l)) as L2.
  { rewrite <-S2. unfold live in *. cbn. lia. }
  wp_struct. eapply wp_fresh_mod; [done..|by apply reads_kept_same|]. intros w3 Fh3 HO _.
  pose proof (owned_eq_live _ _ _ _ HO L2) as L3. wp_struct.
  eapply (wp_h_status h 0); [apply Fh3|eauto with ledger|]. intros w4 S4.
  pose proof (fresh_same _ _ _ _ _ _ _ S4 Fh3) as Fh4. rewrite (wsame_sim _ _ S4) in L3.
  wp_struct. unfold uv_submit. wp_struct. eapply wp_init_fresh; [done..|].
  intros z w5 Fh5 L5 HU5. wp_struct. destruct (Z.leb_spec 0 z); cbn [when].
  - apply wp_modify, wp_ret. wp_struct. rewrite (proj2 (Z.leb_le 0 z)) by done.
    destruct Fh5 as [I5 HP5 HL5 HV5 HA5]. apply fmap_Some in HP5 as (i & Hi & HPi).
    specialize (HU5 ltac:(done)). unfold on_loop in HU5. rewrite Hi in HL5, HU5. cbn in HL5, HU5.
    eapply (wp_book_loop h i l (TH h :: F)); [by apply Inv_arm| | |done|congruence|congruence|].
    + apply live_frame. by left.
    + unfold live, owned in *. cbn in *. lia.
    + intros w6 I6 HV6 _ _ _ _ _. apply wp_ret. cbn in HV6. split; [done|congruence].
  - apply wp_ret. wp_struct. rewrite (proj2 (Z.leb_gt 0 z)) by done. wp_struct.
    wp_struct. eapply (wp_h_status h z (TH h :: TH h :: F) X); [apply Fh5|eauto with ledger|]. intros w6 S6.
    pose proof (fresh_same _ _ _ _ _ _ _ S6 Fh5) as [I6 HP6 HL6 HV6 HA6].
    eapply (wp_tok_unref_live (TH h)); [exact I6|eauto with ledger|]. intros w7 S7 I7.
    apply wp_ret. split; [done|]. by rewrite <-(sim_vars _ _ (proj1 S7)).
Qed.

(** Every constructor of a handle class gives its caller a handle with one reference. *)
Lemma wp_handle_new l c F X w :
  Inv F X w → live F w (TL l) →
  wp (handle_new_run l c) (λ h w', Inv (TH h :: F) X w' ∧ w_vars w' = w_vars w) w.
Proof.
  intros I L. destruct c; cbn [handle_new_run].
  - eapply wp_mono; [by apply wp_watcher_new|]. by intros h w' (? & _ & ?).
  - by eapply wp_timer_new.
  - by eapply (wp_init_new If_handle (P_async None) f_async_init l [V_self_cb] (λ _, mret tt) F X); auto.
  - eapply (wp_init_new If_handle (P_signal SG_UNKNOWN 0 None) f_signal_init l []
      (λ h, mod_props h (signal.set_signum signum)) F X); auto.
    right. split; [done|]. exists (signal.set_signum signum). by split_and!.
  - eapply (wp_init_new If_handle (P_fs_event OP_UNKNOWN 0 EmptyString None) f_fs_event_init l []
      (λ h, mod_props h (fs_event.set_flags flags)) F X); auto.
    right. split; [done|]. exists (fs_event.set_flags flags). by split_and!.
  - by eapply (wp_init_new If_stream (P_stream io_props_init None) f_tcp_init_ex l _ (λ _, mret tt) F X); auto.
  - eapply (wp_init_then If_stream (P_stream io_props_init None) f_tcp_init l [] _); try done.
    intros h. apply keeps_opened.
  - by eapply (wp_init_new If_stream (P_stream io_props_init None) f_pipe_init l _ (λ _, mret tt) F X); auto.
  - apply wp_new_then; [done..|]. intros h. apply keeps_call. intros z. apply keeps_mret.
  - apply wp_new_then; [done..|]. intros h. apply keeps_opened.
  - eapply (wp_init_then If_stream (P_stream io_props_init None) f_tty_init l); try done.
    intros h. apply keeps_blocking.
  - by eapply (wp_init_new If_udp (P_udp io_props_init) f_udp_init_ex l _ (λ _, mret tt) F X); auto.
  - eapply (wp_init_then If_udp (P_udp io_props_init) f_udp_init l); try done.
    intros h. apply keeps_call. intros z. apply keeps_mret.
  - by apply wp_file_new.
  - by apply wp_file_open_sync.
  - by apply wp_file_open_async.
  - by apply wp_process_new.
Qed.

End construct.
