(* ===== verification/Members.v ===== *)
(** * The rest of the members, class by class

    The callback setters ([on_request()] and the like) return a reference to a field of the
    instance: here they set it. [handle()], [loop()] and [path()] of the requests, the sizes of
    the socket buffers, the chunks of a buffer; [uv::mutex] of threading.hpp and the functions
    of debug.hpp. *)

From Stdlib Require Import ZArith Lia.
From stdpp Require Import base gmap list strings option.
From S2P Require Import Prelude World Objects Ledger Wp Refs Release Rules HRules.
From S2P Require Import Netstruct ReqStream Buffer HandleMisc Handle Io ReqFs ReqMisc Stream.
From S2P Require Import Process Construct.

Local Open Scope Z_scope.

(** ** Buffers *)

Module buffer.
Section buffer.
Context `{E : Env}.
Definition base (b : loc) (i : nat) : M Z := c ← buffer_at b i; mret c.1.
Definition len (b : loc) (i : nat) : M Z := c ← buffer_at b i; mret c.2.
(** [base(i) = v] and [len(i) = v] *)
Definition set_base (b : loc) (i : nat) (v : Z) : M unit :=
  c ← buffer_at b i; mod_b b (λ j, set_b_bufs (<[i := (v, c.2)]> (b_bufs j)) j).
Definition set_len (b : loc) (i : nat) (v : Z) : M unit :=
  c ← buffer_at b i; mod_b b (λ j, set_b_bufs (<[i := (c.1, w64 v)]> (b_bufs j)) j).
End buffer.
End buffer.

(** ** Handles *)

Module handle.
Section handle.
Context `{E : Env}.
Definition type (h : loc) : M uv_handle_type := uv_interface_type h.

(** [uv_handle_interface::ref] and [unref]; those of [uv_fs_interface] do nothing. *)
Definition uv_interface_ref (h : loc) : M unit :=
  i ← get_h h;
  match h_iface i with
  | If_file => mret tt
  | _ => _ ← uv_call f_ref [V_handle (Some h)]; mret tt
  end.
Definition uv_interface_unref (h : loc) : M unit :=
  i ← get_h h;
  match h_iface i with
  | If_file => mret tt
  | _ => _ ← uv_call f_unref [V_handle (Some h)]; mret tt
  end.

(** [send_buffer_size()] and [recv_buffer_size()] of [handle], which those of [tcp], [pipe] and
    [udp] repeat. *)
Definition send_buffer_size (h : loc) : M Z := sock.send_buffer_size h.
Definition recv_buffer_size (h : loc) : M Z := sock.recv_buffer_size h.
Definition set_recv_buffer_size (h : loc) (v : Z) : M unit := sock.set_recv_buffer_size h v.
End handle.
End handle.

Module pipe.
Section pipe.
Context `{E : Env}.
Definition send_buffer_size (h : loc) : M Z := sock.send_buffer_size h.
Definition set_send_buffer_size (h : loc) (v : Z) : M unit := sock.set_send_buffer_size h v.
Definition recv_buffer_size (h : loc) : M Z := sock.recv_buffer_size h.
Definition set_recv_buffer_size (h : loc) (v : Z) : M unit := sock.set_recv_buffer_size h v.
End pipe.
End pipe.

Module udp.
Section udp.
Context `{E : Env}.
Definition socket (h : loc) : M Z := fileno h.
Definition send_buffer_size (h : loc) : M Z := sock.send_buffer_size h.
Definition set_send_buffer_size (h : loc) (v : Z) : M unit := sock.set_send_buffer_size h v.
Definition recv_buffer_size (h : loc) : M Z := sock.recv_buffer_size h.
Definition set_recv_buffer_size (h : loc) (v : Z) : M unit := sock.set_recv_buffer_size h v.
End udp.
End udp.

Module tcp.
Section tcp.
Context `{E : Env}.
Definition socket (h : loc) : M Z := fileno h.
End tcp.
End tcp.

Module file.
Section file.
Context `{E : Env}.
Definition write_queue_size (h : loc) : M Z := f ← get_file h; mret (fi_wqs f).
End file.
End file.

Module timer.
Section timer.
Context `{E : Env}.
Definition repeat_interval (h : loc) : M Z := uv_call f_timer_get_repeat [V_handle (Some h)].
Definition set_repeat_interval (h : loc) (value : Z) : M unit :=
  _ ← uv_call f_timer_set_repeat [V_handle (Some h); V_int (w64 value)]; mret tt.
End timer.
End timer.

Module watcher.
Section watcher.
Context `{E : Env}.
Definition on_prepare (h : loc) (c : cb) : M unit := mod_props h (watchers.set_cb c).
Definition on_check (h : loc) (c : cb) : M unit := mod_props h (watchers.set_cb c).
Definition on_poll (h : loc) (c : cb) : M unit := mod_props h (watchers.set_cb c).
End watcher.
End watcher.

Module fs_event.
Section fs_event.
Context `{E : Env}.
Definition path (h : loc) : M string :=
  p ← properties h;
  match p with P_fs_event _ _ path _ => mret path | _ => undefined UB_type end.
End fs_event.
End fs_event.

Module process.
Section process.
Context `{E : Env}.
Definition stdio (h : loc) : M (list (option loc)) :=
  p ← properties h;
  match p with P_process ps => mret (ps_endpoints ps) | _ => undefined UB_type end.
End process.
End process.

(** ** [uv::mutex] *)

Module mutex.
Section mutex.
Context `{E : Env}.
Definition new : M unit :=
  z ← uv_call f_mutex_init []; if z <? 0 then throw X_runtime_error else mret tt.
Definition dtor : M unit := _ ← uv_call f_mutex_destroy []; mret tt.
Definition lock : M unit := _ ← uv_call f_mutex_lock []; mret tt.
Definition try_lock : M bool := z ← uv_call f_mutex_trylock []; mret (z =? 0).
Definition unlock : M unit := _ ← uv_call f_mutex_unlock []; mret tt.
End mutex.
End mutex.

(** ** debug.hpp

    What is printed is the value of the function. *)

Module debug.
Section debug.
Context `{E : Env}.

(** [handle_type_name]: the type of the libuv structure, whatever the class. *)
Definition handle_type_name (h : loc) : M string :=
  i ← get_h h; mret (type_name_of (uh_type (h_uv i))).

(** The line of a handle: its type, address, and three answers of libuv. *)
Definition print_handle (h : loc) : M (string * loc * (Z * Z * Z)) :=
  name ← handle_type_name h;
  has_ref ← uv_call f_has_ref [V_handle (Some h)];
  is_active ← uv_call f_is_active [V_handle (Some h)];
  is_closing ← uv_call f_is_closing [V_handle (Some h)];
  mret (name, h, (has_ref, is_active, is_closing)).

(** One line for every handle [uv_walk] reports. *)
Fixpoint print_handles (hs : list loc) : M (list (string * loc * (Z * Z * Z))) :=
  match hs with
  | [] => mret []
  | h :: hs' => line ← print_handle h; lines ← print_handles hs'; mret (line :: lines)
  end.
Definition print_loop_handles (l : loc) : M (list (string * loc * (Z * Z * Z))) :=
  w ← get;
  let hs := uv_walk_handles (w_log w) l in
  log_event (E_uv f_walk [V_loop (Some l)] 0);;
  print_handles hs.
End debug.
End debug.

(** ** Requests *)

Section fs.
Context `{E : Env}.
Definition fs_handle (r : loc) : M (option loc) :=
  i ← get_r r;
  match r_props i with R_fs _ uh _ _ _ _ => adopt_new TH uh | _ => undefined UB_type end.
Definition fs_offset (r : loc) : M Z :=
  i ← get_r r;
  match r_props i with R_fs _ _ _ off _ _ => mret off | _ => undefined UB_type end.
Definition fs_path (r : loc) : M (option string) := i ← get_r r; mret (ur_path (r_uv i)).
End fs.

Module connect.
Section connect.
Context `{E : Env}.
Definition on_request (r : loc) (c : cb) : M unit := on_request r c.
End connect.
End connect.

Module write.
Section write.
Context `{E : Env}.
Definition on_request (r : loc) (c : cb) : M unit := on_request r c.
Definition handle (r : loc) : M (option loc) := request.handle r.
Definition send_handle (r : loc) : M (option loc) :=
  i ← get_r r; adopt_new TH (ur_send_handle (r_uv i)).
End write.
End write.

Module shutdown.
Section shutdown.
Context `{E : Env}.
Definition on_request (r : loc) (c : cb) : M unit := on_request r c.
Definition handle (r : loc) : M (option loc) := request.handle r.
End shutdown.
End shutdown.

Module udp_send.
Section udp_send.
Context `{E : Env}.
Definition on_request (r : loc) (c : cb) : M unit := on_request r c.
Definition handle (r : loc) : M (option loc) := request.handle r.
End udp_send.
End udp_send.

Module work.
Section work.
Context `{E : Env}.
Definition on_request (r : loc) (c : cb) : M unit := on_request r c.
End work.
End work.

Module getaddrinfo.
Section getaddrinfo.
Context `{E : Env}.
Definition on_request (r : loc) (c : cb) : M unit := on_request r c.
Definition loop (r : loc) : M (option loc) := request.loop r.
End getaddrinfo.
End getaddrinfo.

Module getnameinfo.
Section getnameinfo.
Context `{E : Env}.
Definition on_request (r : loc) (c : cb) : M unit := on_request r c.
Definition loop (r : loc) : M (option loc) := request.loop r.
End getnameinfo.
End getnameinfo.

Module output.
Section output.
Context `{E : Env}.
Definition on_request (r : loc) (c : cb) : M unit := on_request r c.
End output.
End output.

Module fs_close.
Section fs_close.
Context `{E : Env}.
Definition handle (r : loc) : M (option loc) := fs_handle r.
End fs_close.
End fs_close.

Module fs_read.
Section fs_read.
Context `{E : Env}.
Definition on_request (r : loc) (c : cb) : M unit := on_request r c.
Definition handle (r : loc) : M (option loc) := fs_handle r.
End fs_read.
End fs_read.

Module fs_write.
Section fs_write.
Context `{E : Env}.
Definition on_request (r : loc) (c : cb) : M unit := on_request r c.
Definition handle (r : loc) : M (option loc) := fs_handle r.
Definition offset (r : loc) : M Z := fs_offset r.
End fs_write.
End fs_write.

Module fs_sync.
Section fs_sync.
Context `{E : Env}.
Definition on_request (r : loc) (c : cb) : M unit := on_request r c.
Definition handle (r : loc) : M (option loc) := fs_handle r.
End fs_sync.
End fs_sync.

Module fs_truncate.
Section fs_truncate.
Context `{E : Env}.
Definition on_request (r : loc) (c : cb) : M unit := on_request r c.
Definition handle (r : loc) : M (option loc) := fs_handle r.
Definition offset (r : loc) : M Z := fs_offset r.
End fs_truncate.
End fs_truncate.

Module fs_sendfile.
Section fs_sendfile.
Context `{E : Env}.
Definition on_request (r : loc) (c : cb) : M unit := on_request r c.
Definition handle_out (r : loc) : M (option loc) :=
  i ← get_r r;
  match r_props i with R_fs _ _ _ _ _ uo => adopt_new TH uo | _ => undefined UB_type end.
Definition handle_in (r : loc) : M (option loc) := fs_handle r.
Definition offset (r : loc) : M Z := fs_offset r.
(** On Unix the descriptor of the system is a [uv_file]. *)
Definition try_convert (os_fd : Z) : Z := os_fd.
End fs_sendfile.
End fs_sendfile.

Module fs_stat.
Section fs_stat.
Context `{E : Env}.
Definition on_request (r : loc) (c : cb) : M unit := on_request r c.
End fs_stat.
End fs_stat.

Module fs_chmod.
Section fs_chmod.
Context `{E : Env}.
Definition on_request (r : loc) (c : cb) : M unit := on_request r c.
Definition handle (r : loc) : M (option loc) := stat.handle r.
Definition path (r : loc) : M (option string) := stat.path r.
End fs_chmod.
End fs_chmod.

Module fs_chown.
Section fs_chown.
Context `{E : Env}.
Definition on_request (r : loc) (c : cb) : M unit := on_request r c.
Definition handle (r : loc) : M (option loc) := stat.handle r.
Definition path (r : loc) : M (option string) := stat.path r.
End fs_chown.
End fs_chown.

Module fs_utime.
Section fs_utime.
Context `{E : Env}.
Definition on_request (r : loc) (c : cb) : M unit := on_request r c.
Definition handle (r : loc) : M (option loc) := stat.handle r.
Definition path (r : loc) : M (option string) := stat.path r.
End fs_utime.
End fs_utime.

Module fs_unlink.
Section fs_unlink.
Context `{E : Env}.
Definition on_request (r : loc) (c : cb) : M unit := on_request r c.
Definition path (r : loc) : M (option string) := fs_path r.
End fs_unlink.
End fs_unlink.

Module fs_mkdir.
Section fs_mkdir.
Context `{E : Env}.
Definition on_request (r : loc) (c : cb) : M unit := on_request r c.
Definition path (r : loc) : M (option string) := fs_path r.
End fs_mkdir.
End fs_mkdir.

Module fs_mkdtemp.
Section fs_mkdtemp.
Context `{E : Env}.
Definition on_request (r : loc) (c : cb) : M unit := on_request r c.
Definition path (r : loc) : M (option string) := fs_path r.
End fs_mkdtemp.
End fs_mkdtemp.

Module fs_rmdir.
Section fs_rmdir.
Context `{E : Env}.
Definition on_request (r : loc) (c : cb) : M unit := on_request r c.
Definition path (r : loc) : M (option string) := fs_path r.
End fs_rmdir.
End fs_rmdir.

Module fs_scandir.
Section fs_scandir.
Context `{E : Env}.
Definition on_request (r : loc) (c : cb) : M unit := on_request r c.
Definition path (r : loc) : M (option string) := fs_path r.
End fs_scandir.
End fs_scandir.

Module fs_rename.
Section fs_rename.
Context `{E : Env}.
Definition on_request (r : loc) (c : cb) : M unit := on_request r c.
Definition path (r : loc) : M (option string) := fs_path r.
End fs_rename.
End fs_rename.

Module fs_access.
Section fs_access.
Context `{E : Env}.
Definition on_request (r : loc) (c : cb) : M unit := on_request r c.
Definition path (r : loc) : M (option string) := fs_path r.
End fs_access.
End fs_access.

Module fs_link.
Section fs_link.
Context `{E : Env}.
Definition on_request (r : loc) (c : cb) : M unit := on_request r c.
Definition path (r : loc) : M (option string) := fs_path r.
End fs_link.
End fs_link.

Module fs_readlink.
Section fs_readlink.
Context `{E : Env}.
Definition on_request (r : loc) (c : cb) : M unit := on_request r c.
Definition path (r : loc) : M (option string) := fs_path r.
End fs_readlink.
End fs_readlink.

Module fs_realpath.
Section fs_realpath.
Context `{E : Env}.
Definition on_request (r : loc) (c : cb) : M unit := on_request r c.
Definition path (r : loc) : M (option string) := fs_path r.
End fs_realpath.
End fs_realpath.


(** ** The objects requests give away *)

Section ledger.
Context `{E : Env} `{EO : !EnvOk}.

Lemma wp_adopt_new (tok : loc → token) o F X (Q : option loc → world → Prop) w :
  Inv F X w → (∀ l, o = Some l → live F w (tok l)) →
  (∀ w', wsim w w' → Inv (opt_tok tok o ++ F) X w' → Q o w') →
  wp (adopt_new tok o) Q w.
Proof.
  intros I HL HQ. unfold adopt_new. wp_struct. destruct o as [l|].
  - eapply wp_tok_ref; [done|by apply HL|]. intros w1 S I1. by apply wp_ret, HQ.
  - do 2 apply wp_ret. by apply HQ.
Qed.

(** [handle()] of a request that has not been run on a path: one more reference. *)
Lemma fs_handle_ok r i own uh ub off ps uo F X w :
  Inv F X w → w_reqs w !! r = Some i → r_props i = R_fs own uh ub off ps uo →
  (∀ h, uh = Some h → live F w (TH h)) →
  wp (fs_handle r) (λ o w', o = uh ∧ Inv (opt_tok TH uh ++ F) X w') w.
Proof.
  intros I Hi Hp HL. unfold fs_handle. wp_structs. rewrite Hp.
  by eapply wp_adopt_new; [done|done|].
Qed.

(** [handle()] of [stat], [chmod], [chown] and [utime]: the file of the request, or a new one
    that has no descriptor, with a reference for the caller. *)
Lemma path_or_file_handle_ok r i own uh ub off ps uo F X w :
  Inv F X w → w_reqs w !! r = Some i → r_props i = R_fs own uh ub off ps uo →
  match uh with
  | Some h => live F w (TH h)
  | None => ∃ l, ur_loop (r_uv i) = Some l ∧ live F w (TL l)
  end →
  wp (stat.handle r) (λ o w', ∃ h, o = Some h ∧ Inv (TH h :: F) X w' ∧
    (∀ h', uh = Some h' → h = h')) w.
Proof.
  intros I Hi Hp HL. unfold stat.handle. wp_structs. rewrite Hp. destruct uh as [h|].
  - eapply wp_adopt_new; [done|by intros ? [= <-]|]. intros w1 _ I1. exists h.
    split_and!; [done..|by intros ? [= <-]].
  - destruct HL as (l & Hl & L). rewrite Hl. wp_structs.
    eapply wp_mono; [by apply wp_file_new|]. intros h w1 [I1 _]. apply wp_ret.
    by exists h.
Qed.
End ledger.
