(* ===== verification/Storage.v ===== *)
(** * Storage of values whose type is not fixed

    utility.hpp: the type lists ([is_one_of], [is_convertible_to_one_of], [type_at]), the
    storage of the properties of handles and requests ([aligned_storage], [union_storage]),
    the owning pointer [any_ptr], and [type_storage]. The types of the program, their values and their
    constructors, which may throw, are parameters. *)

From Stdlib Require Import ZArith Lia.
From stdpp Require Import base gmap list option.
From S2P Require Import Prelude World.

(** ** Type lists *)

Section lists.
Context {ty : Type} `{EqDecision ty}.

(** Indices begin with 1; 0 stands for "none". *)
Fixpoint is_one_of (t : ty) (l : list ty) : nat :=
  match l with
  | [] => 0
  | u :: l' =>
      if decide (t = u) then 1
      else let value_ := is_one_of t l' in match value_ with 0 => 0 | _ => value_ + 1 end
  end.

Variable is_convertible : ty → ty → bool.

Fixpoint is_convertible_to_one_of (t : ty) (l : list ty) : nat :=
  match l with
  | [] => 0
  | u :: l' =>
      let value_ := is_convertible_to_one_of t l' in
      if is_convertible t u then 1 else match value_ with 0 => 0 | _ => value_ + 1 end
  end.

Fixpoint type_at (index : nat) (l : list ty) : option ty :=
  match index, l with
  | 0, _ | _, [] => None
  | 1, t :: _ => Some t
  | S index', _ :: l' => type_at index' l'
  end.

Lemma type_at_lookup n l : type_at (S n) l = l !! n.
Proof. revert n. induction l as [|t l IH]; intros [|n]; try done. apply (IH n). Qed.

(** The index is that of the first occurrence. *)
Lemma is_one_of_spec t l :
  match is_one_of t l with
  | 0 => t ∉ l
  | S n => l !! n = Some t ∧ ∀ m, m < n → l !! m ≠ Some t
  end.
Proof.
  induction l as [|u l IH]; cbn; [apply not_elem_of_nil|].
  destruct (decide (t = u)) as [->|Hne]; [by split; [|lia]|].
  destruct (is_one_of t l) as [|n]; cbn.
  - by rewrite not_elem_of_cons.
  - rewrite Nat.add_1_r. destruct IH as [Hn Hm]. split; [done|].
    intros [|m] Hlt; cbn; [congruence|]. apply Hm. lia.
Qed.

Lemma is_convertible_spec t l :
  match is_convertible_to_one_of t l with
  | 0 => ∀ u, u ∈ l → is_convertible t u = false
  | S n => ∃ u, l !! n = Some u ∧ is_convertible t u = true ∧
      ∀ m u', m < n → l !! m = Some u' → is_convertible t u' = false
  end.
Proof.
  induction l as [|u l IH]; cbn; [by intros u ?%not_elem_of_nil|].
  destruct (is_convertible t u) eqn:Hu; [exists u; split_and!; [done..|lia]|].
  destruct (is_convertible_to_one_of t l) as [|n]; cbn.
  - intros u' [->|Hu']%elem_of_cons; auto.
  - rewrite Nat.add_1_r. destruct IH as (u' & Hn & Hc & Hm). exists u'. split_and!; [done..|].
    intros [|m] v Hlt Hv; cbn in Hv; [congruence|]. eapply Hm; [|done]. lia.
Qed.
End lists.

(** [greatest(..)], [lowest(..)] and [sum(..)] of parameter packs *)
Fixpoint greatest (v : Z) (vs : list Z) : Z :=
  match vs with
  | [] => v
  | v' :: vs' => if (v <? greatest v' vs')%Z then greatest v' vs' else v
  end.
Fixpoint lowest (v : Z) (vs : list Z) : Z :=
  match vs with
  | [] => v
  | v' :: vs' => if (lowest v' vs' <? v)%Z then lowest v' vs' else v
  end.

Lemma greatest_spec v vs : greatest v vs ∈ v :: vs ∧ ∀ u, u ∈ v :: vs → (u ≤ greatest v vs)%Z.
Proof.
  revert v. induction vs as [|v' vs IH]; intros v.
  - cbn. split; [by left|]. intros u ->%list_elem_of_singleton. lia.
  - destruct (IH v') as [Hin Hle]. cbn [greatest].
    destruct (Z.ltb_spec v (greatest v' vs)); split.
    + by right.
    + intros u [->|Hu]%elem_of_cons; [lia|auto].
    + by left.
    + intros u [->|Hu]%elem_of_cons; [lia|]. specialize (Hle u Hu). lia.
Qed.

(** ** Storage for one value *)

Module storage.
Section storage.
Context {ty value : Type} `{EqDecision ty} `{EqDecision value}.

(** [type{args...}], which may throw *)
Variable init : ty → list value → option value.

Inductive event := Made (t : ty) (v : value) | Destroyed (t : ty) (v : value).

(** [Destroy] is known by the type whose destructor it calls; [object] is what lives in the
    bytes. The log, most recent first, records constructions and destructions. *)
Record state := {
  type_tag : option ty;
  Destroy : option ty;
  object : option (ty * value);
  log : list event
}.

Inductive result := Returns (s : state) | Throws (s : state) | Undef.

(** [new(&storage) type{args...}; Destroy = ..; type_tag = ..] *)
Definition place (t : ty) (args : list value) (s : state) : result :=
  match init t args with
  | None => Throws s
  | Some v => Returns {| type_tag := Some t; Destroy := Some t; object := Some (t, v);
                         log := Made t v :: log s |}
  end.

Definition destroy (s : state) : result :=
  let empty obj l := {| type_tag := None; Destroy := None; object := obj; log := l |} in
  match Destroy s with
  | None => Returns (empty (object s) (log s))
  | Some t =>
      match object s with
      | Some (t', v) =>
          if decide (t = t') then Returns (empty None (Destroyed t v :: log s)) else Undef
      | None => Undef
      end
  end.

Definition and_then (r : result) (k : state → result) : result :=
  match r with Returns s => k s | _ => r end.

(** The constructors: without a value, and from one. *)
Definition uninitialized : state :=
  {| type_tag := None; Destroy := None; object := None; log := [] |}.
Definition from_value (t : ty) (v : value) : result := place t [v] uninitialized.

(** [reset< type >(args...)] *)
Definition reset (t : ty) (args : list value) (s : state) : result :=
  and_then (destroy s) (place t args).

(** Where the argument of [reset(value)] is: elsewhere, or [offset] bytes into the storage. *)
Inductive source := Elsewhere (v : value) | Inside (offset : nat).

Definition reset_value (t : ty) (src : source) (s : state) : result :=
  match src with
  | Inside 0 => Returns s                         (* the same address *)
  | Inside _ => and_then (destroy s) (λ _, Undef) (* the copy reads a destroyed object *)
  | Elsewhere v => and_then (destroy s) (place t [v])
  end.

Definition get (t : ty) (s : state) : option value :=
  match object s with
  | Some (t', v) => if decide (t = t') then Some v else None
  | None => None
  end.
Definition tag (s : state) : option ty := type_tag s.
Definition operator_bool (s : state) : bool :=
  match tag s with Some _ => true | None => false end.

(** *** The tag is the type of what is stored *)

(** What is alive after the constructions and destructions of the log, when each object was
    destroyed as what it was made as and before the next one was made. *)
Fixpoint replay (l : list event) : option (option (ty * value)) :=
  match l with
  | [] => Some None
  | Made t v :: l' => match replay l' with Some None => Some (Some (t, v)) | _ => None end
  | Destroyed t v :: l' =>
      match replay l' with
      | Some (Some o) => if decide (o = (t, v)) then Some None else None
      | _ => None
      end
  end.

Record wf (s : state) : Prop := {
  wf_tag : type_tag s = fst <$> object s;
  wf_destroy : Destroy s = type_tag s;
  wf_log : replay (log s) = Some (object s)
}.

Lemma wf_uninitialized : wf uninitialized.
Proof. done. Qed.

Lemma destroy_wf s : wf s → ∃ s', destroy s = Returns s' ∧ wf s' ∧ object s' = None.
Proof.
  intros [Ht Hd Hl]. unfold destroy. rewrite Hd, Ht.
  destruct (object s) as [[t v]|] eqn:Ho; cbn.
  - rewrite decide_True by done. eexists. split_and!; [done| |done].
    split; cbn; [done..|]. rewrite Hl. by rewrite decide_True.
  - eexists. split_and!; [done| |done]. by split.
Qed.

Lemma place_wf t args s : wf s → object s = None →
  match init t args with
  | Some v => ∃ s', place t args s = Returns s' ∧ wf s' ∧ object s' = Some (t, v)
  | None => place t args s = Throws s
  end.
Proof.
  intros [Ht Hd Hl] Ho. unfold place. destruct (init t args) as [v|]; [|done].
  eexists. split_and!; [done| |done]. split; cbn; [done..|]. by rewrite Hl, Ho.
Qed.

(** The outcome of an operation that stores [type{args...}]. *)
Definition stores (t : ty) (args : list value) (r : result) : Prop :=
  match init t args with
  | Some v => ∃ s, r = Returns s ∧ wf s ∧ tag s = Some t ∧ get t s = Some v
  | None => ∃ s, r = Throws s ∧ wf s ∧ tag s = None
  end.

Lemma stores_place t args s : wf s → object s = None → stores t args (place t args s).
Proof.
  intros W Ho. unfold stores. pose proof (place_wf t args s W Ho) as H.
  destruct (init t args) as [v|].
  - destruct H as (s' & -> & W' & Ho'). exists s'. split_and!; [done..| |].
    + unfold tag. by rewrite (wf_tag _ W'), Ho'.
    + unfold get. by rewrite Ho', decide_True.
  - exists s. split_and!; [done..|]. unfold tag. by rewrite (wf_tag _ W), Ho.
Qed.

Lemma stores_reset t args s : wf s → stores t args (reset t args s).
Proof.
  intros (s' & Hs & W & Ho)%destroy_wf. unfold reset. rewrite Hs. by apply stores_place.
Qed.

(** C35: A storage always knows what it holds: after a construction or a reset the type
    tag is the type of the stored value, which can be read back; when the constructor of
    the value throws the storage is left empty; and every value that was made is
    destroyed exactly once, as the type it was made as, before the next one is made. *)
Theorem storage_typed s t args v :
  wf s →
  stores t args (reset t args s) ∧ stores t [v] (reset_value t (Elsewhere v) s) ∧
  stores t [v] (from_value t v) ∧
  ∃ s', destroy s = Returns s' ∧ wf s' ∧ replay (log s') = Some None.
Proof.
  intros W. split_and!.
  - by apply stores_reset.
  - by apply (stores_reset t [v]).
  - by apply stores_place.
  - destruct (destroy_wf s W) as (s' & Hs & W' & Ho). exists s'. split_and!; [done..|].
    by rewrite (wf_log _ W'), Ho.
Qed.

(** A value at the address of the storage is taken for the stored object: [reset] for a member
    at the beginning of the object leaves the object, and its tag, in place. *)
Lemma reset_first_member s t u v :
  object s = Some (u, v) → t ≠ u → wf s →
  reset_value t (Inside 0) s = Returns s ∧ tag s ≠ Some t ∧ get t s = None.
Proof.
  intros Ho Hne W. split_and!; [done|..].
  - unfold tag. rewrite (wf_tag _ W), Ho. cbn. congruence.
  - unfold get. by rewrite Ho, decide_False.
Qed.
End storage.
End storage.

(** ** A tagged union *)

Module union.
Section union.
Context {ty value : Type} `{EqDecision ty} `{EqDecision value}.
Variable init : ty → list value → option value.
Variable is_convertible : ty → ty → bool.
Variable Ts : list ty.

Import storage.

(** The type that is stored for a value of type [t]; [None]: the member does not exist. *)
Definition stored_type (t : ty) : option ty :=
  type_at (is_convertible_to_one_of is_convertible t Ts) Ts.

Definition from_value (t : ty) (v : value) : option (result (ty := ty)) :=
  (λ u, storage.from_value init u v) <$> stored_type t.
Definition reset (t : ty) (args : list value) (s : state) : option result :=
  (λ u, storage.reset init u args s) <$> stored_type t.
Definition reset_value (t : ty) (src : source) (s : state) : option result :=
  (λ u, storage.reset_value init u src s) <$> stored_type t.
(** [get< t >()] exists for the types of the list. *)
Definition get (t : ty) (s : state) : option (option value) :=
  if decide (is_one_of t Ts = 0) then None else Some (storage.get t s).

Lemma stored_type_spec t :
  match stored_type t with
  | Some u => u ∈ Ts ∧ is_convertible t u = true
  | None => ∀ u, u ∈ Ts → is_convertible t u = false
  end.
Proof.
  unfold stored_type. pose proof (is_convertible_spec is_convertible t Ts) as H.
  destruct (is_convertible_to_one_of is_convertible t Ts) as [|n]; [by destruct Ts|].
  destruct H as (u & Hu & Hc & _). rewrite type_at_lookup, Hu. split; [|done].
  by eapply list_elem_of_lookup_2.
Qed.

(** A union accepts exactly the values that convert to one of its types, and then
    holds a value of one of them, with the tag of that type. *)
Theorem union_typed s t args :
  wf s →
  match reset t args s with
  | Some r => ∃ u, u ∈ Ts ∧ is_convertible t u = true ∧ stores init u args r
  | None => ∀ u, u ∈ Ts → is_convertible t u = false
  end.
Proof.
  intros W. unfold reset. pose proof (stored_type_spec t) as H.
  destruct (stored_type t) as [u|]; cbn; [|done].
  exists u. destruct H. split_and!; [done..|]. by apply stores_reset.
Qed.

(** A type of the list behind one it converts to is never stored: [get()] for the type
    of the value that was given finds an object of another type. *)
Lemma union_shadowed t u n s v w :
  Ts !! 0 = Some u → t ≠ u → Ts !! n = Some t → is_convertible t u = true →
  wf s → init u [v] = Some w →
  ∃ s', reset_value t (Elsewhere v) s = Some (Returns s') ∧ tag s' = Some u ∧
    get t s' = Some None.
Proof.
  intros Hu Hne Ht Hc W Hi. unfold reset_value, stored_type.
  destruct Ts as [|u' Ts'] eqn:HT; [done|]. cbn in Hu. injection Hu as ->.
  cbn [is_convertible_to_one_of]. rewrite Hc. cbn [type_at fmap option_fmap option_map].
  pose proof (stores_reset init u [v] s W) as H. unfold stores in H. rewrite Hi in H.
  destruct H as (s' & Hs & W' & Htag & Hg).
  exists s'. split_and!; [by rewrite <-Hs|done|].
  unfold get. rewrite HT. rewrite decide_False.
  - f_equal. unfold storage.get in *. destruct (object s') as [[t' v']|]; [|done].
    unfold tag in Htag. rewrite (wf_tag _ W') in Htag.
    destruct (decide (u = t')) as [<-|]; [by rewrite decide_False|done].
  - intros H0. pose proof (is_one_of_spec t (u :: Ts')) as Hs'. rewrite H0 in Hs'.
    apply Hs'. by eapply list_elem_of_lookup_2.
Qed.
End union.
End union.

(** ** [any_ptr] *)

Module any_ptr.
Section any_ptr.
Context {ty : Type} `{EqDecision ty}.

(** The objects on the heap that were made by [new] and not deleted, with their types. *)
Abbreviation heap := (gmap loc ty).

Record any_ptr := { type_tag : option ty; Delete : option ty; ptr : option loc }.

Definition null : any_ptr := {| type_tag := None; Delete := None; ptr := None |}.

(** [any_ptr(_T_* &&)]; the caller's pointer is null afterwards. *)
Definition of_ptr (t : ty) (a : option loc) : any_ptr :=
  {| type_tag := Some t; Delete := Some t; ptr := a |}.

(** [None]: undefined behaviour, an object is deleted twice or as another type. *)
Definition destroy (p : any_ptr) (H : heap) : option (any_ptr * heap) :=
  let p' := {| type_tag := None; Delete := None; ptr := ptr p |} in
  match Delete p, ptr p with
  | Some t, Some a =>
      match H !! a with
      | Some t' => if decide (t = t') then Some (p', delete a H) else None
      | None => None
      end
  | _, _ => Some (p', H)                 (* deleting a null pointer does nothing *)
  end.

Definition release (p : any_ptr) : option loc * any_ptr := (ptr p, null).

(** [any_ptr(any_ptr &&)] and [operator =(any_ptr &&)]: the new value, and that of [that] *)
Definition move_construct (that : any_ptr) : any_ptr * any_ptr :=
  (that, (release that).2).
Definition move_assign (p that : any_ptr) (H : heap) : option (any_ptr * any_ptr * heap) :=
  if decide (ptr p = ptr that) then Some (p, that, H)
  else '(_, H') ← destroy p H; Some (move_construct that, H').

(** [operator =(nullptr)], [reset(nullptr)] and the destructor *)
Definition reset_null (p : any_ptr) (H : heap) : option (any_ptr * heap) := destroy p H.

(** [reset(_T_* &&)]; the third component is the caller's pointer afterwards. *)
Definition reset (t : ty) (a : option loc) (p : any_ptr) (H : heap) :
    option (any_ptr * heap * option loc) :=
  if decide (ptr p = a) then Some (p, H, a)
  else '(_, H') ← destroy p H; Some (of_ptr t a, H', None).

Definition get (p : any_ptr) : option loc := ptr p.
Definition operator_bool (p : any_ptr) : bool := match ptr p with Some _ => true | _ => false end.

(** *** Ownership *)

(** The object that [p] will delete. *)
Definition owns (p : any_ptr) : option loc := _ ← Delete p; ptr p.

Record wf (p : any_ptr) (H : heap) : Prop := {
  wf_tag : type_tag p = Delete p;
  wf_owns : ∀ t a, Delete p = Some t → ptr p = Some a → H !! a = Some t
}.

(** [p] points to what it owns, and to nothing when it owns nothing. *)
Definition fresh (p : any_ptr) : Prop := ptr p = owns p.

Definition drop (o : option loc) (H : heap) : heap :=
  match o with Some a => delete a H | None => H end.

Lemma destroy_eq p H : wf p H →
  destroy p H = Some ({| type_tag := None; Delete := None; ptr := ptr p |}, drop (owns p) H).
Proof.
  intros [Ht Ho]. unfold destroy, owns. destruct (Delete p) as [t|] eqn:Hd; [|done].
  destruct (ptr p) as [a|] eqn:Hp; [|done]. cbn.
  by rewrite (Ho t a), decide_True.
Qed.

Lemma wf_drop p o H : wf p H → (∀ a, o = Some a → owns p ≠ Some a) → wf p (drop o H).
Proof.
  intros [Ht Ho] Hne. split; [done|]. intros t a Hd Hp. destruct o as [b|]; [|by apply Ho].
  cbn. rewrite lookup_delete_ne; [by apply Ho|]. intros ->. apply (Hne a eq_refl).
  unfold owns. by rewrite Hd.
Qed.

(** Assignments between owners that point to different objects delete what the
    target had and move what the source had; nothing is deleted twice and nothing is
    lost. *)
Theorem any_ptr_moves p q H :
  wf p H → wf q H → (∀ a, owns p = Some a → owns q ≠ Some a) → ptr p ≠ ptr q →
  ∃ H', move_assign p q H = Some (q, null, H') ∧ H' = drop (owns p) H ∧ wf q H' ∧
    ∃ p', reset_null q H' = Some (p', drop (owns q) H') ∧ owns p' = None.
Proof.
  intros Wp Wq Hd Hne. exists (drop (owns p) H).
  assert (wf q (drop (owns p) H)) as W' by by apply wf_drop.
  unfold move_assign. rewrite decide_False by done. rewrite (destroy_eq p H Wp).
  split_and!; [done..|]. eexists. split; [by apply destroy_eq|]. done.
Qed.

(** [reset(nullptr)] deletes the object and leaves the pointer as it was, so that a
    new object at the same address is not taken: when it is passed to [reset] the owner does
    nothing, and the object is still there after the owner has been destroyed. *)
Theorem any_ptr_reset_loses t u a H :
  H !! a = Some t →
  ∃ p', reset_null (of_ptr t (Some a)) H = Some (p', delete a H) ∧ operator_bool p' = true ∧
    let H' := <[a := u]> (delete a H) in
    reset u (Some a) p' H' = Some (p', H', Some a) ∧
    ∃ p'', reset_null p' H' = Some (p'', H').
Proof.
  intros Ha. eexists. split_and!.
  - apply (destroy_eq (of_ptr t (Some a)) H). split; [done|]. by intros ?? [= <-] [= <-].
  - done.
  - cbv zeta. unfold reset. split; [by rewrite decide_True|by eexists].
Qed.

(** With an owner that is not stale the argument of [reset] is taken. *)
Lemma any_ptr_reset t a p H :
  wf p H → fresh p → H !! a = Some t → owns p ≠ Some a →
  ∃ H', reset t (Some a) p H = Some (of_ptr t (Some a), H', None) ∧
    H' = drop (owns p) H ∧ wf (of_ptr t (Some a)) H' ∧ fresh (of_ptr t (Some a)).
Proof.
  intros W Hf Ha Hne. exists (drop (owns p) H). unfold reset.
  rewrite decide_False by (unfold fresh in Hf; congruence). rewrite (destroy_eq p H W).
  split_and!; [done..| |done]. apply wf_drop.
  - split; [done|]. by intros ?? [= <-] [= <-].
  - intros b Hb. unfold owns. cbn. congruence.
Qed.
End any_ptr.
End any_ptr.

(** ** Storage for one value of one type *)

Module type_storage.
Section type_storage.
Context {ty value : Type}.
Variables (init : ty → list value → option value) (t : ty).

(** The bytes, and what has been constructed and destroyed in them, most recent first. *)
Record state := { object : option value; log : list (storage.event (ty := ty) (value := value)) }.

(** The constructors; [None] when the constructor of the value throws. *)
Definition from_args (args : list value) : option state :=
  v ← init t args; Some {| object := Some v; log := [storage.Made t v] |}.
Definition from_value (v : value) : option state := from_args [v].
Definition new : option state := from_args [].

(** [value()] reads the bytes; there is nothing to read after the destructor. *)
Definition value_ (s : state) : option value := object s.
Definition dtor (s : state) : option state :=
  v ← object s; Some {| object := None; log := storage.Destroyed t v :: log s |}.

(** A storage holds the value it was constructed with and destroys it once. *)
Lemma value_destroyed_once args s : from_args args = Some s →
  ∃ v s', init t args = Some v ∧ value_ s = Some v ∧ dtor s = Some s' ∧
    log s' = [storage.Destroyed t v; storage.Made t v] ∧ dtor s' = None.
Proof.
  unfold from_args. destruct (init t args) as [v|]; cbn; [|done]. intros [= <-].
  by eexists v, _.
Qed.
End type_storage.
End type_storage.

(** ** [sum] *)

(** [sum(v, vs...)] of the common type, as integers. *)
Fixpoint sum (v : Z) (vs : list Z) : Z :=
  match vs with [] => v | v' :: vs' => (v + sum v' vs')%Z end.

Lemma sum_foldr v vs : sum v vs = foldr Z.add 0%Z (v :: vs).
Proof. revert v. induction vs as [|v' vs IH]; intros v; cbn in *; [lia|]. rewrite IH. lia. Qed.
