(* ===== verification/Ops.v ===== *)
(** * The operations of the library as data

    What a client can do with its variables and what libuv can do with what it was given, each
    with the condition under which it may be done and the code it runs. *)

From Stdlib Require Import ZArith Lia.
From stdpp Require Import base gmap list strings option relations.
From S2P Require Import Prelude World Objects Ledger Wp Refs Release Rules HRules.
From S2P Require Import Netstruct ReqStream Buffer HandleMisc Handle Io ReadCmd ReadCb ReqFs.
From S2P Require Import FsLedger ReqMisc Vars Stream Process Loop Construct Members.

Local Open Scope Z_scope.

(** ** Operations *)

(** Members of the four classes on variables. *)
Inductive family := K_handle | K_request | K_buffer | K_loop.
Inductive var_op :=
| A_copy (x that : positive) | A_move (x that : positive)       (* constructors *)
| A_assign (x that : positive) | A_move_assign (x that : positive)
| A_swap (x that : positive) | A_destroy (x : positive).

(** The members of requests that return an object: [handle()] and [send_handle()] of the stream
    and UDP requests, [loop()], [handle()] of the file requests, [handle_out()], and [handle()]
    of the requests that work on paths too. *)
Inductive getter := G_handle | G_send_handle | G_loop | G_file | G_out | G_path_or_file.

(** Constructors of new objects, and new variables of objects that a handle or request has. *)
Inductive new_op :=
| N_loop | N_buffer (lens : list Z)
| N_connect | N_write | N_shutdown | N_udp_send | N_work | N_getaddrinfo | N_getnameinfo
| N_fs (t : uv_fs_type) | N_output
| N_handle (l : loc) (c : handle_new) | N_guess (l : loc) (fd : Z)
| N_accept (server : loc) | N_accept_pending (server : loc)
| N_get (r : loc) (g : getter) | N_loop_of (h : loc).   (* [loop()] of a handle *)

(** Members of the request classes. *)
Inductive req_op :=
| Q_on_request (c : cb)
| Q_connect (h : loc) (sa : Z) | Q_connect_pipe (h : loc) (name : option string)
| Q_write (h b : loc) | Q_write2 (h b s : loc) | Q_shutdown (h : loc)
| Q_udp_send (h b : loc) (sa : list Z) | Q_work (l : loc) (task : Z)
| Q_getaddrinfo (l : loc) (host serv : option string) (hints : option Z)
| Q_getnameinfo (l : loc) (sa : list Z) (flags : Z)
| Q_path (l : loc) (q : path_op) | Q_file (h : loc) (q : file_op)
| Q_close (h : loc) | Q_read (h b : loc) (offset : Z) | Q_fs_write (h b : loc) (offset : Z)
| Q_sendfile (out h : loc) (offset length : Z)
| Q_output (io b : loc) (offset : Z) (info : option (list Z)).

(** Members of the handle classes. *)
Inductive handle_op :=
| H_read (c : read_cmd)
| H_start (rest : list uvarg) | H_stop
| H_timer_start (timeout : Z) | H_timer_stop
| H_signal_start (cmd : sigcmd) | H_signal_stop
| H_fs_event_start | H_fs_event_stop
| H_send
| H_listen (backlog : Z) (c : cb)
| H_inherit (n : Z) (s : loc) | H_inherit_fd (n fd : Z)
| H_spawn (file : option string) (argv : option Z) (flags : Z).

(** Members that give the library a function of the client, and the length of a chunk. *)
Inductive set_op :=
| B_on_destroy (h : loc) (c : cb)
| B_on_event (h : loc) (c : cb)            (* on_idle(), on_timer(), on_signal(), on_send() ... *)
| B_on_io (h : loc) (alloc_cb read_cb : cb) (* on_alloc() and on_read() *)
| B_on_exit (h : loc) (c : cb)
| B_request_destroy (r : loc) (c : cb)
| B_sink (b : loc) (c : cb)
| B_len (b : loc) (i : nat) (v : Z)
| B_loop_destroy (l : loc) (c : cb) | B_loop_exit (l : loc) (c : cb).

(** Events libuv reports for a handle. *)
Inductive event_op :=
| V_watch (rest : list arg) | V_poll (status events : Z)
| V_fs_event (filename : option string) (events status : Z) | V_timer | V_signal
| V_connection (status : Z) | V_exit (exit_status termination_signal : Z)
| V_read (suggested_size nread info : Z).   (* a chunk is asked for and delivered *)

Inductive op :=
| O_var (k : family) (a : var_op)
| O_new (x : positive) (n : new_op)
| O_request (r : loc) (q : req_op)
| O_handle (h : loc) (c : handle_op)
| O_set (s : set_op)
| O_event (h : loc) (e : event_op)
| O_complete (k : nat) (result : Z).   (* the [k]-th pending one-shot callback *)

Section system.
Context `{E : Env}.

Definition var_run (k : family) (a : var_op) : M unit :=
  let run P `{!Counted P} :=
    match a with
    | A_copy x that => copy_construct P x that | A_move x that => move_construct P x that
    | A_assign x that => copy_assign P x that | A_move_assign x that => move_assign P x that
    | A_swap x that => swap P x that | A_destroy x => destruct_var P x
    end in
  match k with K_handle => run PH | K_request => run PR | K_buffer => run PB | K_loop => run PL end.

Definition get_run (r : loc) (g : getter) : M ptr :=
  match g with
  | G_handle => o ← request.handle r; mret (PH o)
  | G_send_handle => o ← Members.write.send_handle r; mret (PH o)
  | G_loop => o ← request.loop r; mret (PL o)
  | G_file => o ← fs_handle r; mret (PH o)
  | G_out => o ← fs_sendfile.handle_out r; mret (PH o)
  | G_path_or_file => o ← stat.handle r; mret (PH o)
  end.

Definition new_run (n : new_op) : M ptr :=
  let loop m := l ← m; mret (PL (Some l)) in
  let buffer m := b ← m; mret (PB (Some b)) in
  let req m := r ← m; mret (PR (Some r)) in
  match n with
  | N_loop => loop loop_create
  | N_buffer lens => buffer (buffer_create lens)
  | N_connect => req connect.new | N_write => req write.new | N_shutdown => req shutdown.new
  | N_udp_send => req udp_send.new | N_work => req work.new
  | N_getaddrinfo => req getaddrinfo.new | N_getnameinfo => req getnameinfo.new
  | N_fs t => req (fs_new t) | N_output => req output.new
  | N_handle l c => h ← handle_new_run l c; mret (PH (Some h))
  | N_guess l fd => h ← guess_handle l fd; mret (PH h)
  | N_accept server => h ← stream.accept server; mret (PH h)
  | N_accept_pending server => h ← pipe.accept_pending_handle server; mret (PH h)
  | N_get r g => get_run r g
  | N_loop_of h => o ← handle_loop h; mret (PL o)
  end.

Definition req_run (r : loc) (q : req_op) : M unit :=
  match q with
  | Q_on_request c => on_request r c
  | Q_connect h sa => _ ← connect.run_tcp r h sa; mret tt
  | Q_connect_pipe h name => connect.run_pipe r h name
  | Q_write h b => _ ← write.run r h b; mret tt
  | Q_write2 h b s => _ ← write.run2 r h b s; mret tt
  | Q_shutdown h => _ ← shutdown.run r h; mret tt
  | Q_udp_send h b sa => _ ← udp_send.run r h b sa; mret tt
  | Q_work l task => _ ← work.run r l task; mret tt
  | Q_getaddrinfo l host serv hints => _ ← getaddrinfo.run_ r l host serv hints; mret tt
  | Q_getnameinfo l sa flags => _ ← getnameinfo.run r l sa flags; mret tt
  | Q_path l q => _ ← path_op_run r l q; mret tt
  | Q_file h q => _ ← file_op_run r h q; mret tt
  | Q_close h => _ ← close.run r h; mret tt
  | Q_read h b offset => _ ← read.run r h b offset; mret tt
  | Q_fs_write h b offset => _ ← fs_write.run r h b offset; mret tt
  | Q_sendfile out h offset length => _ ← sendfile.run r out h offset length; mret tt
  | Q_output io b offset info => _ ← output.run r io b offset info; mret tt
  end.

Definition handle_run (h : loc) (c : handle_op) : M unit :=
  _ ← match c with
      | H_read c => run_cmd h c
      | H_start rest => watchers.start h rest
      | H_stop => watchers.stop h
      | H_timer_start timeout => timer.start h timeout
      | H_timer_stop => timer.stop h
      | H_signal_start cmd => signal.start_with h cmd
      | H_signal_stop => signal.stop h
      | H_fs_event_start => fs_event.start h
      | H_fs_event_stop => fs_event.stop h
      | H_send => async.send h
      | H_listen backlog c => stream.listen h backlog c
      | H_inherit n s => handle_ref s;; process.inherit_stdio_io h n (Some s);; mret 0
      | H_inherit_fd n fd => process.inherit_stdio_fd h n fd;; mret 0
      | H_spawn file argv flags => process.spawn h file argv flags
      end; mret tt.

Definition event_set_cb (c : cb) (p : props) : props :=
  match p with
  | P_watcher _ _ _ => watchers.set_cb c p
  | P_timer _ _ => timer.set_cb c p
  | P_signal _ _ _ => signal.set_cb c p
  | P_fs_event _ _ _ _ => fs_event.set_cb c p
  | P_async _ => async.set_cb c p
  | _ => p
  end.

Definition set_run (s : set_op) : M unit :=
  match s with
  | B_on_destroy h c => on_destroy_set h c
  | B_on_event h c => mod_props h (event_set_cb c)
  | B_on_io h alloc_cb read_cb => mod_io h (set_io_cbs alloc_cb read_cb)
  | B_on_exit h c => process.on_exit h c
  | B_request_destroy r c => request.on_destroy r c
  | B_sink b c => buffer_set_sink b c
  | B_len b i v => Members.buffer.set_len b i v
  | B_loop_destroy l c => loop.on_destroy l c
  | B_loop_exit l c => loop.on_exit l c
  end.

Definition event_run (h : loc) (e : event_op) : M unit :=
  match e with
  | V_watch rest => watchers.watch_cb h rest
  | V_poll status events => poll.poll_cb h status events
  | V_fs_event filename events status => fs_event.fs_event_cb h filename events status
  | V_timer => timer.timer_cb h
  | V_signal => signal.signal_cb h
  | V_connection status => stream.connection_cb h status
  | V_exit exit_status termination_signal => process.exit_cb h exit_status termination_signal
  | V_read suggested_size nread info =>
      c ← io_alloc_cb h suggested_size; io_read_cb h nread c info
  end.

(** *** Completion of a request

    libuv hands the structure back with the handles it was given and with its result. *)
Definition handed_back (toks : list token) (result : Z) (u : uv_req_t) : uv_req_t :=
  let handles := omap (λ t, match t with TH h => Some h | _ => None end) toks in
  {| ur_type := ur_type u; ur_fs_type := ur_fs_type u; ur_data := ur_data u;
     ur_handle := head handles; ur_send_handle := head (tail handles); ur_loop := ur_loop u;
     ur_result := result; ur_path := ur_path u; ur_addrinfo := ur_addrinfo u |}.

(** The callback libuv was given. *)
Definition dispatch (a : armed) (result : Z) : M unit :=
  let o := arm_obj a in
  match arm_cb a with
  | cb_connect => connect.connect_cb o result
  | cb_write => write.write_cb o result
  | cb_write2 => write.write2_cb o result
  | cb_shutdown => shutdown.shutdown_cb o result
  | cb_udp_send => udp_send.udp_send_cb o result
  | cb_work => work.after_work_cb o result
  | cb_getaddrinfo => getaddrinfo.getaddrinfo_cb o result
  | cb_getnameinfo => getnameinfo.getnameinfo_cb o result
  | cb_file_open => file.open_cb o
  | cb_file_read => file.read_cb o result
  | cb_async => async.async_cb o
  | cb_fs t => fs_callback t o
  end.

Definition complete (k : nat) (result : Z) : M unit :=
  w ← get;
  match w_armed w !! k with
  | None => mret tt
  | Some a =>
      modify (upd_armed (λ l, take k l ++ drop (S k) l));;
      modify (upd_reqs (alter (set_r_uv (handed_back (arm_toks a) result)) (arm_obj a)));;
      dispatch a result
  end.

Definition exec (o : op) : M unit :=
  match o with
  | O_var k a => var_run k a
  | O_new x n => p ← new_run n; modify (upd_vars (<[x := p]>))
  | O_request r q => req_run r q
  | O_handle h c => handle_run h c
  | O_set s => set_run s
  | O_event h e => event_run h e
  | O_complete k result => complete k result
  end.
End system.

(** ** When an operation may be applied

    The classes of the objects are those of the operation, the client has what it names in a
    variable, and a request is not run again while it is pending. *)

Definition ptr_of (k : family) : option loc → ptr :=
  match k with K_handle => PH | K_request => PR | K_buffer => PB | K_loop => PL end.

(** [x] is a variable of the family [k]. *)
Definition var_at (k : family) (x : positive) (w : world) : Prop :=
  ∃ o, w_vars w !! x = Some (ptr_of k o).

Definition var_enabled (k : family) (a : var_op) (w : world) : Prop :=
  match a with
  | A_copy x that | A_move x that => w_vars w !! x = None ∧ var_at k that w
  | A_assign x that | A_move_assign x that => x ≠ that ∧ var_at k x w ∧ var_at k that w
  | A_swap x that => var_at k x w ∧ var_at k that w
  | A_destroy x => var_at k x w
  end.

Definition client_has (w : world) (l : list token) : Prop := Forall (held [] w) l.

(** An object that has a counter above zero; the pointers of libuv do not keep objects alive. *)
Definition still_there (w : world) (t : token) : Prop := ∃ n, refs_of w t = Some n ∧ n ≠ 0.

(** The object that is returned exists still; a file of its own, which is made for a request that
    was run on a path, is put on the loop of the request. *)
Definition got_there (i : rinst) (g : getter) (w : world) : Prop :=
  match g, r_props i with
  | G_handle, _ => Forall (still_there w) (opt_tok TH (ur_handle (r_uv i)))
  | G_send_handle, _ => Forall (still_there w) (opt_tok TH (ur_send_handle (r_uv i)))
  | G_loop, _ => Forall (still_there w) (opt_tok TL (ur_loop (r_uv i)))
  | G_file, R_fs _ uh _ _ _ _ => Forall (still_there w) (opt_tok TH uh)
  | G_out, R_fs _ _ _ _ _ uo => Forall (still_there w) (opt_tok TH uo)
  | G_path_or_file, R_fs _ (Some h) _ _ _ _ => still_there w (TH h)
  | G_path_or_file, R_fs _ None _ _ _ _ =>
      match ur_loop (r_uv i) with Some l => client_has w [TL l] | None => False end
  | _, _ => False
  end.

(** The kinds of endpoints that a descriptor may be guessed to be. *)
Definition endpoint_type (t : uv_handle_type) : bool :=
  match t with UV_NAMED_PIPE | UV_TCP | UV_TTY | UV_UDP | UV_FILE => true | _ => false end.

(** A handle whose connections are put on its own loop. *)
Definition acceptor (h : loc) (w : world) (P : hinst → Prop) : Prop :=
  client_has w [TH h] ∧ ∃ i l, w_handles w !! h = Some i ∧
    h_loop i = Some l ∧ uh_loop (h_uv i) = Some l ∧ P i.

Definition new_enabled `{E : Env} (n : new_op) (w : world) : Prop :=
  match n with
  | N_buffer lens => lens = [] ∨ fits lens
  | N_handle l _ => client_has w [TL l]
  | N_guess l fd => client_has w [TL l] ∧
      endpoint_type (guessed_type fd w) = true
  | N_accept server => acceptor server w (λ i,
      uh_type (h_uv i) = UV_TCP ∨ uh_type (h_uv i) = UV_NAMED_PIPE)
  | N_accept_pending server => acceptor server w (λ _,
      pending_type server w = UV_TCP ∨ pending_type server w = UV_NAMED_PIPE)
  | N_get r g => client_has w [TR r] ∧ ∃ i, w_reqs w !! r = Some i ∧ got_there i g w
  | N_loop_of h => client_has w [TH h] ∧ ∃ i, w_handles w !! h = Some i ∧
      Forall (still_there w) (opt_tok TL (uh_loop (h_uv i)))
  | _ => True
  end.

(** A file system request whose class has a file, but neither a buffer nor a target. *)
Definition file_class (r : loc) (w : world) : Prop :=
  ∃ p c, request_view r p c w ∧ fs_ptrs (fs_set_file None p) = Some (None, None, None).

(** An output request is used again for the kind of endpoint it has been used for; a datagram
    has the address of its peer. *)
Definition output_class (r io : loc) (info : option (list Z)) (w : world) : Prop :=
  ∃ i, w_handles w !! io = Some i ∧ ∃ q, w_reqs w !! r = Some q ∧
    match endpoint_request i with
    | None => True
    | Some t => is_Some (output.storage_as t (r_props q)) ∧
        match r_props q with R_fs _ _ _ _ _ (Some _) => False | _ => True end ∧
        match t, info with
        | UV_UDP_SEND, Some peer => (sizeof_sockaddr_in6 ≤ length peer)%nat
        | _, _ => True
        end
    end.

Definition req_enabled (r : loc) (q : req_op) (w : world) : Prop :=
  client_has w [TR r] ∧
  match q with
  | Q_on_request _ => True
  | Q_connect h _ | Q_connect_pipe h _ | Q_shutdown h => client_has w [TH h]
  | Q_write h b => client_has w [TH h; TB b] ∧ unarmed r w
  | Q_write2 h b s => client_has w [TH h; TB b; TH s] ∧ unarmed r w
  | Q_udp_send h b sa =>
      client_has w [TH h; TB b] ∧ unarmed r w ∧ (sizeof_sockaddr_in6 ≤ length sa)%nat
  | Q_work _ _ => unarmed r w
  | Q_getaddrinfo _ _ _ _ | Q_getnameinfo _ _ _ => True
  | Q_path _ q => unarmed r w ∧ file_class r w ∧
      (path_only q = true → ∃ p c, request_view r p c w ∧ fs_set_file None p = p)
  | Q_file h _ => client_has w [TH h] ∧ unarmed r w ∧ file_class r w
  | Q_close h => client_has w [TH h] ∧ unarmed r w ∧ file_class r w ∧ idle_file w h
  | Q_read h b _ | Q_fs_write h b _ => client_has w [TH h; TB b] ∧ unarmed r w ∧
      ∃ own uh ub o ps c, request_view r (R_fs own uh ub o ps None) c w
  | Q_sendfile out h _ _ => client_has w [TH out; TH h] ∧ unarmed r w ∧
      (∃ own uh o ps uo c, request_view r (R_fs own uh None o ps uo) c w) ∧
      h_iface <$> w_handles w !! out = Some If_file
  | Q_output io b _ info => client_has w [TH io; TB b] ∧ unarmed r w ∧ output_class r io info w
  end.

Definition props_at (h : loc) (w : world) (f : props → Prop) : Prop :=
  ∃ p, h_props <$> w_handles w !! h = Some p ∧ f p.
Definition is_watcher (p : props) : Prop := ∃ k st c, p = P_watcher k st c.
Definition is_timer (p : props) : Prop := ∃ b c, p = P_timer b c.
Definition is_signal (p : props) : Prop := ∃ st n c, p = P_signal st n c.
Definition is_fs_event (p : props) : Prop := ∃ st fl pa c, p = P_fs_event st fl pa c.
Definition is_async (p : props) : Prop := ∃ c, p = P_async c.
Definition is_stream (p : props) : Prop := ∃ io c, p = P_stream io c.
Definition is_process (p : props) : Prop := ∃ ps, p = P_process ps.
Definition is_file (p : props) : Prop := ∃ io f, p = P_file io f.

Definition handle_enabled (h : loc) (c : handle_op) (w : world) : Prop :=
  client_has w [TH h] ∧
  match c with
  | H_read _ => ∃ ifc, h_iface <$> w_handles w !! h = Some ifc ∧ props_at h w (λ p,
      reads_by_uv ifc p ∧ ∃ io, io_of p = Some io ∧ io_rdlock io = false)
  | H_start _ | H_stop => props_at h w is_watcher
  | H_timer_start _ | H_timer_stop => props_at h w is_timer
  | H_signal_start cmd => props_at h w is_signal ∧ sig_started cmd = true
  | H_signal_stop => props_at h w is_signal
  | H_fs_event_start | H_fs_event_stop => props_at h w is_fs_event
  | H_send => props_at h w is_async
  | H_listen _ _ => props_at h w is_stream
  | H_inherit n s => client_has w [TH s] ∧ h ≠ s ∧ 0 ≤ n < 2^32 - 1 ∧
      props_at h w (λ p, ∃ ps, p = P_process ps ∧ stdio_consistent ps) ∧
      props_at s w (λ p, not_process p = true)
  | H_inherit_fd n _ => 0 ≤ n < 2^32 - 1 ∧
      props_at h w (λ p, ∃ ps, p = P_process ps ∧ stdio_consistent ps)
  | H_spawn _ _ _ => props_at h w is_process
  end.

Definition set_enabled (s : set_op) (w : world) : Prop :=
  match s with
  | B_on_destroy h _ | B_on_event h _ => client_has w [TH h]
  | B_on_io h _ _ => client_has w [TH h] ∧ props_at h w (λ p, is_Some (io_of p))
  | B_on_exit h _ => client_has w [TH h] ∧ props_at h w is_process
  | B_request_destroy r _ => client_has w [TR r]
  | B_sink b _ => client_has w [TB b]
  | B_len b i _ => client_has w [TB b] ∧
      is_Some ((b_bufs <$> w_bufs w !! b) ≫= λ l, l !! i)
  | B_loop_destroy l _ | B_loop_exit l _ => client_has w [TL l]
  end.

(** A stream or a datagram endpoint with the functions of the client. *)
Definition is_reader (p : props) : Prop :=
  match p with
  | P_stream io _ | P_udp io => is_Some (io_on_alloc io) ∧ is_Some (io_on_read io)
  | _ => False
  end.

(** The delivery of a chunk up to the end of the client's function, which must leave the handle
    alive when a chunk was read: [io_read_cb] goes on to use it. *)
Definition deliver `{E : Env} (h : loc) (suggested_size nread info : Z) : M unit :=
  c ← io_alloc_cb h suggested_size; read_call h nread c info.
Definition outlives (h : loc) (m : M unit) (w : world) : Prop :=
  match m w with Ok _ w' => (0 < owned w' (TH h))%nat | _ => True end.

(** A started handle keeps itself alive. *)
Definition self_owned (h : loc) (w : world) : Prop :=
  ∃ i, w_handles w !! h = Some i ∧ h_refs i ≠ 0 ∧ props_self (h_props i) = true.

(** libuv reports events of active handles: of started ones; for a timer, of ones with a
    repeat interval; of listening sockets and of processes that the client still has. *)
Definition event_enabled `{E : Env} (h : loc) (e : event_op) (w : world) : Prop :=
  match e with
  | V_watch rest => self_owned h w ∧ props_at h w is_watcher ∧ args_toks rest = []
  | V_poll _ _ => self_owned h w ∧ props_at h w is_watcher
  | V_fs_event _ _ _ => self_owned h w ∧ props_at h w is_fs_event
  | V_timer => self_owned h w ∧ props_at h w is_timer ∧
      rp_ret (uv_exec (w_log w) f_timer_get_repeat [V_handle (Some h)]) ≠ 0
  | V_signal => self_owned h w ∧ props_at h w is_signal
  | V_connection _ => client_has w [TH h] ∧ props_at h w is_stream
  | V_exit _ _ => client_has w [TH h] ∧ props_at h w is_process
  | V_read suggested_size nread info => self_owned h w ∧ props_at h w is_reader ∧
      (nread ≤ 0 ∨ outlives h (deliver h suggested_size nread info) w)
  end.

Definition complete_enabled (k : nat) (w : world) : Prop :=
  ∃ a, w_armed w !! k = Some a ∧
    match arm_cb a with
    | cb_file_read => False
    | cb_async => props_at (arm_obj a) w is_async
    | cb_file_open => props_at (arm_obj a) w is_file
    | _ => True
    end.

Definition enabled `{E : Env} (o : op) (w : world) : Prop :=
  match o with
  | O_var k a => var_enabled k a w
  | O_new x n => w_vars w !! x = None ∧ new_enabled n w
  | O_request r q => req_enabled r q w
  | O_handle h c => handle_enabled h c w
  | O_set s => set_enabled s w
  | O_event h e => event_enabled h e w
  | O_complete k _ => complete_enabled k w
  end.
