(* ===== verification/Callbacks.v ===== *)
(** * What the client's function finds when a request is done

    The ledger theorems say which references a callback gives back. Here is what it tells the
    client: the callback is a call of the client's function, with the request (and the buffer)
    as parameters, in a state where the request has the status libuv reported, and the release of
    the references afterwards, whatever becomes of the call. *)

From Stdlib Require Import ZArith Lia.
From stdpp Require Import base gmap list strings option.
From S2P Require Import Prelude World Objects Ledger Wp Refs Release Rules HRules Trace Calls.
From S2P Require Import Netstruct ReqStream Buffer Handle Io ReqFs FsLedger ReqMisc Requests Ops.

Local Open Scope Z_scope.

(** The parameters of the client's function and the references that are released after it, in
    this order, for the callback [c] of the request [i] at [r]. *)
Definition told (c : cbname) (r : loc) (i : rinst) : option (list arg * list token) :=
  let self := A_ptr (PR (Some r)) in
  match c, r_props i, ur_handle (r_uv i), ur_send_handle (r_uv i) with
  | (cb_connect | cb_shutdown), _, Some h, _ => Some ([self], [TR r; TH h])
  | cb_write, R_write b, Some h, _ => Some ([self; A_ptr (PB b)], [TR r; TH h])
  | cb_write2, R_write b, Some h, Some s => Some ([self; A_ptr (PB b)], [TR r; TH h; TH s])
  | cb_udp_send, R_udp_send b _, Some h, _ => Some ([self; A_ptr (PB b)], [TR r; TH h])
  | (cb_work | cb_getaddrinfo | cb_getnameinfo), _, _, _ => Some ([self], [TR r])
  | cb_fs t, R_fs _ uh ub _ _ uo, _, _ =>
      if fs_shape t uh ub uo then
        Some (self :: match ub with Some _ => [A_ptr (PB ub)] | None => [] end,
              TR r :: opt_tok TH uh ++ opt_tok TH uo)
      else None
  | _, _, _, _ => None
  end.

(** The status: file system requests have theirs in the structure. *)
Definition told_status (c : cbname) (i : rinst) (result : Z) : Z :=
  match c with cb_fs _ => int32 (ur_result (r_uv i)) | _ => result end.

(** The write queue of a file, from which the bytes of a request are taken before the call. *)
Definition io_type (i : hinst) : uv_handle_type :=
  match h_iface i with If_file => UV_FILE | _ => uh_type (h_uv i) end.

Definition told_queue (c : cbname) (p : rprops) (w : world) : loc → iface * props → iface * props :=
  match c, p with
  | cb_fs UV_FS_WRITE, R_fs _ (Some h) _ _ ps _ => grown h (- ps)
  | cb_fs UV_FS_SENDFILE, R_fs _ _ _ _ ps (Some out) =>
      if decide (io_type <$> w_handles w !! out = Some UV_FILE) then grown out (- ps)
      else untouched true
  | _, _ => untouched true
  end.

Section callbacks.
Context `{E : Env}.

(** [m] under guards that release [ts]. *)
Definition release_after (ts : list token) (m : M unit) : M unit :=
  foldl (λ m t, finally m (tok_unref t)) m ts.

(** The call, of which the parameters have been made and the event recorded. *)
Definition client_call (f : Z) (args : list arg) : M unit :=
  args' ← user_cb f args; drop_args args'.

Lemma finally_at (m m' : M unit) fin w w' : m w = m' w' → finally m fin w = finally m' fin w'.
Proof. unfold finally. by intros ->. Qed.

Lemma release_after_at ts (m m' : M unit) w w' :
  m w = m' w' → release_after ts m w = release_after ts m' w'.
Proof.
  unfold release_after. revert m m'. induction ts as [|t ts IH]; intros m m' H; [exact H|].
  cbn. by apply IH, finally_at.
Qed.

(** The state [w1] in which the function [f] is called for the request [r] of [w]; [g] has been
    done to the properties of the handles. *)
Definition called_in (r : loc) (status f : Z) (args : list arg)
    (g : loc → iface * props → iface * props) (w w1 : world) : Prop :=
  w_log w1 = E_cb f args :: w_log w ∧
  r_uv_error <$> w_reqs w1 !! r = Some status ∧
  (∀ t, refs_of w1 t = counted [TR r] (refs_of w) t) ∧
  w_armed w1 = w_armed w ∧ ∀ h, handles_of w1 h = g h <$> handles_of w h.

Lemma call_request_cb_at r f rest i w :
  w_reqs w !! r = Some i → r_refs i ≠ 0 →
  ∃ w1, call_request_cb r f rest w = client_call f (A_ptr (PR (Some r)) :: rest) w1 ∧
    w1 = upd_log (cons (E_cb f (A_ptr (PR (Some r)) :: rest)))
      (upd_reqs (<[r := set_r_refs (r_refs i + 1) i]>) w).
Proof.
  intros Hi H0. eexists. split; [|reflexivity].
  unfold call_request_cb, request_ref, invoke, call_user, client_call, mbind, M_bind, mod_r, get_r.
  rewrite Hi. unfold ref_count.inc. rewrite (proj2 (Z.eqb_neq _ _) H0).
  cbn. unfold mbind, M_bind. by rewrite Hi.
Qed.

Lemma called_in_intro r status f args g i w w0 :
  w_reqs w !! r = Some i → w_log w0 = w_log w → (∀ t, refs_of w0 t = refs_of w t) →
  w_armed w0 = w_armed w → (∀ h, handles_of w0 h = g h <$> handles_of w h) →
  ∀ j, w_reqs w0 !! r = Some j → r_uv_error j = status →
  called_in r status f args g w (upd_log (cons (E_cb f args))
    (upd_reqs (<[r := set_r_refs (r_refs j + 1) j]>) w0)).
Proof.
  intros Hi HL HR HA HH j Hj He. split; [cbn; by rewrite HL|]. split.
  { cbn. rewrite lookup_insert_eq. by rewrite <-He. }
  split; [|by split].
  - intros t. unfold counted. rewrite <-HR.
    change (refs_of (upd_log _ ?w) t) with (refs_of w t).
    rewrite <-(tok_set_req r j (r_refs j + 1) w0 Hj), refs_of_tok_set. cbn [cnt].
    case_decide as Hd.
    + subst t. rewrite decide_True by done. cbn. rewrite Hj. cbn. f_equal.
    + rewrite decide_False by congruence. destruct (refs_of w0 t); [|done]. cbn. f_equal. lia.
Qed.

(** After the status has been set. *)
Definition with_status (r : loc) (status : Z) (i : rinst) (w : world) : world :=
  upd_reqs (<[r := set_r_error status i]>) w.

Lemma with_status_refs r status i w t : w_reqs w !! r = Some i →
  refs_of (with_status r status i w) t = refs_of w t.
Proof. intros Hi. destruct t; cbn; try done. by eapply fmap_insert_same. Qed.

Lemma mod_status_at r status i {A} (k : M A) w :
  w_reqs w !! r = Some i →
  (mod_r r (set_r_error status);; k) w = k (with_status r status i w).
Proof. intros Hi. unfold mod_r, get_r, mbind, M_bind. by rewrite Hi. Qed.

Lemma get_with_status r status i {A} (k : rinst → M A) w :
  (get_r r ≫= k) (with_status r status i w) = k (set_r_error status i) (with_status r status i w).
Proof. unfold get_r, mbind, M_bind, with_status. cbn. by rewrite lookup_insert_eq. Qed.

Lemma fs_status_at r i {A} (k : rinst → M A) w :
  w_reqs w !! r = Some i →
  let st := int32 (ur_result (r_uv i)) in
  (fs_status r ≫= k) w = k (set_r_error st i) (with_status r st i w).
Proof.
  intros Hi st. unfold fs_status, mod_r, get_r, mbind, M_bind. rewrite !Hi. cbn.
  by rewrite lookup_insert_eq.
Qed.

(** The part under the guards calls the function. *)
Lemma body_calls r status f rest g i w wa w0 (body : M unit) :
  w_reqs w !! r = Some i → r_refs i ≠ 0 →
  body wa = call_request_cb r f rest w0 → w_log w0 = w_log w →
  (∀ t, refs_of w0 t = refs_of w t) →
  w_armed w0 = w_armed w → (∀ h, handles_of w0 h = g h <$> handles_of w h) →
  (∃ j, w_reqs w0 !! r = Some j ∧ r_uv_error j = status) →
  ∃ w1, called_in r status f (A_ptr (PR (Some r)) :: rest) g w w1 ∧
    body wa = client_call f (A_ptr (PR (Some r)) :: rest) w1.
Proof.
  intros Hi H0 Hb HL HR HA HH (j & Hj & He).
  assert (r_refs j = r_refs i) as Hrj.
  { specialize (HR (TR r)). cbn in HR. rewrite Hi, Hj in HR. by injection HR. }
  destruct (call_request_cb_at r f rest j w0 Hj) as (w1 & Hc & ->); [congruence|].
  eexists. split; [|by rewrite Hb]. by eapply called_in_intro.
Qed.

(** The write queue of a file is adjusted before the call. *)
Definition adjusts (g : loc → iface * props → iface * props) (m : M unit) (w : world) : Prop :=
  ∃ w', m w = Ok tt w' ∧ w_log w' = w_log w ∧ w_reqs w' = w_reqs w ∧
    (∀ t, refs_of w' t = refs_of w t) ∧ w_armed w' = w_armed w ∧
    ∀ h, handles_of w' h = g h <$> handles_of w h.

Lemma adjusts_wqs h d w : is_Some (refs_of w (TH h)) → adjusts (grown h d) (add_wqs h d) w.
Proof.
  intros [n (i & Hi & _)%fmap_Some]. unfold adjusts, add_wqs, mod_file, mod_props, mod_h, get_h, mbind, M_bind.
  rewrite Hi. eexists. split; [reflexivity|]. split_and!; [done|done| |done|].
  - intros []; cbn; try done. by eapply fmap_insert_same.
  - intros h'. unfold handles_of, grown. cbn. case_decide as Hd.
    + subst h'. by rewrite lookup_insert_eq, Hi.
    + rewrite lookup_insert_ne by done. by rewrite option_fmap_id.
Qed.

Lemma adjusts_out h d w : is_Some (refs_of w (TH h)) →
  adjusts (if decide (io_type <$> w_handles w !! h = Some UV_FILE) then grown h d else untouched true)
    (sendfile.add_out h d) w.
Proof.
  intros H. pose proof H as [n (i & Hi & _)%fmap_Some].
  unfold adjusts, sendfile.add_out, uv_interface_type, mbind, M_bind, get_h. rewrite Hi. cbn.
  fold (io_type i). destruct (decide (io_type i = UV_FILE)) as [Ht|Ht].
  - rewrite decide_True by congruence. by apply adjusts_wqs.
  - rewrite decide_False by congruence. eexists. split_and!; try done. intros h'.
    apply untouched_handles.
Qed.

Lemma guarded_call r status f rest g i w w' (body : M unit) rel :
  let wa := with_status r status i w in
  w_reqs w !! r = Some i → r_refs i ≠ 0 →
  w_log w' = w_log wa → w_reqs w' = w_reqs wa → (∀ t, refs_of w' t = refs_of wa t) →
  w_armed w' = w_armed wa → (∀ h, handles_of w' h = g h <$> handles_of wa h) →
  body wa = call_request_cb r f rest w' →
  ∃ w1, called_in r status f (A_ptr (PR (Some r)) :: rest) g w w1 ∧
    release_after rel body wa = release_after rel (client_call f (A_ptr (PR (Some r)) :: rest)) w1.
Proof.
  intros wa Hi H0 HL Hq HR HA HH Hb.
  destruct (body_calls r status f rest g i w _ w' body Hi H0 Hb) as (w1 & H1 & H2).
  - by rewrite HL.
  - intros t. rewrite HR. by apply with_status_refs.
  - done.
  - done.
  - rewrite Hq. cbn. rewrite lookup_insert_eq. by eexists.
  - exists w1. split; [done|by apply release_after_at].
Qed.

(** One callback: the status, the handle, the guards, the function. *)
Ltac told_call Hi Hf rest rel :=
  erewrite mod_status_at by exact Hi; try rewrite get_with_status; cbn;
  repeat match goal with H : ur_handle (r_uv _) = Some _ |- _ => rewrite H; clear H end;
  eapply (guarded_call _ _ _ rest (untouched true) _ _ _ _ rel);
    [exact Hi|done|reflexivity|reflexivity|done|reflexivity|intros ?; apply (untouched_handles true)|];
  rewrite get_with_status; cbn; rewrite Hf;
  repeat match goal with H : r_props _ = _ |- _ => rewrite H; clear H end; reflexivity.

Lemma told_write r i f b h result w :
  w_reqs w !! r = Some i → r_refs i ≠ 0 → r_request_cb i = Some f →
  r_props i = R_write b → ur_handle (r_uv i) = Some h →
  let args := [A_ptr (PR (Some r)); A_ptr (PB b)] in
  ∃ w1, called_in r result f args (untouched true) w w1 ∧
    write.write_cb r result w = release_after [TR r; TH h] (client_call f args) w1.
Proof. intros Hi H0 Hf Hp Hh args. unfold args, write.write_cb.
  told_call Hi Hf [A_ptr (PB b)] [TR r; TH h]. Qed.

Lemma told_plain c r i f args rel toks result w :
  (∀ t, c ≠ cb_fs t) →
  w_reqs w !! r = Some i → r_refs i ≠ 0 → r_request_cb i = Some f → told c r i = Some (args, rel) →
  ∃ w1, called_in r result f args (untouched true) w w1 ∧
    dispatch {| arm_cb := c; arm_obj := r; arm_toks := toks |} result w =
      release_after rel (client_call f args) w1.
Proof.
  intros Hc Hi H0 Hf Ht. unfold dispatch. cbn [arm_cb arm_obj].
  destruct c; unfold told in Ht; try discriminate Ht; try (by destruct (Hc t)).
  - destruct (ur_handle (r_uv i)) as [h|] eqn:Hh; [|by destruct (r_props i)].
    assert (args = [A_ptr (PR (Some r))] ∧ rel = [TR r; TH h]) as [-> ->]
      by (destruct (r_props i); by simplify_eq).
    unfold connect.connect_cb.
    told_call Hi Hf (@nil arg) [TR r; TH h].
  - destruct (r_props i) eqn:Hp, (ur_handle (r_uv i)) eqn:Hh; simplify_eq. by eapply told_write.
  - destruct (r_props i) eqn:Hp, (ur_handle (r_uv i)) eqn:Hh, (ur_send_handle (r_uv i)) eqn:Hs;
      simplify_eq. edestruct (told_write r i f) as (w1 & H1 & H2); [done..|]. exists w1.
    split; [exact H1|]. unfold write.write2_cb, get_r at 1, mbind at 1, M_bind at 1. rewrite Hi, Hs.
    cbn. by apply finally_at.
  - destruct (ur_handle (r_uv i)) as [h|] eqn:Hh; [|by destruct (r_props i)].
    assert (args = [A_ptr (PR (Some r))] ∧ rel = [TR r; TH h]) as [-> ->]
      by (destruct (r_props i); by simplify_eq).
    unfold shutdown.shutdown_cb.
    told_call Hi Hf (@nil arg) [TR r; TH h].
  - destruct (r_props i) eqn:Hp, (ur_handle (r_uv i)) eqn:Hh; simplify_eq.
    unfold udp_send.udp_send_cb.
    match goal with |- context [called_in _ _ _ (_ :: ?rest)] => match goal with |- context [release_after ?rel] => told_call Hi Hf rest rel end end.
  - assert (args = [A_ptr (PR (Some r))] ∧ rel = [TR r]) as [-> ->]
      by (destruct (r_props i); by simplify_eq).
    unfold work.after_work_cb. told_call Hi Hf (@nil arg) [TR r].
  - assert (args = [A_ptr (PR (Some r))] ∧ rel = [TR r]) as [-> ->]
      by (destruct (r_props i); by simplify_eq).
    unfold getaddrinfo.getaddrinfo_cb. told_call Hi Hf (@nil arg) [TR r].
  - assert (args = [A_ptr (PR (Some r))] ∧ rel = [TR r]) as [-> ->]
      by (destruct (r_props i); by simplify_eq).
    unfold getnameinfo.getnameinfo_cb. told_call Hi Hf (@nil arg) [TR r].
Qed.

(** The callbacks of the file system requests. *)
Section fs.
Variables (r : loc) (i : rinst) (f : Z) (w : world).
Variables (own : bool) (uh ub uo : option loc) (off ps : Z).
Hypotheses (Hi : w_reqs w !! r = Some i) (H0 : r_refs i ≠ 0) (Hf : r_request_cb i = Some f)
  (Hp : r_props i = R_fs own uh ub off ps uo).

Let st : Z := int32 (ur_result (r_uv i)).
Let wa : world := with_status r st i w.

Lemma lookup_wa w' : w_reqs w' = w_reqs wa → w_reqs w' !! r = Some (set_r_error st i).
Proof. intros ->. apply lookup_insert_eq. Qed.

Lemma call_fs_cb_at w' : w_reqs w' = w_reqs wa → call_fs_cb r w' = call_request_cb r f [] w'.
Proof.
  intros H%lookup_wa. unfold call_fs_cb, get_r, mbind, M_bind. rewrite H. cbn. by rewrite Hf.
Qed.
Lemma call_fs_buf_cb_at w' : w_reqs w' = w_reqs wa →
  call_fs_buf_cb r w' = call_request_cb r f [A_ptr (PB ub)] w'.
Proof.
  intros H%lookup_wa. unfold call_fs_buf_cb, get_r, mbind, M_bind. rewrite H. cbn. by rewrite Hp, Hf.
Qed.

(** [m] is the callback with the guards [rel] around [body]. *)
Definition tells (g : loc → iface * props → iface * props) (m : M unit) (rest : list arg)
    (rel : list token) : Prop :=
  let args := A_ptr (PR (Some r)) :: rest in
  ∃ w1, called_in r st f args g w w1 ∧ m w = release_after rel (client_call f args) w1.

Lemma tells_body g (m body : M unit) rest rel w' :
  m w = release_after rel body wa →
  w_log w' = w_log wa → w_reqs w' = w_reqs wa → (∀ t, refs_of w' t = refs_of wa t) →
  w_armed w' = w_armed wa → (∀ h, handles_of w' h = g h <$> handles_of wa h) →
  body wa = call_request_cb r f rest w' → tells g m rest rel.
Proof.
  intros Hm HL Hq HR HA HH Hb.
  destruct (guarded_call r st f rest g i w w' body rel Hi H0 HL Hq HR HA HH Hb) as (w1 & H1 & H2).
  exists w1. split; [done|by rewrite Hm].
Qed.

Lemma tells_plain (m body : M unit) rest rel :
  m w = release_after rel body wa → body wa = call_request_cb r f rest wa →
  tells (untouched true) m rest rel.
Proof. intros Hm Hb. eapply tells_body; [done..| |exact Hb]. intros. apply (untouched_handles true). Qed.

Lemma tells_path : tells (untouched true) (path_cb r) [] [TR r].
Proof.
  apply (tells_plain _ (call_fs_cb r)); [|by apply call_fs_cb_at].
  unfold path_cb. by rewrite (fs_status_at r i) by done.
Qed.

Lemma tells_file h : uh = Some h → tells (untouched true) (file_cb r) [] [TR r; TH h].
Proof.
  intros Hh. apply (tells_plain _ (call_fs_cb r)); [|by apply call_fs_cb_at].
  unfold file_cb. rewrite (fs_status_at r i) by done. cbn. by rewrite Hp, Hh.
Qed.

Lemma tells_path_or_file : tells (untouched true) (path_or_file_cb r) [] (TR r :: opt_tok TH uh).
Proof.
  apply (tells_plain _ (call_fs_cb r)); [|by apply call_fs_cb_at].
  unfold path_or_file_cb. rewrite (fs_status_at r i) by done. cbn. rewrite Hp. by destruct uh.
Qed.

Lemma tells_read h : uh = Some h → tells (untouched true) (read.read_cb r) [A_ptr (PB ub)] [TR r; TH h].
Proof.
  intros Hh. apply (tells_plain _ (call_fs_buf_cb r)); [|by apply call_fs_buf_cb_at].
  unfold read.read_cb. rewrite (fs_status_at r i) by done. cbn. by rewrite Hp, Hh.
Qed.

(** The write queue of the file is adjusted first. *)
Lemma tells_write h : uh = Some h → is_Some (refs_of w (TH h)) →
  tells (grown h (- ps)) (fs_write.write_cb r) [A_ptr (PB ub)] [TR r; TH h].
Proof.
  intros Hh Hn. destruct (adjusts_wqs h (- ps) wa) as (w' & Hw & HL & Hq & HR & HA & HH); [done|].
  apply (tells_body _ _ (add_wqs h (- ps);; call_fs_buf_cb r) _ _ w'); try done.
  - unfold fs_write.write_cb. rewrite (fs_status_at r i) by done. cbn. by rewrite Hp, Hh.
  - unfold mbind, M_bind. rewrite Hw. by apply call_fs_buf_cb_at.
Qed.

Lemma tells_sendfile h out : uh = Some h → uo = Some out → is_Some (refs_of w (TH out)) →
  tells (if decide (io_type <$> w_handles w !! out = Some UV_FILE) then grown out (- ps)
    else untouched true) (sendfile.sendfile_cb r) [] [TR r; TH h; TH out].
Proof.
  intros Hh Ho Hn. destruct (adjusts_out out (- ps) wa) as (w' & Hw & HL & Hq & HR & HA & HH); [done|].
  apply (tells_body _ _ (sendfile.add_out out (- ps);; call_fs_cb r) _ _ w'); try done.
  - unfold sendfile.sendfile_cb. rewrite (fs_status_at r i) by done. cbn. by rewrite Hp, Hh, Ho.
  - unfold mbind, M_bind. rewrite Hw. by apply call_fs_cb_at.
Qed.

Lemma tells_fs t : fs_shape t uh ub uo = true →
  Forall (λ t, is_Some (refs_of w t)) (opt_tok TH uh ++ opt_tok TH uo) →
  tells (told_queue (cb_fs t) (R_fs own uh ub off ps uo) w) (fs_callback t r) (match ub with Some _ => [A_ptr (PB ub)] | None => [] end)
    (TR r :: opt_tok TH uh ++ opt_tok TH uo).
Proof.
  intros Hs HF. pose proof tells_path as H1. pose proof tells_path_or_file as H2.
  pose proof tells_file as H3. pose proof tells_read as H4. pose proof tells_write as H5.
  pose proof tells_sendfile as H6. clear Hp.
  destruct t, uh as [h|], ub as [b|], uo as [o|]; try discriminate Hs; cbn in *;
    rewrite ?list.Forall_cons in HF; destruct_and?; eauto.
Qed.
End fs.

(** Every callback of a request whose properties are those of its class. *)
Lemma client_told c r i f args rel toks result w :
  w_reqs w !! r = Some i → r_refs i ≠ 0 → r_request_cb i = Some f →
  told c r i = Some (args, rel) → Forall (λ t, is_Some (refs_of w t)) rel →
  ∃ w1, called_in r (told_status c i result) f args (told_queue c (r_props i) w) w w1 ∧
    dispatch {| arm_cb := c; arm_obj := r; arm_toks := toks |} result w =
      release_after rel (client_call f args) w1.
Proof.
  intros Hi H0 Hf Ht HF. destruct c; try by eapply told_plain.
  unfold told in Ht. destruct (r_props i) as [|?|? ?|? ?|own uh ub off ps uo|?] eqn:Hp; try done.
  assert (fs_shape t uh ub uo = true ∧
    args = A_ptr (PR (Some r)) :: match ub with Some _ => [A_ptr (PB ub)] | None => [] end ∧
    rel = TR r :: opt_tok TH uh ++ opt_tok TH uo) as (Hs & -> & ->)
    by (destruct (fs_shape t uh ub uo); by simplify_eq).
  apply list.Forall_cons in HF as [_ HF].
  exact (tells_fs r i f w own uh ub uo off ps Hi H0 Hf Hp t Hs HF).
Qed.

(** ** The end of a pending request *)

(** The buffers go to the client's function, everything else is released. *)
Definition chunk_args (toks : list token) : list arg :=
  omap (λ t, match t with TB b => Some (A_ptr (PB (Some b))) | _ => None end) toks.
Definition guarded (toks : list token) : list token :=
  omap (λ t, match t with TB _ => None | _ => Some t end) toks.

(** The callback that libuv is making is not pending any more. *)
Definition disarm (k : nat) (w : world) : world := upd_armed (λ l, take k l ++ drop (S k) l) w.

Lemma told_armed a result i u w :
  arm_ok w a → TR (arm_obj a) ∈ arm_toks a → w_reqs w !! arm_obj a = Some i →
  r_uv i = handed_back (arm_toks a) result u →
  ∃ rel, told (arm_cb a) (arm_obj a) i =
      Some (A_ptr (PR (Some (arm_obj a))) :: chunk_args (arm_toks a), rel) ∧
    rel ≡ₚ guarded (arm_toks a).
Proof.
  destruct a as [c r toks]. unfold arm_ok. cbn [arm_cb arm_obj arm_toks]. intros A Hin Hi Hu.
  rewrite Hi in A. cbn in A. unfold told. rewrite Hu.
  destruct c.
  - destruct A as (h & ->). eexists. split; [by destruct (r_props i)|]. cbn. solve_Permutation.
  - destruct A as (h & b & -> & [= ->]). eexists. split; [done|]. cbn. solve_Permutation.
  - destruct A as (h & b & s & -> & [= ->]). eexists. split; [done|]. cbn. solve_Permutation.
  - destruct A as (h & ->). eexists. split; [by destruct (r_props i)|]. cbn. solve_Permutation.
  - destruct A as (h & b & q & -> & [= ->]). eexists. split; [done|]. cbn. solve_Permutation.
  - subst toks. by eexists.
  - subst toks. by eexists.
  - subst toks. by eexists.
  - subst toks. by apply list_elem_of_singleton in Hin.
  - destruct A as (b & -> & _). by apply list_elem_of_singleton in Hin.
  - subst toks. by apply list_elem_of_singleton in Hin.
  - destruct A as (own & uh & ub & off & ps & uo & [= ->] & Hs & ->). rewrite Hs.
    exists (TR r :: opt_tok TH uh ++ opt_tok TH uo).
    split; destruct uh, ub, uo; try done; cbn; solve_Permutation.
Qed.

Lemma completion_calls k a result i f F X w :
  Inv F X w → w_armed w !! k = Some a → TR (arm_obj a) ∈ arm_toks a →
  w_reqs w !! arm_obj a = Some i → r_request_cb i = Some f →
  let args := A_ptr (PR (Some (arm_obj a))) :: chunk_args (arm_toks a) in
  let status := match arm_cb a with cb_fs _ => int32 result | _ => result end in
  ∃ rel w1, rel ≡ₚ guarded (arm_toks a) ∧
    called_in (arm_obj a) status f args (told_queue (arm_cb a) (r_props i) w) (disarm k w) w1 ∧
    complete k result w = release_after rel (client_call f args) w1.
Proof.
  intros I Ha Hin Hi Hf args status.
  destruct (Inv_disarm (take k (w_armed w)) a (drop (S k) (w_armed w)) F X w I) as [A I1].
  { symmetry. by apply take_drop_middle. }
  set (j := set_r_uv (handed_back (arm_toks a) result) i).
  set (w2 := upd_reqs (alter (set_r_uv (handed_back (arm_toks a) result)) (arm_obj a))
    (disarm k w)).
  assert (w_reqs w2 !! arm_obj a = Some j) as Hj by (cbn; by rewrite lookup_alter_eq, Hi).
  assert (∀ t, refs_of w2 t = refs_of w t) as HR
    by (intros []; cbn; try done; by apply fmap_alter_same).
  assert (∀ t, t ∈ arm_toks a → is_Some (refs_of w t)) as HL.
  { intros t Ht. destruct (Inv_live _ _ _ t I1) as (n & Hn & _); [|by exists n].
    apply live_frame, elem_of_app. by left. }
  assert (arm_ok w2 a) as A2.
  { unfold arm_ok in *. cbn. rewrite lookup_alter_eq. rewrite Hi in A |- *. cbn in *. done. }
  destruct (told_armed a result j (r_uv i) w2 A2 Hin Hj eq_refl) as (rel & Ht & Hp).
  exists rel.
  destruct (client_told (arm_cb a) (arm_obj a) j f args rel (arm_toks a) result w2)
    as (w1 & (H1 & H2 & H3 & H5 & H6) & H4); try done.
  - intros H0. destruct (Inv_live _ _ _ (TR (arm_obj a)) I1) as (n & Hn & Hz).
    { apply live_frame, elem_of_app. by left. }
    cbn in Hn. rewrite Hi in Hn. injection Hn as <-. by apply Hz.
  - rewrite list.Forall_forall. intros t Htr. rewrite HR. apply HL.
    rewrite Hp in Htr. unfold guarded in Htr. apply list_elem_of_omap in Htr as (u & Hu & Hut).
    destruct u; by simplify_eq.
  - exists w1. split; [done|]. split.
    + split_and!; [done| |intros t; rewrite H3; unfold counted; by rewrite HR|done|exact H6].
      rewrite H2. unfold status, told_status. by destruct (arm_cb a).
    + rewrite <-H4. unfold complete, get, mbind, M_bind. rewrite Ha. by destruct a.
Qed.

(** C21: When libuv ends a pending request, in any state in which the ledger holds, the
    client's function is called exactly once: with the request and the buffer the
    request has kept, in a state where nothing else has been called, the request has the
    status libuv reports (narrowed to int for a file system request), one more
    reference, the parameter's, and a write has left the write queue of its file; then
    the references libuv had on the request and its handles are released, whatever
    becomes of the call. *)
Theorem pending_told k a result i f F X w :
  Inv F X w → w_armed w !! k = Some a → TR (arm_obj a) ∈ arm_toks a →
  w_reqs w !! arm_obj a = Some i → r_request_cb i = Some f →
  let args := A_ptr (PR (Some (arm_obj a))) :: chunk_args (arm_toks a) in
  let status := match arm_cb a with cb_fs _ => int32 result | _ => result end in
  ∃ rel w1, rel ≡ₚ guarded (arm_toks a) ∧
    called_in (arm_obj a) status f args (told_queue (arm_cb a) (r_props i) w) (disarm k w) w1 ∧
    complete k result w = release_after rel (client_call f args) w1.
Proof. apply completion_calls. Qed.
End callbacks.
