(* ===== verification/WriteQueue.v ===== *)
(** * The write queue of a file

    [fs::write] counts the bytes of its pending requests in the properties of the file
    ([write_queue_size]), which [io::write_queue_size()] answers and clients use to slow a reader
    down. What [run] adds and what the callback takes off are in the tables of Requests and
    Callbacks; here they are put together. *)

From Stdlib Require Import ZArith Lia.
From stdpp Require Import base gmap list strings option.
From S2P Require Import Prelude World Objects Ledger Wp Refs Release Rules HRules Trace Calls.
From S2P Require Import Netstruct ReqStream Buffer Handle Io ReqFs FsLedger ReqMisc Requests.
From S2P Require Import Ops Callbacks.

Local Open Scope Z_scope.

(** A queue that [std::size_t] holds. *)
Definition size_in_range (x : iface * props) : Prop :=
  match x.2 with P_file _ f => 0 ≤ fi_wqs f < 2 ^ 64 | _ => True end.

Lemma grown_here h d x : grown h d h x = grow d x.
Proof. unfold grown. by rewrite decide_True. Qed.

Lemma grown_zero h h' x : size_in_range x → grown h 0 h' x = x.
Proof.
  intros Hx. unfold grown. case_decide; [|done]. destruct x as [ifc p].
  destruct p as [| | |io f| | | | | |]; try done. destruct f as [oc rb rl rd q cl]. cbn in Hx.
  unfold grow, set_wqs. cbn. unfold w64. by rewrite Z.add_0_r, Z.mod_small.
Qed.

Lemma grown_undone h d h' x : size_in_range x → grown h (- d) h' (grown h d h' x) = x.
Proof. intros Hx. rewrite grown_back. by apply grown_zero. Qed.

Section write_queue.
Context `{E : Env} `{EO : !EnvOk}.
Hypothesis no_writes : ∀ L f args, f = f_fs_req_cleanup ∨ f = f_lseek64 →
  rp_writes (uv_exec L f args) = [].

(** The queue of a file and a request to write to it. *)
Lemma write_counted r h b offset own uh ub o ps f x i F X w :
  Inv F X w → Forall (live F w) [TH h; TB b; TR r] → unarmed r w →
  w_handles w !! h = Some i → handles_of w h = Some x → size_in_range x →
  (λ i, (r_props i, r_request_cb i)) <$> w_reqs w !! r =
    Some (R_fs own uh ub o ps None, Some f) →
  let n := fs_write.wr_size (default [] (bufs_of w b)) in
  wp (fs_write.run r h b offset) (λ z w', Inv F X w' ∧
    if z <? 0 then handles_of w' h = Some x
    else handles_of w' h = Some (grow n x) ∧
      w_armed w' = fs_arm UV_FS_WRITE r [TH h; TB b; TR r] :: w_armed w ∧
      ∃ off, (λ i, (r_props i, r_request_cb i)) <$> w_reqs w' !! r =
        Some (R_fs own (Some h) (Some b) off n None, Some f)) w.
Proof.
  intros I HL U Hi Hx Hr HP n.
  pose proof (wp_read_write F X r h b offset own uh ub o ps (Some f) w I HL U HP) as [_ H1].
  pose proof HP as (j & Hj & [= Hjp Hjf])%fmap_Some.
  pose proof (wp_file_request no_writes r h (F_write b offset) (Some f) i F X w I HL
    ltac:(by rewrite Hj; cbn; rewrite <-Hjf) Hi) as H2.
  unfold wp in *. cbn [file_req_run] in H2. destruct (fs_write.run r h b offset w) as [z w'| | | |]; try done.
  destruct H1 as [I' HA]. destruct H2 as (_ & _ & _ & _ & _ & HH & _ & _ & _ & p & Hp & HPp).
  split; [done|]. specialize (HH h). rewrite Hx in HH. cbn in HH. rewrite grown_here in HH.
  cbn [fs_submitted] in HA.
  destruct (z <? 0) eqn:Hz.
  - rewrite HH. rewrite (proj2 (Z.leb_gt 0 z)) by lia. f_equal.
    rewrite <-(grown_here h). by apply grown_zero.
  - assert ((0 <=? z) = true) as Hp0 by lia. rewrite Hp0 in HH. rewrite submitted_pos in HA by lia.
    split; [exact HH|]. split; [exact HA|]. rewrite Hp, HPp, Hj. cbn. rewrite <-Hjp. by eexists.
Qed.

(** C36: The bytes an accepted fs::write with a callback adds to the write queue of its
    file are taken off again when its callback is made, whatever libuv reports, so that
    the client's function finds the file as it was before run(); a refused one leaves
    the queue unchanged. *)
Theorem write_queue_balanced r h b offset own uh ub o ps f x i F X w :
  Inv F X w → Forall (live F w) [TH h; TB b; TR r] → unarmed r w →
  w_handles w !! h = Some i → handles_of w h = Some x → size_in_range x →
  (λ i, (r_props i, r_request_cb i)) <$> w_reqs w !! r =
    Some (R_fs own uh ub o ps None, Some f) →
  let args := [A_ptr (PR (Some r)); A_ptr (PB (Some b))] in
  wp (fs_write.run r h b offset) (λ z w',
    if z <? 0 then handles_of w' h = Some x
    else handles_of w' h = Some (grow (fs_write.wr_size (default [] (bufs_of w b))) x) ∧
      ∀ result, ∃ rel w1, complete 0 result w' = release_after rel (client_call f args) w1 ∧
        handles_of w1 h = Some x) w.
Proof.
  intros I HL U Hi Hx Hr HP args.
  eapply wp_mono; [by eapply (write_counted r h b offset)|]. cbn. intros z w' [I' Hz].
  destruct (z <? 0); [done|]. destruct Hz as (HH & HA & off & (j & Hj & [= Hjp Hjf])%fmap_Some). symmetry in Hjp, Hjf.
  split; [done|]. intros result.
  destruct (completion_calls 0 (fs_arm UV_FS_WRITE r [TH h; TB b; TR r]) result j f F X w')
    as (rel & w1 & _ & (_ & _ & _ & _ & HQ) & Hc); [done|by rewrite HA|cbn; list_in|done|done|].
  exists rel, w1. split; [exact Hc|]. rewrite HQ. change (handles_of (disarm 0 w') h) with (handles_of w' h).
  rewrite HH. cbn. rewrite Hjp. cbn. f_equal.
  rewrite <-(grown_here h). by apply grown_undone.
Qed.
End write_queue.
