(* ===== verification/Throws.v ===== *)
(** * A client's function that throws

    The callbacks of the requests hold the references libuv had in guards ([ref_guard] of
    utility.hpp), so that they are given back also when the client's function throws. Callbacks
    says that they call the function under these guards; here is what becomes of an exception. *)

From Stdlib Require Import ZArith Lia.
From stdpp Require Import base gmap list option.
From S2P Require Import Prelude World Objects Ledger Wp Refs Release Rules Trace Calls Handle Ops Callbacks.

Local Open Scope Z_scope.

(** [w'] is [w] after the references [ts] have been given back. *)
Record lowered (ts : list token) (w w' : world) : Prop := {
  lw_refs t : refs_of w' t = (λ n, n - Z.of_nat (cnt t ts)) <$> refs_of w t;
  lw_armed : w_armed w' = w_armed w;
  lw_vars : w_vars w' = w_vars w;
  lw_log : w_log w' = w_log w;
  lw_bufs b : bufs_of w' b = bufs_of w b;
  lw_handles h : handles_of w' h = handles_of w h;
  lw_reqs r : reqs_of w' r = reqs_of w r
}.

(** Others own the objects of [ts] too. *)
Definition shared (ts : list token) (w : world) : Prop :=
  ∀ t, t ∈ ts → ∃ n, refs_of w t = Some n ∧ Z.of_nat (cnt t ts) < n.

Lemma lowered_nil w : lowered [] w w.
Proof. split; try done. intros t. destruct (refs_of w t); [|done]. cbn. f_equal. lia. Qed.

Lemma lowered_cons t ts n w w' b b' :
  refs_of w t = Some n → lowered ts (upd_unwinding b (tok_set t (n - 1) (upd_unwinding b' w))) w' →
  lowered (t :: ts) w w'.
Proof.
  intros Hn [HR HA HV HL HB HH HQ].
  assert (∀ u, refs_of (upd_unwinding b (tok_set t (n - 1) (upd_unwinding b' w))) u =
    if decide (t = u) then Some (n - 1) else refs_of w u) as Hr.
  { intros u. change (refs_of (upd_unwinding b ?w0) u) with (refs_of w0 u).
    rewrite refs_of_tok_set. change (refs_of (upd_unwinding b' w) u) with (refs_of w u).
    case_decide as Hd; [subst u|done]. change (refs_of (upd_unwinding b' w) t) with (refs_of w t).
    by rewrite Hn. }
  split.
  - intros u. rewrite HR, Hr. cbn [cnt]. repeat case_decide; subst; try done.
    rewrite Hn. cbn. f_equal. lia.
  - rewrite HA. by destruct t.
  - rewrite HV. by destruct t.
  - rewrite HL. by destruct t.
  - intros c. rewrite HB. unfold bufs_of. destruct t; cbn; try done. by apply fmap_alter_same.
  - intros h. rewrite HH. unfold handles_of. destruct t; cbn; try done. by apply fmap_alter_same.
  - intros r. rewrite HQ. unfold reqs_of. destruct t; cbn; try done. by apply fmap_alter_same.
Qed.

Lemma shared_cons t ts n w b b' :
  shared (t :: ts) w → refs_of w t = Some n →
  shared ts (upd_unwinding b (tok_set t (n - 1) (upd_unwinding b' w))).
Proof.
  intros HS Hn u Hu. destruct (HS u) as (m & Hm & Hc); [by right|].
  change (refs_of (upd_unwinding b ?w0) u) with (refs_of w0 u). rewrite refs_of_tok_set.
  change (refs_of (upd_unwinding b' w)) with (refs_of w). cbn [cnt] in Hc.
  case_decide as Hd; case_decide; try congruence; [|by exists m].
  subst u. rewrite Hn in Hm |- *. injection Hm as ->. exists (m - 1). split; [done|lia].
Qed.

Lemma lowered_trans ts ts' w w1 w2 : lowered ts w w1 → lowered ts' w1 w2 → lowered (ts ++ ts') w w2.
Proof.
  intros [HR HA HV HL HB HH HQ] [HR' HA' HV' HL' HB' HH' HQ']. split; try congruence.
  intros t. rewrite HR', HR, cnt_app. destruct (refs_of w t); [|done]. cbn. f_equal. lia.
Qed.

Lemma shared_rest ts ts' w w1 : shared (ts ++ ts') w → lowered ts w w1 → shared ts' w1.
Proof.
  intros HS HL t Ht. destruct (HS t) as (n & Hn & Hc); [apply elem_of_app; by right|].
  rewrite cnt_app in Hc. exists (n - Z.of_nat (cnt t ts)). rewrite (lw_refs _ _ _ HL), Hn.
  split; [done|lia].
Qed.

Lemma shared_app_l ts ts' w : shared (ts ++ ts') w → shared ts w.
Proof.
  intros HS t Ht. destruct (HS t) as (n & Hn & Hc); [apply elem_of_app; by left|].
  rewrite cnt_app in Hc. exists n. split; [done|lia].
Qed.

Lemma lowered_perm ts ts' w w' : ts ≡ₚ ts' → lowered ts w w' → lowered ts' w w'.
Proof. intros HP [HR HA HV HL HB HH HQ]. split; try done. intros t. rewrite HR. by rewrite (cnt_proper t _ _ HP). Qed.

Lemma shared_perm ts ts' w : ts ≡ₚ ts' → shared ts w → shared ts' w.
Proof. intros HP HS t Ht. rewrite <-(cnt_proper t _ _ HP). apply HS. by rewrite HP. Qed.

Section throws.
Context `{E : Env}.

Lemma unref_shared t n w : refs_of w t = Some n → 1 < n → tok_unref t w = Ok tt (tok_set t (n - 1) w).
Proof.
  intros Hn H1.
  pose proof (wp_tok_unref_eq t n (λ _ w', w' = tok_set t (n - 1) w) w Hn ltac:(lia) eq_refl) as H.
  unfold wp in H. by destruct (tok_unref t w) as [[] w'| | | |]; subst.
Qed.

Lemma lowered_one t n w : refs_of w t = Some n → lowered [t] w (tok_set t (n - 1) w).
Proof.
  intros Hn. apply (lowered_cons t [] n w _ (w_unwinding w) (w_unwinding w) Hn).
  replace (upd_unwinding (w_unwinding w) w) with w by by destruct w.
  replace (upd_unwinding (w_unwinding w) (tok_set t (n - 1) w)) with (tok_set t (n - 1) w);
    [apply lowered_nil|]. by destruct w, t.
Qed.

(** Parameters that are destroyed while others own their objects. *)
Lemma drop_args_shared args w : shared (args_toks args) w →
  ∃ w', drop_args args w = Ok tt w' ∧ lowered (args_toks args) w w'.
Proof.
  revert w. induction args as [|x args IH]; intros w HS; [by exists w; split; [|apply lowered_nil]|].
  change (args_toks (x :: args)) with (arg_toks x ++ args_toks args) in *.
  assert (shared (args_toks args ++ arg_toks x) w) as HS'
    by (eapply shared_perm; [|exact HS]; apply Permutation_app_comm).
  destruct (IH w) as (w1 & Hd & HL); [by eapply shared_app_l|].
  pose proof (shared_rest _ _ _ _ HS' HL) as H1. cbn [drop_args]. unfold mbind, M_bind. rewrite Hd.
  assert (∃ w', drop_arg x w1 = Ok tt w' ∧ lowered (arg_toks x) w1 w') as (w' & Hx & HL').
  { destruct x as [p| |]; try (by exists w1; split; [|apply lowered_nil]). cbn in H1 |- *.
    unfold drop_ptr.
    assert (∃ ts, ptr_toks p = ts ∧ (ts = [] ∨ ∃ t, ts = [t])) as (ts & Hp & Hts)
      by (eexists; split; [reflexivity|]; destruct p as [[]|[]|[]|[]]; cbn; eauto).
    rewrite Hp in H1 |- *. destruct Hts as [->|(t & ->)]; [by exists w1; split; [|apply lowered_nil]|].
    destruct (H1 t) as (n & Hn & Hc); [by left|]. cbn in Hc. rewrite decide_True in Hc by done.
    exists (tok_set t (n - 1) w1). split; [|by apply lowered_one].
    unfold noexcept. by rewrite (unref_shared t n) by (done || lia). }
  exists w'. split; [exact Hx|]. eapply lowered_perm; [apply Permutation_app_comm|].
  by eapply lowered_trans.
Qed.

(** An exception passes through the guards, which give their references back. *)
Lemma release_after_exn ts (m : M unit) e w w1 :
  m w = Exn e w1 → shared ts w1 → ∃ w', release_after ts m w = Exn e w' ∧ lowered ts w1 w'.
Proof.
  unfold release_after. revert m w1. induction ts as [|t ts IH]; intros m w1 Hm HS; cbn [foldl].
  - exists w1. split; [done|apply lowered_nil].
  - destruct (HS t) as (n & Hn & Hc); [by left|]. cbn in Hc. rewrite decide_True in Hc by done.
    set (w2 := upd_unwinding (w_unwinding w1) (tok_set t (n - 1) (upd_unwinding true w1))).
    destruct (IH (finally m (tok_unref t)) w2) as (w' & Hr & HL).
    + unfold finally. rewrite Hm. by rewrite (unref_shared t n) by (done || lia).
    + by apply shared_cons.
    + exists w'. split; [done|]. by eapply lowered_cons.
Qed.

(** C22: When the client's function for a pending request throws, whatever it has done
    before, the exception passes through the callback unchanged and every reference
    libuv had on the request and its handles is given back, as long as others own the
    objects; nothing else changes on the way. *)
Theorem exception_passes k a result i f e (T : world → Prop) F X w :
  Inv F X w → w_armed w !! k = Some a → TR (arm_obj a) ∈ arm_toks a →
  w_reqs w !! arm_obj a = Some i → r_request_cb i = Some f →
  let args := A_ptr (PR (Some (arm_obj a))) :: chunk_args (arm_toks a) in
  let status := match arm_cb a with cb_fs _ => int32 result | _ => result end in
  (∀ w1, called_in (arm_obj a) status f args (told_queue (arm_cb a) (r_props i) w) (disarm k w) w1 →
    ∃ w2, user_cb f args w1 = Exn e w2 ∧ shared (guarded (arm_toks a)) w2 ∧ T w2) →
  ∃ w2 w', T w2 ∧ complete k result w = Exn e w' ∧ lowered (guarded (arm_toks a)) w2 w'.
Proof.
  intros I Ha Hin Hi Hf args status Hthrow.
  destruct (completion_calls k a result i f F X w) as (rel & w1 & HP & Hc & ->); [done..|].
  destruct (Hthrow w1 Hc) as (w2 & He & HS & HT). exists w2.
  destruct (release_after_exn rel (client_call f args) e w1 w2) as (w' & Hr & HL).
  - unfold client_call, mbind, M_bind. by rewrite He.
  - by eapply shared_perm; [symmetry|].
  - exists w'. split_and!; [done..|]. by eapply lowered_perm.
Qed.
End throws.
