(* ===== verification/Flow.v ===== *)
(** * Two clients that keep a reader in step with its writers

    src/example/cpio-uvcc.cpp copies its input to its output, src/example/tee2.cpp also to files.
    Both pause the reading when too many bytes wait to be written and resume it when few are left.
    Their callbacks are modelled here over what the library promises: a reading command does what
    its table says ([command_table] of ReadCmd, which the classes implement), and a request that
    libuv accepts ends with one call of its callback (Requests and Callbacks). Cpio has the
    callbacks of the first client over the library itself. *)

From Stdlib Require Import ZArith Lia.
From stdpp Require Import base list relations.
From S2P Require Import Prelude World Ledger Buffer ReadCmd.

Local Open Scope Z_scope.

Definition BUFFER_SIZE : Z := 8192.
Definition WRITE_QUEUE_SIZE_UPPER_LIMIT : Z := 128 * BUFFER_SIZE.
Definition WRITE_QUEUE_SIZE_LOWER_LIMIT : Z := 16 * BUFFER_SIZE.

(** What the library and libuv answer in the course of one callback. *)
Record answers := {
  an_write : Z;          (* run() of the request that writes to the output *)
  an_files : list Z;     (* ... of the requests that write to the files *)
  an_queue : Z;          (* write_queue_size() of the output *)
  an_resume : Z          (* the start of the reading that read_resume() makes *)
}.

(** A command in the state [st] of the endpoint that is read; libuv answers [ret]. *)
Definition command (c : read_cmd) (ret : Z) (st : rdcmd) : rdcmd :=
  effect_state (command_table c st) st ret.
Definition command_if (trigger_condition : bool) (c : read_cmd) (ret : Z) (st : rdcmd) : rdcmd :=
  if trigger_condition then command c ret st else st.

Definition sum (sizes : list Z) : Z := foldr Z.add 0 sizes.

#[global] Arguments sum : simpl never.

Lemma sum_cons n l : sum (n :: l) = n + sum l.
Proof. done. Qed.

Lemma sum_app l l' : sum (l ++ l') = sum l + sum l'.
Proof. induction l as [|x l IH]; [done|]. cbn [app]. rewrite !sum_cons, IH. lia. Qed.

Lemma sum_delete l k n : l !! k = Some n → sum (delete k l) = sum l - n.
Proof.
  intros Hk. rewrite <-(take_drop_middle l k n Hk) at 2. rewrite delete_take_drop, !sum_app, sum_cons.
  lia.
Qed.

(** The bytes that wait, as far as libuv knows: not more than those of the pending requests. *)
Definition queue_ok (q : Z) (sizes : list Z) : Prop := 0 ≤ q ≤ sum sizes.

Lemma queue_pending q sizes : queue_ok q sizes → 0 < q → sizes ≠ [].
Proof. intros [_ H] Hq ->. change (sum []) with 0 in H. lia. Qed.

Lemma queue_empty q : queue_ok q [] → q = 0.
Proof. unfold queue_ok. change (sum []) with 0. lia. Qed.

Lemma resumed ret st : command C_resume ret st ≠ RD_PAUSE.
Proof. destruct st; cbn; try done. by destruct (ret <? 0). Qed.

(** ** cpio-uvcc.cpp *)

Module cpio.

(** The state of [in] and the sizes of the writes pending on [out], oldest first; [c_queue] is no
    variable of the program: the bytes that wait for [out], as libuv has last answered. *)
Record state := State { c_in : rdcmd; c_out : list Z; c_queue : Z }.

Definition set_in (st : rdcmd) (s : state) : state := State st (c_out s) (c_queue s).
Definition ask (a : answers) (s : state) : state := State (c_in s) (c_out s) (an_queue a).

Definition read_cb (nread : Z) (a : answers) (s : state) : state :=
  if nread <? 0 then set_in (command C_stop 0 (c_in s)) s
  else if 0 <? nread then
    let s := if 0 <=? an_write a then State (c_in s) (c_out s ++ [nread]) (c_queue s)
             else set_in (command C_stop 0 (c_in s)) s in
    let s := ask a s in
    set_in (command_if (WRITE_QUEUE_SIZE_UPPER_LIMIT <=? an_queue a) C_pause 0 (c_in s)) s
  else s.

Definition write_cb (status : Z) (a : answers) (s : state) : state :=
  if status <? 0 then set_in (command C_stop 0 (c_in s)) s
  else
    let s := ask a s in
    set_in (command_if (an_queue a <=? WRITE_QUEUE_SIZE_LOWER_LIMIT) C_resume (an_resume a) (c_in s)) s.

(** libuv reads while the endpoint is started, not more than the buffer holds, and completes the
    writes in their order; what waits for the output grows by the writes only. *)
Inductive step (s : state) : state → Prop :=
| Read nread a :
    reading (c_in s) = true → nread ≤ BUFFER_SIZE →
    queue_ok (an_queue a) (c_out (read_cb nread a s)) →
    an_queue a ≤ c_queue s + Z.max 0 nread → step s (read_cb nread a s)
| Written n out status a :
    c_out s = n :: out → queue_ok (an_queue a) out → an_queue a ≤ c_queue s →
    step s (write_cb status a (State (c_in s) out (c_queue s))).

Definition start : state := State RD_START [] 0.

(** While [in] is read the queue is below the limit, and one chunk may go beyond it. *)
Record flows (s : state) : Prop := {
  fl_pending : c_in s = RD_PAUSE → c_out s ≠ [];
  fl_reading : reading (c_in s) = true → c_queue s < WRITE_QUEUE_SIZE_UPPER_LIMIT;
  fl_bound : c_queue s < WRITE_QUEUE_SIZE_UPPER_LIMIT + BUFFER_SIZE
}.

Lemma read_flows nread a s :
  flows s → reading (c_in s) = true → nread ≤ BUFFER_SIZE →
  queue_ok (an_queue a) (c_out (read_cb nread a s)) → an_queue a ≤ c_queue s + Z.max 0 nread →
  flows (read_cb nread a s).
Proof.
  intros [Hp Hr Hb] Hs Hn Hq Hd. specialize (Hr Hs).
  assert (c_in s ≠ RD_PAUSE) as Hnp by by destruct (c_in s).
  unfold read_cb in *. destruct (nread <? 0); [by split|].
  destruct (0 <? nread) eqn:H0; [|by split]. cbn in *.
  destruct (WRITE_QUEUE_SIZE_UPPER_LIMIT <=? an_queue a) eqn:Hu; cbn.
  - split; cbn; [|by destruct (0 <=? an_write a), (c_in s)|lia].
    intros _. eapply queue_pending; [exact Hq|]. clear -Hu.
    unfold WRITE_QUEUE_SIZE_UPPER_LIMIT, BUFFER_SIZE in Hu. lia.
  - split; cbn; [by destruct (0 <=? an_write a)|lia..].
Qed.

Lemma write_flows n out status a s :
  flows s → c_out s = n :: out → queue_ok (an_queue a) out → an_queue a ≤ c_queue s →
  flows (write_cb status a (State (c_in s) out (c_queue s))).
Proof.
  intros [Hp Hr Hb] Ho Hq Hd. unfold write_cb. destruct (status <? 0); [by split|]. cbn.
  unfold command_if. destruct (an_queue a <=? WRITE_QUEUE_SIZE_LOWER_LIMIT) eqn:Hl; cbn.
  - split; cbn; [intros H; by apply resumed in H| |lia]. intros _. clear -Hl.
    unfold WRITE_QUEUE_SIZE_LOWER_LIMIT, WRITE_QUEUE_SIZE_UPPER_LIMIT, BUFFER_SIZE in *. lia.
  - split; cbn; [|intros H; specialize (Hr H); lia|lia].
    intros _ ->. rewrite (queue_empty _ Hq) in Hl. done.
Qed.

(** C38: Flow control of cpio-uvcc.cpp: in every reachable state in which the reading is
    paused a write is pending, whose callback can resume it; while the input is read
    less than the upper limit is queued, and never more than one chunk beyond it. *)
Theorem cpio_flows s :
  rtc step start s →
  (c_in s = RD_PAUSE → c_out s ≠ []) ∧
  (reading (c_in s) = true → c_queue s < WRITE_QUEUE_SIZE_UPPER_LIMIT) ∧
  c_queue s < WRITE_QUEUE_SIZE_UPPER_LIMIT + BUFFER_SIZE.
Proof.
  intros R. assert (flows s) as [Hp Hr Hb]; [|done].
  revert R. apply (rtc_invariant flows); [|done].
  intros v v' F [nread a|n out status a]; [by apply read_flows|by eapply write_flows].
Qed.
End cpio.

(** ** tee2.cpp *)

Module tee2.

(** The state of [in], the sizes of the writes pending on [out] and on the files, and the variable
    [file_write_queues_size]; [t_failed] is no variable of the program: the bytes of the writes to
    files that have failed. *)
Record state := State {
  t_in : rdcmd; t_out : list Z; t_files : list Z; file_write_queues_size : Z; t_failed : Z
}.

Definition set_in (st : rdcmd) (s : state) : state :=
  State st (t_out s) (t_files s) (file_write_queues_size s) (t_failed s).
Definition set_out (out : list Z) (s : state) : state :=
  State (t_in s) out (t_files s) (file_write_queues_size s) (t_failed s).
Definition set_files (files : list Z) (n : Z) (s : state) : state :=
  State (t_in s) (t_out s) files n (t_failed s).
Definition set_failed (n : Z) (s : state) : state :=
  State (t_in s) (t_out s) (t_files s) (file_write_queues_size s) n.

(** [total_write_pending_bytes], a [std::size_t]. *)
Definition total (a : answers) (s : state) : Z := w64 (an_queue a + file_write_queues_size s).

(** The lambda given to [in.read_start]. *)
Definition read_cb (nread : Z) (a : answers) (s : state) : state :=
  let s :=
    if nread <? 0 then set_in (command C_stop 0 (t_in s)) s
    else if 0 <? nread then
      if 0 <=? an_write a then set_out (t_out s ++ [nread]) s
      else set_in (command C_stop 0 (t_in s)) s
    else s in
  set_in (command_if (WRITE_QUEUE_SIZE_UPPER_LIMIT <=? total a s) C_pause 0 (t_in s)) s.

(** One round of the loop over the files: libuv answers [z] to the request. *)
Definition write_to_file (n : Z) (s : state) (z : Z) : state :=
  if 0 <=? z then set_files (t_files s ++ [n]) (w64 (file_write_queues_size s + n)) s else s.
Definition write_to_files (n : Z) (a : answers) (s : state) : state :=
  foldl (write_to_file n) s (an_files a).

Definition resume (a : answers) (s : state) : state :=
  set_in (command_if (total a s <=? WRITE_QUEUE_SIZE_LOWER_LIMIT) C_resume (an_resume a) (t_in s)) s.

(** [n] is the length of the buffer. *)
Definition write_to_stdout_cb (status n : Z) (a : answers) (s : state) : state :=
  resume a (if status <? 0 then set_in (command C_stop 0 (t_in s)) s else write_to_files n a s).

Definition write_to_file_cb (status n : Z) (a : answers) (s : state) : state :=
  if status <? 0 then s
  else resume a (set_files (t_files s) (w64 (file_write_queues_size s - n)) s).

(** libuv completes the writes in any order. *)
Inductive event :=
| Read (nread : Z) (a : answers)
| Written (k : nat) (status : Z) (a : answers)
| File_written (k : nat) (status : Z) (a : answers).

(** The handler of an event that may occur in [s], and the output queue that libuv then has. *)
Definition handle (e : event) (s : state) : option (state * list Z) :=
  match e with
  | Read nread a =>
      if reading (t_in s) && (nread <=? BUFFER_SIZE)
      then let s' := read_cb nread a s in Some (s', t_out s') else None
  | Written k status a =>
      n ← t_out s !! k;
      let s := set_out (delete k (t_out s)) s in Some (write_to_stdout_cb status n a s, t_out s)
  | File_written k status a =>
      n ← t_files s !! k;
      let s := set_files (delete k (t_files s)) (file_write_queues_size s) s in
      let s := set_failed (t_failed s + if status <? 0 then n else 0) s in
      Some (write_to_file_cb status n a s, t_out s)
  end.
Definition answers_of (e : event) : answers :=
  match e with Read _ a | Written _ _ a | File_written _ _ a => a end.

Definition step (s s' : state) : Prop :=
  ∃ e out, handle e s = Some (s', out) ∧ queue_ok (an_queue (answers_of e)) out.

Definition start : state := State RD_START [] [] 0 0.

(** *** The counter *)

Record wf (s : state) : Prop := {
  wf_out : Forall (Z.lt 0) (t_out s);
  wf_files : Forall (Z.lt 0) (t_files s);
  wf_failed : 0 ≤ t_failed s;
  wf_counter : file_write_queues_size s = w64 (sum (t_files s) + t_failed s)
}.

Lemma w64_add a b : w64 (w64 a + b) = w64 (a + b).
Proof. unfold w64. by rewrite Zplus_mod_idemp_l. Qed.

Lemma wf_set_in st s : wf s → wf (set_in st s).
Proof. by intros []. Qed.

Lemma wf_read nread a s : wf s → wf (read_cb nread a s).
Proof.
  intros [Ho Hf Hz Hc]. unfold read_cb. apply wf_set_in. destruct (nread <? 0); [by split|].
  destruct (0 <? nread) eqn:Hn; [|by split]. destruct (0 <=? an_write a); [|by split].
  split; try done. apply Forall_app. split; [done|]. constructor; [lia|constructor].
Qed.

Lemma wf_write_to_files n a s : 0 < n → wf s → wf (write_to_files n a s).
Proof.
  intros Hn. unfold write_to_files. revert s. induction (an_files a) as [|z zs IH]; intros s W; [done|].
  cbn. apply IH. unfold write_to_file. destruct (0 <=? z); [|done]. destruct W as [Ho Hf Hz Hc].
  split; cbn; try done.
  - apply Forall_app. split; [done|]. constructor; [done|constructor].
  - rewrite Hc, w64_add, sum_app, sum_cons. f_equal. change (sum []) with 0. lia.
Qed.

Lemma wf_resume a s : wf s → wf (resume a s).
Proof. apply wf_set_in. Qed.

Lemma Forall_taken (P : Z → Prop) l k n : l !! k = Some n → Forall P l → P n ∧ Forall P (delete k l).
Proof.
  intros Hk HF. split; [by eapply (proj1 (Forall_lookup _ _) HF)|].
  rewrite delete_take_drop. by apply Forall_app; split; [apply Forall_take|apply Forall_drop].
Qed.

(** A write to a file that has ended well. *)
Definition file_done (k : nat) (n : Z) (s : state) : state :=
  let s := set_failed (t_failed s + 0) (set_files (delete k (t_files s)) (file_write_queues_size s) s) in
  set_files (t_files s) (w64 (file_write_queues_size s - n)) s.

Lemma wf_file_done k n s : wf s → t_files s !! k = Some n → wf (file_done k n s).
Proof.
  intros [Ho Hf Hz Hc] Hk. destruct (Forall_taken _ _ _ _ Hk Hf) as [Hn Hf'].
  split; cbn; try done; [lia|].
  rewrite Hc. unfold Z.sub. rewrite w64_add, (sum_delete _ _ _ Hk). f_equal. lia.
Qed.

Lemma wf_handle e s s' out : wf s → handle e s = Some (s', out) → wf s'.
Proof.
  intros W. destruct e as [nread a|k status a|k status a]; cbn.
  - destruct (_ && _); [|done]. intros [= <- <-]. by apply wf_read.
  - destruct (t_out s !! k) as [n|] eqn:Hk; [|done]. cbn. intros [= <- <-].
    destruct W as [Ho Hf Hz Hc]. destruct (Forall_taken _ _ _ _ Hk Ho) as [Hn Ho'].
    unfold write_to_stdout_cb. apply wf_resume. destruct (status <? 0); [by split|].
    by apply wf_write_to_files; [|split].
  - destruct (t_files s !! k) as [n|] eqn:Hk; [|done]. cbn. intros [= <- <-].
    unfold write_to_file_cb. destruct (status <? 0); [|by apply wf_resume, wf_file_done].
    destruct W as [Ho Hf Hz Hc]. destruct (Forall_taken _ _ _ _ Hk Hf) as [Hn Hf'].
    split; cbn; try done; [lia|]. rewrite Hc, (sum_delete _ _ _ Hk). f_equal. lia.
Qed.

(** *** Progress *)

(** Somebody will resume a reading that is paused, unless writes have failed. *)
Definition awaited (s : state) : Prop :=
  t_in s = RD_PAUSE → t_out s ≠ [] ∨ t_files s ≠ [] ∨ 0 < t_failed s.

Lemma nothing_waits a s out : wf s → queue_ok (an_queue a) out → out = [] → t_files s = [] →
  t_failed s = 0 → total a s = 0.
Proof.
  intros W Hq -> Hf Hz. unfold total. rewrite (queue_empty _ Hq), (wf_counter _ W), Hf, Hz. done.
Qed.

Lemma resume_awaited a s : wf s → queue_ok (an_queue a) (t_out s) → awaited (resume a s).
Proof.
  intros W Hq Hp. destruct (decide (t_out s = [])) as [Ho|]; [|by left].
  destruct (decide (t_files s = [])) as [Hf|]; [|by right; left]. do 2 right.
  pose proof (wf_failed _ W) as H0. destruct (decide (t_failed s = 0)) as [Hz|]; [exfalso|cbn; lia].
  cbn in Hp. rewrite (nothing_waits a s _ W Hq) in Hp by done. by eapply resumed.
Qed.

Lemma read_awaited nread a s : wf s → reading (t_in s) = true →
  queue_ok (an_queue a) (t_out (read_cb nread a s)) → awaited (read_cb nread a s).
Proof.
  intros W Hr Hq. pose proof (wf_read nread a s W) as W'. unfold read_cb in *.
  match goal with |- context [total a ?s0] => set (s1 := s0) in * end.
  assert (t_in s1 ≠ RD_PAUSE) as H1.
  { unfold s1. destruct (nread <? 0); [done|]. destruct (0 <? nread); [destruct (0 <=? an_write a)|];
      cbn; try done; by destruct (t_in s). }
  intros Hp. cbn in Hp, Hq |- *. unfold command_if in Hp.
  destruct (WRITE_QUEUE_SIZE_UPPER_LIMIT <=? total a s1) eqn:Hu; [|done].
  destruct (decide (t_out s1 = [])) as [Ho|]; [|by left].
  destruct (decide (t_files s1 = [])) as [Hf|]; [|by right; left]. do 2 right.
  pose proof (wf_failed _ W') as H0. cbn in H0. destruct (decide (t_failed s1 = 0)) as [Hz|]; [exfalso|lia].
  assert (wf s1) as W1 by (by destruct W'). rewrite (nothing_waits a s1 _ W1 Hq) in Hu by done. done.
Qed.

Lemma write_to_files_out n a s : t_out (write_to_files n a s) = t_out s.
Proof.
  unfold write_to_files. revert s. induction (an_files a) as [|z zs IH]; intros s; [done|].
  cbn. rewrite IH. unfold write_to_file. by destruct (0 <=? z).
Qed.

Lemma step_awaited s s' : wf s → awaited s → step s s' → wf s' ∧ awaited s'.
Proof.
  intros W A (e & out & He & Hq). split; [by eapply wf_handle|].
  destruct e as [nread a|k status a|k status a]; cbn in He, Hq.
  - destruct (reading (t_in s)) eqn:Hr; [|done]. destruct (_ <=? _); [|done]. cbn in He.
    injection He as <- <-. by apply read_awaited.
  - destruct (t_out s !! k) as [n|] eqn:Hk; [|done]. cbn in He. injection He as <- <-.
    destruct W as [Ho Hf Hz Hc]. destruct (Forall_taken _ _ _ _ Hk Ho) as [Hn Ho'].
    unfold write_to_stdout_cb. destruct (status <? 0).
    + apply resume_awaited; [by split|done].
    + apply resume_awaited; [apply wf_write_to_files; [done|by split]|].
      by rewrite write_to_files_out.
  - destruct (t_files s !! k) as [n|] eqn:Hk; [|done]. cbn in He. injection He as <- <-.
    unfold write_to_file_cb. destruct (status <? 0) eqn:Hs.
    + intros _. do 2 right. pose proof (wf_failed _ W).
      destruct (Forall_taken _ _ _ _ Hk (wf_files _ W)) as [Hn _]. cbn. lia.
    + by apply (resume_awaited a (file_done k n s)); [apply wf_file_done|].
Qed.

Lemma reachable_ok s : rtc step start s → wf s ∧ awaited s.
Proof.
  apply (rtc_invariant (λ s, wf s ∧ awaited s)); [|by split].
  intros v v' [W A]. by apply step_awaited.
Qed.

(** C39: file_write_queues_size of tee2.cpp is the number of bytes of the writes to
    files that are pending or have failed, so that, as long as no write to a file has
    failed, a reading that is paused waits for a write that is pending. *)
Theorem file_queue_counted s :
  rtc step start s →
  file_write_queues_size s = w64 (sum (t_files s) + t_failed s) ∧
  (t_in s = RD_PAUSE → t_failed s = 0 → t_out s ≠ [] ∨ t_files s ≠ []).
Proof.
  intros [W A]%reachable_ok. split; [apply W|]. intros Hp Hz.
  destruct (A Hp) as [?|[?|?]]; [by left|by right|lia].
Qed.

(** *** When writes to a file fail *)

Fixpoint run (es : list event) (s : state) : option state :=
  match es with
  | [] => Some s
  | e :: es =>
      '(s', out) ← handle e s;
      if decide (queue_ok (an_queue (answers_of e)) out) then run es s' else None
  end.

Lemma run_steps es s s' : run es s = Some s' → rtc step s s'.
Proof.
  revert s. induction es as [|e es IH]; intros s; cbn; [by intros [= ->]|].
  destruct (handle e s) as [[s1 out]|] eqn:He; [|done]. cbn. case_decide as Hq; [|done].
  intros Hr. eapply rtc_l; [by exists e, out|by apply IH].
Qed.

(** The counter keeps the bytes of a write that has failed, and [write_to_file_cb] does not try to
    resume the reading then. So when a disk is full: 128 chunks are read, all of them are written to
    the output, the writes to the file fail, and nobody reads on. *)
Definition chunk (queue : Z) (zs : list Z) : answers :=
  {| an_write := 0; an_files := zs; an_queue := queue; an_resume := 0 |}.

Definition full_disk (n : nat) : list event :=
  ((λ i, Read BUFFER_SIZE (chunk (Z.of_nat (S i) * BUFFER_SIZE) [])) <$> seq 0 n) ++
  ((λ i, Written 0 0 (chunk (Z.of_nat (n - S i) * BUFFER_SIZE) [0])) <$> seq 0 n) ++
  (replicate n (File_written 0 (-28) (chunk 0 []))).

Lemma idle_stuck s : reading (t_in s) = false → t_out s = [] → t_files s = [] → ∀ s', ¬ step s s'.
Proof.
  intros Hr Ho Hf s' ([nread a|k status a|k status a] & out & He & _); cbn in He.
  - by rewrite Hr in He.
  - by rewrite Ho in He.
  - by rewrite Hf in He.
Qed.

Theorem reading_stalls :
  ∃ s, rtc step start s ∧ t_in s = RD_PAUSE ∧ ∀ s', ¬ step s s'.
Proof.
  destruct (run (full_disk 128) start) as [s|] eqn:Hr; [|by vm_compute in Hr].
  assert (t_in s = RD_PAUSE ∧ t_out s = [] ∧ t_files s = []) as (Hp & Ho & Hf)
    by (vm_compute in Hr; by injection Hr as <-).
  exists s. split; [by eapply run_steps|]. split; [done|]. apply idle_stuck; [by rewrite Hp|done..].
Qed.
End tee2.
