(* ===== verification/Pool.v ===== *)
(** * The pool of buffers of tee2.cpp

    The class [buffer_pool] of src/example/tee2.cpp keeps the buffers that nobody refers to: the
    sink callback of its buffers, which the library calls instead of deleting a buffer, moves the
    buffer to a vector, and [get()] takes it from there. The vector is a part of the running code,
    its references are tokens of the ledger. *)

From Stdlib Require Import ZArith Lia.
From stdpp Require Import base gmap list option.
From S2P Require Import Prelude World Objects Ledger Wp Refs Release Rules Buffer Members.

Local Open Scope Z_scope.

Module buffer_pool.

(** The vector has its back first. *)
Record pool := Pool {
  pool_destroying : bool; buf_size : Z; num_total_items : Z; spare_items_pool : list loc
}.

Definition set_spare (l : list loc) (p : pool) : pool :=
  Pool (pool_destroying p) (buf_size p) (num_total_items p) l.
Definition count_item (p : pool) : pool :=
  Pool (pool_destroying p) (buf_size p) (w64 (num_total_items p + 1)) (spare_items_pool p).
Definition set_destroying (p : pool) : pool :=
  Pool true (buf_size p) (num_total_items p) (spare_items_pool p).

Section buffer_pool.
Context `{E : Env}.

(** The function object of the lambda in [new_item()]. *)
Variable sink_id : Z.

(** The lambda; [_buf] is moved from when it goes to the vector. *)
Definition sink (p : pool) (buf : loc) : M (pool * list arg) :=
  if pool_destroying p then mret (p, [A_ptr (PB (Some buf))])
  else
    Members.buffer.set_len buf 0 (buf_size p);;
    mret (set_spare (buf :: spare_items_pool p) p, [A_ptr (PB None)]).

(** What is left of the parameter of the lambda. *)
Definition sink_answer (p : pool) (buf : loc) : M (list arg) := r ← sink p buf; mret r.2.

Definition new_item (p : pool) : M (loc * pool) :=
  ret ← buffer_create [buf_size p];
  buffer_set_sink ret (Some sink_id);;
  mret (ret, count_item p).

Definition get (p : pool) : M (loc * pool) :=
  match spare_items_pool p with
  | [] => new_item p
  | ret :: l => mret (ret, set_spare l p)
  end.

(** [while (_init_pool_size--) spare_items_pool.emplace_back(new_item());] *)
Fixpoint fill (n : nat) (p : pool) : M pool :=
  match n with
  | O => mret p
  | S n => '(b, p) ← new_item p; fill n (set_spare (b :: spare_items_pool p) p)
  end.
Definition new (size : Z) (init_pool_size : nat) : M pool :=
  fill init_pool_size (Pool false size 0 []).

(** The destructor of the vector destroys its elements. *)
Fixpoint clear (l : list loc) : M unit :=
  match l with [] => mret tt | b :: l => buffer_unref b;; clear l end.
Definition pool_dtor (p : pool) : M pool :=
  let p := set_destroying p in
  clear (reverse (spare_items_pool p));; mret p.

(** ** What the pool keeps *)

(** A buffer of the pool that has one owner and its full length. *)
Definition item (size : Z) (w : world) (b : loc) : Prop :=
  ∃ i base, w_bufs w !! b = Some i ∧ b_refs i = 1 ∧ b_sink_cb i = Some sink_id ∧
    b_bufs i = [(base, size)].

Record pool_ok (F : list token) (X : list dying) (p : pool) (w : world) : Prop := {
  po_inv : Inv ((TB <$> spare_items_pool p) ++ F) X w;
  po_size : 0 < buf_size p < 2 ^ 64 - 96;
  po_spare : Forall (item (buf_size p) w) (spare_items_pool p)
}.

Lemma fits_one n : 0 < n < 2 ^ 64 - 96 → fits [n] ∧ 0 < Zsum [n].
Proof. intros H. split; [split; [by repeat constructor; lia|cbn; lia]|cbn; lia]. Qed.

(** A buffer with one reference that the running code owns has no other owner. *)
Lemma one_owner F X w b i : Inv (TB b :: F) X w → w_bufs w !! b = Some i → b_refs i = 1 → TB b ∉ F.
Proof.
  intros I Hi Hr Hin. pose proof (inv_count _ _ _ I (TB b)) as Hc.
  cbn [refs_of] in Hc. rewrite Hi in Hc. cbn in Hc. destruct Hc as [Hc _].
  apply cnt_elem in Hin. unfold total in Hc. cbn in Hc. rewrite decide_True in Hc by done. lia.
Qed.

Lemma buffer_create_bufs lens w :
  wp (buffer_create lens) (λ b w', w_bufs w' =
    <[b := {| b_refs := 1; b_sink_cb := None; b_bufs := instance_bufs b lens |}]> (w_bufs w)) w.
Proof.
  unfold buffer_create. wp_struct. apply wp_alloc. wp_struct. apply wp_modify. wp_struct.
  by apply wp_modify, wp_ret.
Qed.

Lemma item_other size w w' b' :
  w_bufs w' !! b' = w_bufs w !! b' → item size w b' → item size w' b'.
Proof. intros Hw (i & base & Hi & H). exists i, base. by rewrite Hw. Qed.

Lemma item_exists size w b : item size w b → w_bufs w !! b ≠ None.
Proof. intros (i & base & Hi & _). by rewrite Hi. Qed.

(** ** Buffers that are handed out *)

Lemma wp_new_item F X p (Q : loc * pool → world → Prop) w :
  pool_ok F X p w →
  (∀ b w', pool_ok (TB b :: F) X (count_item p) w' → item (buf_size p) w' b → Q (b, count_item p) w') →
  wp (new_item p) Q w.
Proof.
  intros [I Hs Hl] HQ. destruct (fits_one _ Hs) as [Hf Hpos]. unfold new_item. apply wp_bind.
  eapply wp_mono; [apply wp_and; [apply (buffer_create_bufs [buf_size p])|]|].
  - apply (wp_buffer_create [buf_size p] _ X
      (λ b w', w_bufs w !! b = None ∧ Inv (TB b :: (TB <$> spare_items_pool p) ++ F) X w') w I).
    + by right.
    + by intros b w' _ Hn I' _ _ _.
  - intros b w1 (HB & Hn & I1). cbv beta in HB. rewrite instance_bufs_eq in HB by done.
    assert (w_bufs w1 !! b = Some {| b_refs := 1; b_sink_cb := None;
      b_bufs := chunks (b + 16 * Z.of_nat (length [buf_size p])) [buf_size p] |}) as Hb
      by (by rewrite HB, lookup_insert_eq).
    unfold buffer_set_sink. wp_struct. eapply wp_mod_b; [exact Hb|]. wp_structs. apply HQ.
    + split; [|done|].
      * eapply Inv_perm; [|reflexivity..|eapply Inv_upd_buf; [exact I1|exact Hb|done]]. cbn.
        solve_Permutation.
      * cbn. eapply Forall_impl; [|exact Hl]. intros b' Hb'.
        eapply (item_other _ w); [|done]. cbn. rewrite HB, !lookup_insert_ne; [done|..];
          intros <-; by apply (item_exists _ _ _ Hb').
    + eexists _, _. cbn. rewrite lookup_insert_eq. by split_and!.
Qed.

(** What [get()] returns belongs to the caller alone, whatever has been done with it before. *)
Lemma wp_pool_get F X p (Q : loc * pool → world → Prop) w :
  pool_ok F X p w →
  (∀ b p' w', pool_ok (TB b :: F) X p' w' → item (buf_size p) w' b →
    p' = match spare_items_pool p with [] => count_item p | _ :: l => set_spare l p end → Q (b, p') w') →
  wp (get p) Q w.
Proof.
  intros P HQ. unfold get. destruct (spare_items_pool p) as [|b l] eqn:Hl.
  - eapply wp_new_item; [exact P|]. intros b w' P' Hb. by apply HQ.
  - apply wp_ret. destruct P as [I Hs HF]. rewrite Hl in I, HF. apply list.Forall_cons in HF as [Hb HF].
    apply HQ; [split; [|done|exact HF]|exact Hb|done].
    eapply Inv_perm; [|reflexivity..|exact I]. cbn. solve_Permutation.
Qed.

(** ** The last reference to a buffer *)

(** The library gives the buffer back the reference that was the last one and calls the sink. *)
Lemma wp_last_unref b i (Q : unit → world → Prop) w :
  w_bufs w !! b = Some i → b_refs i = 1 → b_sink_cb i = Some sink_id →
  (∀ w1, wsame w w1 → w_bufs w1 = w_bufs w →
    wp (user_cb sink_id [A_ptr (PB (Some b))]) (λ args, wp
      match args with
      | [A_ptr (PB (Some _))] =>
          i' ← get_b b; mod_b b (set_b_refs (ref_count.dec (b_refs i')));;
          when (ref_count.dec (b_refs i') =? 0) (buffer_free b)
      | _ => mret tt
      end Q) w1) →
  wp (buffer_unref b) Q w.
Proof.
  intros Hi Hr Hk HQ. unfold buffer_unref. wp_structs. rewrite Hr.
  change (ref_count.dec 1 =? 0) with true. cbn [when]. unfold buffer_destroy. wp_struct.
  eapply wp_get_b; [cbn; apply lookup_insert_eq|]. cbn. rewrite Hk. wp_struct.
  eapply wp_mod_b; [cbn; apply lookup_insert_eq|].
  match goal with |- wp _ _ ?w1 => assert (w1 = w) as -> end.
  { destruct w, i. unfold upd_bufs. cbn in *. subst. f_equal.
    rewrite insert_insert_eq. by apply insert_id. }
  unfold call_user. wp_structs. by apply HQ; [apply wsame_log|].
Qed.

(** ... which moves it to the pool: the next [get()] returns it, with its full length. *)
Lemma wp_recycle F X p b i base len w :
  (∀ w', user_cb sink_id [A_ptr (PB (Some b))] w' = sink_answer p b w') →
  pool_destroying p = false → pool_ok (TB b :: F) X p w → w_bufs w !! b = Some i →
  b_refs i = 1 → b_sink_cb i = Some sink_id → b_bufs i = [(base, len)] →
  wp (buffer_unref b) (λ _ w', let p' := set_spare (b :: spare_items_pool p) p in
    pool_ok F X p' w' ∧ get p' w' = Ok (b, p) w') w.
Proof.
  intros Hcb Hd [I Hs HF] Hi Hr Hk Hb. apply (wp_last_unref b i); [done..|]. intros w1 S HB.
  eapply wp_eq; [apply Hcb|]. unfold sink_answer, sink. rewrite Hd. rewrite S in I.
  assert (Inv (TB b :: (TB <$> spare_items_pool p) ++ F) X w1) as I1
    by (eapply Inv_perm; [|reflexivity..|exact I]; solve_Permutation).
  pose proof (one_owner _ _ _ _ _ I1 ltac:(by rewrite HB) Hr) as Hal.
  unfold Members.buffer.set_len, buffer_at. rewrite <-HB in Hi. wp_structs. rewrite Hb. cbn.
  wp_structs. rewrite Hb, w64_id by lia. cbn. split.
  - split; [|done|].
    + cbn. by eapply Inv_upd_buf.
    + cbn. constructor; [eexists _, base; cbn; by rewrite lookup_insert_eq|].
      rewrite list.Forall_forall in HF |- *. intros b' Hin. eapply item_other; [|by apply HF]. cbn.
      rewrite <-HB, lookup_insert_ne; [done|]. intros <-. apply Hal, elem_of_app. left.
      by apply list_elem_of_fmap_2.
  - unfold get. cbn. by destruct p.
Qed.

(** ... or which leaves it alone, when the pool is being destroyed. *)
Lemma wp_freed F X b size (Q : unit → world → Prop) w :
  (∀ w', user_cb sink_id [A_ptr (PB (Some b))] w' = Ok [A_ptr (PB (Some b))] w') →
  Inv (TB b :: F) X w → item size w b →
  (∀ w', Inv F X w' → w_bufs w' = delete b (w_bufs w) → Q tt w') → wp (buffer_unref b) Q w.
Proof.
  intros Hcb I (i & base & Hi & Hr & Hk & _) HQ. apply (wp_last_unref b i); [done..|]. intros w1 S HB.
  eapply (wp_eq _ (mret [A_ptr (PB (Some b))])); [apply Hcb|]. rewrite S in I. rewrite <-HB in Hi.
  wp_structs. rewrite Hr.
  change (ref_count.dec 1 =? 0) with true. cbn [when].
  change (ref_count.dec 1) with 0. eapply wp_mono; [apply wp_and|].
  - eapply (wp_buffer_free b F X (λ _ w', Inv F X w')); [by eapply Inv_die_buf|done].
  - instantiate (1 := λ _ w', w_bufs w' = delete b (w_bufs w1)). unfold buffer_free. wp_struct.
    eapply wp_get_b; [cbn; apply lookup_insert_eq|]. wp_structs. cbn. apply delete_insert_eq.
  - intros [] w' [I' Hw']. apply HQ; [done|]. by rewrite Hw', HB.

Qed.

Lemma wp_clear F X size l (Q : unit → world → Prop) w :
  (∀ b w', b ∈ l → user_cb sink_id [A_ptr (PB (Some b))] w' = Ok [A_ptr (PB (Some b))] w') →
  Inv ((TB <$> l) ++ F) X w → Forall (item size w) l →
  (∀ w', Inv F X w' → (∀ b, w_bufs w' !! b = if decide (b ∈ l) then None else w_bufs w !! b) → Q tt w') →
  wp (clear l) Q w.
Proof.
  revert Q w. induction l as [|b l IH]; intros Q w Hcb I HF HQ; cbn [clear fmap list_fmap app] in *.
  - apply wp_ret, HQ; [done|]. intros b. rewrite decide_False; [done|]. apply not_elem_of_nil.
  - apply list.Forall_cons in HF as [Hb HF]. wp_struct.
    pose proof Hb as (i & base & Hi & Hr & _). pose proof (one_owner _ _ _ _ _ I Hi Hr) as Hal.
    eapply (wp_freed _ X); [intros w'; apply Hcb; by left|exact I|exact Hb|]. intros w1 I1 HB.
    assert (∀ b', b' ∈ l → b' ≠ b) as Hne.
    { intros b' Hin ->. apply Hal, elem_of_app. left. by apply list_elem_of_fmap_2. }
    apply IH; [intros b' w' Hin; apply Hcb; by right|done| |].
    + rewrite list.Forall_forall in HF |- *. intros b' Hin. eapply item_other; [|by apply HF].
      rewrite HB, lookup_delete_ne; [done|]. intros <-. by eapply Hne.
    + intros w' I' HB'. apply HQ; [done|]. intros b'. rewrite HB', HB.
      destruct (decide (b' ∈ l)); [rewrite decide_True; [done|by right]|].
      destruct (decide (b' = b)) as [->|Hb'].
      * rewrite decide_True by (by left). apply lookup_delete_eq.
      * rewrite decide_False, lookup_delete_ne; [done..|]. by intros [->|?]%elem_of_cons.
Qed.

(** ** The life of a pool *)

Lemma wp_fill n F X p (Q : pool → world → Prop) w :
  pool_ok F X p w →
  (∀ p' w', pool_ok F X p' w' → buf_size p' = buf_size p → pool_destroying p' = pool_destroying p →
    length (spare_items_pool p') = (n + length (spare_items_pool p))%nat →
    (num_total_items p = w64 (num_total_items p) →
      num_total_items p' = w64 (num_total_items p + Z.of_nat n)) → Q p' w') →
  wp (fill n p) Q w.
Proof.
  revert p Q w. induction n as [|n IH]; intros p Q w P HQ; cbn [fill].
  - apply wp_ret, HQ; try done. intros ->. unfold w64. by rewrite Z.add_0_r, Z.mod_mod.
  - wp_struct. eapply wp_new_item; [exact P|]. intros b w1 [I Hs HF] Hb. cbn [count_item spare_items_pool] in *.
    eapply IH; [split; [|exact Hs|by constructor]|].
    + eapply Inv_perm; [|reflexivity..|exact I]. cbn. solve_Permutation.
    + intros p' w' P' H1 H2 H3 H4. apply HQ; [done..| |].
      * rewrite H3. cbn. lia.
      * intros _. rewrite H4; cbn; unfold w64; [|by rewrite Z.mod_mod].
        rewrite Zplus_mod_idemp_l. f_equal. lia.
Qed.

(** A new pool has as many buffers as it has been asked for. *)
Theorem pool_created n size F X w :
  Inv F X w → 0 < size < 2 ^ 64 - 96 →
  wp (new size n) (λ p w', pool_ok F X p w' ∧ pool_destroying p = false ∧
    length (spare_items_pool p) = n ∧ num_total_items p = w64 (Z.of_nat n)) w.
Proof.
  intros I Hs. eapply (wp_fill n F X); [by split; [exact I|exact Hs|constructor]|].
  intros p' w' P' _ Hd Hl Hn. cbn in *. split_and!; [done|done|lia|by apply Hn].
Qed.

(** [get()] makes a buffer only when none is spare; what it returns has the full length and belongs
    to the caller alone. *)
Theorem pool_get_ok F X p w :
  pool_ok F X p w →
  wp (get p) (λ r w', let b := r.1 in pool_ok (TB b :: F) X r.2 w' ∧ item (buf_size p) w' b ∧
    (TB b ∉ (TB <$> spare_items_pool r.2) ++ F) ∧
    r.2 = (match spare_items_pool p with [] => count_item p | _ :: l => set_spare l p end)) w.
Proof.
  intros P. eapply wp_pool_get; [exact P|]. intros b p' w' P' Hb Hp. cbn. split_and!; [done..| |done].
  destruct Hb as (i & base & Hi & Hr & _). destruct P' as [I _ _]. eapply (one_owner _ X w'); [|done..].
  eapply Inv_perm; [|reflexivity..|exact I]. cbn. solve_Permutation.
Qed.


(** The destructor deletes the spare buffers, and those only: the sink leaves them alone then. *)
Theorem pool_destroyed F X p w :
  pool_ok F X p w →
  (∀ b w', b ∈ spare_items_pool p →
    user_cb sink_id [A_ptr (PB (Some b))] w' = sink_answer (set_destroying p) b w') →
  wp (pool_dtor p) (λ _ w', Inv F X w' ∧
    ∀ b, w_bufs w' !! b = if decide (b ∈ spare_items_pool p) then None else w_bufs w !! b) w.
Proof.
  intros [I _ HF] Hcb. unfold pool_dtor. cbn [spare_items_pool set_destroying]. wp_struct.
  eapply (wp_clear F X (buf_size p)).
  - intros b w' Hin. apply Hcb. by apply elem_of_reverse.
  - eapply Inv_perm; [|reflexivity..|exact I]. by rewrite reverse_Permutation.
  - rewrite list.Forall_forall in HF |- *. intros b Hin. apply HF. by apply elem_of_reverse.
  - intros w' I' HB. wp_struct. split; [done|]. intros b. rewrite HB.
    destruct (decide (b ∈ reverse _)) as [Hin|Hin]; rewrite elem_of_reverse in Hin;
      [by rewrite decide_True|by rewrite decide_False].
Qed.
End buffer_pool.
End buffer_pool.
