(* ===== verification/Events.v ===== *)
(** * What the client's function finds when a handle has something to report

    The static callbacks of the handle classes, as a table: the function of the client that is
    called, its arguments, the status and the properties of the handle at that time, and the
    references that are released after the call. *)

From Stdlib Require Import ZArith Lia.
From stdpp Require Import base gmap list strings option.
From S2P Require Import Prelude World Objects Ledger Wp Refs Release Rules HRules Trace Calls.
From S2P Require Import Netstruct ReqStream Buffer HandleMisc Handle Io Stream Process Ops Callbacks.

Local Open Scope Z_scope.

(** What libuv reports. [R_watch] is the callback of idle, prepare and check, [R_opened] the end
    of the asynchronous opening of a file. *)
Inductive report :=
| R_watch | R_poll (status events : Z) | R_fs_event (filename : option string) (events status : Z)
| R_timer | R_signal | R_async | R_connection (status : Z)
| R_exit (exit_status termination_signal : Z) | R_opened.

Record notice := Notice {
  no_cb : cb;                (* the client's function, if there is one *)
  no_args : list arg;        (* ... its parameters after the handle *)
  no_status : Z;
  no_props : props;
  no_released : list token;
  no_log : list event        (* the trace before the call *)
}.

Section events.
Context `{E : Env}.

Definition reported (h : loc) (t : report) : M unit :=
  match t with
  | R_watch => watchers.watch_cb h []
  | R_poll status events => poll.poll_cb h status events
  | R_fs_event filename events status => fs_event.fs_event_cb h filename events status
  | R_timer => timer.timer_cb h
  | R_signal => signal.signal_cb h
  | R_async => async.async_cb h
  | R_connection status => stream.connection_cb h status
  | R_exit exit_status termination_signal => process.exit_cb h exit_status termination_signal
  | R_opened => file.open_cb h
  end.

(** The table. A timer asks libuv for its interval: one that fires for the last time gives back
    the reference of [start()]; so does a one-shot signal, which is unknown to the class
    afterwards. *)
Definition notice_of (h : loc) (t : report) (i : hinst) (L : list event) : option notice :=
  let p := h_props i in
  let err := h_uv_error i in
  match t, p with
  | R_watch, P_watcher _ _ c => Some (Notice c [] err p [] L)
  | R_poll status events, P_watcher _ _ c => Some (Notice c [A_int events] status p [] L)
  | R_fs_event filename events status, P_fs_event _ _ _ c =>
      Some (Notice c [A_str filename; A_int events] status p [] L)
  | R_timer, P_timer has_extra_ref c =>
      let args := [V_handle (Some h)] in
      Some (Notice c [] err p
        (if (uv_ret L f_timer_get_repeat args =? 0) && has_extra_ref then [TH h] else [])
        (uv_called f_timer_get_repeat args L))
  | R_signal, P_signal SG_START_ONESHOT n c =>
      Some (Notice c [A_int 1] err (P_signal SG_UNKNOWN n c) [TH h] L)
  | R_signal, P_signal _ _ c => Some (Notice c [A_int 0] err p [] L)
  | R_async, P_async c => Some (Notice c [] err p [TH h] L)
  | R_connection status, P_stream _ c => Some (Notice c [] status p [] L)
  | R_exit exit_status termination_signal, P_process ps =>
      Some (Notice (ps_exit_cb ps) [A_int exit_status; A_int termination_signal] err p [] L)
  | R_opened, P_file _ f => Some (Notice (fi_open_cb f) [] (int32 (uh_result (h_uv i))) p [TH h] L)
  | _, _ => None
  end.

(** The parameters of the client's function; the handle is a new reference. *)
Definition notice_args (h : loc) (n : notice) : list arg := A_ptr (PH (Some h)) :: no_args n.

Definition notice_call (h : loc) (n : notice) : M unit :=
  match no_cb n with Some f => client_call f (notice_args h n) | None => mret tt end.

(** The state [w1] in which it is called. *)
Definition notified_in (h : loc) (n : notice) (w w1 : world) : Prop :=
  w_log w1 = match no_cb n with Some f => [E_cb f (notice_args h n)] | None => [] end ++ no_log n ∧
  (λ i, (h_uv_error i, h_props i)) <$> w_handles w1 !! h = Some (no_status n, no_props n) ∧
  ∀ t, refs_of w1 t = counted (match no_cb n with Some _ => [TH h] | None => [] end) (refs_of w) t.

(** ** The call *)

Lemma call_handle_cb_at h n w w0 j :
  w_handles w0 !! h = Some j → h_refs j ≠ 0 →
  h_uv_error j = no_status n → h_props j = no_props n → w_log w0 = no_log n →
  (∀ t, refs_of w0 t = refs_of w t) →
  ∃ w1, call_handle_cb h (no_cb n) (no_args n) w0 = notice_call h n w1 ∧ notified_in h n w w1.
Proof.
  intros Hj H0 He Hp HL HR. unfold notice_call, notified_in.
  destruct (no_cb n) as [f|]; cbn [call_handle_cb].
  - eexists. split.
    + unfold handle_ref, invoke, call_user, client_call, mbind, M_bind, mod_h, get_h. rewrite Hj.
      unfold ref_count.inc. rewrite (proj2 (Z.eqb_neq _ _) H0). cbn. unfold mbind, M_bind.
      rewrite Hj. reflexivity.
    + split; [cbn; by rewrite HL|]. split; [cbn; rewrite lookup_insert_eq; cbn; by rewrite He, Hp|].
      intros t. unfold counted. rewrite <-HR.
      change (refs_of (upd_log _ ?w) t) with (refs_of w t).
      rewrite <-(tok_set_handle h j (h_refs j + 1) w0 Hj), refs_of_tok_set. cbn [cnt].
      case_decide as Hd.
      * subst t. rewrite decide_True by done. cbn. rewrite Hj. cbn. f_equal.
      * rewrite decide_False by congruence. destruct (refs_of w0 t); [|done]. cbn. f_equal. lia.
  - exists w0. split; [done|]. split; [done|]. split; [rewrite Hj; cbn; by rewrite He, Hp|].
    intros t. rewrite HR. unfold counted. destruct (refs_of w t); [|done]. cbn. f_equal. lia.
Qed.

Lemma told_handle h n w w0 j (m : M unit) :
  m w = release_after (no_released n) (call_handle_cb h (no_cb n) (no_args n)) w0 →
  w_handles w0 !! h = Some j → h_refs j ≠ 0 →
  h_uv_error j = no_status n → h_props j = no_props n → w_log w0 = no_log n →
  (∀ t, refs_of w0 t = refs_of w t) →
  ∃ w1, notified_in h n w w1 ∧ m w = release_after (no_released n) (notice_call h n) w1.
Proof.
  intros Hm Hj H0 He Hp HL HR.
  destruct (call_handle_cb_at h n w w0 j Hj H0 He Hp HL HR) as (w1 & Hc & HN).
  exists w1. split; [done|]. rewrite Hm. by apply release_after_at.
Qed.

Lemma refs_of_set_handle h i j w t : w_handles w !! h = Some i → h_refs j = h_refs i →
  refs_of (upd_handles (<[h := j]>) w) t = refs_of w t.
Proof. intros Hi Hr. destruct t; cbn; try done. by eapply fmap_insert_same. Qed.

(** The state after a call of libuv that the class makes first. *)
Lemma uv_call_at h i f args w :
  w_handles w !! h = Some i →
  ∃ w0 u, uv_call f args w = Ok (uv_ret (w_log w) f args) w0 ∧
    w_handles w0 !! h = Some (with_uv u i) ∧ w_log w0 = uv_called f args (w_log w) ∧
    ∀ t, refs_of w0 t = refs_of w t.
Proof.
  intros Hi. set (rp := uv_exec (w_log w) f args).
  destruct (at_h_writes h i (rp_writes rp) w) as [u Hu].
  { exists (h_uv i). rewrite Hi. by destruct i. }
  exists (upd_log (cons (E_uv f args (rp_ret rp))) (apply_uv_writes (rp_writes rp) w)), u.
  split; [reflexivity|]. split; [exact Hu|]. split; [cbn; by rewrite log_uv_writes|].
  destruct (wsame_uv_writes (rp_writes rp) w) as [_ Hr]. intros t.
  change (refs_of (upd_log _ ?w) t) with (refs_of w t). by rewrite Hr.
Qed.

(** The instance [i] of [h] is read, and changed by [f]. *)
Lemma properties_at h i {A} (k : props → M A) w :
  w_handles w !! h = Some i → (properties h ≫= k) w = k (h_props i) w.
Proof. intros Hi. unfold properties, get_h, mbind, M_bind. by rewrite Hi. Qed.
Lemma mod_h_at h i f {A} (k : M A) w :
  w_handles w !! h = Some i → (mod_h h f;; k) w = k (upd_handles (<[h := f i]>) w).
Proof. intros Hi. unfold mod_h, get_h, mbind, M_bind. by rewrite Hi. Qed.
Lemma lookup_set_handle h i w : w_handles (upd_handles (<[h := i]>) w) !! h = Some i.
Proof. apply lookup_insert_eq. Qed.

(** The status is set, then the properties are read. *)
Lemma status_props_at h i st {A} (k : props → M A) w : w_handles w !! h = Some i →
  (mod_h h (set_h_error st);; p ← properties h; k p) w =
    k (h_props i) (upd_handles (<[h := set_h_error st i]>) w).
Proof.
  intros Hi. rewrite (mod_h_at h i) by done.
  by rewrite (properties_at h (set_h_error st i)) by apply lookup_set_handle.
Qed.

(** The call is made in [w0], where the instance is [j]. *)
Ltac told_as w0 j := eapply (told_handle _ _ _ w0 j); try done; cbn.
Ltac told_with j :=
  lazymatch goal with
  | Hi : w_handles ?w !! ?h = Some _ |- _ =>
      eapply (told_handle h _ _ (upd_handles (<[h := j]>) w) j);
      [|by apply lookup_set_handle|done|done|done|done
       |intros ?; by eapply refs_of_set_handle]; cbn
  end.

(** C23: What libuv reports for a handle is one call of the client's function, if there
    is one, with the handle and the arguments of the table, in a state where nothing
    else has been called but for the interval of a timer, the handle has the reported
    status and one more reference, the parameter's; then the references that the event
    ends are released, whatever becomes of the call. *)
Theorem handle_told h t i n w :
  w_handles w !! h = Some i → h_refs i ≠ 0 → notice_of h t i (w_log w) = Some n →
  ∃ w1, notified_in h n w w1 ∧ reported h t w = release_after (no_released n) (notice_call h n) w1.
Proof.
  intros Hi H0 Hn. assert (h_refs i ≠ 0) as Hs by done.
  destruct t; cbn [reported]; unfold notice_of in Hn; destruct (h_props i) eqn:Hp; simplify_eq.
  - told_as w i. unfold watchers.watch_cb. by rewrite (properties_at h i), Hp.
  - told_with (set_h_error status i). unfold poll.poll_cb, watchers.watch_cb.
    by rewrite (status_props_at h i), Hp.
  - told_with (set_h_error status i). unfold fs_event.fs_event_cb.
    by rewrite (status_props_at h i), Hp.
  - unfold timer.timer_cb.
    destruct (uv_call_at h i f_timer_get_repeat [V_handle (Some h)] w Hi)
      as (w0 & u & Hc & Hu & HL & HR).
    told_as w0 (with_uv u i). unfold mbind at 1, M_bind at 1. rewrite Hc, (properties_at h (with_uv u i)) by done.
    cbn. rewrite Hp. by destruct (_ && _).
  - destruct opcmd_state; simplify_eq.
    1-3: told_as w i; unfold signal.signal_cb; by rewrite (properties_at h i), Hp.
    told_with (set_h_props (P_signal SG_UNKNOWN signum signal_cb) i).
    unfold signal.signal_cb. rewrite (properties_at h i), Hp by done.
    rewrite decide_True by done. unfold mod_props. rewrite (mod_h_at h i) by done. by rewrite Hp.
  - told_as w i. unfold async.async_cb. by rewrite (properties_at h i), Hp.
  - told_with (set_h_error status i). unfold stream.connection_cb.
    by rewrite (status_props_at h i), Hp.
  - told_as w i. unfold process.exit_cb, process.process_properties.
    unfold mbind at 1, M_bind at 1. rewrite (properties_at h i), Hp by done. done.
  - told_with (set_h_error (int32 (uh_result (h_uv i))) i). unfold file.open_cb.
    unfold get_h at 1, mbind at 1, M_bind at 1. rewrite Hi.
    rewrite (mod_h_at h i) by done. cbn. apply finally_at.
    unfold get_file. unfold mbind at 1, M_bind at 1.
    rewrite (properties_at h (set_h_error (int32 (uh_result (h_uv i))) i)) by apply lookup_set_handle.
    cbn. by rewrite Hp.
Qed.
End events.
