(* ===== verification/OpsLedger.v ===== *)
(** * Every operation keeps the ledger

    The operations of Ops, run with any references [F] in the hands of running code and any
    objects [X] in destruction: the client applies them from its callbacks too. *)

From Stdlib Require Import ZArith Lia.
From stdpp Require Import base gmap list strings option relations.
From S2P Require Import Prelude World Objects Ledger Wp Refs Release Rules HRules.
From S2P Require Import Netstruct ReqStream Buffer HandleMisc Handle Io ReadCmd ReadCb ReqFs.
From S2P Require Import FsLedger ReqMisc Vars Stream Process Loop Construct Members Ops.

Local Open Scope Z_scope.

Section steps.
Context `{E : Env} `{EO : !EnvOk} `{AO : !AllocOk}.
Context (F : list token) (X : list dying).

(** What is asked of an operation that is run from [w]. *)
Definition safe (m : M unit) (w : world) : Prop := wp m (λ _ w', Inv F X w') w.

Lemma held_frame w t : held [] w t → held F w t.
Proof. unfold held. cbn. lia. Qed.

Lemma client_live w l t : client_has w l → t ∈ l → live F w t.
Proof.
  unfold client_has. rewrite list.Forall_forall. intros H Ht. by apply held_live, held_frame, H.
Qed.

Lemma wp_discard {A} (m : M A) (Q : A → world → Prop) w :
  wp m Q w → (∀ a w', Q a w' → Inv F X w') → safe (_ ← m; mret tt) w.
Proof. intros H HQ. apply wp_bind. eapply wp_mono; [exact H|]. intros a w' Ha. by apply wp_ret, (HQ a). Qed.

Lemma var_step P `{!Counted P} `{!CountedOk P} a w :
  Inv F X w →
  match a with
  | A_copy x that | A_move x that => w_vars w !! x = None ∧ ∃ o, w_vars w !! that = Some (P o)
  | A_assign x that | A_move_assign x that => x ≠ that ∧ (∃ o, w_vars w !! x = Some (P o)) ∧
      ∃ o, w_vars w !! that = Some (P o)
  | A_swap x that => (∃ o, w_vars w !! x = Some (P o)) ∧ ∃ o, w_vars w !! that = Some (P o)
  | A_destroy x => ∃ o, w_vars w !! x = Some (P o)
  end →
  safe match a with
    | A_copy x that => copy_construct P x that | A_move x that => move_construct P x that
    | A_assign x that => copy_assign P x that | A_move_assign x that => move_assign P x that
    | A_swap x that => swap P x that | A_destroy x => destruct_var P x
    end w.
Proof.
  intros I H. unfold safe. destruct a.
  - destruct H as [Hx [o Ht]]. eapply wp_mono; [apply (construct_ok P _ _ o F X w I Hx Ht)|].
    by intros _ w' [? _].
  - destruct H as [Hx [o Ht]]. eapply wp_mono; [apply (construct_ok P _ _ o F X w I Hx Ht)|].
    by intros _ w' [? _].
  - destruct H as (Hne & [t Hx] & o & Ht).
    eapply wp_mono; [by eapply (wp_copy_assign P _ _ t o)|]. by intros _ w' [? _].
  - destruct H as (Hne & [t Hx] & o & Ht).
    eapply wp_mono; [by eapply (wp_move_assign P _ _ t o)|]. by intros _ w' [? _].
  - destruct H as ([t Hx] & o & Ht).
    eapply wp_mono; [by eapply (swap_ok P _ _ t o)|]. by intros _ w' [? _].
  - destruct H as [o Hx]. eapply wp_mono; [by eapply (wp_destruct P _ o)|].
    by intros _ w' [? _].
Qed.

(** A new request is not pending, so that its constructor may write to its properties. *)
Lemma wp_new_request p (Q : loc → world → Prop) w :
  Inv F X w →
  (∀ r w', Inv (TR r :: F) X w' → unarmed r w' → w_vars w' = w_vars w → Q r w') →
  wp (request_create p) Q w.
Proof.
  intros I HQ. eapply wp_request_create; [done|].
  intros r w1 i Hn Hr _ _ _ _ _ _ _ _ HA HV _ I1. apply HQ; [done| |done].
  intros a Ha Hin. rewrite HA in Ha. pose proof (owned_armed w a _ Ha Hin) as Ho.
  destruct (Inv_live F X w (TR r) I) as (n & Hn' & _); [unfold live; lia|].
  cbn in Hn'. by rewrite Hn in Hn'.
Qed.

Lemma wp_mod_new r f (Q : unit → world → Prop) w :
  Inv (TR r :: F) X w → unarmed r w → (∀ i, r_refs (f i) = r_refs i) →
  (∀ w', Inv (TR r :: F) X w' → unarmed r w' → w_vars w' = w_vars w → Q tt w') →
  wp (mod_r r f) Q w.
Proof.
  intros I U Hf HQ. destruct (live_req _ _ _ r I) as (i & Hi); [eauto with ledger|].
  eapply wp_mod_r; [done|]. apply HQ; [|done..]. eapply Inv_upd_req; [done..|by right].
Qed.

Ltac new_request :=
  repeat first
    [ progress unfold request_new, fs_new, mod_rprops
    | wp_struct
    | eapply wp_new_request; [eassumption|];
      let r := fresh "r" in let w := fresh "w" in
      let I := fresh "I" in let U := fresh "U" in let HV := fresh "HV" in intros r w I U HV
    | eapply wp_mod_new; [eassumption|eassumption|done|];
      let w := fresh "w" in let I := fresh "I" in let U := fresh "U" in
      let HV := fresh "HV" in intros w I U HV ];
  split; [assumption|congruence].

(** *** Objects that a request or a handle has *)

(** The new variable has a reference of its own. *)
Definition got_var (w : world) (p : ptr) (w' : world) : Prop :=
  Inv (ptr_toks p ++ F) X w' ∧ w_vars w' = w_vars w.

Lemma wp_get_var tok (P : option loc → ptr) o w :
  Inv F X w → Forall (still_there w) (opt_tok tok o) → (∀ o, ptr_toks (P o) = opt_tok tok o) →
  wp (adopt_new tok o) (λ o w', wp (mret (P o)) (got_var w) w') w.
Proof.
  intros I H HP. unfold adopt_new, got_var. wp_struct. destruct o as [l|]; cbn in H.
  - apply list.Forall_singleton in H as (n & Hn & H0). eapply wp_tok_ref_count; [done..|].
    intros w' S I'. do 2 apply wp_ret. rewrite HP. split; [done|]. symmetry. apply S.
  - do 3 apply wp_ret. by rewrite HP.
Qed.

Lemma get_step r g i w :
  Inv F X w → w_reqs w !! r = Some i → got_there i g w → wp (get_run r g) (got_var w) w.
Proof.
  intros I Hi Hg. destruct g; cbn [got_there get_run] in *; apply wp_bind;
    unfold request.handle, Members.write.send_handle, request.loop, fs_handle,
      fs_sendfile.handle_out, stat.handle; wp_struct; wp_struct.
  1-3: by apply wp_get_var; [| |intros []].
  all: destruct (r_props i) as [| | | |own uh ub off ps uo|]; try by destruct Hg.
  1,2: by apply wp_get_var; [| |intros []].
  destruct uh as [h|].
  - by apply wp_get_var; [|by constructor|intros []].
  - destruct (ur_loop (r_uv i)) as [l|]; [|done]. wp_structs.
    eapply wp_mono; [eapply wp_file_new; [done|by eapply client_live; [|left]]|].
    intros h w1 H. by apply wp_ret, wp_ret.
Qed.

Lemma accepts server P w : Inv F X w → acceptor server w P →
  ∃ i l, held F w (TH server) ∧ w_handles w !! server = Some i ∧ uh_loop (h_uv i) = Some l ∧
    live F w (TL l) ∧ P i.
Proof.
  intros I (Hs & i & l & Hi & Hl & Hu & Ht). exists i, l.
  pose proof (held_frame w _ (proj1 (Forall_singleton _ _) Hs)) as Hh. split_and!; try done.
  pose proof (live_refs _ _ _ _ _ I (held_live _ _ _ Hh) Hi).
  unfold live. enough (0 < owned w (TL l))%nat by lia. eapply owned_handle; [done|].
  rewrite hinst_toks_live, Hl by done. apply elem_of_app. right. by left.
Qed.

(** A constructor makes an object with one reference, which is its caller's. *)
Lemma new_step n w : Inv F X w → new_enabled n w →
  wp (new_run n) (got_var w) w.
Proof.
  intros I H.
  assert (∀ l, client_has w [TL l] → live F w (TL l)) as HL.
  { intros l Hl. eapply client_live; [done|by left]. }
  destruct n; cbn [new_run new_enabled] in *; try apply wp_bind;
    try (unfold connect.new, write.new, shutdown.new, udp_send.new, work.new, getaddrinfo.new,
           getnameinfo.new, output.new; by new_request).
  - eapply wp_loop_create; [done|]. intros. by apply wp_ret.
  - eapply wp_buffer_create; [done..|]. intros. by apply wp_ret.
  - eapply wp_mono; [by apply wp_handle_new; auto|]. intros h w' [??]. by apply wp_ret.
  - destruct H as [Hl Ht]. unfold guess_handle. wp_struct. apply wp_uv_call_eq. intros w1 S1 _.
    pose proof (sim_vars _ _ (proj1 (wsame_sim _ _ S1))) as HV. rewrite S1 in I.
    change (uv_handle_type_of (rp_ret _)) with (guessed_type fd w).
    apply HL in Hl. rewrite (wsame_sim _ _ S1) in Hl. unfold got_var. rewrite HV.
    assert (∀ c, wp (h ← handle_new_run l c; mret (Some h))
      (λ o w', wp (mret (PH o)) (λ p w', Inv (ptr_toks p ++ F) X w' ∧ w_vars w' = w_vars w1) w') w1)
      as Hk.
    { intros c. wp_struct. eapply wp_mono; [by apply wp_handle_new|]. intros h w2 H.
      by do 2 apply wp_ret. }
    destruct (guessed_type fd w); try discriminate Ht;
      first [exact (Hk (C_pipe_open fd false false))|exact (Hk (C_tcp_open fd false))
      |exact (Hk (C_tty fd true false))|exact (Hk (C_udp_open fd))|exact (Hk (C_file fd None))].
  - destruct (accepts _ _ _ I H) as (i & l & Hs & Hi & Hu & Ll & Ht).
    eapply wp_mono; [by eapply (wp_accept server i l F X)|].
    intros r w' (c & -> & I' & HV). by apply wp_ret.
  - destruct (accepts _ _ _ I H) as (i & l & Hs & Hi & Hu & Ll & Ht).
    eapply wp_mono; [by eapply (wp_accept_pending server i l F X)|].
    intros r w' (c & -> & I' & HV). by apply wp_ret.
  - destruct H as (_ & i & Hi & Hg). by eapply get_step.
  - destruct H as (_ & i & Hi & Ht). unfold handle_loop, uv_interface_loop. wp_structs.
    by apply wp_get_var; [| |intros []].
Qed.

(** The ledger theorem of one kind of operation gives its safety. *)
Ltac has :=
  match goal with
  | |- Forall _ [] => constructor
  | |- Forall _ (_ :: _) => constructor; has
  | H : client_has _ ?l |- live _ _ ?t => apply (client_live _ l t H); list_in
  | H : held _ _ ?t |- live _ _ ?t => first [apply held_live, H | apply held_live, held_frame, H]
  | H : client_has _ ?l |- held _ _ ?t => apply held_frame, (proj1 (list.Forall_forall _ _) H); list_in
  | H : held [] _ ?t |- held _ _ ?t => apply held_frame, H
  | |- _ => eassumption
  end.
Ltac by_ledger H := eapply wp_discard; [eapply H; try has | intros ? ? HQ; exact (proj1 HQ)].

Lemma output_step r io b offset info w :
  Inv F X w → live F w (TR r) → client_has w [TH io; TB b] → unarmed r w →
  output_class r io info w → safe (_ ← output.run r io b offset info; mret tt) w.
Proof.
  intros I L H U (i & Hi & q & Hq & HC).
  assert (request_view r (r_props q) (r_request_cb q) w) as V by (unfold request_view; by rewrite Hq).
  destruct (endpoint_request i) as [t|] eqn:Ht; [|by_ledger wp_output_refused; by left].
  destruct HC as ([p Hp] & Hu & Hi'). destruct (decide (t = UV_UDP_SEND ∧ info = None)) as [[-> ->]|Hn].
  { by_ledger wp_output_refused. by right. }
  by_ledger wp_output_run.
  - intros ->. destruct info as [peer|]; [by exists peer|]. by destruct Hn.
  - intros own uh ub o ps uo Hs. rewrite Hs in Hu. by destruct uo.
Qed.

Lemma req_step r q w : Inv F X w → req_enabled r q w → safe (req_run r q) w.
Proof.
  intros I [Hr H]. assert (live F w (TR r)) as L by (eapply client_live; [done|by left]).
  destruct (live_req _ _ _ r I L) as (i & Hi).
  destruct q; cbn [req_run] in *.
  - unfold safe, on_request. eapply wp_mod_r; [done|]. eapply Inv_upd_req; [done..|by left].
  - by_ledger connect_run_ok.
  - unfold safe. eapply wp_mono; [eapply connect_run_pipe_ok; has|]. by intros _ w' [? _].
  - destruct H as [H U]. by_ledger wp_write_run.
  - destruct H as [H U]. by_ledger write_run2_ok.
  - by_ledger shutdown_run_ok.
  - destruct H as (H & U & Hl). by_ledger wp_udp_send_run.
  - by_ledger work_run_ok.
  - by_ledger wp_getaddrinfo_run.
  - by_ledger getnameinfo_run_ok.
  - destruct H as (U & (p & c & HP & Hf) & Ho). by_ledger wp_path_op.
    intros Hq. destruct (Ho Hq) as (p' & c' & HP' & Heq). unfold request_view in *.
    by simplify_eq.
  - destruct H as (H & U & p & c & HP & Hf). by_ledger wp_file_op.
  - destruct H as (H & U & (p & c & HP & Hf) & Hi'). by_ledger wp_close.
  - destruct H as (H & U & own & uh & ub & o & ps & c & HP).
    destruct (wp_read_write F X r h b offset own uh ub o ps c w) as [H1 _]; try has.
    by_ledger H1.
  - destruct H as (H & U & own & uh & ub & o & ps & c & HP).
    destruct (wp_read_write F X r h b offset own uh ub o ps c w) as [_ H1]; try has.
    by_ledger H1.
  - destruct H as (H & U & (own & uh & o & ps & uo & c & HP) & HF).
    by_ledger wp_sendfile.
  - destruct H as (H & U & O). by eapply output_step.
Qed.

Lemma handle_step h c w : Inv F X w → handle_enabled h c w → safe (handle_run h c) w.
Proof.
  intros I [Hh H]. apply list.Forall_cons in Hh as [Hh%held_frame _].
  destruct c; cbn [handle_run handle_enabled] in *.
  - destruct H as (ifc & HF & p & HP & Hr & io & Hio & Hk).
    eapply wp_discard; [by eapply wp_read_commands|by intros].
  - destruct H as (p & HP & k & st & c & ->). by_ledger wp_watcher_start.
  - destruct H as (p & HP & k & st & c & ->). by_ledger wp_watcher_stop.
  - destruct H as (p & HP & b & c & ->). eapply wp_discard; [by eapply wp_timer_start|by intros].
  - destruct H as (p & HP & b & c & ->). by_ledger wp_timer_stop.
  - destruct H as [(p & HP & st & n & c & ->) Hc].
    eapply wp_discard; [by eapply wp_signal_start|by intros].
  - destruct H as (p & HP & st & n & c & ->).
    eapply wp_discard; [by eapply wp_signal_stop|by intros].
  - destruct H as (p & HP & st & fl & pa & c & ->).
    eapply wp_discard; [by eapply wp_fs_event_start|by intros].
  - destruct H as (p & HP & st & fl & pa & c & ->).
    eapply wp_discard; [by eapply wp_fs_event_stop|by intros].
  - destruct H as (p & HP & c & ->). by_ledger wp_async_send.
  - destruct H as (p & HP & io & c' & ->). eapply wp_discard; [eapply wp_listen; has|by intros].
  - destruct H as (Hs & Hne & Hn & (p & HP & ps & -> & Hc) & p' & HPs & Hnp).
    assert (live F w (TH s)) as Ls by has. assert (live F w (TH h)) as Lh by eauto with ledger.
    apply wp_discard with (Q := λ _ w', Inv F X w'); [|done].
    wp_struct. wp_op. destruct (live_handle _ _ _ s I0) as (i & Hi); [eauto with ledger|].
    wp_struct. eapply wp_mono; [eapply wp_inherit_stdio; try done|].
    + by rewrite Hi in HPs; simplify_eq/=.
    + intros _ w' [? _]. by apply wp_ret.
  - destruct H as (Hn & p & HP & ps & -> & Hc). apply wp_discard with (Q := λ _ w', Inv F X w'); [|done].
    wp_struct. eapply wp_mono; [eapply wp_inherit_fd; has|]. intros ? w' I'. by apply wp_ret.
  - destruct H as (p & HP & ps & ->). eapply wp_discard; [eapply wp_spawn; has|by intros].
Qed.

(** Writes to the properties that no reference depends on. *)
Lemma mod_props_step h f w :
  Inv F X w → live F w (TH h) →
  (∀ p, props_self (f p) = props_self p ∧ same_endpoints p (f p) ∧
    ∀ io fp, p = P_file io fp → ∃ io' fp', f p = P_file io' fp' ∧
      fi_rd_data fp' = fi_rd_data fp ∧ io_rdcmd io' = io_rdcmd io) →
  safe (mod_props h f) w.
Proof.
  intros I L Hf. destruct (live_handle _ _ _ h I L) as (i & Hi).
  destruct (Hf (h_props i)) as (Hs & He & Hr).
  eapply (wp_mod_props h f (h_props i)); [done..|by rewrite Hi|done|done| |by intros].
  destruct (h_props i) eqn:Hp; try by apply reads_kept_not_file.
  destruct (Hr io f0 eq_refl) as (io' & fp' & -> & Hd & Hc).
  apply reads_kept_same; [done|]. by rewrite Hc.
Qed.

Lemma event_cb_step h c w :
  Inv F X w → live F w (TH h) → safe (mod_props h (event_set_cb c)) w.
Proof.
  intros I L. apply mod_props_step; [done..|]. intros []; cbn;
    (split_and!; [done|done|]); intros ?? [=]; subst; by repeat eexists.
Qed.

Lemma set_step s w : Inv F X w → set_enabled s w → safe (set_run s) w.
Proof.
  intros I H. destruct s; cbn [set_run set_enabled] in *.
  - destruct (live_handle _ _ _ h I) as (i & Hi); [has|].
    pose proof (live_refs _ _ _ _ _ I (client_live _ _ _ H ltac:(list_in)) Hi) as H0.
    unfold safe, on_destroy_set. wp_structs. eapply (Inv_upd_handle h i); try done.
    + intros u. change (hinst_toks h (set_h_destroy c i)) with (hinst_toks h i).
      cbn [set_h_destroy h_refs]. case_decide; lia.
    + eapply (inv_endpoints _ _ _ I h i); done.
    + intros a _ _ _ io f Hp Hd Hin. split; [exact Hin|]. by exists io, f.
  - apply event_cb_step; [done|has].
  - destruct H as [H (p & HP & Hio)]. apply mod_props_step; [done|has|]. intros []; cbn;
      (split_and!; [done|done|]); intros ?? [=]; subst; by repeat eexists.
  - destruct H as [H _]. apply mod_props_step; [done|has|]. intros []; cbn;
      (split_and!; [done|done|]); intros ?? [=]; subst; by repeat eexists.
  - destruct (live_req _ _ _ r I) as (i & Hi); [has|]. unfold safe, request.on_destroy.
    wp_structs. eapply Inv_upd_req; [done..|by left].
  - destruct (live_buf _ _ _ b I) as (i & Hi); [has|]. unfold safe, buffer_set_sink.
    wp_structs. by eapply Inv_upd_buf.
  - destruct H as [H [ch Hc]]. destruct (live_buf _ _ _ b I) as (j & Hj); [has|].
    rewrite Hj in Hc. cbn in Hc. unfold safe, Members.buffer.set_len, buffer_at. wp_structs.
    rewrite Hc. wp_structs. by eapply Inv_upd_buf.
  - destruct (live_loop _ _ _ l I) as (i & Hi); [has|]. unfold safe, loop.on_destroy.
    wp_structs. by eapply Inv_upd_loop.
  - destruct (live_loop _ _ _ l I) as (i & Hi); [has|]. unfold safe, loop.on_exit.
    wp_structs. by eapply Inv_upd_loop.
Qed.

Lemma self_owned_live h w : self_owned h w → live F w (TH h).
Proof.
  intros (i & Hi & H0 & Hs). unfold live. enough (0 < owned w (TH h))%nat by lia.
  eapply owned_handle; [done|]. unfold hinst_toks, props_toks.
  rewrite (proj2 (Z.eqb_neq _ _) H0), Hs. by left.
Qed.

(** A chunk is delivered to a handle that outlives the client's function. *)
Lemma read_step h suggested_size nread info p w :
  Inv F X w → self_owned h w → h_props <$> w_handles w !! h = Some p → is_reader p →
  nread ≤ 0 ∨ outlives h (deliver h suggested_size nread info) w →
  safe (c ← io_alloc_cb h suggested_size; io_read_cb h nread c info) w.
Proof.
  intros I Ho HP Hp Hn. pose proof (self_owned_live h w Ho) as L.
  assert (∃ io a f, io_of p = Some io ∧ io_on_alloc io = Some a ∧ io_on_read io = Some f)
    as (io & a & f & Hio & Ha & Hf).
  { destruct p; try done; destruct Hp as [[??] [??]]; by repeat eexists. }
  assert (props_self p = true) as Hs.
  { destruct Ho as (i & Hi & _ & Hs). rewrite Hi in HP. by simplify_eq/=. }
  pose proof (anchored_started h p F X w I L Hs) as An.
  assert (wp (deliver h suggested_size nread info) (λ _ w', Inv F X w') w) as HD.
  { unfold deliver. wp_struct. eapply wp_io_alloc_cb; [done..|].
    intros [base len] w1 Hb I1 HP1. cbn in Hb, I1.
    eapply wp_read_call; [exact I1|by apply (proj2 An [_] w1 I1 HP1)|done..]. }
  unfold safe, wp. assert ((c ← io_alloc_cb h suggested_size; io_read_cb h nread c info) w =
    (deliver h suggested_size nread info;; read_rest h nread) w) as ->.
  { unfold deliver, mbind, M_bind. destruct (io_alloc_cb h suggested_size w) as [c w1| | | |]; [|done..].
    apply io_read_cb_split. }
  apply wp_bind. unfold outlives in Hn. unfold wp in HD |- *.
  destruct (deliver h suggested_size nread info w) as [[] w1| | | |]; [|done..].
  eapply wp_read_rest; [done| |by intros].
  intros Hpos. destruct Hn as [|Hn]; [lia|]. unfold live. lia.
Qed.

Lemma event_step h e w : Inv F X w → event_enabled h e w → safe (event_run h e) w.
Proof.
  intros I H. unfold safe. destruct e; cbn [event_run event_enabled] in *.
  - destruct H as (L%self_owned_live & (p & HP & k & st & c & ->) & Hr). by eapply wp_watch_cb.
  - destruct H as (L%self_owned_live & p & HP & k & st & c & ->). by eapply wp_poll_cb.
  - destruct H as (L%self_owned_live & p & HP & st & fl & pa & c & ->). by eapply wp_fs_event_cb.
  - destruct H as (L%self_owned_live & (p & HP & b & c & ->) & Hr).
    by eapply wp_timer_cb_repeating.
  - destruct H as (L%self_owned_live & p & HP & st & n & c & ->). by eapply wp_signal_cb.
  - destruct H as (Hh & p & HP & io & c & ->). eapply wp_connection_cb; [done| |done]. has.
  - destruct H as (Hh & p & HP & ps & ->). eapply wp_exit_cb; [done| |done]. has.
  - destruct H as (Ho & (p & HP & Hp) & Hn). by eapply read_step.
Qed.

(** *** Completion *)

Lemma wp_open_cb h io f w :
  Inv (TH h :: F) X w → h_props <$> w_handles w !! h = Some (P_file io f) →
  wp (file.open_cb h) (λ _ w', Inv F X w') w.
Proof.
  intros I HP. destruct (live_handle _ _ _ h I) as (i & Hi); [eauto with ledger|].
  unfold file.open_cb, get_file. wp_structs. set (w1 := upd_handles _ w).
  assert (wsame w w1) as S by by eapply wsame_handle.
  rewrite S in I. rewrite (sim_hprops _ _ h (proj1 (wsame_sim _ _ S))) in HP.
  eapply wp_properties; [done|]. cbn. wp_structs.
  eapply (wp_call_handle_cb h); [exact I|eauto with ledger|done|]. intros w2 I2.
  by eapply wp_handle_unref.
Qed.

(** The state in which the callback of the pending [a] begins. *)
Definition handed (a : armed) (result : Z) (w w' : world) : Prop :=
  Inv (arm_toks a ++ F) X w' ∧ arm_ok w' a ∧
  (TR (arm_obj a) ∈ arm_toks a → ∃ i, w_reqs w' !! arm_obj a = Some i ∧
    ur_handle (r_uv i) = ur_handle (handed_back (arm_toks a) result (r_uv i)) ∧
    ur_send_handle (r_uv i) = ur_send_handle (handed_back (arm_toks a) result (r_uv i))) ∧
  (∀ h, h_props <$> w_handles w' !! h = h_props <$> w_handles w !! h).

Lemma dispatch_step a result w0 w :
  handed a result w0 w →
  match arm_cb a with
  | cb_file_read => False
  | cb_async => props_at (arm_obj a) w0 is_async
  | cb_file_open => props_at (arm_obj a) w0 is_file
  | _ => True
  end → safe (dispatch a result) w.
Proof.
  intros (I & A & HR & HH) H. unfold safe, dispatch. destruct a as [c r toks].
  cbn [arm_cb arm_obj arm_toks] in *. unfold arm_ok in A. cbn [arm_cb arm_obj arm_toks] in A.
  destruct c; try done.
  - destruct A as (h & ->). destruct HR as (i & Hi & Hh & _); [list_in|].
    by eapply (connect_cb_ok r result i h F).
  - destruct A as (h & b & -> & Hp). destruct HR as (i & Hi & Hh & _); [list_in|].
    rewrite Hi in Hp. injection Hp as Hp. by eapply (wp_write_cb r result i h b F); [..|congruence].
  - destruct A as (h & b & s & -> & Hp). destruct HR as (i & Hi & Hh & Hs); [list_in|].
    rewrite Hi in Hp. injection Hp as Hp. by eapply (write2_cb_ok r result i h b s F); [..|congruence].
  - destruct A as (h & ->). destruct HR as (i & Hi & Hh & _); [list_in|].
    by eapply (shutdown_cb_ok r result i h F).
  - destruct A as (h & b & q & -> & Hp). destruct HR as (i & Hi & Hh & _); [list_in|].
    rewrite Hi in Hp. injection Hp as Hp. by eapply (udp_send_cb_ok r result i h b q F); [..|congruence].
  - subst toks. by apply (wp_request_callbacks r result F).
  - subst toks. by apply (wp_request_callbacks r result F).
  - subst toks. by apply (wp_request_callbacks r result F).
  - subst toks. destruct H as (p & HP & io & f & ->). rewrite <-HH in HP. by eapply wp_open_cb.
  - subst toks. destruct H as (p & HP & c & ->). rewrite <-HH in HP. by eapply wp_async_cb.
  - destruct A as (own & uh & ub & off & ps & uo & Hp & Hs & ->).
    by eapply wp_fs_callback.
Qed.

Lemma complete_step k result w : Inv F X w → complete_enabled k w → safe (complete k result) w.
Proof.
  intros I (a & Ha & H). unfold safe, complete. wp_structs. rewrite Ha.
  wp_struct. apply wp_modify. wp_struct. apply wp_modify.
  destruct (Inv_disarm (take k (w_armed w)) a (drop (S k) (w_armed w)) F X w I) as [A I1].
  { symmetry. by apply take_drop_middle. }
  set (w1 := upd_armed (λ _, take k (w_armed w) ++ drop (S k) (w_armed w)) w) in *.
  change (upd_armed (λ l, take k l ++ drop (S k) l) w) with w1.
  set (f := set_r_uv (handed_back (arm_toks a) result)).
  change (upd_reqs (alter f (arm_obj a)) w1)
    with (apply_uv_write (UW_req (arm_obj a) (handed_back (arm_toks a) result)) w1).
  set (o := UW_req _ _). pose proof (wsame_uv_write w1 o) as S.
  eapply (dispatch_step a result w); [|exact H]. rewrite S in I1. split_and!.
  - exact I1.
  - eapply arm_ok_sim; [by apply wsame_sim|exact A].
  - intros Hin. destruct (live_req _ _ _ (arm_obj a) I1) as (i & Hi); [|].
    { apply live_frame, elem_of_app. by left. }
    exists i. split; [done|]. cbn in Hi. rewrite lookup_alter_eq in Hi.
    apply fmap_Some in Hi as (j & _ & ->). done.
  - done.
Qed.

Lemma exec_ok o w : Inv F X w → enabled o w → safe (exec o) w.
Proof.
  intros I H. destruct o as [k a|x n|r q|h c|s|h e|k result]; cbn [exec enabled] in *.
  - destruct k; [apply (var_step PH)|apply (var_step PR)|apply (var_step PB)|apply (var_step PL)];
      try done; destruct a; exact H.
  - destruct H as [Hx H]. unfold safe. wp_struct. eapply wp_mono; [by apply new_step|].
    intros p w' [I' HV]. apply wp_modify. eapply Inv_set_var; [done|].
    intros u. rewrite HV, Hx, cnt_app. cbn. lia.
  - by apply req_step.
  - by apply handle_step.
  - by apply set_step.
  - by apply event_step.
  - by apply complete_step.
Qed.
End steps.
