(* ===== verification/Cpio.v ===== *)
(** * The callbacks of cpio-uvcc.cpp over the library

    Flow reasons about the client with the tables of the library in place of the library. Here
    are the two functions of src/example/cpio-uvcc.cpp as they are written, with the operations of
    the library, and the proof that each does what it does in Flow. *)

From Stdlib Require Import ZArith Lia.
From stdpp Require Import base gmap list strings option.
From S2P Require Import Prelude World Objects Ledger Wp Refs Release Rules HRules Trace Calls.
From S2P Require Import Netstruct ReqStream Buffer Handle Io ReadCmd ReadCb ReqFs FsLedger ReqMisc.
From S2P Require Import Requests Ops OpsLedger Members Flow.

Local Open Scope Z_scope.

Section client.
Context `{E : Env} `{EO : !EnvOk}.

(** The global variables [in] and [out], and the function object that holds [write_cb]. *)
Variables (in_ out : loc) (write_cb_id : Z).

(** [read_cb(uv::io _io, ssize_t _nread, uv::buffer _buffer, ...)]: the length of the buffer is set
    and the request is made ... *)
Definition prepare (nread : Z) (b : loc) : M loc :=
  Members.buffer.set_len b 0 nread;;
  wr ← write.new;
  on_request wr (Some write_cb_id);;
  mret wr.

(** ... it is run ... *)
Definition send (io wr b : loc) : M unit :=
  _ ← write.run wr out b;
  i ← get_r wr;
  when (r_uv_error i <? 0) (_ ← io.read_stop io; mret tt).

Definition read_cb (io : loc) (nread : Z) (buf : option loc) : M unit :=
  if nread <? 0 then _ ← io.read_stop io; mret tt
  else if 0 <? nread then
    b ← deref buf;
    wr ← prepare nread b;
    finally (
      send io wr b;;
      q ← write_queue_size out;
      _ ← io.read_pause in_ (WRITE_QUEUE_SIZE_UPPER_LIMIT <=? q);
      mret tt) (request_unref wr)
  else mret tt.

(** [write_cb(uv::write _wr, uv::buffer)] *)
Definition write_cb (wr : loc) : M unit :=
  i ← get_r wr;
  if r_uv_error i <? 0 then _ ← io.read_stop in_; mret tt
  else
    q ← write_queue_size out;
    _ ← io.read_resume in_ (q <=? WRITE_QUEUE_SIZE_LOWER_LIMIT);
    mret tt.

(** ** What a state shows of the client *)

(** The sizes of the writes pending on [out], oldest first. *)
Definition armed_size (w : world) (a : armed) : option Z :=
  match arm_cb a, arm_toks a with
  | cb_write, [TH h; TB b; TR _] =>
      if decide (h = out) then Some (sum (snd <$> default [] (bufs_of w b))) else None
  | _, _ => None
  end.
Definition out_sizes (w : world) : list Z := reverse (omap (armed_size w) (w_armed w)).

(** The bytes that wait for [out], as libuv has them. *)
Definition out_queue (w : world) : option Z := (λ i, uh_queue_size (h_uv i)) <$> w_handles w !! out.

Definition endpoint_in (st : rdcmd) (x : iface * props) : Prop :=
  ∃ io c, x = (If_stream, P_stream io c) ∧ io_rdlock io = false ∧ io_rdcmd io = st ∧
    is_Some (io_on_alloc io) ∧ is_Some (io_on_read io).

(** [in] has executed the command [st], [sizes] are pending on [out], and the ledger holds. *)
Record shows (F : list token) (X : list dying) (st : rdcmd) (sizes : list Z) (w : world) : Prop := {
  sh_inv : Inv F X w;
  sh_held : held F w (TH in_) ∧ held F w (TH out);
  sh_in : ∃ x, handles_of w in_ = Some x ∧ endpoint_in st x;
  sh_out : ∃ p, handles_of w out = Some (If_stream, p);
  sh_sizes : out_sizes w = sizes
}.

(** Of what the client sees, requests excepted, nothing has changed. *)
Record steady (w0 w : world) : Prop := {
  st_handles h : handles_of w h = handles_of w0 h;
  st_bufs b : bufs_of w b = bufs_of w0 b;
  st_armed : w_armed w = w_armed w0;
  st_vars : w_vars w = w_vars w0
}.

Lemma armed_sizes_ext w w' (l : list armed) :
  (∀ a b, a ∈ l → TB b ∈ arm_toks a → bufs_of w' b = bufs_of w b) →
  omap (armed_size w') l = omap (armed_size w) l.
Proof.
  intros HB. apply list_omap_ext, Forall2_same_length_lookup. split; [done|].
  intros j a a' Ha Ha'. simplify_eq. unfold armed_size. repeat case_match; try done. do 3 f_equal.
  erewrite HB; [done|by eapply list_elem_of_lookup_2|]. match goal with H : arm_toks a = _ |- _ => rewrite H end.
  list_in.
Qed.

Lemma out_sizes_same w w' :
  w_armed w' = w_armed w → (∀ b, bufs_of w' b = bufs_of w b) → out_sizes w' = out_sizes w.
Proof. intros HA HB. unfold out_sizes. rewrite HA. f_equal. by apply armed_sizes_ext. Qed.

Lemma out_sizes_submitted (ok : bool) wr b base nread w w' :
  w_armed w' = (if ok then [{| arm_cb := cb_write; arm_obj := wr; arm_toks := [TH out; TB b; TR wr] |}]
                else []) ++ w_armed w →
  (∀ b, bufs_of w' b = bufs_of w b) → bufs_of w b = Some [(base, nread)] →
  out_sizes w' = if ok then out_sizes w ++ [nread] else out_sizes w.
Proof.
  intros HA HB Hb. assert (omap (armed_size w') (w_armed w) = omap (armed_size w) (w_armed w)) as He
    by by apply armed_sizes_ext.
  unfold out_sizes. rewrite HA. destruct ok; cbn [app]; [|by rewrite He].
  change (omap ?f (?a :: ?l)) with (match f a with Some z => z :: omap f l | None => omap f l end).
  unfold armed_size at 1. cbn [arm_cb arm_toks]. rewrite decide_True by done.
  rewrite HB, Hb, He, reverse_cons. cbn. rewrite sum_cons. change (sum []) with 0.
  by rewrite Z.add_0_r.
Qed.

Lemma shows_steady F F' X st sizes w w' :
  shows F X st sizes w → steady w w' → Inv F' X w' → (∀ t, cnt t F = cnt t F' ∨ t ≠ TH in_ ∧ t ≠ TH out) →
  shows F' X st sizes w'.
Proof.
  intros [I [H1 H2] (x & Hx & Hin) (p & Hp) Hs] [SH SB SA SV] I' Hc. split; [done|..].
  - unfold held in *. rewrite SV. split; [destruct (Hc (TH in_))|destruct (Hc (TH out))]; destruct_and?; lia || done.
  - exists x. by rewrite SH.
  - exists p. by rewrite SH.
  - rewrite <-Hs. by apply out_sizes_same.
Qed.

(** ** Reading commands *)

Hypothesis distinct : out ≠ in_.

Lemma held_self_refs F X w i :
  Inv F X w → held F w (TH in_) → w_handles w !! in_ = Some i →
  (if props_self (h_props i) then 2 else 1) ≤ h_refs i.
Proof.
  intros I H Hi. destruct (Inv_live _ _ _ (TH in_) I (held_live _ _ _ H)) as (n & Hn & H0).
  cbn in Hn. rewrite Hi in Hn. injection Hn as <-.
  pose proof (inv_count _ _ _ I (TH in_)) as Hc. cbn in Hc. rewrite Hi in Hc. cbn in Hc.
  destruct Hc as [Hc _]. unfold total, owned in Hc. unfold held in H.
  destruct (props_self (h_props i)) eqn:Hs; [|lia].
  pose proof (msum_lookup_le (λ h i, cnt (TH in_) (hinst_toks h i)) _ _ _ Hi) as Hle.
  assert (0 < cnt (TH in_) (hinst_toks in_ i))%nat as Hp.
  { apply cnt_elem. unfold hinst_toks, props_toks. rewrite (proj2 (Z.eqb_neq _ _) H0), Hs. by left. }
  cbn in Hle. lia.
Qed.

Lemma wp_shows_cmd c F X st sizes (Q : Z → world → Prop) w :
  shows F X st sizes w →
  (∀ z w', shows F X (command c z st) sizes w' → aside in_ w w' → Q z w') →
  wp (run_cmd in_ c) Q w.
Proof.
  intros [I [H1 H2] (x & Hx & (io & cc & -> & Hk & Hst & Ha & Hr)) (p & Hp) Hs] HQ.
  unfold handles_of in Hx. apply fmap_Some in Hx as (i & Hi & Hv). unfold hview in Hv.
  injection Hv as Hif Hpr. symmetry in Hif, Hpr.
  assert (reads_by_uv (h_iface i) (h_props i)) as Hru by by rewrite Hif, Hpr.
  assert (io_of (h_props i) = Some io) as Hio by by rewrite Hpr.
  pose proof (held_self_refs F X w i I H1 Hi) as Hn. rewrite Hpr in Hn. cbn in Hn.
  pose proof (wp_read_commands in_ If_stream F X c (h_props i) io w I H1 ltac:(by rewrite Hi)
    ltac:(by rewrite Hi; cbn; rewrite Hif) ltac:(by rewrite Hpr) Hio Hk) as W1.
  pose proof (wp_read_table in_ c i io w Hi Hru Hio Hk Ha Hr Hn) as W2.
  eapply wp_mono; [exact (wp_and _ _ _ _ W1 W2)|].
  intros z w' [I' (Hz & _ & As & i' & io' & Hi' & Hio' & Hc & Hk' & Ha' & Hr' & Hf' & Hp' & _)].
  apply HQ; [|done]. destruct As as [HA HV HB HH _ HR]. split; [done|..].
  - split; by eapply held_vars; [symmetry|].
  - exists (hview i'). split; [unfold handles_of; by rewrite Hi'|].
    rewrite Hif in Hf', Hp'. unfold hview. rewrite Hf'.
    destruct (h_props i') as [|io'' c''|io''|io'' f''| | | | | |] eqn:Hpp; try done. injection Hio' as ->.
    exists io', c''. split_and!; [done|done| |by rewrite Ha'|by rewrite Hr'].
    rewrite Hc, Hz, Hst. done.
  - exists p. by rewrite HH.
  - rewrite <-Hs. by apply out_sizes_same.
Qed.

Lemma wp_shows_pause b F X st sizes (Q : Z → world → Prop) w :
  shows F X st sizes w →
  (∀ z w', shows F X (command_if b C_pause 0 st) sizes w' → aside in_ w w' → Q z w') →
  wp (io.read_pause in_ b) Q w.
Proof.
  intros S HQ. destruct b.
  - eapply (wp_shows_cmd C_pause); [done|]. intros z w' S' A. apply HQ; [|done].
    cbn. by destruct st.
  - unfold io.read_pause. apply wp_ret, HQ; [done|apply aside_refl].
Qed.

Lemma wp_shows_resume b F X st sizes (Q : Z → world → Prop) w :
  shows F X st sizes w →
  (∀ z w', shows F X (command_if b C_resume z st) sizes w' → Q z w') →
  wp (io.read_resume in_ b) Q w.
Proof.
  intros S HQ. destruct b.
  - eapply (wp_shows_cmd C_resume); [done|]. intros z w' S' _. by apply HQ.
  - unfold io.read_resume. by apply wp_ret, HQ.
Qed.

Lemma wp_shows_stop F X st sizes (Q : Z → world → Prop) w :
  shows F X st sizes w →
  (∀ z w', shows F X (command C_stop 0 st) sizes w' → aside in_ w w' → Q z w') →
  wp (io.read_stop in_) Q w.
Proof. intros S HQ. by eapply (wp_shows_cmd C_stop). Qed.

Lemma wp_shows_queue F X st sizes (Q : Z → world → Prop) w :
  shows F X st sizes w → (∀ q, out_queue w = Some q → Q q w) → wp (write_queue_size out) Q w.
Proof.
  intros [_ _ _ (p & Hp) _] HQ. unfold handles_of in Hp. apply fmap_Some in Hp as (i & Hi & Hv).
  unfold hview in Hv. injection Hv as Hif _. unfold write_queue_size. wp_structs. rewrite <-Hif.
  apply wp_ret, HQ. unfold out_queue. by rewrite Hi.
Qed.

(** ** The two callbacks *)

(** [write_cb] does what it does in Flow, with the queue of the state it is called in. *)
Theorem write_cb_implements wr i F X s w :
  shows F X (cpio.c_in s) (cpio.c_out s) w → w_reqs w !! wr = Some i →
  wp (write_cb wr) (λ _ w', ∃ a, let s' := cpio.write_cb (r_uv_error i) a s in
    shows F X (cpio.c_in s') (cpio.c_out s') w' ∧
    (0 ≤ r_uv_error i → out_queue w = Some (an_queue a))) w.
Proof.
  intros S Hi. unfold write_cb, cpio.write_cb. wp_structs. destruct (r_uv_error i <? 0) eqn:Hz.
  - wp_struct. eapply wp_shows_stop; [done|]. intros z w' S' _. wp_struct.
    exists {| an_write := 0; an_files := []; an_queue := 0; an_resume := 0 |}. split; [done|lia].
  - wp_struct. eapply wp_shows_queue; [done|]. intros q Hq. wp_struct.
    eapply wp_shows_resume; [done|]. intros z w' S'. wp_struct.
    exists {| an_write := 0; an_files := []; an_queue := q; an_resume := z |}. split; [done|].
    by intros _.
Qed.

(** The request of [read_cb]: one that has no [on_destroy] callback. *)
Definition plain (wr : loc) (w : world) : Prop :=
  ∃ b, reqs_of w wr = Some (R_write b, Some write_cb_id, None).

(** What [prepare] leaves: the buffer is cut to the data, the request is the caller's. *)
Record prepared (F : list token) (X : list dying) (st : rdcmd) (sizes : list Z) (nread : Z)
    (b wr : loc) (w : world) : Prop := {
  pr_shows : shows (TR wr :: F) X st sizes w;
  pr_unarmed : unarmed wr w;
  pr_held : held F w (TB b);
  pr_plain : plain wr w;
  pr_chunk : ∃ base, bufs_of w b = Some [(base, nread)]
}.

Lemma wp_prepare nread b base len F X st sizes (Q : loc → world → Prop) w :
  shows F X st sizes w → held F w (TB b) → bufs_of w b = Some [(base, len)] →
  0 ≤ nread < 2 ^ 64 → (∀ a, a ∈ w_armed w → TB b ∉ arm_toks a) →
  (∀ wr w', prepared F X st sizes nread b wr w' → Q wr w') → wp (prepare nread b) Q w.
Proof.
  intros S L Hb Hn Hu HQ. pose proof S as [I H Hin Ho Hs].
  unfold bufs_of in Hb. apply fmap_Some in Hb as (j & Hj & Hbs). symmetry in Hbs.
  unfold prepare, Members.buffer.set_len, buffer_at. wp_structs. rewrite Hbs. cbn [lookup list_lookup].
  wp_structs. set (w1 := upd_bufs _ w).
  assert (Inv F X w1) as I1 by by eapply Inv_upd_buf.
  assert (bufs_of w1 b = Some [(base, nread)]) as Hb1.
  { unfold bufs_of. cbn. rewrite lookup_insert_eq. cbn. rewrite Hbs. cbn. unfold w64.
    by rewrite Z.mod_small. }
  unfold write.new, request_new. wp_struct. eapply wp_request_create; [exact I1|].
  intros wr w2 i Hnr Hr Hp Hc Hd _ _ HH HB _ HA HV _ I2.
  wp_struct. assert (w_reqs w2 !! wr = Some i) as Hi by (by rewrite Hr, lookup_insert_eq).
  assert (unarmed wr w2) as U2.
  { intros a Ha Hin'. rewrite HA in Ha. pose proof (owned_armed w1 a _ Ha Hin') as Hpos.
    destruct (Inv_live F X w1 (TR wr) I1) as (n & Hn' & _); [unfold live; lia|].
    cbn in Hn', Hnr. by rewrite Hnr in Hn'. }
  unfold on_request. wp_structs.
  eapply wp_mod_r; [cbn; apply lookup_insert_eq|]. wp_structs. apply HQ.
  match goal with |- prepared _ _ _ _ _ _ _ ?w => set (w3 := w) end.
  assert (steady w1 w3) as St.
  { split; [intros h; unfold handles_of; cbn; by rewrite HH|intros b'; unfold bufs_of; cbn; by rewrite HB
      |done|done]. }
  split.
  - eapply (shows_steady F _ _ _ _ w1); [|exact St| |].
    + split; [done|exact H|exact Hin|exact Ho|]. rewrite <-Hs. unfold out_sizes. f_equal.
      apply armed_sizes_ext. intros a b' Ha Hin'. unfold bufs_of. cbn.
      rewrite lookup_insert_ne; [done|]. intros <-. by eapply Hu.
    + eapply Inv_upd_req; [|cbn; apply lookup_insert_eq|done|by right].
      eapply Inv_upd_req; [done..|by right].
    + intros t. destruct (decide (t = TR wr)) as [->|Ht]; [by right|left].
      cbn. by rewrite decide_False by congruence.
  - exact U2.
  - by eapply held_vars; [|exact L].
  - exists None. unfold reqs_of. cbn. rewrite lookup_insert_eq. cbn. by rewrite Hp, Hd.
  - exists base. unfold bufs_of. cbn. rewrite HB. exact Hb1.
Qed.

(** The answer of libuv to the request that writes the [nread] bytes of the buffer to [out]. *)
Definition answered (wr b : loc) (nread : Z) (w : world) (z : Z) : Prop :=
  ∃ base, bufs_of w b = Some [(base, nread)] ∧ z = uv_ret (w_log w) f_write
    [V_req (Some wr); V_handle (Some out); V_bufs [(base, nread)] 1; V_cb cb_write].

Lemma wp_send nread b wr F X st sizes (Q : unit → world → Prop) w :
  prepared F X st sizes nread b wr w →
  (∀ z w', plain wr w' → answered wr b nread w z →
    shows (TR wr :: F) X (if 0 <=? z then st else command C_stop 0 st)
      (if 0 <=? z then sizes ++ [nread] else sizes) w' → Q tt w') →
  wp (send in_ wr b) Q w.
Proof.
  intros [S U HL (b0 & Hpl) (base & Hb)] HQ. pose proof S as [I [H1 H2] Hin Ho Hs].
  assert (live (TR wr :: F) w (TR wr)) as Lr by (apply live_frame; by left).
  assert (live (TR wr :: F) w (TB b)) as Lb.
  { unfold live. apply held_live in HL. unfold live in HL. cbn. lia. }
  pose proof (held_live _ _ _ H2) as Lo.
  pose proof (wp_write_run wr out b _ X w I Lr Lo Lb U) as W1.
  pose proof (wp_endpoint_run wr (EP_write out b) _ X w I
    ltac:(repeat constructor; done) Logic.I) as W2.
  unfold send. apply wp_bind. eapply wp_mono; [exact (wp_and _ _ _ _ W1 W2)|].
  intros z w1 [[I1 _] (_ & Hz0 & He & _ & HA & HH & HB & HD & HV & p & Hp & i0 & Hi0 & Hc & HP)].
  cbn in HP, HH, HA, He. apply fmap_Some in Hp as (i & Hi & ->). cbn in Hc, HP.
  rewrite Hi in He. injection He as He.
  assert (plain wr w1) as Hpl1.
  { exists (Some b). specialize (HD wr). unfold destroy_cbs in HD. unfold reqs_of in *.
    rewrite Hi, Hi0 in *. cbn in *. congruence. }
  assert (shows (TR wr :: F) X st (if 0 <=? z then sizes ++ [nread] else sizes) w1) as S1.
  { split; [done|..].
    - split; by eapply held_vars; [symmetry|].
    - rewrite HH. unfold untouched. destruct Hin as (x & -> & Hx). by exists x.
    - rewrite HH. unfold untouched. by destruct Ho as (p & ->); exists p.
    - rewrite <-Hs. unfold out_sizes. by eapply out_sizes_submitted. }
  assert (answered wr b nread w z) as An.
  { exists base. split; [done|]. cbn in Hz0. by rewrite Hb in Hz0. }
  wp_structs. rewrite He. destruct (0 <=? z) eqn:Hz; cbn.
  - wp_structs. apply (HQ z); by rewrite ?Hz.
  - replace (z <? 0) with true by lia. cbn [when]. wp_struct.
    eapply wp_shows_stop; [done|]. intros z' w2 S2 A2. wp_struct. apply (HQ z); rewrite ?Hz; [|done|done].
    unfold plain. by rewrite (as_reqs _ _ _ A2).
Qed.

(** The destructor of the request in [read_cb]. *)
Lemma plain_drop_steady wr w : plain wr w → wp (request_unref wr) (λ _ w', steady w w') w.
Proof.
  intros (b & Hp). unfold reqs_of in Hp. apply fmap_Some in Hp as (i & Hi & Hv). injection Hv as Hp _ Hd.
  unfold request_unref. wp_structs. destruct (ref_count.dec (r_refs i) =? 0); [|by apply wp_ret; split].
  unfold destroy_instance. cbn [when]. wp_struct. eapply wp_get_r; [cbn; apply lookup_insert_eq|]. cbn.
  rewrite <-Hd. cbn. wp_structs. eapply wp_get_r; [cbn; apply lookup_insert_eq|]. cbn.
  rewrite <-Hp. cbn. wp_structs. unfold request_free. wp_struct.
  eapply wp_get_r; [cbn; apply lookup_insert_eq|]. wp_structs. by split.
Qed.

Lemma wp_drop_plain wr F X st sizes (Q : unit → world → Prop) w :
  shows (TR wr :: F) X st sizes w → plain wr w → (∀ w', shows F X st sizes w' → Q tt w') →
  wp (request_unref wr) Q w.
Proof.
  intros S Hp HQ. eapply wp_mono; [apply wp_and; [by apply plain_drop_steady|]|].
  - eapply (wp_request_unref wr F X (λ _ w', Inv F X w')); [apply S|done].
  - intros [] w' [St I']. apply HQ. eapply shows_steady; [exact S|done..|]. intros t.
    destruct (decide (t = TR wr)) as [->|Ht]; [by right|left]. cbn. by rewrite decide_False by congruence.
Qed.

(** The buffer of the callback: one chunk, which no pending write refers to. *)
Definition fresh_chunk (F : list token) (b : loc) (w : world) : Prop :=
  held F w (TB b) ∧ (∃ base len, bufs_of w b = Some [(base, len)]) ∧
  ∀ a, a ∈ w_armed w → TB b ∉ arm_toks a.

(** C37: read_cb of cpio-uvcc.cpp, with the operations of the library and whatever libuv
    answers, does to the input, the pending writes and the ledger what its abstract
    version does: of a chunk that has been read exactly the bytes read are given to
    libuv for the output, and the reading is paused or stopped as the queue that libuv
    then reports, or the refusal, asks for. *)
Theorem read_cb_implements nread buf F X s w :
  shows F X (cpio.c_in s) (cpio.c_out s) w → nread < 2 ^ 64 →
  (0 < nread → ∃ b, buf = Some b ∧ fresh_chunk F b w) →
  wp (read_cb in_ nread buf) (λ _ w', ∃ a, let s' := cpio.read_cb nread a s in
    shows F X (cpio.c_in s') (cpio.c_out s') w' ∧
    (0 < nread → ∃ b wr w0 w1, buf = Some b ∧ prepare nread b w = Ok wr w0 ∧
      answered wr b nread w0 (an_write a) ∧ send in_ wr b w0 = Ok tt w1 ∧
      out_queue w1 = Some (an_queue a))) w.
Proof.
  intros S Hn Hb. unfold read_cb, cpio.read_cb.
  pose (none := {| an_write := 0; an_files := []; an_queue := 0; an_resume := 0 |}).
  destruct (nread <? 0) eqn:Hneg.
  { wp_struct. eapply wp_shows_stop; [done|]. intros z w' S' _. wp_struct. exists none. split; [done|lia]. }
  destruct (0 <? nread) eqn:Hpos; [|apply wp_ret; exists none; split; [done|lia]].
  destruct Hb as (b & -> & HL & (base & len & Hb) & Hf); [lia|]. wp_structs.
  apply wp_run, (wp_prepare nread b base len F X _ _ _ w S HL Hb ltac:(lia) Hf). intros wr w0 P0 R0.
  apply wp_finally. wp_struct. apply wp_run. eapply wp_send; [exact P0|]. intros z w1 Pl1 An S1 R1.
  wp_struct. eapply wp_shows_queue; [exact S1|]. intros q Hq. wp_struct.
  eapply wp_shows_pause; [exact S1|]. intros z' w2 S2 A2. wp_struct.
  eapply wp_drop_plain; [exact S2| |].
  { unfold plain. by rewrite (as_reqs _ _ _ A2). }
  intros w3 S3. exists {| an_write := z; an_files := []; an_queue := q; an_resume := 0 |}. split.
  - destruct (0 <=? z) eqn:Hz; cbn in *; rewrite Hz; exact S3.
  - intros _. by exists b, wr, w0, w1.
Qed.
End client.
