(* ===== verification/System.v ===== *)
(** * The library as a whole: operations in any order

    A client holds class objects in variables and applies the operations of the library to
    them; libuv completes requests and reports events. The step relation of this file runs
    them in any order, and the theorems say that every one of them is safe and that nothing
    leaks. *)

From Stdlib Require Import ZArith Lia.
From stdpp Require Import base gmap list strings option relations.
From S2P Require Import Prelude World Objects Ledger Wp Refs Release Rules HRules.
From S2P Require Import Netstruct ReqStream Buffer HandleMisc Handle Io ReadCmd ReadCb ReqFs.
From S2P Require Import FsLedger ReqMisc Vars Stream Process Construct Ops OpsLedger.

Local Open Scope Z_scope.

Section system.
Context `{E : Env} `{EO : !EnvOk} `{AO : !AllocOk}.

(** ** Reachable states *)

(** The process begins with nothing allocated. *)
Definition start : world :=
  {| w_handles := ∅; w_reqs := ∅; w_bufs := ∅; w_loops := ∅; w_vars := ∅; w_armed := [];
     w_brk := 4096; w_unwinding := false; w_log := [] |}.

Definition step (w w' : world) : Prop := ∃ o, enabled o w ∧ exec o w = Ok tt w'.
Definition reachable : world → Prop := rtc step start.

Lemma Inv_start : Inv [] [] start.
Proof.
  split; try (by constructor); try done.
  - intros []; reflexivity.
  - by intros [].
Qed.

Lemma step_inv w w' : Inv [] [] w → step w w' → Inv [] [] w'.
Proof.
  intros I (o & Ho & Hx). pose proof (exec_ok [] [] o w I Ho) as S. unfold safe, wp in S.
  by rewrite Hx in S.
Qed.

Lemma reachable_inv w : reachable w → Inv [] [] w.
Proof.
  apply (rtc_invariant (Inv [] [])); [apply step_inv|apply Inv_start].
Qed.

(** An object exists exactly as long as something refers to it. *)
Lemma exists_iff_owned w t : Inv [] [] w →
  refs_of w t = if decide (owned w t = 0%nat) then None else Some (Z.of_nat (owned w t)).
Proof.
  intros I. pose proof (inv_count _ _ _ I t) as Hc. unfold total in Hc. cbn in Hc.
  rewrite !Nat.add_0_r in Hc. destruct (refs_of w t) as [n|]; [|by rewrite decide_True].
  destruct Hc as [-> Hn]. rewrite decide_False; [done|]. intros H0.
  rewrite H0 in Hn. by specialize (Hn eq_refl) as ?%not_elem_of_nil.
Qed.

(** Nothing runs for the client any more: it has no variables, libuv has nothing pending and
    no handle is started. *)
Record quiet (w : world) : Prop := {
  quiet_vars : w_vars w = ∅;
  quiet_armed : w_armed w = [];
  quiet_handles : ∀ h, ¬ self_owned h w
}.

(** In a quiet state the owners are instances: of the loop or of endpoints. *)
Lemma quiet_owner w t : quiet w → (0 < owned w t)%nat →
  ∃ h i, w_handles w !! h = Some i ∧ h_refs i ≠ 0 ∧
    (t ∈ props_endpoints (h_props i) ≫= opt_tok TH ∨ t ∈ opt_tok TL (h_loop i)).
Proof.
  intros [HV HA HH] Ho. unfold owned in Ho. rewrite HV, HA, msum_empty in Ho. cbn in Ho.
  rewrite Nat.add_0_r in Ho. apply msum_pos in Ho as (h & i & Hi & Hc%cnt_elem).
  unfold hinst_toks in Hc. destruct (Z.eqb_spec (h_refs i) 0) as [|H0];
    [by apply not_elem_of_nil in Hc|]. exists h, i. split_and!; [done..|].
  unfold props_toks in Hc. destruct (props_self (h_props i)) eqn:Hs.
  - by destruct (HH h); exists i.
  - cbn in Hc. by apply elem_of_app in Hc.
Qed.

Lemma quiet_no_handle w h : Inv [] [] w → quiet w → w_handles w !! h = None.
Proof.
  intros I Q. assert (∀ h i, w_handles w !! h = Some i → ∃ j, w_handles w !! h = Some j ∧
    not_process (h_props j) = true ∧ ∃ h' k, w_handles w !! h' = Some k ∧ h_refs k ≠ 0 ∧
      not_process (h_props k) = false) as H.
  { clear h. intros h i Hi. pose proof (exists_iff_owned w (TH h) I) as Hr. cbn in Hr.
    rewrite Hi in Hr. destruct (decide (owned w (TH h) = 0%nat)) as [|Hn]; [done|].
    destruct (quiet_owner w (TH h) Q) as (h' & k & Hk & H0 & [He|Hl]); [lia| |].
    - apply list_elem_of_bind in He as ([e|] & Ht & He); cbn in Ht; [|by apply not_elem_of_nil in Ht].
      apply list_elem_of_singleton in Ht as [= ->].
      pose proof (inv_endpoints _ _ _ I h' k Hk H0) as Hes.
      pose proof He as He0.
      apply (proj1 (list.Forall_forall _ _) Hes) in He as (j & Hj & Hp).
      exists j. split_and!; [done..|]. exists h', k. split_and!; [done..|].
      destruct (not_process (h_props k)) eqn:Hnp; [|done].
      pose proof (not_process_endpoints _ Hnp) as Hnil. rewrite Hnil in He0.
      by apply not_elem_of_nil in He0.
    - destruct (h_loop k); cbn in Hl; [|by apply not_elem_of_nil in Hl].
      by apply list_elem_of_singleton in Hl. }
  destruct (w_handles w !! h) as [i|] eqn:Hi; [exfalso|done].
  destruct (H h i Hi) as (_ & _ & _ & h' & k & Hk & H0 & Hp).
  destruct (H h' k Hk) as (j & Hj & Hnp & _). congruence.
Qed.

Lemma quiet_empty w : Inv [] [] w → quiet w →
  w_handles w = ∅ ∧ w_reqs w = ∅ ∧ w_bufs w = ∅ ∧ w_loops w = ∅.
Proof.
  intros I Q. assert (∀ t, refs_of w t = None) as H.
  { intros t. rewrite (exists_iff_owned w t I). case_decide as Ho; [done|].
    destruct (quiet_owner w t Q) as (h & i & Hi & _); [lia|].
    by rewrite (quiet_no_handle w h I Q) in Hi. }
  split_and!; apply map_empty; intros o.
  - by apply quiet_no_handle.
  - specialize (H (TR o)). by apply fmap_None in H.
  - specialize (H (TB o)). by apply fmap_None in H.
  - specialize (H (TL o)). by apply fmap_None in H.
Qed.


(** C5: In a reachable state an object exists exactly as long as a variable, an instance
    or a pending callback refers to it, and its counter is the number of those that do.
    *)
Theorem alive_iff_owned w t :
  reachable w →
  refs_of w t = if decide (owned w t = 0%nat) then None else Some (Z.of_nat (owned w t)).
Proof. intros R. by apply exists_iff_owned, reachable_inv. Qed.

End system.
