(* ===== verification/Enabled.v ===== *)
(** * Whether an operation may be applied is decided

    The conditions of Ops are decidable: a program can ask before it applies an operation, and
    the runs of Program are evaluated. *)

From Stdlib Require Import ZArith Lia.
From stdpp Require Import base gmap list strings option.
From S2P Require Import Prelude World Objects Ledger Wp Refs Release Rules.
From S2P Require Import Buffer HandleMisc Handle ReadCmd ReqFs FsLedger ReqMisc Process Construct Ops.

Local Open Scope Z_scope.

(** ** What is said of one object *)

#[export] Instance option_ex_dec {A} (o : option A) (P : A → Prop) `{!∀ a, Decision (P a)} :
  Decision (∃ a, o = Some a ∧ P a).
Proof.
  destruct o as [a|].
  - destruct (decide (P a)) as [Ha|Ha]; [left; eauto|right]. by intros (? & [= ->] & ?).
  - right. by intros (? & ? & ?).
Defined.

#[export] Instance props_at_dec h w P `{!∀ p, Decision (P p)} : Decision (props_at h w P).
Proof. by apply option_ex_dec. Defined.

#[export] Instance self_owned_dec h w : Decision (self_owned h w).
Proof. unfold self_owned. apply option_ex_dec. intros i. apply _. Defined.

#[export] Instance client_has_dec w l : Decision (client_has w l).
Proof. unfold client_has, held. apply _. Defined.

#[export] Instance var_at_dec k x w : Decision (var_at k x w).
Proof.
  unfold var_at. destruct (w_vars w !! x) as [p|]; [|by right; intros (? & ?)].
  destruct k, p as [o|o|o|o]; first [by left; exists o | by right; intros (? & [=])].
Defined.

#[export] Instance unarmed_dec r w : Decision (unarmed r w).
Proof.
  refine (cast_if (decide (Forall (λ a, TR r ∉ arm_toks a) (w_armed w))));
    unfold unarmed; by rewrite <-list.Forall_forall.
Defined.

Lemma view_ex_dec r w (P : rprops → Prop) `{!∀ p, Decision (P p)} :
  Decision (∃ p c, request_view r p c w ∧ P p).
Proof.
  destruct (w_reqs w !! r) as [i|] eqn:Hi.
  - destruct (decide (P (r_props i))) as [Hd|Hd].
    + left. exists (r_props i), (r_request_cb i). unfold request_view. by rewrite Hi.
    + right. intros (p & c & HP & Hp). unfold request_view in HP. rewrite Hi in HP.
      by injection HP as <- <-.
  - right. intros (p & c & HP & _). unfold request_view in HP. by rewrite Hi in HP.
Defined.

(** ** The classes of properties *)

Ltac by_class :=
  lazymatch goal with
  | |- Decision (?P ?p) => unfold P; destruct p;
      first [by left; repeat eexists | by right; intros ?; destruct_and?; destruct_ex; discriminate]
  end
with destruct_ex := repeat match goal with H : ∃ _, _ |- _ => destruct H end.

#[export] Instance is_watcher_dec p : Decision (is_watcher p). Proof. by_class. Defined.
#[export] Instance is_timer_dec p : Decision (is_timer p). Proof. by_class. Defined.
#[export] Instance is_signal_dec p : Decision (is_signal p). Proof. by_class. Defined.
#[export] Instance is_fs_event_dec p : Decision (is_fs_event p). Proof. by_class. Defined.
#[export] Instance is_async_dec p : Decision (is_async p). Proof. by_class. Defined.
#[export] Instance is_stream_dec p : Decision (is_stream p). Proof. by_class. Defined.
#[export] Instance is_process_dec p : Decision (is_process p). Proof. by_class. Defined.
#[export] Instance is_file_dec p : Decision (is_file p). Proof. by_class. Defined.
#[export] Instance is_reader_dec p : Decision (is_reader p).
Proof. destruct p; cbn; apply _. Defined.

#[export] Instance reads_by_uv_dec f p : Decision (reads_by_uv f p).
Proof. destruct f, p; cbn; apply _. Defined.

(** A container and the endpoint at its place. *)
Definition same_endpoint (c : stdio_container) (e : option loc) : Prop :=
  ∀ s, sc_data c = SD_stream (Some s) → e = Some s.

#[export] Instance same_endpoint_dec c e : Decision (same_endpoint c e).
Proof.
  unfold same_endpoint. destruct (sc_data c) as [fd|[s|]]; [by left| |by left].
  destruct (decide (e = Some s)) as [He|He]; [left; by intros ? [= <-]|right; eauto].
Defined.

Lemma stdio_consistent_eq ps :
  stdio_consistent ps ↔ Forall2 same_endpoint (ps_containers ps) (ps_endpoints ps).
Proof.
  unfold stdio_consistent. split.
  - intros [Hl H]. apply Forall2_same_length_lookup. split; [done|].
    intros n c e Hc He s Hs. specialize (H n c s Hc Hs). congruence.
  - intros H. split; [by eapply Forall2_length|]. intros n c s Hc Hs.
    eapply Forall2_lookup_l in H as (e & He & H); [|done]. by rewrite He, (H s Hs).
Qed.

#[export] Instance stdio_consistent_dec ps : Decision (stdio_consistent ps).
Proof.
  refine (cast_if (decide (Forall2 same_endpoint (ps_containers ps) (ps_endpoints ps))));
    by rewrite stdio_consistent_eq.
Defined.

#[export] Instance consistent_process_dec p :
  Decision (∃ ps, p = P_process ps ∧ stdio_consistent ps).
Proof.
  destruct p as [| | | | | | | | |ps]; try (by right; intros (? & [=] & _)).
  destruct (decide (stdio_consistent ps)); [left; eauto|right]. by intros (? & [= <-] & ?).
Defined.

(** ** The conditions of the operations *)

#[export] Instance var_enabled_dec k a w : Decision (var_enabled k a w).
Proof. destruct a; cbn; apply _. Defined.

#[export] Instance fits_dec lens : Decision (fits lens).
Proof. unfold fits. apply _. Defined.

#[export] Instance still_there_dec w t : Decision (still_there w t).
Proof. apply option_ex_dec. intros n. apply _. Defined.

#[export] Instance got_there_dec i g w : Decision (got_there i g w).
Proof.
  destruct g; cbn; try apply _.
  all: destruct (r_props i) as [| | | |? [h|] ? ? ? ?|]; try apply _.
  destruct (ur_loop (r_uv i)); apply _.
Defined.

#[export] Instance acceptor_dec h w P `{!∀ i, Decision (P i)} : Decision (acceptor h w P).
Proof.
  apply and_dec; [apply _|].
  destruct (w_handles w !! h) as [i|] eqn:Hi; [|by right; intros (? & ? & ? & _)].
  destruct (h_loop i) as [l|] eqn:Hl; [|right; intros (? & ? & [= <-] & Hl' & _); congruence].
  destruct (decide (uh_loop (h_uv i) = Some l ∧ P i)) as [Hd|Hd].
  - left. by exists i, l.
  - right. intros (? & ? & [= <-] & Hl' & Hu & H'). apply Hd. split; [congruence|done].
Defined.

#[export] Instance new_enabled_dec `{E : Env} n w : Decision (new_enabled n w).
Proof.
  destruct n; cbn; try apply _; (apply and_dec; [apply _|]);
    apply option_ex_dec; intros; apply _.
Defined.

#[export] Instance file_class_dec r w : Decision (file_class r w).
Proof. apply view_ex_dec. intros p. apply _. Defined.

(** The request is of a class whose properties are [R_fs], of a given shape. *)
Ltac by_view :=
  unfold request_view;
  let p := fresh "p" in
  match goal with |- context [w_reqs ?w !! ?r] => destruct (w_reqs w !! r) as [[? ? ? ? p ? ?]|] end;
  [destruct p; repeat match goal with o : option loc |- _ => destruct o end|];
  first [ left; by repeat eexists | right; intros Hv; destruct_ex; cbn in *; congruence ].

#[export] Instance data_class_dec r w :
  Decision (∃ own uh ub o ps c, request_view r (R_fs own uh ub o ps None) c w).
Proof. by_view. Defined.
#[export] Instance sendfile_class_dec r w :
  Decision (∃ own uh o ps uo c, request_view r (R_fs own uh None o ps uo) c w).
Proof. by_view. Defined.

Lemma fs_no_file_dec p : Decision (fs_set_file None p = p).
Proof. destruct p as [| | | |? [] |]; first [by left | by right]. Defined.

#[export] Instance output_class_dec r io info w : Decision (output_class r io info w).
Proof.
  apply option_ex_dec. intros i. apply option_ex_dec. intros q.
  destruct (endpoint_request i) as [t|]; [|apply _].
  destruct (r_props q) as [| | | |? ? ? ? ? [o|]|]; destruct t, info; apply _.
Defined.

#[export] Instance idle_file_dec w h : Decision (idle_file w h).
Proof.
  unfold idle_file. destruct (w_handles w !! h) as [i|]; [|by right; intros (? & ? & [=] & _)].
  cbn. destruct (h_props i) as [| | |io f| | | | | |];
    try (by right; intros (? & ? & [=] & _)).
  destruct (decide (h_iface i = If_file ∧ io_rdlock io = false ∧ reading (io_rdcmd io) = false))
    as [(Hi & Hk & Hr)|Hn].
  - left. exists io, f. by rewrite Hi.
  - right. intros (? & ? & [= <- <-] & [= Hi] & H). by apply Hn.
Defined.

#[export] Instance req_enabled_dec r q w : Decision (req_enabled r q w).
Proof.
  pose proof fs_no_file_dec. unfold req_enabled. apply and_dec; [apply _|].
  destruct q; try apply _.
  pose proof (view_ex_dec r w (λ p, fs_set_file None p = p)). apply _.
Defined.

#[export] Instance handle_enabled_dec h c w : Decision (handle_enabled h c w).
Proof.
  unfold handle_enabled. apply and_dec; [apply _|]. destruct c; try apply _.
Defined.

#[export] Instance set_enabled_dec s w : Decision (set_enabled s w).
Proof. destruct s; cbn; apply _. Defined.

#[export] Instance outlives_dec h m w : Decision (outlives h m w).
Proof. unfold outlives. destruct (m w); apply _. Defined.

#[export] Instance event_enabled_dec `{E : Env} h e w : Decision (event_enabled h e w).
Proof. destruct e; cbn; apply _. Defined.

#[export] Instance complete_enabled_dec k w : Decision (complete_enabled k w).
Proof. apply option_ex_dec. intros a. destruct (arm_cb a); apply _. Defined.

#[export] Instance enabled_dec `{E : Env} o w : Decision (enabled o w).
Proof. destruct o; cbn; apply _. Defined.
