(* ===== verification/Program.v ===== *)
(** * Programs

    A client that is written with the operations of the library, its functions included, over
    a libuv that reports events and completes requests in an order of its own: the functions
    of the client are scripts that choose each operation from the state, and the conditions
    [EnvOk] and [AllocOk] of the other files are theorems here. *)

From Stdlib Require Import ZArith Lia.
From stdpp Require Import base gmap list strings option.
From S2P Require Import Prelude World Objects Ledger Wp Refs Release Rules HRules.
From S2P Require Import Buffer Io ReadCb Vars Loop Ops OpsLedger System Enabled.

Local Open Scope Z_scope.

(** ** Clients *)

(** The operations of [Ops] that are members of the classes. *)
Definition client_op (o : op) : bool :=
  match o with O_event _ _ | O_complete _ _ => false | _ => true end.

(** What a function of the client does next: an operation; a new variable from its [k]-th
    parameter, by copy or by move; a run of a loop. *)
Inductive action :=
| S_op (o : op)
| S_copy (k : nat) (x : positive)
| S_take (k : nat) (x : positive)
| S_run (l : loc) (mode : Z).

(** A function of the client: at most so many actions, each chosen from the number of the
    action, the parameters as they are now and the state, until it returns. *)
Record script := { sc_len : nat; sc_next : nat → list arg → world → option action }.

(** What a function for [on_alloc()] returns: a new buffer, or one that the client keeps in a
    variable, by copy (the variable keeps it too) or by move. *)
Inductive alloc_choice := New_buffer (size : Z) | Spare (x : positive) (keep : bool).

Class Client := {
  cl_cb : Z → script;                            (* the functions it hands to the library *)
  cl_chunk : Z → option loc → Z → world → alloc_choice
}.

(** ** libuv *)

(** What libuv does while a loop runs. *)
Inductive uv_step := U_event (h : loc) (e : event_op) | U_complete (k : nat) (result : Z).
Definition uv_step_op (s : uv_step) : op :=
  match s with U_event h e => O_event h e | U_complete k result => O_complete k result end.

Class Libuv := {
  lv_exec : list event → uvfn → list uvarg → uv_reply;
  lv_walk : list event → loc → list loc;
  lv_len : nat;                                          (* events of one [uv_run] *)
  lv_next : loc → Z → nat → world → option uv_step;
  lv_status : list event → loc → Z → Z;                  (* the value of [uv_run] *)
  lv_rounds : nat
}.

(** ** Runs *)

Section run.
Context `{E : Env}.

(** An operation that may not be applied is skipped. *)
Definition attempt (o : op) : M unit :=
  w ← get; if decide (enabled o w) then exec o else mret tt.

Definition null_arg (a : arg) : arg :=
  match a with
  | A_ptr (PH _) => A_ptr (PH None) | A_ptr (PR _) => A_ptr (PR None)
  | A_ptr (PB _) => A_ptr (PB None) | A_ptr (PL _) => A_ptr (PL None)
  | _ => a
  end.

(** The copy constructor of a variable from a parameter. *)
Definition copy_arg (p : ptr) (x : positive) : M unit :=
  match ptr_toks p with t :: _ => tok_ref t | [] => mret tt end;;
  modify (upd_vars (<[x := p]>)).

(** [l.run(mode)] on a local variable of the function. *)
Definition run_loop (l : loc) (mode : Z) : M unit :=
  w ← get;
  if decide (client_has w [TL l])
  then tok_ref (TL l);; _ ← loop.run l mode; tok_unref (TL l) else mret tt.

Definition act (args : list arg) (a : action) : M (list arg) :=
  w ← get;
  match a with
  | S_op o => when (client_op o) (attempt o);; mret args
  | S_copy k x =>
      match w_vars w !! x, args !! k with
      | None, Some (A_ptr p) => copy_arg p x;; mret args
      | _, _ => mret args
      end
  | S_take k x =>
      match w_vars w !! x, args !! k with
      | None, Some (A_ptr p) =>
          modify (upd_vars (<[x := p]>));; mret (<[k := null_arg (A_ptr p)]> args)
      | _, _ => mret args
      end
  | S_run l mode => run_loop l mode;; mret args
  end.

Fixpoint play (fuel i : nat) (next : nat → list arg → world → option action)
    (args : list arg) : M (list arg) :=
  match fuel with
  | O => mret args
  | S fuel' =>
      w ← get;
      match next i args w with
      | Some a => args' ← act args a; play fuel' (S i) next args'
      | None => mret args
      end
  end.
Definition play_script (s : script) (args : list arg) : M (list arg) :=
  play (sc_len s) 0 (sc_next s) args.

Fixpoint serve (fuel i : nat) (next : nat → world → option uv_step) : M unit :=
  match fuel with
  | O => mret tt
  | S fuel' =>
      w ← get;
      match next i w with
      | Some s => attempt (uv_step_op s);; serve fuel' (S i) next
      | None => mret tt
      end
  end.
(** *** Allocation *)

(** A variable that has no such buffer is left alone, and a new buffer is made. *)
Definition spare_chunk (x : positive) (keep : bool) : M loc :=
  w ← get;
  match w_vars w !! x with
  | Some (PB (Some b)) =>
      if one_chunk b w then
        (if keep then tok_ref (TB b) else modify (upd_vars (<[x := PB None]>)));; mret b
      else new_chunk 1
  | _ => new_chunk 1
  end.

Definition alloc_chunk (c : alloc_choice) : M loc :=
  match c with New_buffer size => new_chunk size | Spare x keep => spare_chunk x keep end.
End run.

(** ** The machine

    Calls into the client nest at most [n] deep; the innermost functions do nothing. *)

Section machine.
Context `{C : Client} `{V : Libuv}.

Fixpoint machine (n : nat) : Env := {|
  uv_exec := lv_exec;
  uv_walk_handles := lv_walk;
  uv_run l mode :=
    match n with O => mret tt | S m => serve (E := machine m) lv_len 0 (lv_next l mode) end;;
    w ← get; mret (lv_status (w_log w) l mode);
  user_cb id args :=
    match n with O => mret args | S m => play_script (E := machine m) (cl_cb id) args end;
  user_alloc f ho size :=
    w ← get; b ← alloc_chunk (cl_chunk f ho size w); mret (ho, Some b);
  run_fuel := lv_rounds
|}.

Lemma machine_run_status n l mode w z w' :
  uv_run (Env := machine n) l mode w = Ok z w' → z = lv_status (w_log w') l mode.
Proof.
  assert (∀ m : M unit, (m;; w ← get; mret (lv_status (w_log w) l mode)) w = Ok z w' →
    z = lv_status (w_log w') l mode) as H; [|destruct n; apply H].
  intros m Hm. unfold mbind, M_bind in Hm. destruct (m w); [|done..]. by injection Hm as <- <-.
Qed.

(** What libuv promises: the laws of [EnvOk] that are about libuv. *)
Class LibuvOk := {
  lv_init log f l h rest w i :
    is_init f = true → w_handles w !! h = Some i →
    let rp := lv_exec log f (V_loop (Some l) :: V_handle (Some h) :: rest) in
    0 ≤ rp_ret rp →
    (λ i, uh_loop (h_uv i)) <$> w_handles (apply_uv_writes (rp_writes rp) w) !! h = Some (Some l);
  lv_loop_kept log f args h w :
    is_init f = false →
    (λ i, uh_loop (h_uv i)) <$>
      w_handles (apply_uv_writes (rp_writes (lv_exec log f args)) w) !! h =
    (λ i, uh_loop (h_uv i)) <$> w_handles w !! h;
  lv_closing F X w l h es :
    Inv F X w → D_loop l ∈ X → h ∈ lv_walk (w_log w) l → Forall is_query es →
    rp_ret (lv_exec (es ++ w_log w) f_is_closing [V_handle (Some h)]) ≠ 0;
  lv_left : list event → loc → nat;
  lv_left_bound log l : (lv_left log l < lv_rounds)%nat;
  lv_dying n l F X w z w' :
    Inv F X w → D_loop l ∈ X → uv_run (Env := machine n) l UV_RUN_NOWAIT w = Ok z w' →
    (z = 0 → rp_ret (lv_exec (w_log w') f_loop_close [V_loop (Some l)]) = 0) ∧
    (z ≠ 0 → (lv_left (w_log w') l < lv_left (w_log w) l)%nat)
}.
End machine.
Arguments LibuvOk _ _ : clear implicits.

(** ** Scripts keep the ledger *)

Section ledger.
Context `{E : Env} `{EO : !EnvOk} `{AO : !AllocOk}.

Lemma attempt_safe o F X w : Inv F X w → safe F X (attempt o) w.
Proof.
  intros I. unfold safe, attempt. wp_structs. case_decide as H; [by apply exec_ok|by apply wp_ret].
Qed.

(** What may become of a parameter. *)
Definition moved (a a' : arg) : Prop := a' = a ∨ a' = null_arg a.

Lemma moved_refl l : Forall2 moved l l.
Proof. induction l; constructor; [by left|done]. Qed.
Lemma moved_trans l l' l'' : Forall2 moved l l' → Forall2 moved l' l'' → Forall2 moved l l''.
Proof.
  intros H. revert l''. induction H as [|a a' l l' Ha _ IH]; intros l'' H'; [done|].
  inversion H' as [|? a'' ? ? Ha']; subst. constructor; [|auto].
  destruct Ha as [->| ->], Ha' as [->| ->]; [by left|by right..|]. right. by destruct a as [[]| |].
Qed.

Lemma moved_shape l l' : Forall2 moved l l' → Forall2 arg_shape l l'.
Proof.
  induction 1 as [|a a' l l' Ha]; constructor; [|done].
  by destruct Ha as [->| ->], a as [[]| |].
Qed.

Lemma args_toks_cons a l : args_toks (a :: l) = arg_toks a ++ args_toks l.
Proof. done. Qed.

Lemma args_toks_take k p u args : args !! k = Some (A_ptr p) →
  (cnt u (args_toks (<[k := null_arg (A_ptr p)]> args)) + cnt u (ptr_toks p))%nat =
  cnt u (args_toks args).
Proof.
  revert k. induction args as [|a args IH]; intros [|k] H; try done.
  - injection H as ->. change (<[0%nat := ?x]> (?y :: ?l)) with (x :: l).
    rewrite !args_toks_cons, !cnt_app.
    replace (arg_toks (null_arg (A_ptr p))) with ([] : list token) by by destruct p.
    change (arg_toks (A_ptr p)) with (ptr_toks p). cbn. lia.
  - change (<[S k := ?x]> (?y :: ?l)) with (y :: <[k := x]> l).
    specialize (IH k H). rewrite !args_toks_cons, !cnt_app. lia.
Qed.

Lemma moved_take k p args : args !! k = Some (A_ptr p) →
  Forall2 moved args (<[k := null_arg (A_ptr p)]> args).
Proof.
  revert k. induction args as [|a args IH]; intros [|k] H; try done; cbn in H |- *.
  - injection H as ->. constructor; [by right|apply moved_refl].
  - constructor; [by left|by apply IH].
Qed.

Definition kept_args (args : list arg) (F : list token) (X : list dying)
    (args' : list arg) (w' : world) : Prop :=
  Inv (args_toks args' ++ F) X w' ∧ Forall2 moved args args'.

Lemma wp_copy_arg p x F X w :
  Inv F X w → w_vars w !! x = None → (∀ t, t ∈ ptr_toks p → live F w t) →
  wp (copy_arg p x) (λ _ w', Inv F X w') w.
Proof.
  intros I Hx HL. unfold copy_arg. destruct (ptr_toks p) as [|t l] eqn:Hp.
  - wp_structs. apply wp_modify. eapply Inv_set_var; [done|]. intros u. rewrite Hx, Hp. cbn. lia.
  - assert (l = []) as -> by (by destruct p as [[]|[]|[]|[]]; simplify_eq/=).
    wp_struct. eapply wp_tok_ref; [done|apply HL; by left|]. intros w1 S I1. apply wp_modify.
    eapply Inv_set_var; [done|]. intros u. rewrite <-(sim_vars _ _ (proj1 S)), Hx, Hp. cbn.
    destruct (decide (t = u)); lia.
Qed.

Lemma wp_run_loop l mode F X w : Inv F X w → safe F X (run_loop l mode) w.
Proof.
  intros I. unfold safe, run_loop. wp_structs. case_decide as H; [|by apply wp_ret].
  wp_struct. eapply wp_tok_ref; [done|by eapply client_live; [|left]|]. intros w1 _ I1.
  wp_struct. eapply wp_mono; [by apply wp_loop_run|]. intros z w2 I2.
  apply (wp_tok_unref (TL l) F X); [exact I2|by intros].
Qed.

Lemma wp_act args a F X w :
  Inv (args_toks args ++ F) X w → wp (act args a) (kept_args args F X) w.
Proof.
  intros I. assert (kept_args args F X args w) as Hk by (split; [done|apply moved_refl]).
  unfold act. wp_structs. destruct a as [o|k x|k x|l mode].
  - wp_struct. apply wp_mono with (Q := λ _ w', Inv (args_toks args ++ F) X w').
    + destruct (client_op o); cbn [when]; [by apply attempt_safe|by apply wp_ret].
    + intros [] w' I'. apply wp_ret. split; [done|apply moved_refl].
  - destruct (w_vars w !! x) eqn:Hx; [by apply wp_ret|].
    destruct (args !! k) as [[p| |]|] eqn:Ha; try (by apply wp_ret).
    wp_struct. eapply wp_mono; [eapply wp_copy_arg; [done..|]|].
    + intros t Ht. apply live_frame, elem_of_app. left. unfold args_toks.
      apply list_elem_of_bind. exists (A_ptr p). split; [done|by eapply list_elem_of_lookup_2].
    + intros [] w' I'. apply wp_ret. split; [done|apply moved_refl].
  - destruct (w_vars w !! x) eqn:Hx; [by apply wp_ret|].
    destruct (args !! k) as [[p| |]|] eqn:Ha; try (by apply wp_ret).
    wp_struct. apply wp_modify, wp_ret. split; [|by apply moved_take].
    eapply Inv_set_var; [done|]. intros u. rewrite Hx, !cnt_app.
    change (cnt u (from_option ptr_toks [] None)) with 0%nat.
    pose proof (args_toks_take k p u args Ha) as Ht. lia.
  - wp_struct. eapply wp_mono; [by apply wp_run_loop|]. intros [] w' I'. apply wp_ret.
    split; [done|apply moved_refl].
Qed.

Lemma wp_play fuel i next args F X w :
  Inv (args_toks args ++ F) X w → wp (play fuel i next args) (kept_args args F X) w.
Proof.
  revert i args w. induction fuel as [|fuel IH]; intros i args w I; cbn [play].
  { apply wp_ret. split; [done|apply moved_refl]. }
  wp_structs. destruct (next i args w) as [a|]; [|apply wp_ret; split; [done|apply moved_refl]].
  wp_struct. eapply wp_mono; [by apply wp_act|]. intros args' w1 [I1 H1].
  eapply wp_mono; [by apply IH|]. intros args'' w2 [I2 H2].
  split; [done|by eapply moved_trans].
Qed.

Lemma wp_serve fuel i next F X w : Inv F X w → safe F X (serve fuel i next) w.
Proof.
  unfold safe. revert i w. induction fuel as [|fuel IH]; intros i w I; cbn [serve]; [by apply wp_ret|].
  wp_structs. destruct (next i w) as [s|]; [|by apply wp_ret].
  wp_struct. eapply wp_mono; [by apply attempt_safe|]. intros [] w' I'. by apply IH.
Qed.
End ledger.

(** *** Allocation keeps the contract *)

Section alloc.
Context `{E : Env} `{EO : !EnvOk}.

Lemma wp_spare_chunk x keep h F X w : Inv F X w → wp (spare_chunk x keep) (chunk_lent h F X w) w.
Proof.
  intros I. unfold spare_chunk. wp_structs.
  destruct (w_vars w !! x) as [[o|o|[b|]|o]|] eqn:Hx; try (by apply wp_new_chunk).
  destruct (one_chunk b w) eqn:Hb; [|by apply wp_new_chunk]. wp_struct. destruct keep.
  - eapply (wp_tok_ref (TB b)); [done| |].
    { unfold live. pose proof (owned_var PB x (Some b) b w Hx eq_refl) as Ho. cbn in Ho. lia. }
    intros w1 S I1. apply wp_ret. split_and!; [done| |by rewrite (sim_hprops _ _ h (proj1 S))].
    unfold one_chunk in *. by rewrite <-(sim_bbufs _ _ b (proj1 S)).
  - apply wp_modify, wp_ret. split_and!; [|done|done]. eapply Inv_set_var; [done|].
    intros u. rewrite Hx. cbn. lia.
Qed.

Lemma wp_alloc_chunk c h F X w :
  Inv (TH h :: F) X w →
  wp (b ← alloc_chunk c; mret (Some h, Some b)) (alloc_contract h F X w) w.
Proof.
  intros I. wp_struct. apply wp_mono with (Q := chunk_lent h (TH h :: F) X w).
  { destruct c; [by apply wp_new_chunk|by apply wp_spare_chunk]. }
  intros b w1 H. apply wp_ret. by apply chunk_lent_contract.
Qed.
End alloc.

(** ** The machine meets the conditions *)

Section machine_ok.
Context `{C : Client} `{V : Libuv} `{LV : !LibuvOk C V}.

#[export] Instance machine_alloc_ok n : AllocOk (E := machine n).
Proof.
  split. intros f h size F X w I.
  replace (user_alloc (Env := machine n) f (Some h) size) with (w ← get;
    b ← alloc_chunk (cl_chunk f (Some h) size w); mret (Some h, Some b)) by by destruct n.
  do 2 wp_struct. by apply (wp_alloc_chunk (E := machine 0)).
Qed.

Lemma machine_run_inv n l mode F X w :
  (∀ m, n = S m → EnvOk (E := machine m)) →
  Inv F X w → wp (uv_run (Env := machine n) l mode) (λ _ w', Inv F X w') w.
Proof.
  intros IH I. destruct n as [|m]; cbn.
  - wp_structs. by apply wp_ret.
  - wp_struct. specialize (IH m eq_refl).
    eapply wp_mono; [by apply (wp_serve (E := machine m))|].
    intros [] w1 I1. wp_structs. by apply wp_ret.
Qed.

Lemma machine_ok_step n :
  (∀ m, n = S m → EnvOk (E := machine m)) → EnvOk (E := machine n).
Proof.
  intros IH. refine {| run_left := lv_left |}.
  - intros id args F X w I. 
    apply wp_mono with (Q := kept_args args F X).
    + destruct n as [|m].
      * change (wp (mret args) (kept_args args F X) w). apply wp_ret.
        split; [exact I|apply moved_refl].
      * change (wp (play_script (E := machine m) (cl_cb id) args) (kept_args args F X) w).
        specialize (IH m eq_refl). unfold play_script. by apply (wp_play (E := machine m)).
    + intros args' w' [I' H']. split; [done|]. split; [by apply moved_shape|].
      intros b ->. inversion H' as [|? a' ? ? Ha Hn]; subst. inversion Hn; subst.
      destruct Ha as [->| ->]; [by left|by right].
  - destruct n; apply lv_init.
  - destruct n; apply lv_loop_kept.
  - intros. by apply machine_run_inv.
  - destruct n; apply lv_closing.
  - destruct n; apply lv_left_bound.
  - intros l F X w I Hl. pose proof (machine_run_inv n l UV_RUN_NOWAIT F X w IH I) as H1.
    pose proof (lv_dying n l F X w) as H2. unfold wp in *.
    destruct (uv_run l UV_RUN_NOWAIT w) as [z w'| | | |]; try done.
    destruct (H2 z w' I Hl eq_refl) as [Hz Hnz]. split; [done|]. destruct n; by split.
Qed.

#[export] Instance machine_ok n : EnvOk (E := machine n).
Proof.
  induction n as [|m IH]; apply machine_ok_step; intros k Hk; [done|by injection Hk as <-].
Qed.

(** C4: A call of a function of the client, from wherever the library makes it (whatever
    references the running code has and whatever objects are in destruction), returns
    with the ledger in balance: the function may copy or keep its parameters, make, run
    and drop objects and run loops, and its own callbacks may do the same. *)
Theorem client_call_ok n id args F X w :
  Inv (args_toks args ++ F) X w →
  wp (invoke (E := machine n) id args) (λ _ w', Inv F X w') w.
Proof. intros I. by eapply (wp_invoke (E := machine n) id args F X). Qed.

(** The program, from the start of the process. *)
Definition program (n : nat) (main : script) : M (list arg) :=
  play_script (E := machine n) main [].

End machine_ok.
