(* ===== verification/Samples.v ===== *)
(** * The theorems at concrete states

    Every theorem that has hypotheses is applied here to a small state in which they hold,
    with the environment of Client: a request, a handle, a buffer and a loop, each owned by a
    variable of the client. *)

From Stdlib Require Import ZArith Lia.
From stdpp Require Import base gmap list strings pretty option.
From S2P Require Import Prelude World Objects Ledger Wp Refs Release Rules HRules.
From S2P Require Import Netstruct ReqStream Buffer HandleMisc Handle Trace Io ReadCmd.
From S2P Require Import ReadCb Commands Client Stream Process ReqFs FsLedger ReqMisc.
From S2P Require Import Vars Loop Concurrent Endian Construct Ops OpsLedger System Enabled Program.
From S2P Require Import Storage FileRead Threads ThreadsSafe Calls Requests Callbacks WriteQueue Events.
From S2P Require Import Flow Pool Cpio Throws.

Local Open Scope Z_scope.

(** [Inv] of a closed state; ownership in a closed state; the other side conditions. *)
Ltac inv_sample := apply inv_check_sound; [by vm_compute|by apply list.Forall_nil_2].
Ltac owned_sample := unfold held, live; vm_compute; lia.
Ltac unarmed_sample := intros a Ha; by apply not_elem_of_nil in Ha.
Ltac sample_side :=
  first [ inv_sample | owned_sample | unarmed_sample | reflexivity
        | by vm_compute | by repeat constructor | by eexists | lia ].

#[local] Opaque wp.

(** ** States *)

Definition plain : world := sample If_stream (P_stream (stream_io RD_STOP) None) R_none None sample_uv_req.

Definition writing : world := sample If_stream (P_stream (stream_io RD_STOP) None)
  (R_write (Some a_buffer)) (Some 5) sample_uv_req.

Definition fs_sample (f : iface) (p : props) (uh ub uo : option loc) : world :=
  sample f p (R_fs true uh ub 0 0 uo) (Some 5) sample_uv_req.
Definition fs_file (uh ub : option loc) : world :=
  fs_sample If_file (P_file (stream_io RD_STOP) file_props_init) uh ub None.

(** ** Requests on streams *)

Lemma connect_run_ok_witness :
  wp (connect.run_tcp a_request a_handle 7) (λ z w', Inv [] [] w' ∧
    w_armed w' = submitted z (arm cb_connect a_request [TH a_handle; TR a_request]) []) plain.
Proof. apply (connect_run_ok a_request a_handle 7 [] [] plain); sample_side. Defined.

Lemma connect_run_pipe_ok_witness :
  wp (connect.run_pipe a_request a_handle (Some "p"%string)) (λ _ w', Inv [] [] w' ∧
    w_armed w' = [arm cb_connect a_request [TH a_handle; TR a_request]]) plain.
Proof. apply (connect_run_pipe_ok a_request a_handle _ [] [] plain); sample_side. Defined.

Lemma connect_cb_ok_witness :
  wp (connect.connect_cb a_request 0) (λ _ w', Inv [] [] w') (taken_handle (taken_request plain)).
Proof.
  eapply (connect_cb_ok a_request 0 _ a_handle [] []); [sample_side|reflexivity|reflexivity].
Defined.

Lemma write_run_ok_witness :
  wp (write.run a_request a_handle a_buffer) (λ z w', Inv [] [] w' ∧
    w_armed w' = submitted z
      (arm cb_write a_request [TH a_handle; TB a_buffer; TR a_request]) []) writing.
Proof. apply (write_run_ok a_request a_handle a_buffer [] [] writing); sample_side. Defined.

Lemma write_cb_ok_witness :
  wp (write.write_cb a_request 0) (λ _ w', Inv [] [] w')
    (taken_handle (taken_buffer (taken_request writing))).
Proof.
  eapply (write_cb_ok a_request 0 _ a_handle a_buffer [] []);
    [sample_side|reflexivity|reflexivity|reflexivity].
Defined.

Lemma shutdown_run_ok_witness :
  wp (shutdown.run a_request a_handle) (λ z w', Inv [] [] w' ∧
    w_armed w' = submitted z (arm cb_shutdown a_request [TH a_handle; TR a_request]) []) plain.
Proof. apply (shutdown_run_ok a_request a_handle [] [] plain); sample_side. Defined.

(** ** Reading *)

Lemma read_commands_ok_witness :
  wp (run_cmd a_handle (C_start 10 5))
    (implements_table (sample_stream RD_START) If_stream a_handle (C_start 10 5)
      (stream_io RD_START) 2 []) (sample_stream RD_START).
Proof.
  apply (read_commands_ok a_handle (C_start 10 5)
    (sample_handle If_stream (P_stream (stream_io RD_START) None) None) (stream_io RD_START)
    (sample_stream RD_START)); (reflexivity || done || by eexists).
Defined.

Lemma read_locked_witness :
  run_cmd a_handle C_stop
    (sample If_stream (P_stream (set_rdlock true (stream_io RD_START)) None) R_none None
       uv_req_zero) = Hang.
Proof. by eapply (read_locked a_handle C_stop); [reflexivity..|]. Defined.

Lemma read_commands_ledger_witness :
  wp (run_cmd a_handle C_stop) (λ _ w', Inv [] [] w') (sample_stream RD_START).
Proof.
  eapply (read_commands_ledger a_handle If_stream [] [] C_stop
    (P_stream (stream_io RD_START) None) (stream_io RD_START)); sample_side.
Defined.

(** *** Two threads

    The first thread has the handle, gives a copy to the second, and starts reading while the
    second stops it; the second waits for the lock in between. *)
Definition two : tstate :=
  {| ts_threads := {[ 0%nat := {| th_refs := 1; th_pc := Outside |};
                      1%nat := {| th_refs := 0; th_pc := Outside |} ]}; ts_hist := [] |}.
Definition two_world : world := taken_handle (sample_stream RD_STOP).
Definition two_schedule : list (nat * choice) :=
  [(0%nat, T_copy); (0%nat, T_give 1); (0%nat, T_call (C_start 10 5)); (1%nat, T_call C_stop)] ++
  mjoin (replicate 20 [(0%nat, T_go); (1%nat, T_go)]).
Definition two_end : tstate * world :=
  match schedule a_handle two_schedule two two_world with Ok ts w => (ts, w) | _ => (two, two_world) end.

Lemma two_run : rtc (tstep a_handle) (two, two_world) two_end.
Proof.
  unfold two_end. destruct (schedule _ _ _ _) as [ts w| | | |] eqn:H; [|apply rtc_refl..].
  by eapply schedule_run.
Qed.

Lemma two_initial : initial a_handle If_stream [] [] (RD_STOP, []) two two_world.
Proof.
  split; [vm_compute; lia|]. split; [done|]. split.
  - exists (stream_io RD_STOP). split; [|by repeat split; eexists]. split.
    + inv_sample.
    + owned_sample.
    + by eexists.
    + done.
  - intros i t Hi. unfold two in Hi. cbn [ts_threads] in Hi.
    by apply lookup_insert_Some in Hi as [[_ <-]|[_ [_ <-]%lookup_singleton_Some]].
Qed.

Example two_history : ts_hist two_end.1 = [(C_start 10 5, 0); (C_stop, 0)].
Proof. by vm_compute. Qed.

Lemma two_end_moves :
  match move a_handle 1 T_drop two_end.1 with Some _ => true | None => false end = true.
Proof. by vm_compute. Qed.

Lemma threads_safe_witness : ∃ m, move a_handle 1 T_drop two_end.1 = Some m ∧
  wp m (λ ts' w', unlocked ts' → Inv (replicate (all_refs ts') (TH a_handle) ++ []) [] w') two_end.2.
Proof.
  pose proof two_end_moves as H.
  destruct (move a_handle 1 T_drop two_end.1) as [m|] eqn:Hm; [|discriminate H]. exists m. split; [done|].
  apply (threads_safe a_handle If_stream [] [] (RD_STOP, []) two two_world two_end.1 two_end.2 1 T_drop);
    [by left|apply two_initial|rewrite <-surjective_pairing; apply two_run|exact Hm].
Defined.

Lemma unlocked_check ts :
  bool_decide (map_Forall (λ _ t, is_inside t = false) (ts_threads ts)) = true → unlocked ts.
Proof. intros H%bool_decide_eq_true i t Hi. by apply (H i t). Qed.

Lemma commands_linearizable_witness :
  ∃ x io, w_handles two_end.2 !! a_handle = Some x ∧ io_of (h_props x) = Some io ∧
    io_rdlock io = false ∧
    seq_run If_stream a_handle (ts_hist two_end.1).*1 (RD_STOP, []) =
      ((ts_hist two_end.1).*2, (io_rdcmd io, w_log two_end.2)).
Proof.
  apply (commands_linearizable a_handle If_stream [] [] (RD_STOP, []) two two_world);
    [by left|apply two_initial|rewrite <-surjective_pairing; apply two_run
    |by apply unlocked_check; vm_compute|by vm_compute; lia].
Defined.

(** In the middle: the first thread is inside, the second waits. *)
Definition two_middle : tstate * world :=
  match schedule a_handle (take 9 two_schedule) two two_world with
  | Ok ts w => (ts, w) | _ => (two, two_world) end.

Lemma two_middle_run : rtc (tstep a_handle) (two, two_world) two_middle.
Proof.
  unfold two_middle. destruct (schedule _ _ _ _) as [ts w| | | |] eqn:H; [|apply rtc_refl..].
  by eapply schedule_run.
Qed.

Lemma commands_finish_witness : ∃ l, wp (schedule a_handle l two_middle.1)
  (λ ts' _, ∀ i t, ts_threads ts' !! i = Some t → th_pc t = Outside) two_middle.2.
Proof.
  apply (commands_finish a_handle If_stream [] [] (RD_STOP, []) two two_world);
    [by left|apply two_initial|rewrite <-surjective_pairing; apply two_middle_run].
Defined.



Definition file_reading : world :=
  sample If_file (P_file (stream_io RD_START) (set_rd_data (Some a_handle) file_props_init))
    R_none None sample_uv_req.

Lemma file_read_ok_witness :
  wp (file_read a_handle) (λ z w', ∃ c, c.1 ≠ 0 ∧ read_left a_handle [TH a_handle] [] z c w')
    (taken_handle file_reading).
Proof.
  eapply wp_mono.
  - eapply (file_read_ok a_handle (stream_io RD_START)
      (set_rd_data (Some a_handle) file_props_init) 1 [TH a_handle] []);
      (sample_side || by left).
  - intros z w' (c & Hc & _ & H). by exists c.
Defined.

(** ** Buffers *)

Lemma buffer_layout_witness :
  length (instance_bufs (400 + offsetof_uv_buf_struct) [64; 32]) = 2%nat.
Proof.
  apply (buffer_layout 400 [64; 32]);
    [split; [repeat constructor; lia|by vm_compute]|by vm_compute|reflexivity].
Defined.

Lemma uv_buf_from_single_witness : uv_buf_from 464 = 448.
Proof. by apply (uv_buf_from_single 448 64 464 64); [lia|vm_compute]. Defined.

Lemma uv_buf_from_several_witness : 448 < uv_buf_from 480.
Proof.
  by apply (uv_buf_from_several 448 [64; 32] 480 64 [(544, 32)]);
    [split; [repeat constructor; lia|by vm_compute]|vm_compute|cbn; lia|vm_compute].
Defined.

(** ** Network structures and byte order *)

Lemma atoi_pretty_witness : atoi (pretty (-80)) = Some (-80).
Proof. apply (atoi_pretty (-80)). lia. Defined.


(** ** Event handles *)

Definition timer_sample : world :=
  sample If_handle (P_timer true (Some 3)) R_none None uv_req_zero.
Definition watcher_sample : world :=
  sample If_handle (P_watcher W_idle OP_START (Some 3)) R_none None uv_req_zero.
Definition fs_event_sample : world :=
  sample If_handle (P_fs_event OP_START 0 "f" (Some 3)) R_none None uv_req_zero.
Definition signal_sample : world :=
  sample If_handle (P_signal SG_STOP 2 (Some 3)) R_none None uv_req_zero.

Lemma watcher_start_ok_witness :
  wp (watchers.start a_handle []) (λ z w', z = 0) watcher_sample.
Proof.
  eapply wp_mono.
  { eapply (watcher_start_ok a_handle []); [reflexivity..|by vm_compute]. }
  by intros z w' [-> _].
Defined.

Lemma watcher_stop_ok_witness : wp (watchers.stop a_handle) (λ z w', z = 0) watcher_sample.
Proof.
  eapply wp_mono; [by eapply (watcher_stop_ok a_handle)|]. by intros z w' [-> _].
Defined.

Lemma fs_event_start_ok_witness : wp (fs_event.start a_handle) (λ z w', z = 0) fs_event_sample.
Proof.
  eapply wp_mono; [by eapply (fs_event_start_ok a_handle)|]. by intros z w' [-> _].
Defined.

Lemma signal_start_ok_witness :
  wp (signal.start_with a_handle SG_START) (λ z w', z = 0) signal_sample.
Proof.
  eapply wp_mono; [by eapply (signal_start_ok a_handle)|]. by intros z w' [-> _].
Defined.

Lemma timer_start_ok_witness : wp (timer.start a_handle 10) (λ z w', z = 0) timer_sample.
Proof.
  eapply wp_mono; [by eapply (timer_start_ok a_handle)|]. by intros z w' [-> _].
Defined.

Lemma timer_stop_ok_witness : wp (timer.stop a_handle) (λ z w', z = 0) timer_sample.
Proof.
  eapply wp_mono; [by eapply (timer_stop_ok a_handle)|]. by intros z w' [-> _].
Defined.

(** ** File system requests *)

Lemma path_requests_ok_witness :
  wp (unlink.run a_request a_loop (Some "f"%string)) (λ z w', Inv [] [] w') (fs_file None None).
Proof.
  pose proof (path_requests_ok [] [] a_request a_loop (PO_unlink (Some "f"%string))
    (R_fs true None None 0 0 None) (Some 5) (fs_file None None)) as H.
  eapply wp_mono; [exact (H ltac:(sample_side) ltac:(sample_side) ltac:(sample_side) eq_refl
    eq_refl (λ _, eq_refl))|].
  by intros z w' [? _].
Defined.

Lemma file_requests_ok_witness :
  wp (sync.run a_request a_handle false) (λ z w', Inv [] [] w') (fs_file None None).
Proof.
  pose proof (file_requests_ok [] [] a_request a_handle (FO_sync false)
    (R_fs true None None 0 0 None) (Some 5) (fs_file None None)) as H.
  eapply wp_mono; [exact (H ltac:(sample_side) ltac:(sample_side) ltac:(sample_side)
    ltac:(sample_side) eq_refl eq_refl)|].
  by intros z w' [? _].
Defined.

Lemma read_write_ok_witness :
  wp (read.run a_request a_handle a_buffer 0) (λ z w', Inv [] [] w') (fs_file None None).
Proof.
  pose proof (read_write_ok [] [] a_request a_handle a_buffer 0 true None None 0 0 (Some 5)
    (fs_file None None)) as H.
  eapply wp_mono; [exact (proj1 (H ltac:(sample_side) ltac:(repeat constructor; owned_sample)
    ltac:(sample_side) eq_refl))|].
  by intros z w' [? _].
Defined.

Lemma sendfile_ok_witness :
  wp (sendfile.run a_request a_handle a_handle 0 5) (λ z w', Inv [] [] w') (fs_file None None).
Proof.
  pose proof (sendfile_ok [] [] a_request a_handle a_handle 0 5 true None 0 0 None (Some 5)
    (fs_file None None)) as H.
  eapply wp_mono; [exact (H ltac:(sample_side) ltac:(repeat constructor; owned_sample)
    ltac:(sample_side) eq_refl eq_refl)|].
  by intros z w' [? _].
Defined.

Lemma fs_callbacks_ok_witness :
  wp (read.read_cb a_request) (λ _ w', Inv [] [] w')
    (taken_handle (taken_buffer (taken_request (fs_file (Some a_handle) (Some a_buffer))))).
Proof.
  exact (fs_callbacks_ok [] [] UV_FS_READ a_request true (Some a_handle) (Some a_buffer) 0 0 None
    (taken_handle (taken_buffer (taken_request (fs_file (Some a_handle) (Some a_buffer)))))
    eq_refl eq_refl ltac:(sample_side)).
Defined.

(** ** The calls of libuv *)

Lemma endpoint_request_made_witness :
  wp (write.run a_request a_handle a_buffer) (λ z w', z = 0 ∧
    w_armed w' = [arm cb_write a_request [TH a_handle; TB a_buffer; TR a_request]] ∧
    w_log w' = [E_uv f_write [V_req (Some a_request); V_handle (Some a_handle);
                              V_bufs [(464, 64)] 1; V_cb cb_write] 0]) writing.
Proof.
  pose proof (endpoint_request_made a_request (EP_write a_handle a_buffer) [] [] writing
    ltac:(sample_side) ltac:(repeat constructor; owned_sample) ltac:(exact Logic.I)) as H.
  cbn [endpoint_run] in H. eapply wp_mono; [exact H|].
  intros z w' (HL & Hz & _ & _ & HA & _). subst z. split; [done|]. by rewrite HL, HA.
Defined.

Lemma path_request_made_witness :
  wp (unlink.run a_request a_loop (Some "f"%string)) (λ z w', z = 0 ∧
    w_log w' = [E_uv f_fs_unlink [V_loop (Some a_loop); V_req (Some a_request);
                                  V_str (Some "f"%string); V_cb (cb_fs UV_FS_UNLINK)] 0;
                E_uv f_fs_req_cleanup [V_req (Some a_request)] 0]) (fs_file None None).
Proof.
  pose proof (path_request_made a_request a_loop (PO_unlink (Some "f"%string)) (Some 5)
    [] [] (fs_file None None) ltac:(sample_side) ltac:(owned_sample) eq_refl) as H.
  cbn [path_op_run] in H. eapply wp_mono; [exact H|].
  intros z w' (HL & Hz & _). subst z. by split; [|rewrite HL].
Defined.

Lemma simple_no_writes L f args : f = f_fs_req_cleanup ∨ f = f_lseek64 →
  rp_writes (uv_exec L f args) = [].
Proof. intros [-> | ->]; cbn; by repeat case_match. Qed.


(** The same file after the callback. *)
Lemma write_queue_balanced_witness :
  wp (fs_write.run a_request a_handle a_buffer 0) (λ z w',
    ∃ rel w1, complete 0 64 w' = release_after rel
        (client_call 5 [A_ptr (PR (Some a_request)); A_ptr (PB (Some a_buffer))]) w1 ∧
      handles_of w1 a_handle = Some (If_file, P_file (stream_io RD_STOP) file_props_init))
    (fs_file None None).
Proof.
  pose proof (write_queue_balanced simple_no_writes a_request a_handle a_buffer 0 true None None 0 0 5
    (If_file, P_file (stream_io RD_STOP) file_props_init) (sample_handle If_file (P_file (stream_io RD_STOP)
    file_props_init) None) [] [] (fs_file None None) ltac:(sample_side)
    ltac:(repeat constructor; owned_sample) ltac:(sample_side) eq_refl eq_refl) as H.
  assert (wp (fs_write.run a_request a_handle a_buffer 0) (λ z _, (z <? 0) = false) (fs_file None None))
    as H0 by by vm_compute.
  eapply wp_mono; [exact (wp_and _ _ _ _ (H ltac:(cbn; lia) eq_refl) H0)|]. cbv beta.
  intros z w' [Hw Hz]. rewrite Hz in Hw. exact (proj2 Hw 64).
Defined.

(** A write has been accepted, and the client's function throws. *)
Definition written : world :=
  match write.run a_request a_handle a_buffer writing with Ok _ w => w | _ => writing end.
Definition throwing_env : Env := {|
  uv_exec _ _ _ := {| rp_ret := 0; rp_out := []; rp_writes := [] |};
  uv_walk_handles _ _ := [];
  uv_run _ _ := mret 0;
  user_cb _ args := drop_args args;; throw X_logic_error;
  user_alloc _ ho _ := mret (ho, None);
  run_fuel := 1
|}.

Lemma written_ok : Inv [] [] written.
Proof.
  apply inv_check_sound; [by vm_compute|]. apply list.Forall_singleton.
  exists a_handle, a_buffer. by split.
Qed.

Lemma exception_passes_witness :
  ∃ w2 w', complete (E := throwing_env) 0 0 written = Exn X_logic_error w' ∧
    refs_of w2 (TB a_buffer) = Some 1 ∧ refs_of w' (TR a_request) = Some 1 ∧
    refs_of w' (TH a_handle) = Some 1.
Proof.
  destruct (exception_passes (E := throwing_env) 0 (arm cb_write a_request [TH a_handle; TB a_buffer; TR a_request])
    0 (default (sample_request R_none None sample_uv_req) (w_reqs written !! a_request)) 5 X_logic_error
    (λ w, ∀ t, refs_of w t = (λ n, n - Z.of_nat (cnt t [TB a_buffer])) <$> refs_of written t)
    [] [] written) as (w2 & w' & HT & Hc & HL).
  - exact written_ok.
  - by vm_compute.
  - cbn; list_in.
  - by vm_compute.
  - by vm_compute.
  - intros w1 (_ & _ & HR & _).
    assert (∀ t, refs_of w1 t = counted [TR a_request] (refs_of written) t) as Hw by exact HR.
    destruct (drop_args_shared
      [A_ptr (PR (Some a_request)); A_ptr (PB (Some a_buffer))] w1) as (w2 & Hd & HL).
    { intros t [->|[->|[]%not_elem_of_nil]%elem_of_cons]%elem_of_cons; rewrite Hw; by eexists. }
    exists w2. split.
    { change ((drop_args [A_ptr (PR (Some a_request)); A_ptr (PB (Some a_buffer))];;
        throw (A := list arg) X_logic_error) w1 = Exn X_logic_error w2). unfold mbind, M_bind. by rewrite Hd. }
    assert (∀ t, refs_of w2 t = (λ n, n - Z.of_nat (cnt t [TB a_buffer])) <$> refs_of written t) as H2.
    { intros t. rewrite (lw_refs _ _ _ HL), Hw. unfold counted. destruct (refs_of written t); [|done].
      cbn. f_equal. lia. }
    split; [|exact H2].
    intros t [->|[->|[]%not_elem_of_nil]%elem_of_cons]%elem_of_cons; rewrite H2; by eexists.
  - exists w2, w'. rewrite !(lw_refs _ _ _ HL), !HT. by vm_compute.
Defined.

(** ** The clients *)

(** 40 bytes have been read from one stream and are written to another. *)
Definition a_sink : loc := 1000.
Definition copying : world :=
  upd_handles (<[a_sink := sample_handle If_stream (P_stream (stream_io RD_STOP) None) None]>)
    (upd_loops (alter (set_l_refs 3) a_loop)
      (upd_vars (<[5%positive := PH (Some a_sink)]>) (taken_buffer (sample_stream RD_START)))).

Lemma read_cb_implements_witness :
  wp (read_cb a_handle a_sink 7 a_handle 40 (Some a_buffer)) (λ _ w',
    out_sizes a_sink w' = [40] ∧ Inv [TB a_buffer] [] w') copying.
Proof.
  pose proof (read_cb_implements a_handle a_sink 7 ltac:(done) 40 (Some a_buffer) [TB a_buffer] []
    cpio.start copying) as H.
  eapply wp_mono; [apply H|].
  - split; [inv_sample|split; owned_sample|eexists; split; [reflexivity|]|by eexists|reflexivity].
    eexists _, _. split_and!; (reflexivity || by eexists).
  - done.
  - intros _. exists a_buffer. split; [done|]. split_and!; [owned_sample|by do 2 eexists|unarmed_sample].
  - intros _ w' (a & S & Hq). split; [|apply S]. rewrite (sh_sizes _ _ _ _ _ _ _ S).
    destruct Hq as (b & wr & w0 & w1 & _ & _ & (base & _ & Hz) & _); [done|].
    cbn in Hz |- *. by rewrite Hz.
Defined.

(** cpio: 128 chunks have been read and nothing has been written, the reading has been paused. *)
Definition chunk_read (n : nat) : answers := tee2.chunk (Z.of_nat (S n) * BUFFER_SIZE) [].
Definition read_chunks (n : nat) : cpio.state :=
  foldl (λ s i, cpio.read_cb BUFFER_SIZE (chunk_read i) s) cpio.start (seq 0 n).

Lemma read_chunks_step n : (n < 128)%nat → cpio.step (read_chunks n) (read_chunks (S n)).
Proof.
  intros Hn. unfold read_chunks at 2. rewrite seq_S, foldl_app. cbn [foldl]. fold (read_chunks n).
  do 128 (destruct n as [|n]; [apply cpio.Read; [by vm_compute|done|split; by vm_compute|by vm_compute]|]).
  lia.
Qed.

Lemma read_chunks_reachable n : (n ≤ 128)%nat → rtc cpio.step cpio.start (read_chunks n).
Proof.
  induction n as [|n IH]; intros Hn; [done|]. eapply rtc_r; [apply IH; lia|]. apply read_chunks_step. lia.
Qed.

Lemma cpio_flows_witness :
  cpio.c_in (read_chunks 128) = RD_PAUSE ∧ cpio.c_out (read_chunks 128) ≠ [].
Proof.
  pose proof (cpio.cpio_flows _ (read_chunks_reachable 128 (le_n 128))) as (H & _).
  assert (cpio.c_in (read_chunks 128) = RD_PAUSE) as Hp by by vm_compute. by split; [|apply H].
Defined.

(** tee2 with a full disk. *)
Definition disk_full : tee2.state := default tee2.start (tee2.run (tee2.full_disk 128) tee2.start).

Lemma disk_full_reachable : rtc tee2.step tee2.start disk_full.
Proof.
  unfold disk_full. destruct (tee2.run (tee2.full_disk 128) tee2.start) as [s|] eqn:Hr; [|done].
  by apply (tee2.run_steps (tee2.full_disk 128)).
Qed.

Lemma file_queue_counted_witness : tee2.file_write_queues_size disk_full = WRITE_QUEUE_SIZE_UPPER_LIMIT.
Proof. rewrite (proj1 (tee2.file_queue_counted _ disk_full_reachable)). by vm_compute. Defined.

(** The last reference to a buffer of the pool, of whose 64 bytes 40 were used. *)
Definition a_pool : buffer_pool.pool := buffer_pool.Pool false 64 1 [].
Definition pool_env : Env := {|
  uv_exec _ _ _ := {| rp_ret := 0; rp_out := []; rp_writes := [] |};
  uv_walk_handles _ _ := [];
  uv_run _ _ := mret 0;
  user_cb _ args :=
    match args with
    | [A_ptr (PB (Some b))] => buffer_pool.sink_answer a_pool b
    | _ => mret args
    end;
  user_alloc _ ho _ := mret (ho, None);
  run_fuel := 1
|}.
Definition pooled : world :=
  upd_bufs (alter (λ i, set_b_sink (Some 9) (set_b_bufs [(464, 40)] i)) a_buffer) (taken_buffer plain).


(** A one-shot signal: the class forgets it and its own reference ends after the call. *)
Definition oneshot_sample : world :=
  sample If_handle (P_signal SG_START_ONESHOT 2 (Some 7)) R_none None sample_uv_req.
Definition oneshot_notice : notice :=
  Notice (Some 7) [A_int 1] 0 (P_signal SG_UNKNOWN 2 (Some 7)) [TH a_handle] [].

Lemma handle_told_witness :
  ∃ w1, notified_in a_handle oneshot_notice oneshot_sample w1 ∧
    signal.signal_cb a_handle oneshot_sample =
      release_after [TH a_handle] (notice_call a_handle oneshot_notice) w1.
Proof.
  exact (handle_told a_handle R_signal (sample_handle If_handle
    (P_signal SG_START_ONESHOT 2 (Some 7)) None) oneshot_notice oneshot_sample eq_refl
    ltac:(done) eq_refl).
Defined.

(** ** Other requests *)

Definition gai (own : bool) (c : cb) : world :=
  sample If_handle (P_timer true None) (R_getaddrinfo own) c sample_uv_req.


Definition typed (t : uv_handle_type) (w : world) : world :=
  upd_handles (alter (set_h_uv (set_uh_init t a_loop)) a_handle) w.

Lemma output_refused_witness :
  wp (output.run a_request a_handle a_buffer 0 None) (λ z w', z = UV_EBADF)
    (typed UV_TIMER (gai true None)).
Proof.
  eapply wp_mono; [eapply (wp_output_refused a_request a_handle a_buffer 0 None _ _ _ [] []
    (typed UV_TIMER (gai true None))); [sample_side|owned_sample|reflexivity|reflexivity|by left]|].
  intros z w' (_ & _ & Hz & _). exact Hz.
Defined.

Lemma getaddrinfo_run_ok_witness :
  wp (getaddrinfo.run_ a_request a_loop (Some "h"%string) None None) (λ z w', Inv [] [] w')
    (gai false (Some 5)).
Proof.
  eapply wp_mono; [eapply (getaddrinfo_run_ok a_request a_loop _ _ _ _ [] []);
    [sample_side|owned_sample|reflexivity]|].
  by intros z w' [? _].
Defined.

Lemma request_callbacks_ok_witness :
  wp (getaddrinfo.getaddrinfo_cb a_request 0) (λ _ w', Inv [] [] w')
    (taken_request (gai false (Some 5))).
Proof. apply (request_callbacks_ok a_request 0 [] []). sample_side. Defined.

(** ** Streams and datagrams *)


Lemma tcp_name_success_is_false_witness :
  wp (tcp.get_name a_handle f_tcp_getsockname 128) (λ b _, b = false) plain.
Proof. by eapply (tcp_name_success_is_false a_handle f_tcp_getsockname 128). Defined.

Lemma accept_tty_undefined_witness : stream.accept a_handle (typed UV_TTY plain) = Undefined UB_null.
Proof. by eapply (accept_tty_undefined a_handle). Defined.

(** ** Loops *)

Lemma loop_run_ok_witness :
  wp (loop.run a_loop 0) (λ z w', Inv [TL a_loop] [] w') (upd_vars (delete 1%positive) plain).
Proof. apply (loop_run_ok a_loop 0 [] []). sample_side. Defined.

(** ** Variables *)

Definition two_vars : world := upd_vars (<[5%positive := PH None]>) plain.



Lemma swap_ok_witness : wp (swap PH 5 2) (λ _ w', Inv [] [] w') two_vars.
Proof.
  eapply wp_mono; [eapply (swap_ok PH 5 2 None (Some a_handle) [] []);
    [sample_side|reflexivity..]|].
  by intros z w' [? _].
Defined.

Lemma destruct_ok_witness : wp (destruct_var PH 2) (λ _ w', Inv [] [] w') plain.
Proof.
  eapply wp_mono; [eapply (destruct_ok PH 2 (Some a_handle) [] []);
    [sample_side|reflexivity]|].
  by intros z w' [? _].
Defined.

(** ** Threads *)

Lemma count_is_owners_witness : atomic_count.count atomic_count.dropped = 1.
Proof. exact (atomic_count.count_is_owners _ atomic_count.dropped_reachable). Defined.


Lemma mutual_exclusion_witness :
  spinlock.threads spinlock.contended !! 0%nat = Some spinlock.Inside ∧
  spinlock.threads spinlock.contended !! 1%nat ≠ Some spinlock.Inside.
Proof.
  split; [reflexivity|]. intros H.
  discriminate (spinlock.mutual_exclusion _ 0 1 spinlock.contended_reachable eq_refl H).
Defined.

Lemma lock_progress_witness :
  (∃ j, j ≠ 1%nat ∧ spinlock.threads spinlock.contended !! j = Some spinlock.Inside) ∨
  spinlock.step spinlock.contended (spinlock.put 1 spinlock.Inside true spinlock.contended).
Proof. exact (spinlock.lock_progress _ 1 0 spinlock.contended_reachable eq_refl). Defined.

(** ** Processes *)

Definition a_process : loc := 2000.

(** The handle of the sample becomes stream 1 of a process that has none yet. *)
Definition spawning : world :=
  upd_handles (<[a_process := {| h_uv_error := 0; h_refs := 1; h_destroy_cb := None;
      h_props := P_process process_props_init; h_iface := If_handle; h_loop := None;
      h_uv := uv_handle_zero |}]>)
    (upd_vars (<[6%positive := PH (Some a_process)]>) (taken_handle plain)).


(** ** A result freed twice *)

(** A libuv that refuses to look up nothing. *)
Definition refusing_env : Env := {|
  uv_exec _ f args :=
    {| rp_ret := match f with f_getaddrinfo => UV_EINVAL | _ => 0 end; rp_out := []; rp_writes := [] |};
  uv_walk_handles _ _ := [];
  uv_run _ _ := mret 0;
  user_cb _ args := mret args;
  user_alloc _ ho _ := mret (ho, None);
  run_fuel := 1
|}.

Lemma getaddrinfo_frees_twice_witness :
  wp (_ ← getaddrinfo.run_ (E := refusing_env) a_request a_loop None None None;
      request_unref (E := refusing_env) a_request)
    (λ _ w', w_reqs w' !! a_request = None) (gai true None).
Proof.
  eapply wp_mono; [eapply (getaddrinfo_frees_twice (E := refusing_env) a_request a_loop)|].
  - done.
  - by intros log args.
  - reflexivity.
  - reflexivity.
  - reflexivity.
  - reflexivity.
  - reflexivity.
  - intros _ w' (z1 & z2 & z & args & _ & H). exact H.
Defined.

(** ** The library as a whole *)

Definition after (o : op) (w : world) : world :=
  match exec o w with Ok _ w' => w' | _ => w end.
Definition is_ok {A} (o : outcome A) : bool := match o with Ok _ _ => true | _ => false end.
Lemma step_after o w : enabled o w → is_ok (exec o w) = true → step w (after o w).
Proof. intros H Hok. exists o. split; [done|]. unfold after. by destruct (exec o w) as [[] w'| | | |]. Qed.


(** The life of a write request: everything is made, the request is run, the client drops
    its other variables, libuv completes the request, the client drops the request. *)
Definition life : list op :=
  [ O_new 1 N_loop; O_new 2 (N_buffer [64]); O_new 3 N_write; O_new 4 (N_handle 4096 (C_tcp 0));
    O_request 5248 (Q_write 6272 5168); O_var K_handle (A_destroy 4); O_var K_loop (A_destroy 1);
    O_var K_buffer (A_destroy 2); O_complete 0 0; O_var K_request (A_destroy 3) ].

Definition lived (n : nat) : world := foldl (λ w o, after o w) start (take n life).

Lemma lived_step n o : reachable (lived n) → life !! n = Some o → enabled o (lived n) →
  is_ok (exec o (lived n)) = true → reachable (lived (S n)).
Proof.
  intros R Ho He Hk. unfold lived. rewrite (take_S_r _ _ _ Ho), foldl_app.
  by eapply rtc_r, step_after.
Qed.

Ltac live_on := eapply lived_step; [eassumption|reflexivity| |by vm_compute].

Lemma lived_reachable : reachable (lived 8) ∧ reachable (lived 10).
Proof.
  assert (reachable (lived 0)) as R0 by constructor.
  assert (reachable (lived 1)) as R1 by (live_on; done).
  assert (reachable (lived 2)) as R2.
  { live_on. split; [done|]. right. split; [repeat constructor; lia|by vm_compute]. }
  assert (reachable (lived 3)) as R3 by (live_on; done).
  assert (reachable (lived 4)) as R4.
  { live_on. split; [done|]. repeat constructor; owned_sample. }
  assert (reachable (lived 5)) as R5.
  { live_on. split; [repeat constructor; owned_sample|].
    split; [repeat constructor; owned_sample|unarmed_sample]. }
  assert (reachable (lived 6)) as R6 by (live_on; by exists (Some 6272); vm_compute).
  assert (reachable (lived 7)) as R7 by (live_on; by exists (Some 4096); vm_compute).
  assert (reachable (lived 8)) as R8 by (live_on; by exists (Some 5168); vm_compute).
  assert (reachable (lived 9)) as R9.
  { live_on. exists (arm cb_write 5248 [TH 6272; TB 5168; TR 5248]). by split; vm_compute. }
  split; [done|]. live_on. by exists (Some 5248); vm_compute.
Qed.
(** An output request that writes to a file outlives the client's variable for the file; the
    client asks the request for it and closes it. Every operation may be applied when its turn
    comes, and nothing is left. *)
Definition archive : list op :=
  [ O_new 1 N_loop; O_new 2 (N_buffer [64]); O_new 3 N_output; O_new 4 (N_handle 4096 (C_file 3 None));
    O_new 5 (N_fs UV_FS_CLOSE); O_request 5248 (Q_on_request (Some 5));
    O_request 5248 (Q_output 6272 5168 0 None); O_var K_handle (A_destroy 4);
    O_new 4 (N_get 5248 G_file); O_complete 0 64; O_request 7296 (Q_close 6272);
    O_var K_handle (A_destroy 4); O_var K_request (A_destroy 5); O_var K_request (A_destroy 3);
    O_var K_buffer (A_destroy 2); O_var K_loop (A_destroy 1) ].

Fixpoint all_run (l : list op) (w : world) : option world :=
  match l with
  | [] => Some w
  | o :: l' =>
      if decide (enabled o w) then
        match exec o w with Ok _ w' => all_run l' w' | _ => None end
      else None
  end.

Example archive_runs : ∃ w, all_run archive start = Some w ∧ w_handles w = ∅ ∧ w_reqs w = ∅ ∧
  w_bufs w = ∅ ∧ w_loops w = ∅ ∧ w_armed w = [].
Proof. eexists. split; [by vm_compute|done]. Qed.

(** While the output request is pending. *)
Definition pending : world := foldl (λ w o, after o w) start (take 7 archive).
Definition pending_write : armed := arm (cb_fs UV_FS_WRITE) 5248 [TH 6272; TB 5168; TR 5248].

Lemma pending_ok : Inv [] [] pending.
Proof.
  apply inv_check_sound; [by vm_compute|].
  replace (w_armed pending) with [pending_write] by by vm_compute. apply list.Forall_singleton.
  exists false, (Some 6272), (Some 5168), 0, 64, None. by split; vm_compute.
Qed.

Lemma pending_told_witness :
  let args := [A_ptr (PR (Some 5248)); A_ptr (PB (Some 5168))] in
  ∃ rel w1, rel ≡ₚ [TH 6272; TR 5248] ∧
    called_in 5248 64 5 args (grown 6272 (-64)) (disarm 0 pending) w1 ∧
    complete 0 64 pending = release_after rel (client_call 5 args) w1.
Proof.
  destruct (w_reqs pending !! 5248) as [i|] eqn:Hi; [|by vm_compute in Hi].
  assert (told_queue (cb_fs UV_FS_WRITE) (r_props i) pending = grown 6272 (-64)) as Hg
    by (vm_compute in Hi; by injection Hi as <-).
  cbv zeta. rewrite <-Hg.
  apply (pending_told 0 pending_write 64 i 5 [] [] pending pending_ok);
    [by vm_compute|cbn; list_in|exact Hi|].
  vm_compute in Hi. by injection Hi as <-.
Defined.

Lemma lived_quiet : quiet (lived 10).
Proof.
  split; [by vm_compute|by vm_compute|]. intros h (i & Hi & _).
  by replace (w_handles (lived 10)) with (∅ : gmap loc hinst) in Hi by by vm_compute.
Qed.


Lemma alive_iff_owned_witness : refs_of (lived 8) (TB 5168) = Some 1.
Proof. rewrite (alive_iff_owned (lived 8) (TB 5168)); [by vm_compute|apply lived_reachable]. Defined.


(** ** Construction of handles, destruction of a loop *)


(** The loop of [lived 1], whose last variable has just gone. *)
Definition leaving : world := upd_vars (λ _, ∅) (lived 1).

Lemma leaving_dies : Inv [] [D_loop 4096] (tok_set (TL 4096) 0 leaving).
Proof.
  destruct (w_loops leaving !! 4096) as [i|] eqn:Hi; [|by vm_compute in Hi].
  apply (Inv_die_loop 4096 i); [inv_sample|done|].
  by injection Hi as <-.
Qed.


(** ** Storage *)

(** Types are numbers, type 0 is the one whose constructor throws. *)
Definition sample_init (t : nat) (args : list Z) : option Z :=
  match t with O => None | _ => Some (default 0 (head args)) end.

Lemma storage_typed_witness :
  ∃ s, storage.reset sample_init 2%nat [7] storage.uninitialized = storage.Returns s ∧
    storage.get 2%nat s = Some 7.
Proof.
  destruct (storage.storage_typed sample_init storage.uninitialized 2%nat [7] 7) as [H _];
    [apply storage.wf_uninitialized|].
  destruct H as (s & Hs & _ & _ & Hg). by exists s.
Defined.

Lemma union_typed_witness :
  ∃ u, u ∈ [3; 4]%nat ∧ Nat.leb 4%nat u = true ∧
    storage.stores sample_init u [7] (storage.reset sample_init 4%nat [7] storage.uninitialized).
Proof.
  exact (union.union_typed sample_init Nat.leb [3; 4]%nat storage.uninitialized 4%nat [7]
    storage.wf_uninitialized).
Defined.

Lemma any_ptr_moves_witness :
  any_ptr.move_assign (any_ptr.of_ptr 1%nat (Some 8)) (any_ptr.of_ptr 2%nat (Some 16))
    {[ 8 := 1%nat; 16 := 2%nat ]} =
  Some (any_ptr.of_ptr 2%nat (Some 16), any_ptr.null, {[ 16 := 2%nat ]}).
Proof.
  destruct (any_ptr.any_ptr_moves (any_ptr.of_ptr 1%nat (Some 8))
    (any_ptr.of_ptr 2%nat (Some 16)) {[ 8 := 1%nat; 16 := 2%nat ]}) as (H' & -> & -> & _).
  - by split; [|intros ?? [= <-] [= <-]].
  - by split; [|intros ?? [= <-] [= <-]].
  - by intros ? [= <-].
  - done.
  - by vm_compute.
Defined.

Lemma any_ptr_reset_loses_witness :
  ∃ p', any_ptr.reset_null (any_ptr.of_ptr 1%nat (Some 8)) {[ 8 := 1%nat ]} = Some (p', ∅).
Proof.
  destruct (any_ptr.any_ptr_reset_loses 1%nat 2%nat 8 {[ 8 := 1%nat ]}) as (p' & H & _);
    [done|]. by exists p'.
Defined.

(** ** A program

    The heart of src/example/tee2.cpp with a pool of one buffer: what is read from one socket is
    written to another one; the pool lends its buffer to every read and gets it back from its
    sink callback when the last reference is gone. *)

Definition pool : positive := 20.

(** libuv: two chunks arrive, each is written, then the peer closes. *)
#[local] Instance sample_libuv : Libuv := {
  lv_exec _ f args := accept_all f args;
  lv_walk _ _ := [];
  lv_len := 8;
  lv_next _ _ i w :=
    match w_vars w !! 2%positive with
    | Some (PH (Some h)) =>
        [ U_event h (V_read 65536 5 0); U_complete 0 0; U_event h (V_read 65536 7 0);
          U_complete 0 0; U_event h (V_read 65536 UV_EOF 0) ] !! i
    | _ => None
    end;
  lv_status _ _ _ := 0;
  lv_rounds := 1
}.

(** The read callback: [_buf.len() = _nread], a new write request to the other socket. *)
Definition tee_read (i : nat) (args : list arg) (w : world) : option action :=
  match args with
  | A_ptr (PH (Some h)) :: A_int nread :: A_ptr (PB (Some b)) :: _ =>
      if nread <? 0 then nth_error [S_op (O_handle h (H_read C_stop))] i
      else
        match i, w_vars w !! 3%positive, w_vars w !! 22%positive with
        | 0%nat, _, _ => Some (S_copy 2 21)
        | 1%nat, _, _ => Some (S_op (O_set (B_len b 0 nread)))
        | 2%nat, _, _ => Some (S_op (O_new 22 N_write))
        | 3%nat, Some (PH (Some out)), Some (PR (Some r)) => Some (S_op (O_request r (Q_write out b)))
        | 4%nat, _, _ => Some (S_op (O_var K_request (A_destroy 22)))
        | 5%nat, _, _ => Some (S_op (O_var K_buffer (A_destroy 21)))
        | _, _, _ => None
        end
  | _ => None
  end.

(** The sink: the length is restored, the buffer moves to the pool. *)
Definition tee_sink (i : nat) (args : list arg) (w : world) : option action :=
  nth_error [ S_op (O_var K_buffer (A_destroy pool)); S_take 0 pool;
    S_op (O_set (B_len match w_vars w !! pool with Some (PB (Some b)) => b | _ => 0 end 0 64)) ] i.

#[local] Instance sample_client : Client := {
  cl_cb id := {| sc_len := 8; sc_next := if id =? 2 then tee_read else tee_sink |};
  cl_chunk _ _ _ _ := Spare pool false
}.

Definition tee_main (i : nat) (args : list arg) (w : world) : option action :=
  match w_vars w !! 1%positive, w_vars w !! 2%positive, w_vars w !! pool with
  | None, _, _ => if decide (i = 0)%nat then Some (S_op (O_new 1 N_loop)) else None
  | Some (PL (Some l)), None, _ =>
      if decide (i = 1)%nat then Some (S_op (O_new 2 (N_handle l (C_tcp 0))))
      else nth_error [ O_set (B_sink 0 None); O_var K_buffer (A_destroy pool);
                       O_var K_loop (A_destroy 1) ] (i - 11) ≫= λ o, Some (S_op o)
  | Some (PL (Some l)), Some (PH (Some h)), p =>
      nth_error [ S_op (O_new 3 (N_handle l (C_tcp 0))); S_op (O_new pool (N_buffer [64]));
        S_op (O_set (B_sink match p with Some (PB (Some b)) => b | _ => 0 end (Some 3)));
        S_op (O_set (B_on_io h (Some 1) (Some 2))); S_op (O_handle h (H_read (C_start 0 0)));
        S_run l 0;
        S_op (O_set (B_sink match p with Some (PB (Some b)) => b | _ => 0 end None));
        S_op (O_var K_handle (A_destroy 3)); S_op (O_var K_buffer (A_destroy pool));
        S_op (O_var K_handle (A_destroy 2)) ] (i - 2)
  | _, _, _ => None
  end.
Definition tee : script := {| sc_len := 15; sc_next := tee_main |}.

Definition ended : world := match program 3 tee start with Ok _ w => w | _ => start end.

(** Both chunks were written with the lengths that were read, the pool got its buffer back three
    times, and the program returned. *)
Definition log_of {A} (f : event → option A) (w : world) : list A := omap f (w_log w).

Example tee_written :
  log_of (λ e, match e with E_uv f_write [_; _; V_bufs [(_, n)] _; _] _ => Some n | _ => None end)
    ended = [7; 5] ∧
  length (log_of (λ e, match e with E_cb 3 _ => Some tt | _ => None end) ended) = 3%nat ∧
  is_ok (program 3 tee start) = true.
Proof. by vm_compute. Qed.

#[local] Instance sample_libuv_ok : LibuvOk sample_client sample_libuv.
Proof.
  refine {| lv_left _ _ := 0%nat |}; cbn.
  - apply (env_init (E := simple_env)).
  - apply (env_loop_kept (E := simple_env)).
  - intros F X w l h es _ _ Hh. by apply not_elem_of_nil in Hh.
  - lia.
  - intros n l F X w z w' _ _ H%machine_run_status. by subst.
Defined.

Lemma ended_quiet : quiet ended.
Proof.
  split; [by vm_compute|by vm_compute|]. intros h (i & Hi & _).
  by replace (w_handles ended) with (∅ : gmap loc hinst) in Hi by by vm_compute.
Qed.


Lemma client_call_ok_witness :
  wp (invoke (E := machine 2) 7 [A_ptr (PR (Some a_request))]) (λ _ w', Inv [] [] w')
    (taken_request plain).
Proof. apply (client_call_ok 2 7 [A_ptr (PR (Some a_request))]). inv_sample. Defined.
