(* ===== verification/Faults.v ===== *)
(** * Runs that go wrong, and one that does not

    Concrete runs of the operations in which the code, as it is written, breaks the reference
    counting: they are why System leaves out three events. Each is evaluated in the states of
    Client and Samples. *)

From Stdlib Require Import ZArith.
From stdpp Require Import base gmap list strings option.
From S2P Require Import Prelude World Objects Ledger Wp Refs Release Rules.
From S2P Require Import Buffer HandleMisc Handle Io ReqFs Client Vars Samples.

Local Open Scope Z_scope.

(** The callback of a timer without a repeat interval gives back the reference the timer has
    on itself and does not clear [has_extra_ref]: [stop()] gives it back again, which destroys
    the timer while the client still has it. *)
Example timer_stopped_after_its_event :
  (_ ← timer.start a_handle 10; timer.timer_cb a_handle;; _ ← timer.stop a_handle;
   destruct_var PH 2) timer_sample = Undefined (UB_dead (TH a_handle)).
Proof. by vm_compute. Qed.

(** A second [start()] after the event takes no reference: the timer is started and dies with
    the variable of the client. *)
Example timer_restarted_after_its_event :
  match (_ ← timer.start a_handle 10; timer.timer_cb a_handle;; _ ← timer.start a_handle 10;
         destruct_var PH 2) timer_sample with
  | Ok _ w => w_handles w !! a_handle = None
  | _ => False
  end.
Proof. by vm_compute. Qed.

(** Two calls of [async::send] take two references; libuv makes one callback for both, and the
    handle is never destroyed. *)
Definition async_sample : world := sample If_handle (P_async None) R_none None sample_uv_req.

Example async_sends_coalesced :
  match (_ ← async.send a_handle; _ ← async.send a_handle;
         modify (upd_armed (λ _, []));; async.async_cb a_handle;;
         destruct_var PH 2) async_sample with
  | Ok _ w => h_refs <$> w_handles w !! a_handle = Some 1 ∧ owned w (TH a_handle) = 0%nat
  | _ => False
  end.
Proof. by vm_compute. Qed.

(** A client whose read callback stops reading and drops its last variable, as it may. *)
Definition quitting_env : Env := {|
  uv_exec _ f args := accept_all f args;
  uv_walk_handles _ _ := [];
  uv_run _ _ := mret 0;
  user_cb _ args :=
    _ ← io.read_stop (E := simple_env) a_handle; destruct_var (E := simple_env) PH 2;; mret args;
  user_alloc _ ho _ := mret (ho, None);
  run_fuel := 1
|}.

(** [io_read_cb] goes on to write to the properties of the handle. *)
Example io_read_cb_after_the_end :
  io_read_cb (E := quitting_env) a_handle 5 (464, 64) 0 (sample_stream RD_START) =
  Undefined (UB_dead (TH a_handle)).
Proof. by vm_compute. Qed.

(** A file whose pending read is not awaited: [read_stop()] gives back the reference of the file
    on itself while libuv still has the request that is embedded in the file; when the client
    drops the file too, the callback of the request finds it deleted. *)
Definition file_sample : world :=
  sample If_file (P_file (stream_io RD_STOP) file_props_init) R_none None sample_uv_req.

Example file_dropped_while_reading :
  match (io.read_start a_handle 64 0) file_sample with
  | Ok z w => z = 0 ∧ (arm_cb <$> w_armed w) = [cb_file_read] ∧
      match (_ ← io.read_stop a_handle; destruct_var PH 2) w with
      | Ok _ w' => w_armed w' = w_armed w ∧
          file.read_cb a_handle 5 w' = Undefined (UB_dead (TH a_handle))
      | _ => False
      end
  | _ => False
  end.
Proof. by vm_compute. Qed.

(** A file that is started again while a read is pending: the request structure embedded in it
    is submitted a second time, with another buffer. *)
Example file_started_twice :
  match (_ ← io.read_start a_handle 64 0; io.read_start a_handle 64 0) file_sample with
  | Ok z w => z = 0 ∧ map arm_cb (w_armed w) = [cb_file_read; cb_file_read] ∧
      map arm_obj (w_armed w) = [a_handle; a_handle]
  | _ => False
  end.
Proof. by vm_compute. Qed.

(** The request that closes a file leaves the descriptor in the handle, whose destructor closes it
    once more: by then it may belong to somebody else. *)
Definition close_sample : world :=
  sample If_file (P_file (stream_io RD_STOP) file_props_init)
    (R_fs true None None 0 0 None) None sample_uv_req.

Example file_closed_twice :
  match (_ ← close.run a_request a_handle; destruct_var PH 2) close_sample with
  | Ok _ w => omap (λ e, match e with
      | E_uv f_fs_close (_ :: _ :: V_int fd :: _) _ => Some fd | _ => None end) (w_log w) = [0; 0]
  | _ => False
  end.
Proof. by vm_compute. Qed.

(** The last reference to a handle closes it and deletes the instance at once, while libuv has the
    structure in its list of closing handles until a later iteration of the loop. *)
Example handle_deleted_while_closing :
  match destruct_var PH 2 plain with
  | Ok _ w => w_log w = [E_delete (TH a_handle); E_uv f_close [V_handle (Some a_handle); V_nullcb] 0]
  | _ => False
  end.
Proof. by vm_compute. Qed.

(** A libuv that refuses to read files. *)
Definition no_read_env : Env := {|
  uv_exec _ f args := match f with
    | f_fs_read => {| rp_ret := UV_EBADF; rp_out := []; rp_writes := [] |}
    | _ => accept_all f args end;
  uv_walk_handles _ _ := [];
  uv_run _ _ := mret 0;
  user_cb _ args := mret args;
  user_alloc _ ho size := user_alloc (Env := simple_env) 0 ho size;
  run_fuel := 1
|}.

(** The reference that was taken for the read is lost: one buffer more than there are owners. *)
Example file_read_refused :
  match io.read_start (E := no_read_env) a_handle 64 0 file_sample with
  | Ok z w => z = UV_EBADF ∧ size (w_bufs w) = 2%nat ∧
      Forall (λ '(b, i), b_refs i = 1 ∧ (b = a_buffer ∨ owned w (TB b) = 0%nat))
        (map_to_list (w_bufs w))
  | _ => False
  end.
Proof. vm_compute. repeat constructor; by (left + right). Qed.

(** A client that stops reading when it is told of an error or of the end. *)
Definition reader_env : Env := {|
  uv_exec _ f args := accept_all f args;
  uv_walk_handles _ _ := [];
  uv_run _ _ := mret 0;
  user_cb _ args := match args with
    | A_ptr (PH (Some h)) :: A_int nread :: _ =>
        if nread <? 0 then _ ← io.read_stop (E := simple_env) h; mret args else mret args
    | _ => mret args end;
  user_alloc _ ho size := user_alloc (Env := simple_env) 0 ho size;
  run_fuel := 1
|}.

(** What goes right: the file is read chunk by chunk until libuv reports its end; then nothing
    is pending and all buffers but the client's own are gone. *)
Example file_read_until_eof :
  let read := file.read_cb (E := reader_env) in
  match (_ ← io.read_start (E := reader_env) a_handle 64 0;
         modify (upd_armed (λ _, []));; read a_handle 64;;
         modify (upd_armed (λ _, []));; read a_handle 0) file_sample with
  | Ok _ w => w_armed w = [] ∧ h_refs <$> w_handles w !! a_handle = Some 1 ∧
      map_to_list (b_refs <$> w_bufs w) = [(a_buffer, 1)]
  | _ => False
  end.
Proof. by vm_compute. Qed.
